(* ===== verification/_CoqProject ===== *)
-Q . S2P
Prelude.v
CLib.v
Inet.v
Common.v
Os.v
Sys.v
Ledger.v
Loop.v
Start.v
ProbeTable.v
ChainTable.v
Table.v
ExecLinux.v
ExecProofs.v
ExecSpec.v
ExecArgs.v
ExecMac.v
ExecMacProofs.v
ExecMain.v
ExecMainProps.v
DnsWire.v
DnsName.v
DnsMessage.v
DnsCodec.v
NetAttr.v
NetLinux.v
NetEvents.v
NetProofs.v
NetSpec.v
Tables.v
NetProps.v
NetText.v
NetArgs.v
NetMac.v
NetMacProofs.v
NetMain.v
NetRun.v
DnsTrace.v
DnsProps.v
DnsMain.v
DnsMainProps.v
Tls.v
Regex.v
TlsTrace.v
TlsTraceProps.v
TlsProps.v
TlsMain.v
TlsRun.v
Ca.v
CaProps.v
CaMain.v
CaMainProps.v
CaRun.v
CaRunSpec.v
CaRunProps.v
Main.v
Usage.v
