(* ===== verification/Prelude.v ===== *)
(** tracep: a verification development of the C port.

    * The program

    tracep prints what the processes of a machine do: the programs they run,
    the connections they open, the names they resolve, the TLS handshakes they
    make; a fifth command fetches the certificate chain of a host.  The C
    sources are under src/c: one file per command, [common.c] shared by them,
    and [tracep.c], which picks the command.  exec.c, net.c and dns.c hold a
    Linux and a macOS tracer each.  The tracers never share state with one
    another: each is a loop that receives bytes from the kernel or from a
    child, decodes them, updates a table of its own and prints lines.

    * The shape of the model

    Buffers, packets and C strings are lists of bytes; integers are [Z], with
    the wrap-around of their width written out ([u32], [i32]). A function that
    indexes memory or may run for ever has a result in [outcome] (Prelude):
    [Ok], [Ub] for an access outside of an object, a null dereference or a
    signed overflow, and [Fuel] when the fuel of a loop is used up. Where the C
    code hands on a pointer and a length, the model takes the bytes with [sub],
    which is [Ub] unless they lie inside of the buffer. State is passed
    explicitly: a record per tracer holds its tables and the text printed so
    far. Code that is a sequence of system calls (the set-up of a tracer, a
    connection, a write to a tracing file) is a program of the monad [sysM]
    over the history of the calls, run against an arbitrary environment; the
    main loops are a step relation in which signals come at any point. What the
    system answers (/proc, the clock, libproc, the text of lsof, what OpenSSL
    holds of a certificate) is an argument: a record of functions ([os],
    [host], [macos], [calib]) or a parameter of a Section.

    * Files and what they model

    - Prelude: bytes, widths, [outcome], reads of little and big endian
      integers, objects inside of another ([sub]), tactics
      and the hint database [trace].
    - CLib: the string functions, number parsers and printf conversions that
      the program calls; Inet: the text of addresses ([inet_ntop]); Os: the
      answers of the Linux system calls, and [read_file].
    - Sys: the monad of system calls, its rules ([wp]) and the descriptors that
      are open after a history.  Ledger: what a program holds after a history
      (descriptors, memory, objects with a reference count), what those lend (the
      certificates of a connection), the uses of memory and of certificates,
      and the triples that frame it.  Loop: the main loops ([lstep], [lrun]),
      where a signal interrupts a read or, if its handler is installed with
      SA_RESTART, restarts it; and what the handler of SIGCHLD knows of the
      command.  Start: the calls of
      the set-up, the errors that end the process, the start of a command.
    - Common: common.c ([want_color], [clr], [shquote]).
    - ProbeTable: the table with linear probing that exec.c writes twice
      ([piddb_*], [macdb_*]) and net.c once ([net_seen_check_insert]), for any
      entry, key and hash; ChainTable: the chained tables of net.c ([db_*],
      [dns_get_or_create]).  Both are shown to implement a finite map once, and
      the clients use that.  Table: the interface that both meet (a class of
      the operations and one of their laws) with what follows from the laws
      alone; Tables: the process databases and the connection table against it.
    - ExecLinux, ExecProofs, ExecSpec: exec.c on Linux, from [dispatchNlMsg]
      down to the readers of /proc, [pidDepth], [handleExec], [handleExit].
      ExecMac, ExecMacProofs: exec.c on macOS ([pidArgvEnv], [macPidDepth],
      [seedMacDB], [scanMacDB]).  ExecArgs: the command lines of both.
      ExecMain, ExecMainProps: [exec_main] and the loops of both, from the
      arguments to the exit.
    - DnsWire, DnsName, DnsMessage, DnsCodec: [read_name], [parse_dns] and
      [parse_packet] of dns.c, with an encoder.  DnsTrace, DnsProps: the rest
      of dns.c: filters, attribution of ports, cache, queries in flight,
      printing, the records of a BPF device.  DnsMain, DnsMainProps: the
      capture devices ([cap_open], [cap_next]), [dns_main] and the loops.
    - NetAttr: [parse_nla], [parse_tuple], [parse_tcp_state] of net.c.
      NetLinux: tables, local addresses, /proc attribution, [is_descendant],
      the threads of the reverse lookups.  NetEvents: [handle_new],
      [handle_update], [handle_destroy], [handle_msg], [process_nl_msgs].
      NetProofs, NetSpec, NetProps, NetText: their theorems.  NetMac,
      NetMacProofs: the macOS half ([net_scan]).  NetArgs: the command lines.
      NetMain: [net_main] and the loops of both halves, [child_waiter].
      NetRun: whole runs of the Linux half, with an encoder of the messages;
      the order of its set-up, and the end with the command.
    - Tls, TlsProps: tls.c ([set_sni], [get_sni], [remote_host], [find_libssl],
      the commands of the probes, [print_event], [conn_mark], the
      command line).  Regex: POSIX extended regular expressions, with the
      leftmost-longest match computed and specified.  TlsTrace, TlsTraceProps:
      [symbol_offset], [sym_match], [parse_line] and the loop over the trace
      pipe.  TlsMain: the writes to the tracing files, [register_uprobes],
      [cleanup_uprobes] and [tls_main], call by call; TlsRun: what a run leaves
      in the list of probes of the kernel.
    - Ca, CaProps: ca.c (command line, [url_split], [http_get_once],
      [fetch_der_cert], the choice of certificates).  CaMain, CaMainProps: the
      timed connection [dial], and the specification of [ca_main] as a function
      of what the handshake and the fetch give.  CaRun: [ca_main] call by call,
      with the exchange with a server, the texts of a certificate and every
      release; CaRunSpec, CaRunProps: it does what the specification says,
      verifies the peer, and holds nothing at its end.
    - Main: tracep.c, and the stubs of the platforms that a tracer is not
      written for.
    - Usage: the usage texts of all programs, against their command lines.

    A client of a table uses the finite map that ProbeTable or ChainTable
    gives it (the instances of [TableLaws]) and never its slots; a main loop gives its read, its last step and
    its signals to Loop and gets the fold, the invariants and the end back; the
    set-up of every tracer is made of the pieces of Start.

    * What the theorems show

    - Whole runs.  A run of the Linux exec tracer, with its signals and its
      interrupted reads, is the fold of a specification over the events that
      it receives ([exec_run_refines]), never gets stuck on any bytes
      ([exec_run_safe]) and ends with its command: at the next test of the flag, which after a signal in
      the middle of a read comes only once one more datagram has been handled
      ([exec_run_ends]); a run of the dns tracer is the fold of the message
      handler over the messages on the wire ([dns_run_refines]) and keeps the
      types of its arrays ([dns_run_typed]); a run of the macOS net tracer
      prints each connection at most once, and exactly once while its set of 16384
      holds them ([mac_net_run_prints_once]); the lines of
      the trace pipe give the hits of the probes ([trace_loop_reads]); a run of
      the Linux net tracer is the fold of its specification over the events of
      conntrack ([net_run_refines]); a run of ca does what its specification
      says ([ca_run_refines]) and saves the certificates it should
      ([ca_main_saves]).
    - System calls.  The command starts only after the subscription and the
      handler ([exec_main_subscribes_first]); a run of ca releases all that it
      has acquired, once, on every path, and uses nothing after its release ([ca_run_releases], [dial_no_leak]), and
      shows nothing before a verified handshake ([ca_run_verifies]); the capture
      device leaks no descriptor ([mac_cap_open_no_leak]); a command to the
      kernel is one write to the file it is for ([run_op_one_write]), and the probes that a run of tls
      leaves are known ([tls_main_leaves]).
    - The usage texts show the flags that the scans accept, and those that take
      a value ([usage_documents_flags], [ca_usage_documents]).
    - Refinement of the parts.  [dispatchNlMsg_refines_fold] on one buffer,
      [tables_implement_maps] for the tables of all tracers; a tick of the
      macOS one leaves exactly the live processes in the table and prints each
      arrival and each departure once ([scanMacDB_tracks]).  The handlers of
      the connection tracer implement steps on a finite map of connections and
      the addresses of the machine, read once ([net_run_refines]); a scan of the macOS one prints what is new
      ([net_scan_prints_new]).  A DNS response is printed with its own query
      ([query_response_matched]).
    - Safety on arbitrary input: [parse_packet_safe], [dispatchNlMsg_safe],
      [attributes_safe], [process_nl_msgs_safe] show that no byte sequence
      makes the parsers read outside of it (under the conditions that the
      code needs, which they state).
    - Round trips with an encoder of the format: DNS frames, netlink tuples,
      /proc/PID/stat and cmdline, /proc/net files, kern.procargs2, lsof
      addresses, HTTP responses, URLs, JSON strings, quoted shell words,
      command lines.
    - Invariants and termination: -O records no inbound connection
      ([outbound_only_invariant]), the ancestry walks end and compute the depth
      ([pidDepth_correct], [is_descendant_correct]), a name is read in a
      bounded number of turns or its pointers form a cycle
      ([read_name_terminates_or_loops]), the bitmap of the macOS sweep is an optimisation only
      ([goners_without_bitmap]).
    - Faults, as theorems about the code as it is: a cycle of pointers hangs
      the DNS parser ([parse_packet_hangs]), a port of /proc/net/udp never
      matches ([pid_for_udp_port_never]), a netlink length of 2^31 passes the
      test of the loop ([process_nl_msgs_length_bug]), a long host overruns an
      array and an IPv6 literal is cut at its first colon ([url_split_parses]), the
      update of a connection that -O has hidden is printed with -U
      ([outbound_only_invariant]), the addresses that tls prints are reversed
      ([parse_hex_addr_reads]), a command that ends too early is missed
      ([exec_missed_child]) and one that ends in the middle of a read keeps the
      tracer until the next datagram ([exec_run_ends]), an interval with bit 31 set does not sleep
      ([poll_interval]), the events of a command with a blank in its name are
      lost ([parse_line_spaced]), the probes stay after the end of the trace
      pipe ([tls_main_leaves]), three quarters of the processes are not looked
      at on macOS ([procListAllPIDs_quarter]).

    * Fuel and bounds

    The capacities are those of the sources (16384 processes, 1024 and 256
    buckets, 16 answers, 1024 departures a tick).  The loops over a buffer take
    a turn per header that fits in it ([dispatchNlMsg], [process_nl_msgs]) and
    that is proved enough; the loops over a table take its capacity; the
    ancestry walks take fuel as an argument, and any fuel above the depth of
    the process tree is proved enough: the code has no bound of its own there.
    [parse_packet_fuel_enough] gives the fuel of a packet without a cycle.

    * What is not modelled

    What OpenSSL does inside its calls (the verification of a chain, the bytes
    of a connection, the fields of a certificate): its answers are those of an
    arbitrary environment, or parameters.  The fork and the
    pipes of the helper programs (nm, objdump, lsof), whose output is an
    argument.  Floating point seconds are binary64 ([spec_float]).  Printing
    always succeeds.  In the main loops a read returns in one step, and what
    the system answers while a datagram or a tick is handled does not change
    before the next one.  A signal is a step of the main loops only: one that
    ends the process before they start (in the set-up, while the probes of tls
    are registered), and those that no handler catches (SIGPIPE, SIGHUP), are
    not modelled. *)
From stdpp Require Export base option list numbers gmap strings.
From Stdlib Require Export Ascii ZArith Lia.

Open Scope string_scope.
Open Scope list_scope.
Open Scope Z_scope.

(** * Bytes

    Every buffer of the program, a packet as well as a C string, is a list of
    bytes.  [u8 c] is the value of a byte as an [unsigned char]. *)

Abbreviation byte := ascii.
Abbreviation bytes := (list ascii).

Definition bs (s : string) : bytes := String.list_ascii_of_string s.
Coercion bs : string >-> list.

Definition u8 (c : byte) : Z := Z.of_N (N_of_ascii c).
Definition chr (z : Z) : byte := ascii_of_N (Z.to_N (z mod 256)).
Definition blen {A} (l : list A) : Z := Z.of_nat (length l).

(** Truncation of an integer to [w] bits, and its reading as a signed one. *)
Definition wrap (w z : Z) : Z := z mod 2 ^ w.
Definition swrap (w z : Z) : Z :=
  let u := wrap w z in if u <? 2 ^ (w - 1) then u else u - 2 ^ w.
Abbreviation u16 := (wrap 16).
Abbreviation u32 := (wrap 32).
Abbreviation u64 := (wrap 64).
Abbreviation i32 := (swrap 32).

(** * Outcomes

    The result of a piece of C code: a value, undefined behaviour (a read or a
    write outside of its object, a null dereference, a signed overflow), or
    running out of the fuel that stands for the number of loop turns. *)
Inductive outcome (A : Type) : Type :=
  | Ok (a : A)
  | Ub
  | Fuel.
Arguments Ok {A} a.
Arguments Ub {A}.
Arguments Fuel {A}.

#[export] Instance outcome_ret : MRet outcome := @Ok.
#[export] Instance outcome_bind : MBind outcome := fun A B f m =>
  match m with Ok a => f a | Ub => Ub | Fuel => Fuel end.
#[export] Instance outcome_fmap : FMap outcome := fun A B f m =>
  match m with Ok a => Ok (f a) | Ub => Ub | Fuel => Fuel end.

(** Reading byte [i] of an object [d]. *)
Definition rd (d : bytes) (i : Z) : outcome Z :=
  if decide (0 <= i < blen d)
  then match d !! Z.to_nat i with Some c => Ok (u8 c) | None => Ub end
  else Ub.

(** [len] bytes from offset [off]: the object a pointer and a length denote. *)
Definition slice (d : bytes) (off len : Z) : bytes :=
  take (Z.to_nat len) (drop (Z.to_nat off) d).

(** Taking such an object from inside of another; going past its end is an
    error, whatever is read of it later. *)
Definition sub (d : bytes) (off len : Z) : outcome bytes :=
  if (0 <=? off) && (0 <=? len) && (off + len <=? blen d) then Ok (slice d off len) else Ub.

(** * Automation *)

Create HintDb trace discriminated.
#[export] Hint Constants Opaque : trace.

(** Case analysis on every [if] and [match] in sight, innermost first. *)
Ltac case_ifs :=
  repeat match goal with
    | |- context [if ?b then _ else _] =>
        lazymatch b with context [if _ then _ else _] => fail | _ => destruct b eqn:? end
    end.
(** Split boolean tests in the hypotheses into arithmetic facts. *)
Ltac zbool :=
  repeat match goal with
    | H : (_ && _)%bool = true |- _ => apply andb_true_iff in H; destruct H
    | H : (_ || _)%bool = false |- _ => apply orb_false_iff in H; destruct H
    | H : negb _ = true |- _ => apply negb_true_iff in H
    | H : negb _ = false |- _ => apply negb_false_iff in H
    | H : (_ <? _) = true |- _ => apply Z.ltb_lt in H
    | H : (_ <? _) = false |- _ => apply Z.ltb_ge in H
    | H : (_ <=? _) = true |- _ => apply Z.leb_le in H
    | H : (_ <=? _) = false |- _ => apply Z.leb_gt in H
    | H : (_ =? _) = true |- _ => apply Z.eqb_eq in H
    | H : (_ =? _) = false |- _ => apply Z.eqb_neq in H
    end.

(** * Lemmas on bytes *)

Lemma u8_range c : 0 <= u8 c < 256.
Proof. unfold u8. pose proof (N_ascii_bounded c). lia. Qed.

Lemma chr_u8 c : chr (u8 c) = c.
Proof.
  unfold chr. rewrite Z.mod_small by apply u8_range.
  unfold u8. rewrite N2Z.id. apply ascii_N_embedding.
Qed.

Lemma u8_chr z : u8 (chr z) = z mod 256.
Proof.
  unfold u8, chr. pose proof (Z.mod_pos_bound z 256 ltac:(lia)).
  rewrite N_ascii_embedding by lia. lia.
Qed.

Lemma u8_inj a b : u8 a = u8 b -> a = b.
Proof. intros H. rewrite <- (chr_u8 a), <- (chr_u8 b). by rewrite H. Qed.

Lemma chr_inj_small a b : 0 <= a < 256 -> 0 <= b < 256 -> chr a = chr b -> a = b.
Proof.
  intros Ha Hb H. apply (f_equal u8) in H.
  by rewrite !u8_chr, !Z.mod_small in H.
Qed.

Lemma wrap_range w z : 0 <= w -> 0 <= wrap w z < 2 ^ w.
Proof. intros. apply Z.mod_pos_bound. lia. Qed.

Lemma wrap_small w z : 0 <= z < 2 ^ w -> wrap w z = z.
Proof. intros. by apply Z.mod_small. Qed.

Lemma swrap_small w z : 0 < w -> - 2 ^ (w - 1) <= z < 2 ^ (w - 1) -> swrap w z = z.
Proof.
  intros Hw Hz. unfold swrap, wrap.
  replace (2 ^ w) with (2 * 2 ^ (w - 1))
    by (rewrite <- Z.pow_succ_r by lia; f_equal; lia).
  destruct (Z_lt_dec z 0).
  - rewrite <- (Z.mod_add _ 1) by lia. rewrite Z.mod_small by lia.
    case_ifs; zbool; lia.
  - rewrite Z.mod_small by lia. case_ifs; zbool; lia.
Qed.

Lemma swrap_range w z : 0 < w -> - 2 ^ (w - 1) <= swrap w z < 2 ^ (w - 1).
Proof.
  intros Hw. unfold swrap. pose proof (wrap_range w z ltac:(lia)).
  assert (2 ^ w = 2 * 2 ^ (w - 1))
    by (rewrite <- Z.pow_succ_r by lia; f_equal; lia).
  case_ifs; zbool; lia.
Qed.

(** [x & (2^k - 1)], the mask the power-of-two tables index with. *)
Lemma land_mask x k : 0 <= k -> Z.land x (2 ^ k - 1) = x mod 2 ^ k.
Proof.
  intros. rewrite <- Z.land_ones by lia. by rewrite Z.ones_equiv, <- Z.sub_1_r.
Qed.

(** Rounding up to a multiple of four, as the netlink and BPF macros do. *)
Lemma align4 n : Z.land (n + 3) (Z.lnot 3) = (n + 3) / 4 * 4.
Proof.
  change 3 with (Z.ones 2) at 2. rewrite <- Z.ldiff_land, Z.ldiff_ones_r by lia.
  by rewrite Z.shiftl_mul_pow2, Z.shiftr_div_pow2 by lia.
Qed.

(** * Lemmas on outcomes *)

Lemma ok_bind {A B} (a : A) (f : A -> outcome B) : Ok a ≫= f = f a.
Proof. reflexivity. Qed.

Lemma bind_Ok {A B} (m : outcome A) (f : A -> outcome B) b :
  (m ≫= f) = Ok b <-> exists a, m = Ok a /\ f a = Ok b.
Proof. destruct m; simpl; split; naive_solver. Qed.

Lemma rd_ok d i : 0 <= i < blen d -> exists c, d !! Z.to_nat i = Some c /\ rd d i = Ok (u8 c).
Proof.
  intros H. destruct (lookup_lt_is_Some_2 d (Z.to_nat i)) as [c Hc]; [unfold blen in *; lia|].
  exists c. unfold rd. rewrite Hc. by case_decide.
Qed.

Lemma rd_safe d i : 0 <= i < blen d -> exists v, rd d i = Ok v /\ 0 <= v < 256.
Proof. intros H. destruct (rd_ok d i H) as (c&_&->). eauto using u8_range. Qed.

Lemma rd_Ub d i : ~ (0 <= i < blen d) -> rd d i = Ub.
Proof. intros H. unfold rd. by case_decide. Qed.

Lemma rd_app_l d1 d2 i : 0 <= i < blen d1 -> rd (d1 ++ d2) i = rd d1 i.
Proof.
  intros H. unfold rd, blen in *. rewrite length_app.
  repeat case_decide; try lia. by rewrite lookup_app_l by lia.
Qed.

Lemma rd_app_r d1 d2 i : 0 <= i -> rd (d1 ++ d2) (blen d1 + i) = rd d2 i.
Proof.
  intros H. unfold rd, blen in *. rewrite length_app.
  repeat case_decide; try lia; [|done]. rewrite lookup_app_r by lia.
  by replace (Z.to_nat (Z.of_nat (length d1) + i) - length d1)%nat with (Z.to_nat i) by lia.
Qed.

(** Reading at a literal index. *)
Lemma rd_nat d n : rd d (Z.of_nat n) = match d !! n with Some c => Ok (u8 c) | None => Ub end.
Proof.
  unfold rd, blen. rewrite Nat2Z.id. case_decide; [done|].
  rewrite lookup_ge_None_2; [done|lia].
Qed.

(** Evaluate [rd l k] for a literal [k] and an explicit list head. *)
Ltac rd_lit :=
  repeat match goal with
    | |- context [rd ?l (Zpos ?p)] =>
        let n := eval compute in (Z.to_nat (Zpos p)) in
        change (rd l (Zpos p)) with (rd l (Z.of_nat n)); rewrite (rd_nat l n); cbn [lookup list_lookup]
    | |- context [rd ?l 0] =>
        change (rd l 0) with (rd l (Z.of_nat 0)); rewrite (rd_nat l 0); cbn [lookup list_lookup]
    end.

Lemma rd_cons_0 c d : rd (c :: d) 0 = Ok (u8 c).
Proof.
  destruct (rd_ok (c :: d) 0) as (c' & Hc & ->); [unfold blen; simpl; lia|].
  simpl in Hc. congruence.
Qed.

Lemma blen_app {A} (a b : list A) : blen (a ++ b) = blen a + blen b.
Proof. unfold blen. rewrite length_app. lia. Qed.

Lemma blen_cons {A} (a : A) b : blen (a :: b) = 1 + blen b.
Proof. unfold blen. simpl. lia. Qed.

Lemma blen_nil {A} : blen (@nil A) = 0.
Proof. done. Qed.

Lemma blen_nonneg {A} (a : list A) : 0 <= blen a.
Proof. unfold blen. lia. Qed.

Lemma blen_drop {A} (d : list A) n : 0 <= n <= blen d -> blen (drop (Z.to_nat n) d) = blen d - n.
Proof. unfold blen. rewrite length_drop. lia. Qed.

Lemma blen_slice d off len :
  0 <= off -> 0 <= len -> off + len <= blen d -> blen (slice d off len) = len.
Proof. unfold blen, slice. rewrite length_take, length_drop. lia. Qed.

Lemma sub_ok d off len : 0 <= off -> 0 <= len -> off + len <= blen d -> sub d off len = Ok (slice d off len).
Proof.
  intros. unfold sub. by rewrite (proj2 (Z.leb_le 0 off)), (proj2 (Z.leb_le 0 len)), (proj2 (Z.leb_le _ (blen d))) by lia.
Qed.

Lemma sub_Ok d off len b : sub d off len = Ok b ->
  0 <= off /\ 0 <= len /\ off + len <= blen d /\ b = slice d off len /\ blen b = len.
Proof.
  unfold sub. destruct (_ && _) eqn:E; [|done]. zbool. intros [= <-]. split_and!; [done..|]. by apply blen_slice.
Qed.

Lemma blen_replicate {A} n (x : A) : blen (replicate n x) = Z.of_nat n.
Proof. unfold blen. by rewrite length_replicate. Qed.

#[export] Hint Resolve u8_range blen_nonneg : trace.
