(* ===== verification/CLib.v ===== *)
(** The part of the C library the program calls, on byte lists: the string
    functions, the number parsers ([strtol], [strtoul]) and the [printf]
    conversions, with the lemmas that relate printing and parsing. *)
From S2P Require Import Prelude.
From Stdlib Require Export SpecFloat.

Definition NUL : byte := "000"%char.

(** ** Characters *)

Definition is_digit (c : byte) : bool := (48 <=? u8 c) && (u8 c <=? 57).
Definition is_alpha (c : byte) : bool :=
  ((65 <=? u8 c) && (u8 c <=? 90)) || ((97 <=? u8 c) && (u8 c <=? 122)).
(** [isspace] in the C locale: space, \t \n \v \f \r. *)
Definition is_space (c : byte) : bool := (u8 c =? 32) || ((9 <=? u8 c) && (u8 c <=? 13)).
Definition toupper (c : byte) : byte :=
  if (97 <=? u8 c) && (u8 c <=? 122) then chr (u8 c - 32) else c.
Definition tolower (c : byte) : byte :=
  if (65 <=? u8 c) && (u8 c <=? 90) then chr (u8 c + 32) else c.
Definition eqc (a b : byte) : bool := bool_decide (a = b).
Definition eqs (a b : bytes) : bool := bool_decide (a = b).

(** ** Strings *)

(** The C string stored at the start of a buffer: up to the first NUL. *)
Fixpoint cstr (s : bytes) : bytes :=
  match s with [] => [] | c :: s' => if eqc c NUL then [] else c :: cstr s' end.

(** What [snprintf(buf, cap, "%s", s)] leaves in [buf]. *)
Definition trunc (cap : nat) (s : bytes) : bytes := take (pred cap) s.

(** [strchr]/[memchr]: the index of the first occurrence. *)
Fixpoint strchr (s : bytes) (c : byte) : option nat :=
  match s with
  | [] => None
  | x :: s' => if eqc x c then Some 0%nat else S <$> strchr s' c
  end.

(** [strrchr]: the index of the last occurrence. *)
Fixpoint strrchr (s : bytes) (c : byte) : option nat :=
  match s with
  | [] => None
  | x :: s' => match strrchr s' c with
               | Some i => Some (S i)
               | None => if eqc x c then Some 0%nat else None
               end
  end.

Fixpoint has_prefix (p s : bytes) : bool :=
  match p, s with
  | [], _ => true
  | _, [] => false
  | a :: p', b :: s' => eqc a b && has_prefix p' s'
  end.

(** [strstr]: the index of the first occurrence of a substring. *)
Fixpoint strstr (s p : bytes) : option nat :=
  if has_prefix p s then Some 0%nat
  else match s with [] => None | _ :: s' => S <$> strstr s' p end.

(** Skipping the leading, or the trailing, characters that satisfy [f]. *)
Fixpoint ltrim (f : byte -> bool) (s : bytes) : bytes :=
  match s with [] => [] | c :: s' => if f c then ltrim f s' else s end.
Definition rtrim (f : byte -> bool) (s : bytes) : bytes := reverse (ltrim f (reverse s)).

(** All the tokens [strtok_r(s, delims, ..)] returns in turn. *)
Fixpoint strtok_go (f : byte -> bool) (s cur : bytes) : list bytes :=
  match s with
  | [] => match cur with [] => [] | _ => [reverse cur] end
  | c :: s' =>
      if f c then match cur with [] => strtok_go f s' [] | _ => reverse cur :: strtok_go f s' [] end
      else strtok_go f s' (c :: cur)
  end.
Definition strtok (f : byte -> bool) (s : bytes) : list bytes := strtok_go f s [].

(** The end of a line. *)
Definition is_eol (c : byte) : bool := eqc c "010" || eqc c "013".

(** Lists written with commas. *)
Definition is_comma (c : byte) : bool := eqc c ",".
Fixpoint joined_by (sep : bytes) (l : list bytes) : bytes :=
  match l with [] => [] | [a] => a | a :: l' => a ++ sep ++ joined_by sep l' end.

(** ** Numbers *)

(** The value of a digit in bases up to 16, or 99. *)
Definition digit_val (c : byte) : Z :=
  if is_digit c then u8 c - 48
  else if (97 <=? u8 c) && (u8 c <=? 122) then u8 c - 87
  else if (65 <=? u8 c) && (u8 c <=? 90) then u8 c - 55
  else 99.

(** Consume digits of base [b]: value, number of digits read, rest. *)
Fixpoint read_digits (b : Z) (s : bytes) (acc : Z) (n : nat) : Z * nat * bytes :=
  match s with
  | c :: s' => if digit_val c <? b then read_digits b s' (acc * b + digit_val c) (S n)
               else (acc, n, s)
  | [] => (acc, n, [])
  end.

Definition LONG_MAX : Z := 2 ^ 63 - 1.
Definition LONG_MIN : Z := - 2 ^ 63.

(** The result of [strtol]/[strtoul]: the value, the rest of the string (the
    whole of it when nothing was converted), whether anything was converted,
    and whether [errno] is set to [ERANGE]. *)
Record strto := Strto { st_val : Z; st_rest : bytes; st_conv : bool; st_erange : bool }.

Definition read_sign (s : bytes) : bool * bytes :=
  match s with
  | c :: s' => if eqc c "-" then (true, s') else if eqc c "+" then (false, s') else (false, s)
  | [] => (false, [])
  end.

(** [strtol(s, &e, 10)]. *)
Definition strtol (s : bytes) : strto :=
  let '(neg, s1) := read_sign (ltrim is_space s) in
  let '(v, n, rest) := read_digits 10 s1 0 0 in
  match n with
  | O => Strto 0 s false false
  | _ => let v := if neg then - v else v in
         if v >? LONG_MAX then Strto LONG_MAX rest true true
         else if v <? LONG_MIN then Strto LONG_MIN rest true true
         else Strto v rest true false
  end.

(** The optional [0x] prefix of base 16, taken only before a hex digit. *)
Definition skip_0x (s : bytes) : bytes :=
  match s with
  | a :: x :: d :: r =>
      if eqc a "0" && (eqc x "x" || eqc x "X") && (digit_val d <? 16) then d :: r else s
  | _ => s
  end.

(** [strtoul(s, &e, b)] with [b] 10 or 16, [unsigned long] of 64 bits. *)
Definition strtoul (b : Z) (s : bytes) : strto :=
  let '(neg, s1) := read_sign (ltrim is_space s) in
  let s2 := if b =? 16 then skip_0x s1 else s1 in
  let '(v, n, rest) := read_digits b s2 0 0 in
  match n with
  | O => Strto 0 s false false
  | _ => if v >? 2 ^ 64 - 1 then Strto (2 ^ 64 - 1) rest true true
         else Strto (if neg then u64 (- v) else v) rest true false
  end.

(** [atoi(s)]: [(int)strtol(s, NULL, 10)]. *)
Definition atoi (s : bytes) : Z := i32 (st_val (strtol s)).

(** The conversion [%ld] of [sscanf]: the value and the rest. *)
Definition scan_int (s : bytes) : option (Z * bytes) :=
  let r := strtol s in if st_conv r then Some (st_val r, st_rest r) else None.

(** ** printf *)

Definition digit_chr (d : Z) : byte := chr (if d <? 10 then 48 + d else 87 + d).
Fixpoint fmt_go (b : Z) (fuel : nat) (n : Z) (acc : bytes) : bytes :=
  match fuel with
  | O => acc
  | S f => let acc' := digit_chr (n mod b) :: acc in
           if n <? b then acc' else fmt_go b f (n / b) acc'
  end.
(** Digits of [n >= 0] in base [b >= 2]; there are at most [1 + log2 n] of them. *)
Definition fmt_base (b n : Z) : bytes := fmt_go b (S (Z.to_nat (Z.log2 n))) n [].
(** [%d], [%ld], [%u] (on a value of the type), [%x]. *)
Definition fmt_u (n : Z) : bytes := fmt_base 10 n.
Definition fmt_d (n : Z) : bytes := if n <? 0 then "-"%char :: fmt_u (- n) else fmt_u n.
Definition fmt_x (n : Z) : bytes := fmt_base 16 n.
(** Field widths: [%5d], [%-12s], [%04x], [%04X]. *)
Definition pad_left (c : byte) (w : nat) (s : bytes) : bytes := replicate (w - length s) c ++ s.
Definition pad_right (w : nat) (s : bytes) : bytes := s ++ replicate (w - length s) " "%char.
Definition fmt_0x (w : nat) (n : Z) : bytes := pad_left "0" w (fmt_x n).
Definition fmt_0X (w : nat) (n : Z) : bytes := toupper <$> fmt_0x w n.

(** ** Doubles

    IEEE binary64 as the executable [spec_float] of the standard library. *)
Definition f64_of_Z (z : Z) : spec_float := binary_normalize 53 1024 z 0 false.
Definition f64_add := SFadd 53 1024.
Definition f64_sub := SFsub 53 1024.
Definition f64_mul := SFmul 53 1024.
Definition f64_div := SFdiv 53 1024.
Definition f64_lt := SFltb.

(** [n / d] rounded to the nearest integer, ties to even. *)
Definition div_half_even (n d : Z) : Z :=
  let q := n / d in let r := n mod d in
  if 2 * r <? d then q else if d <? 2 * r then q + 1 else if Z.even q then q else q + 1.

(** [%.<p>f]. *)
Definition fmt_f (p : nat) (x : spec_float) : bytes :=
  let sign (s : bool) : bytes := if s then "-" else "" in
  match x with
  | S754_nan => "nan"
  | S754_infinity s => sign s ++ "inf"
  | S754_zero s => sign s ++ "0" ++ match p with O => [] | _ => "." ++ replicate p "0"%char end
  | S754_finite s m e =>
      let t := 10 ^ Z.of_nat p in
      let n := if 0 <=? e then Zpos m * 2 ^ e * t else div_half_even (Zpos m * t) (2 ^ (- e)) in
      sign s ++ fmt_u (n / t) ++
        match p with O => [] | _ => "." ++ pad_left "0" p (fmt_u (n mod t)) end
  end.

(** ** Byte order *)

Definition be16 (d : bytes) (i : Z) : outcome Z :=
  a ← rd d i; b ← rd d (i + 1); Ok (Z.lor (Z.shiftl a 8) b).
Definition le16 (d : bytes) (i : Z) : outcome Z :=
  a ← rd d i; b ← rd d (i + 1); Ok (Z.lor a (Z.shiftl b 8)).
Definition le32 (d : bytes) (i : Z) : outcome Z :=
  a ← rd d i; b ← rd d (i + 1); c ← rd d (i + 2); e ← rd d (i + 3);
  Ok (Z.lor (Z.lor (Z.lor a (Z.shiftl b 8)) (Z.shiftl c 16)) (Z.shiftl e 24)).
Definition le64 (d : bytes) (i : Z) : outcome Z :=
  a ← le32 d i; b ← le32 d (i + 4); Ok (Z.lor a (Z.shiftl b 32)).

Definition put16 (v : Z) : bytes := [chr (Z.land v 255); chr (Z.land (Z.shiftr v 8) 255)].
Definition put32 (v : Z) : bytes :=
  [chr (Z.land v 255); chr (Z.land (Z.shiftr v 8) 255);
   chr (Z.land (Z.shiftr v 16) 255); chr (Z.land (Z.shiftr v 24) 255)].
Definition put64 (v : Z) : bytes := put32 (Z.land v (2 ^ 32 - 1)) ++ put32 (Z.shiftr v 32).
Definition putbe16 (v : Z) : bytes := [chr (Z.shiftr v 8); chr v].

(** * Lemmas *)

Lemma eqc_refl c : eqc c c = true.
Proof. by apply bool_decide_true. Qed.
Lemma eqc_true a b : eqc a b = true <-> a = b.
Proof. apply bool_decide_eq_true. Qed.
Lemma eqc_false a b : eqc a b = false <-> a <> b.
Proof. apply bool_decide_eq_false. Qed.
Lemma eqs_refl s : eqs s s = true.
Proof. by apply bool_decide_true. Qed.
Lemma eqs_true a b : eqs a b = true <-> a = b.
Proof. apply bool_decide_eq_true. Qed.
Lemma eqs_false a b : eqs a b = false <-> a <> b.
Proof. apply bool_decide_eq_false. Qed.

(** ** Strings *)

Lemma strchr_None s c : strchr s c = None <-> c ∉ s.
Proof.
  induction s as [|x s IH]; simpl; [set_solver|].
  destruct (eqc x c) eqn:E.
  - apply eqc_true in E as ->. set_solver.
  - apply eqc_false in E. destruct (strchr s c); set_solver.
Qed.

Lemma strchr_app s c t : c ∉ s -> strchr (s ++ c :: t) c = Some (length s).
Proof.
  induction s as [|x s IH]; simpl; intros H; [by rewrite eqc_refl|].
  rewrite (proj2 (eqc_false x c)) by set_solver. rewrite IH by set_solver. done.
Qed.

Lemma strchr_Some s c i :
  strchr s c = Some i <-> s = take i s ++ c :: drop (S i) s /\ c ∉ take i s /\ (i < length s)%nat.
Proof.
  split.
  - revert i. induction s as [|x s IH]; simpl; intros i H; [done|].
    destruct (eqc x c) eqn:E; simplify_eq/=.
    + apply eqc_true in E as ->. split_and!; [done|set_solver|lia].
    + destruct (strchr s c) as [j|] eqn:Hj; simplify_eq/=.
      destruct (IH j eq_refl) as (Hs&Hn&Hl). apply eqc_false in E.
      split_and!; [by rewrite <- Hs|set_solver|lia].
  - intros (Hs&Hn&Hl). rewrite Hs, strchr_app by done.
    rewrite length_take. f_equal. lia.
Qed.

Lemma strrchr_None s c : strrchr s c = None <-> c ∉ s.
Proof.
  induction s as [|x s IH]; simpl; [set_solver|].
  destruct (strrchr s c) eqn:E; [set_solver|]. destruct (eqc x c) eqn:E2.
  - apply eqc_true in E2 as ->. set_solver.
  - apply eqc_false in E2. set_solver.
Qed.

Lemma strrchr_app s c t : c ∉ t -> strrchr (s ++ c :: t) c = Some (length s).
Proof.
  intros Ht. induction s as [|x s IH]; simpl.
  - rewrite (proj2 (strrchr_None t c) Ht), eqc_refl. done.
  - by rewrite IH.
Qed.

Lemma has_prefix_app p s : has_prefix p (p ++ s) = true.
Proof. induction p; simpl; [done|]. by rewrite eqc_refl. Qed.

Lemma has_prefix_true p s : has_prefix p s = true <-> s = p ++ drop (length p) s.
Proof.
  split; [|intros ->; apply has_prefix_app].
  revert s. induction p as [|a p IH]; intros [|b s]; simpl; intros H; try done.
  apply andb_true_iff in H as [->%eqc_true H]. f_equal. auto.
Qed.

Lemma has_prefix_length p s : has_prefix p s = true -> (length p <= length s)%nat.
Proof.
  intros H. apply has_prefix_true in H. rewrite H, length_app. lia.
Qed.

(** The first occurrence found by [strstr]. *)
Lemma strstr_Some s p i :
  strstr s p = Some i -> s = take i s ++ p ++ drop (i + length p) s /\ (i <= length s)%nat.
Proof.
  revert i. induction s as [|c s IH]; intros i; simpl strstr.
  - destruct p; simpl; [|done]. intros [= <-]. done.
  - destruct (has_prefix p (c :: s)) eqn:E.
    + intros [= <-]. split; [|lia]. apply has_prefix_true in E. done.
    + destruct (strstr s p) as [j|] eqn:Ej; [|done]. intros [= <-].
      destruct (IH j eq_refl) as [Hs Hl]. simpl. split; [f_equal; done|lia].
Qed.

Lemma strstr_none p s : match p with c :: _ => c ∉ s | [] => False end -> strstr s p = None.
Proof.
  destruct p as [|c p]; [done|]. induction s as [|x s IH]; intros Hn; [done|]. cbn [strstr].
  assert (Hp : has_prefix (c :: p) (x :: s) = false).
  { apply not_true_iff_false. rewrite has_prefix_true. cbn [length drop app]. intros [= -> _]. set_solver. }
  rewrite Hp, IH by set_solver. done.
Qed.

Lemma strstr_first p s t : match p with c :: _ => c ∉ s | [] => False end -> strstr (s ++ p ++ t) p = Some (length s).
Proof.
  destruct p as [|c p]; [done|]. induction s as [|x s IH]; intros Hn.
  - assert (Hp : has_prefix (c :: p) ((c :: p) ++ t) = true) by apply has_prefix_app.
    change ([] ++ (c :: p) ++ t) with (c :: p ++ t). cbn [strstr]. change (c :: p ++ t) with ((c :: p) ++ t). by rewrite Hp.
  - cbn [app strstr].
    assert (Hp : has_prefix (c :: p) (x :: s ++ c :: p ++ t) = false).
    { apply not_true_iff_false. rewrite has_prefix_true. cbn [length drop app]. intros [= -> _]. set_solver. }
    rewrite Hp. change (c :: p ++ t) with ((c :: p) ++ t). by rewrite IH by set_solver.
Qed.

Lemma drop_snoc_eq {A} (l : list A) c t : drop (S (length l)) (l ++ c :: t) = t.
Proof.
  change (c :: t) with ([c] ++ t). rewrite app_assoc. apply drop_app_length'.
  rewrite length_app. simpl. lia.
Qed.

Lemma ltrim_all f s t : Forall (fun c => f c = true) s -> ltrim f (s ++ t) = ltrim f t.
Proof. induction 1 as [|c s Hc ? IH]; simpl; [done|]. by rewrite Hc. Qed.

Lemma ltrim_none f c s : f c = false -> ltrim f (c :: s) = c :: s.
Proof. simpl. by intros ->. Qed.

Lemma cstr_id s : NUL ∉ s -> cstr s = s.
Proof.
  induction s as [|c s IH]; simpl; intros H; [done|].
  rewrite (proj2 (eqc_false c NUL)) by set_solver. f_equal. apply IH. set_solver.
Qed.

Lemma cstr_no_nul s : NUL ∉ cstr s.
Proof.
  induction s as [|c s IH]; simpl; [set_solver|].
  destruct (eqc c NUL) eqn:E; [set_solver|]. apply eqc_false in E. set_solver.
Qed.

Lemma cstr_length s : (length (cstr s) <= length s)%nat.
Proof. induction s as [|c s IH]; simpl; [lia|]. case_ifs; simpl; lia. Qed.

Lemma trunc_length cap s : (0 < cap)%nat -> (length (trunc cap s) < cap)%nat.
Proof. unfold trunc. rewrite length_take. lia. Qed.

Lemma trunc_fits cap s : (length s < cap)%nat -> trunc cap s = s.
Proof. unfold trunc. intros. apply take_ge. lia. Qed.

(** ** Numbers *)

Lemma digit_val_range c : 0 <= digit_val c.
Proof.
  unfold digit_val, is_digit. pose proof (u8_range c).
  case_ifs; zbool; lia.
Qed.

Lemma digit_val_chr d : 0 <= d < 16 -> digit_val (digit_chr d) = d.
Proof.
  intros H. unfold digit_val, is_digit, digit_chr.
  destruct (d <? 10) eqn:E; zbool.
  - rewrite u8_chr, Z.mod_small by lia.
    rewrite (proj2 (Z.leb_le _ _)), (proj2 (Z.leb_le _ _)) by lia. simpl. lia.
  - rewrite u8_chr, Z.mod_small by lia.
    rewrite (proj2 (Z.leb_gt (87 + d) 57)) by lia. rewrite andb_false_r.
    rewrite (proj2 (Z.leb_le _ _)), (proj2 (Z.leb_le _ _)) by lia. simpl. lia.
Qed.

Lemma fmt_go_spec b f n acc :
  2 <= b <= 16 -> 0 <= n < b ^ Z.of_nat f -> (0 < f)%nat ->
  exists m, forall a k, read_digits b (fmt_go b f n acc) a k
                      = read_digits b acc (a * b ^ Z.of_nat (S m) + n) (k + S m)%nat.
Proof.
  intros Hb. revert n acc. induction f as [|f IH]; intros n acc Hn Hf; [lia|].
  assert (Hd : 0 <= n mod b < b) by (apply Z.mod_pos_bound; lia).
  simpl fmt_go. destruct (n <? b) eqn:E; zbool.
  - exists 0%nat. intros a k. simpl read_digits.
    rewrite digit_val_chr by lia. rewrite (proj2 (Z.ltb_lt _ _)) by lia.
    rewrite (Z.mod_small n b) by lia. f_equal; lia.
  - assert (Hf' : (0 < f)%nat).
    { destruct f; [|lia]. change (Z.of_nat 1) with 1 in Hn. lia. }
    destruct (IH (n / b) (digit_chr (n mod b) :: acc)) as [m Hm]; [|done|].
    { split; [apply Z.div_pos; lia|]. apply Z.div_lt_upper_bound; [lia|].
      rewrite <- Z.pow_succ_r, <- Nat2Z.inj_succ by lia. lia. }
    exists (S m). intros a k. rewrite Hm. simpl read_digits.
    rewrite digit_val_chr by lia. rewrite (proj2 (Z.ltb_lt _ _)) by lia.
    pose proof (Z.div_mod n b ltac:(lia)) as Hdm.
    rewrite (Nat2Z.inj_succ (S m)), Z.pow_succ_r by lia. f_equal; [|lia].
    rewrite Hdm at 3. ring.
Qed.

Lemma fmt_base_bound b n : 2 <= b -> 0 <= n -> n < b ^ Z.of_nat (S (Z.to_nat (Z.log2 n))).
Proof.
  intros Hb Hn. rewrite Nat2Z.inj_succ, Z2Nat.id by apply Z.log2_nonneg.
  destruct (decide (n = 0)) as [->|]; [simpl; lia|].
  pose proof (Z.log2_spec n ltac:(lia)) as [_ H].
  eapply Z.lt_le_trans; [apply H|]. apply Z.pow_le_mono_l. lia.
Qed.

Lemma read_digits_stop b s a k :
  (forall c s', s = c :: s' -> b <= digit_val c) -> read_digits b s a k = (a, k, s).
Proof.
  destruct s as [|c s]; intros H; simpl; [done|].
  rewrite (proj2 (Z.ltb_ge _ _)); [done|]. by eapply H.
Qed.

(** Reading back a printed number, whatever non-digit follows it. *)
Lemma read_digits_fmt b n s :
  2 <= b <= 16 -> 0 <= n -> (forall c s', s = c :: s' -> b <= digit_val c) ->
  exists k, read_digits b (fmt_base b n ++ s) 0 0 = (n, S k, s).
Proof.
  intros Hb Hn Hs. unfold fmt_base.
  assert (E : forall f n acc, fmt_go b f n acc ++ s = fmt_go b f n (acc ++ s)).
  { induction f as [|f IH]; intros; simpl; [done|]. case_ifs; [done|]. by rewrite IH. }
  rewrite E. destruct (fmt_go_spec b (S (Z.to_nat (Z.log2 n))) n ([] ++ s)) as [m Hm].
  - done.
  - split; [done|]. by apply fmt_base_bound; lia.
  - lia.
  - exists m. rewrite Hm. simpl app. rewrite read_digits_stop by done. f_equal.
Qed.

Lemma fmt_go_forall (P : byte -> Prop) b f n acc :
  2 <= b <= 16 -> 0 <= n -> (forall d, 0 <= d < b -> P (digit_chr d)) -> Forall P acc ->
  Forall P (fmt_go b f n acc).
Proof.
  intros Hb Hn HP. revert n acc Hn. induction f as [|f IH]; intros n acc Hn Hacc; simpl; [done|].
  assert (Forall P (digit_chr (n mod b) :: acc)).
  { constructor; [|done]. apply HP. apply Z.mod_pos_bound. lia. }
  case_ifs; [done|]. apply IH; [apply Z.div_pos; lia|done].
Qed.

Lemma fmt_base_forall (P : byte -> Prop) b n :
  2 <= b <= 16 -> 0 <= n -> (forall d, 0 <= d < b -> P (digit_chr d)) -> Forall P (fmt_base b n).
Proof. intros. by apply fmt_go_forall. Qed.

Lemma digit_chr_digit d : 0 <= d < 10 -> is_digit (digit_chr d) = true.
Proof.
  intros. unfold is_digit, digit_chr. rewrite (proj2 (Z.ltb_lt _ _)) by lia.
  rewrite u8_chr, Z.mod_small by lia. apply andb_true_intro. split; apply Z.leb_le; lia.
Qed.

Lemma fmt_u_digits n : 0 <= n -> Forall (fun c => is_digit c = true) (fmt_u n).
Proof. intros. apply fmt_base_forall; [lia|done|]. intros. by apply digit_chr_digit. Qed.

Lemma fmt_base_cons b n : 2 <= b <= 16 -> 0 <= n -> exists c r, fmt_base b n = c :: r.
Proof.
  intros Hb Hn. destruct (fmt_base b n) as [|c r] eqn:E; [|eauto].
  destruct (read_digits_fmt b n [] Hb Hn) as [k Hk]; [done|]. rewrite E in Hk. done.
Qed.

Lemma is_digit_not_space c : is_digit c = true -> is_space c = false.
Proof.
  unfold is_digit, is_space. intros. zbool.
  destruct (u8 c =? 32) eqn:E; zbool; [lia|].
  destruct (u8 c <=? 13) eqn:E2; zbool; [lia|]. by rewrite andb_false_r.
Qed.

Lemma read_sign_digit c s : is_digit c = true -> read_sign (c :: s) = (false, c :: s).
Proof.
  intros H. unfold read_sign.
  destruct (eqc c "-") eqn:E1; [apply eqc_true in E1 as ->; done|].
  destruct (eqc c "+") eqn:E2; [apply eqc_true in E2 as ->; done|]. done.
Qed.

Lemma read_sign_fmt_u n s : 0 <= n -> read_sign (ltrim is_space (fmt_u n ++ s)) = (false, fmt_u n ++ s).
Proof.
  intros Hn. pose proof (fmt_u_digits n Hn) as Hd.
  destruct (fmt_base_cons 10 n) as (c & r & E); [lia|done|].
  unfold fmt_u in *. rewrite E in *. apply Forall_cons in Hd as [Hc _]. simpl app.
  rewrite ltrim_none by (by apply is_digit_not_space). by apply read_sign_digit.
Qed.

(** [strtol] reads back what [%d] prints. *)
Lemma strtol_fmt_d v s :
  LONG_MIN <= v <= LONG_MAX -> (forall c s', s = c :: s' -> 10 <= digit_val c) ->
  strtol (fmt_d v ++ s) = Strto v s true false.
Proof.
  intros Hv Hs. unfold strtol, fmt_d. destruct (v <? 0) eqn:E; zbool.
  - simpl ltrim. simpl read_sign.
    destruct (read_digits_fmt 10 (- v) s) as [k Hk]; [lia|lia|done|].
    unfold fmt_u. rewrite Hk. rewrite Z.opp_involutive.
    destruct (v >? LONG_MAX) eqn:E1; [apply Z.gtb_lt in E1; lia|].
    destruct (v <? LONG_MIN) eqn:E2; [apply Z.ltb_lt in E2; lia|]. done.
  - rewrite read_sign_fmt_u by lia.
    destruct (read_digits_fmt 10 v s) as [k Hk]; [lia|lia|done|].
    unfold fmt_u. rewrite Hk.
    destruct (v >? LONG_MAX) eqn:E1; [apply Z.gtb_lt in E1; lia|].
    destruct (v <? LONG_MIN) eqn:E2; [apply Z.ltb_lt in E2; lia|]. done.
Qed.

(** ** Byte order *)

Lemma lor_shiftl x y n : 0 <= n -> 0 <= x < 2 ^ n -> Z.lor x (Z.shiftl y n) = x + y * 2 ^ n.
Proof.
  intros Hn Hx. rewrite <- Z.shiftl_mul_pow2 by lia.
  assert (Hl : Z.land x (Z.shiftl y n) = 0).
  { apply Z.bits_inj'. intros m Hm. rewrite Z.land_spec, Z.shiftl_spec, Z.bits_0 by lia.
    destruct (decide (m < n)) as [|].
    - rewrite (Z.testbit_neg_r y) by lia. by rewrite andb_false_r.
    - rewrite <- (Z.mod_small x (2 ^ n)) by lia. by rewrite Z.mod_pow2_bits_high by lia. }
  pose proof (Z.add_lor_land x (Z.shiftl y n)). lia.
Qed.

Lemma land_255 v : Z.land v 255 = v mod 256.
Proof. change 255 with (Z.ones 8). by rewrite Z.land_ones. Qed.

Lemma lor_bytes a b c e :
  0 <= a < 256 -> 0 <= b < 256 -> 0 <= c < 256 -> 0 <= e < 256 ->
  Z.lor (Z.lor (Z.lor a (Z.shiftl b 8)) (Z.shiftl c 16)) (Z.shiftl e 24)
    = a + b * 256 + c * 65536 + e * 16777216.
Proof.
  intros. rewrite (lor_shiftl a b 8) by lia.
  rewrite (lor_shiftl (a + b * 2 ^ 8) c 16) by lia.
  rewrite (lor_shiftl (a + b * 2 ^ 8 + c * 2 ^ 16) e 24) by lia. lia.
Qed.

(** Reading a multi-byte field that lies inside of the object. *)
Lemma be16_safe d i : 0 <= i -> i + 2 <= blen d -> exists v, be16 d i = Ok v /\ 0 <= v < 2 ^ 16.
Proof.
  intros H0 H1. unfold be16.
  destruct (rd_safe d i) as (a&->&?); [lia|]. destruct (rd_safe d (i + 1)) as (b&->&?); [lia|].
  simpl. eexists. split; [done|]. rewrite Z.lor_comm, lor_shiftl by lia. lia.
Qed.

Lemma le16_safe d i : 0 <= i -> i + 2 <= blen d -> exists v, le16 d i = Ok v /\ 0 <= v < 2 ^ 16.
Proof.
  intros H0 H1. unfold le16.
  destruct (rd_safe d i) as (a&->&?); [lia|]. destruct (rd_safe d (i + 1)) as (b&->&?); [lia|].
  simpl. eexists. split; [done|]. rewrite lor_shiftl by lia. lia.
Qed.

Lemma le32_safe d i : 0 <= i -> i + 4 <= blen d -> exists v, le32 d i = Ok v /\ 0 <= v < 2 ^ 32.
Proof.
  intros H0 H1. unfold le32.
  destruct (rd_safe d i) as (a&->&?); [lia|]. destruct (rd_safe d (i + 1)) as (b&->&?); [lia|].
  destruct (rd_safe d (i + 2)) as (c&->&?); [lia|]. destruct (rd_safe d (i + 3)) as (e&->&?); [lia|].
  simpl. eexists. split; [done|]. rewrite lor_bytes by done. lia.
Qed.

Lemma le64_safe d i : 0 <= i -> i + 8 <= blen d -> exists v, le64 d i = Ok v /\ 0 <= v < 2 ^ 64.
Proof.
  intros H0 H1. unfold le64.
  destruct (le32_safe d i) as (a&->&?); [lia|lia|]. destruct (le32_safe d (i + 4)) as (b&->&?); [lia|lia|].
  simpl. eexists. split; [done|]. rewrite lor_shiftl by lia. lia.
Qed.

(** Reading the field that follows a prefix [a]. *)
Lemma rd_at a c s i : blen a = i -> rd (a ++ c :: s) i = Ok (u8 c).
Proof.
  intros <-. rewrite <- (Z.add_0_r (blen a)), rd_app_r by lia. apply rd_cons_0.
Qed.

Lemma rd_at_plus a s i n : blen a = i -> 0 <= n -> rd (a ++ s) (i + n) = rd s n.
Proof. intros <- Hn. by apply rd_app_r. Qed.

Lemma rd_cons c s n : 0 < n -> rd (c :: s) n = rd s (n - 1).
Proof.
  intros Hn. change (c :: s) with ([c] ++ s).
  replace n with (blen [c] + (n - 1)) at 1 by (unfold blen; simpl; lia). apply rd_app_r. lia.
Qed.

Lemma le32_put32 a v s i : blen a = i -> 0 <= v < 2 ^ 32 -> le32 (a ++ put32 v ++ s) i = Ok v.
Proof.
  intros Ha Hv. unfold le32, put32. cbn [app].
  rewrite (rd_at a _ _ i Ha), !rd_at_plus by (done || lia). rd_lit. cbn [mbind outcome_bind].
  rewrite !u8_chr, !land_255, !Z.shiftr_div_pow2, !Z.mod_mod by lia.
  pose proof (Z.mod_pos_bound v 256 ltac:(lia)). pose proof (Z.mod_pos_bound (v / 2 ^ 8) 256 ltac:(lia)).
  pose proof (Z.mod_pos_bound (v / 2 ^ 16) 256). pose proof (Z.mod_pos_bound (v / 2 ^ 24) 256).
  rewrite lor_bytes by lia. f_equal.
  change (2 ^ 8) with 256. change (2 ^ 16) with 65536. change (2 ^ 24) with 16777216.
  change (2 ^ 32) with 4294967296 in Hv.
  Z.div_mod_to_equations. lia.
Qed.

(** The number of digits printed. *)
Lemma fmt_go_length b f k n acc : 2 <= b -> 0 <= n < b ^ Z.of_nat k -> (0 < k)%nat ->
  (length (fmt_go b f n acc) <= k + length acc)%nat.
Proof.
  intros Hb. revert f n acc. induction k as [|k IH]; intros f n acc Hn Hk; [lia|].
  destruct f as [|f]; [simpl; lia|]. cbn [fmt_go]. destruct (n <? b) eqn:E; [simpl; lia|]. zbool.
  assert (Hk' : (0 < k)%nat).
  { destruct k; [|lia]. change (b ^ Z.of_nat 1) with (b ^ 1) in Hn. lia. }
  etransitivity; [apply IH|simpl; lia]; [|done].
  split; [apply Z.div_pos; lia|]. apply Z.div_lt_upper_bound; [lia|].
  rewrite <- Z.pow_succ_r, <- Nat2Z.inj_succ by lia. lia.
Qed.

Lemma fmt_d_length k n : (0 < k)%nat -> - 10 ^ Z.of_nat k < n < 10 ^ Z.of_nat k ->
  (length (fmt_d n) <= S k)%nat.
Proof.
  intros Hk Hn. unfold fmt_d, fmt_u, fmt_base. destruct (n <? 0) eqn:E; zbool; cbn [length].
  - pose proof (fmt_go_length 10 (S (Z.to_nat (Z.log2 (- n)))) k (- n) []) as H.
    simpl in H. specialize (H ltac:(lia) ltac:(lia) Hk). simpl. lia.
  - pose proof (fmt_go_length 10 (S (Z.to_nat (Z.log2 n))) k n []) as H.
    simpl in H. specialize (H ltac:(lia) ltac:(lia) Hk). simpl. lia.
Qed.

(** A printed integer consists of digits and possibly a minus sign. *)
Lemma fmt_d_chars v : Forall (fun c => is_digit c = true \/ c = "-"%char) (fmt_d v).
Proof.
  unfold fmt_d. destruct (v <? 0) eqn:E; zbool.
  - constructor; [by right|]. eapply Forall_impl; [apply fmt_u_digits; lia|]. auto.
  - eapply Forall_impl; [apply fmt_u_digits; lia|]. auto.
Qed.

Lemma fmt_d_not_in v c : is_digit c = false -> c <> "-"%char -> c ∉ fmt_d v.
Proof.
  intros Hd Hm Hin. pose proof (fmt_d_chars v) as Hf. rewrite Forall_forall in Hf.
  destruct (Hf c Hin); congruence.
Qed.

Lemma fmt_d_not_space v : Forall (fun c => is_space c = false) (fmt_d v).
Proof.
  eapply Forall_impl; [apply fmt_d_chars|]. intros c [Hc| ->]; [|done].
  by apply is_digit_not_space.
Qed.

Lemma fmt_d_cons v : exists c r, fmt_d v = c :: r /\ is_space c = false.
Proof.
  pose proof (fmt_d_not_space v) as Hs. destruct (fmt_d v) as [|c r] eqn:E.
  - exfalso. unfold fmt_d in E. destruct (v <? 0) eqn:Ev; [done|]. zbool.
    destruct (fmt_base_cons 10 v) as (c&r&E'); [lia|lia|]. unfold fmt_u in E. congruence.
  - inv Hs. eauto.
Qed.

Lemma fmt_u_inj a b : 0 <= a -> 0 <= b -> fmt_u a = fmt_u b -> a = b.
Proof.
  intros Ha Hb E.
  destruct (read_digits_fmt 10 a [] ltac:(lia) Ha) as [k Hk]; [done|].
  destruct (read_digits_fmt 10 b [] ltac:(lia) Hb) as [k' Hk']; [done|].
  unfold fmt_u in E. rewrite E in Hk. congruence.
Qed.

Lemma fmt_u_no_minus n s : 0 <= n -> fmt_u n <> "-"%char :: s.
Proof.
  intros Hn E. pose proof (fmt_u_digits n Hn) as Hd. rewrite E in Hd. inv Hd.
Qed.

#[export] Instance fmt_d_inj : Inj (=) (=) fmt_d.
Proof.
  intros a b. unfold fmt_d. destruct (a <? 0) eqn:Ea, (b <? 0) eqn:Eb; zbool; intros E.
  - injection E as E. apply fmt_u_inj in E; lia.
  - symmetry in E. by apply fmt_u_no_minus in E.
  - by apply fmt_u_no_minus in E.
  - by apply fmt_u_inj.
Qed.

Lemma put64_le64 a v s i : blen a = i -> 0 <= v < 2 ^ 64 -> le64 (a ++ put64 v ++ s) i = Ok v.
Proof.
  intros Ha Hv. unfold le64, put64. rewrite <- app_assoc.
  assert (Hlo : Z.land v (2 ^ 32 - 1) = v mod 2 ^ 32) by (by apply land_mask).
  assert (Hhi : Z.shiftr v 32 = v / 2 ^ 32) by (by apply Z.shiftr_div_pow2).
  pose proof (Z.mod_pos_bound v (2 ^ 32) ltac:(lia)).
  assert (0 <= v / 2 ^ 32 < 2 ^ 32).
  { split; [apply Z.div_pos; lia|]. apply Z.div_lt_upper_bound; lia. }
  rewrite Hlo, Hhi, (le32_put32 a _ _ i) by (done || lia). cbn [mbind outcome_bind].
  rewrite app_assoc, le32_put32.
  - cbn [mbind outcome_bind]. rewrite lor_shiftl by lia. f_equal.
    pose proof (Z.div_mod v (2 ^ 32) ltac:(lia)). lia.
  - rewrite blen_app, Ha. done.
  - lia.
Qed.

Lemma putbe16_be16 a v s i : blen a = i -> 0 <= v < 2 ^ 16 -> be16 (a ++ putbe16 v ++ s) i = Ok v.
Proof.
  intros Ha Hv. unfold be16, putbe16. cbn [app].
  rewrite (rd_at a _ _ i Ha), !rd_at_plus by (done || lia). rd_lit. cbn [mbind outcome_bind].
  rewrite !u8_chr, Z.shiftr_div_pow2 by lia.
  pose proof (Z.mod_pos_bound v 256 ltac:(lia)). pose proof (Z.mod_pos_bound (v / 2 ^ 8) 256 ltac:(lia)).
  rewrite Z.lor_comm, lor_shiftl by lia. f_equal.
  change (2 ^ 8) with 256 in *. change (2 ^ 16) with 65536 in Hv.
  Z.div_mod_to_equations. lia.
Qed.

Lemma le16_put16 a v s i : blen a = i -> 0 <= v < 2 ^ 16 -> le16 (a ++ put16 v ++ s) i = Ok v.
Proof.
  intros Ha Hv. unfold le16, put16. cbn [app].
  rewrite (rd_at a _ _ i Ha), !rd_at_plus by (done || lia). rd_lit. cbn [mbind outcome_bind].
  rewrite !u8_chr, Z.shiftr_div_pow2, !land_255 by lia.
  rewrite !Z.mod_mod by lia.
  pose proof (Z.mod_pos_bound v 256 ltac:(lia)). pose proof (Z.mod_pos_bound (v / 2 ^ 8) 256 ltac:(lia)).
  rewrite lor_shiftl by lia. f_equal.
  change (2 ^ 8) with 256 in *. change (2 ^ 16) with 65536 in Hv.
  Z.div_mod_to_equations. lia.
Qed.

Lemma blen_put32 v : blen (put32 v) = 4.
Proof. done. Qed.
Lemma blen_put16 v : blen (put16 v) = 2.
Proof. done. Qed.
Lemma blen_put64 v : blen (put64 v) = 8.
Proof. done. Qed.

(** Reading after a prefix. *)
Lemma le32_app_r a b : le32 (a ++ b) (blen a) = le32 b 0.
Proof. unfold le32. rewrite <- (Z.add_0_r (blen a)) at 1. by rewrite !rd_app_r by lia. Qed.
(** The slice that follows a prefix. *)
Lemma slice_app a b s off len : blen a = off -> blen b = len -> slice (a ++ b ++ s) off len = b.
Proof.
  intros <- <-. unfold slice, blen. rewrite !Nat2Z.id, drop_app_length, take_app_length. done.
Qed.
Lemma sub_prefix a b s off len : blen a = off -> blen b = len -> sub (a ++ b ++ s) off len = Ok b.
Proof.
  intros Ha Hb. pose proof (blen_nonneg a). pose proof (blen_nonneg b). pose proof (blen_nonneg s).
  rewrite sub_ok by (rewrite ?blen_app; lia). by rewrite slice_app.
Qed.

(** ** Reading lines *)

(** All the strings [fgets(buf, cap, f)] returns in turn: up to [cap - 1]
    bytes, a newline ends one and is kept.  [room] bytes are left for [cur],
    the current one in reverse. *)
Fixpoint fgets_go (cap room : nat) (s cur : bytes) : list bytes :=
  match s with
  | [] => match cur with [] => [] | _ => [reverse cur] end
  | c :: s' =>
      if eqc c "010" then reverse (c :: cur) :: fgets_go cap (pred cap) s' []
      else match room with
           | O => []  (* not reached: cap is at least 2 *)
           | S O => reverse (c :: cur) :: fgets_go cap (pred cap) s' []
           | S r => fgets_go cap r s' (c :: cur)
           end
  end.
Definition fgets_all (cap : nat) (s : bytes) : list bytes := fgets_go cap (pred cap) s [].

Lemma fgets_go_line cap l s : forall room cur, "010"%char ∉ l -> (length l < room)%nat ->
  fgets_go cap room (l ++ "010"%char :: s) cur = (reverse cur ++ l ++ ["010"%char]) :: fgets_go cap (pred cap) s [].
Proof.
  induction l as [|c l IH]; intros room cur Hn Hr; cbn [app fgets_go].
  - rewrite eqc_refl. by rewrite reverse_cons.
  - rewrite (proj2 (eqc_false c "010")) by set_solver. cbn [length] in Hr.
    destruct room as [|[|r]]; [lia|lia|]. rewrite IH by (set_solver || lia).
    by rewrite reverse_cons, <- app_assoc.
Qed.

(** A file of short lines is read line by line. *)
Lemma fgets_all_lines cap ls : Forall (fun l => "010"%char ∉ l /\ (S (length l) < cap)%nat) ls ->
  fgets_all cap (mjoin ((fun l => l ++ ["010"%char]) <$> ls)) = (fun l => l ++ ["010"%char]) <$> ls.
Proof.
  unfold fgets_all. induction 1 as [|l ls [Hn Hl] _ IH]; [done|].
  rewrite fmap_cons. change (mjoin (?x :: ?y)) with (x ++ mjoin y). rewrite <- app_assoc. cbn [app].
  rewrite fgets_go_line by (done || lia). rewrite reverse_nil. cbn [app]. f_equal. exact IH.
Qed.

(** ** Tokens *)

Lemma strtok_go_run f t : forall s cur, Forall (fun c => f c = false) t ->
  strtok_go f (t ++ s) cur = strtok_go f s (reverse t ++ cur).
Proof.
  induction t as [|c t IH]; intros s cur Ht; [done|]. inv Ht. cbn [app strtok_go].
  rewrite H1, IH by done. by rewrite reverse_cons, <- app_assoc.
Qed.

Lemma no_comma t : ","%char ∉ t -> Forall (fun c => is_comma c = false) t.
Proof. intros Hn. apply Forall_forall. intros c Hc. apply eqc_false. intros ->. done. Qed.

Lemma strtok_comma_go l : forall cur, Forall (fun t => t <> [] /\ ","%char ∉ t) l -> cur <> [] ->
  strtok_go is_comma (mjoin ((fun t => ","%char :: t) <$> l)) (reverse cur) = cur :: l.
Proof.
  induction l as [|t l IH]; intros cur Hl Hc.
  - cbn. destruct (reverse cur) eqn:E; [by destruct cur; [|rewrite reverse_cons in E; destruct (reverse cur)]|].
    by rewrite <- E, reverse_involutive.
  - apply Forall_cons in Hl as [[Hne Hn] Hl]. rewrite fmap_cons. change (mjoin (?x :: ?y)) with (x ++ mjoin y).
    cbn [app strtok_go]. change (is_comma ",") with true. cbv iota.
    destruct (reverse cur) eqn:E; [by destruct cur; [|rewrite reverse_cons in E; destruct (reverse cur)]|].
    rewrite <- E, reverse_involutive. f_equal.
    rewrite strtok_go_run, app_nil_r by (by apply no_comma). by apply IH.
Qed.

Lemma joined_by_mjoin t l : joined_by "," (t :: l) = t ++ mjoin ((fun t => ","%char :: t) <$> l).
Proof.
  revert t. induction l as [|u l IH]; intros t; [by rewrite app_nil_r|].
  change (joined_by "," (t :: u :: l)) with (t ++ "," ++ joined_by "," (u :: l)). rewrite IH, fmap_cons.
  change (mjoin (?x :: ?y)) with (x ++ mjoin y). done.
Qed.

Lemma strtok_joined l : Forall (fun t => t <> [] /\ ","%char ∉ t) l -> strtok is_comma (joined_by "," l) = l.
Proof.
  intros Hl. destruct l as [|t l]; [done|]. apply Forall_cons in Hl as [[Hne Hn] Hl]. rewrite joined_by_mjoin.
  unfold strtok. rewrite strtok_go_run, app_nil_r by (by apply no_comma). by apply strtok_comma_go.
Qed.
