(* ===== verification/Inet.v ===== *)
(** [inet_ntop], the text of IPv4 and IPv6 addresses, which c/dns.c and
    c/net.c print and compare, as the C library writes it. *)
From S2P Require Import Prelude CLib.

(** * Addresses: [inet_ntop] *)

Definition inet_ntop4 (b : list Z) : bytes :=
  match b with
  | [a; b; c; e] => fmt_u a ++ "." ++ fmt_u b ++ "." ++ fmt_u c ++ "." ++ fmt_u e
  | _ => []
  end.

(** The longest run of zero words, the first of them on a tie. *)
Fixpoint zrun (w : list Z) : nat :=
  match w with 0 :: w' => S (zrun w') | _ => O end.
Fixpoint best_run (w : list Z) (i : nat) (best : nat * nat) : nat * nat :=
  match w with
  | [] => best
  | _ :: w' => best_run w' (S i) (if (best.2 <? zrun w)%nat then (i, zrun w) else best)
  end.

Fixpoint words16 (b : list Z) : list Z :=
  match b with hi :: lo :: b' => Z.lor (Z.shiftl hi 8) lo :: words16 b' | _ => [] end.

Fixpoint ntop6_go (ws : list Z) (i : nat) (best : option (nat * nat)) (v4 : option bytes) : bytes :=
  match ws with
  | [] => match best with Some (b, n) => if (b + n =? 8)%nat then ":" else [] | None => [] end
  | w :: ws' =>
      let inside := match best with Some (b, n) => (b <=? i)%nat && (i <? b + n)%nat | None => false end in
      let first := match best with Some (b, _) => (i =? b)%nat | None => false end in
      if inside then (if first then ":" else []) ++ ntop6_go ws' (S i) best v4
      else (if (i =? 0)%nat then [] else ":") ++
           match v4 with
           | Some t => if (i =? 6)%nat then t else fmt_x w ++ ntop6_go ws' (S i) best v4
           | None => fmt_x w ++ ntop6_go ws' (S i) best v4
           end
  end.

(** Runs of a single word are not shortened; an address that is zero up to an
    embedded IPv4 address ends in dotted form. *)
Definition inet_ntop6 (b : list Z) : bytes :=
  let ws := words16 b in
  let r := best_run ws 0 (0%nat, 0%nat) in
  let best := if (r.2 <? 2)%nat then None else Some r in
  let v4 := match best with
            | Some (O, n) => (n =? 6)%nat || (n =? 5)%nat && (default 0 (ws !! 5%nat) =? 65535)
            | _ => false
            end in
  ntop6_go ws 0 best (if v4 then Some (inet_ntop4 (drop 12 b)) else None).

Example ntop6_ex1 : inet_ntop6 [32;1;13;184;0;0;0;0;0;0;0;0;0;0;0;1] = bs "2001:db8::1".
Proof. reflexivity. Qed.
Example ntop6_ex2 : inet_ntop6 [0;0;0;0;0;0;0;0;0;0;255;255;1;2;3;4] = bs "::ffff:1.2.3.4".
Proof. reflexivity. Qed.
Example ntop6_ex3 : inet_ntop6 (replicate 16 0) = bs "::".
Proof. reflexivity. Qed.
Example ntop6_ex4 : inet_ntop6 (replicate 15 0 ++ [1]) = bs "::1".
Proof. reflexivity. Qed.

(** The text of an address given by its bytes: [ip_str] of c/net.c. *)
Definition ip_str (ip : bytes) : bytes :=
  if blen ip =? 4 then inet_ntop4 (u8 <$> ip)
  else if blen ip =? 16 then inet_ntop6 (u8 <$> ip)
  else "?".

(** Cutting at a separator that the first parts do not contain. *)
Lemma sep_inj (c : byte) a b x y : c ∉ a -> c ∉ b -> a ++ c :: x = b ++ c :: y -> a = b /\ x = y.
Proof.
  revert b. induction a as [|u a IH]; intros [|v b] Ha Hb E; cbn [app] in E; simplify_eq; [done|set_solver|set_solver|].
  destruct (IH b) as [-> ->]; [set_solver|set_solver|done|done].
Qed.

Lemma fmt_u_not_in n c : 0 <= n -> is_digit c = false -> c ∉ fmt_u n.
Proof.
  intros Hn Hc Hin. pose proof (fmt_u_digits n Hn) as Hd. rewrite Forall_forall in Hd.
  specialize (Hd c Hin). congruence.
Qed.

Lemma inet_ntop4_inj a b : length a = 4%nat -> length b = 4%nat ->
  inet_ntop4 (u8 <$> a) = inet_ntop4 (u8 <$> b) -> a = b.
Proof.
  intros Ha Hb. destruct a as [|a0 [|a1 [|a2 [|a3 []]]]]; try done. destruct b as [|b0 [|b1 [|b2 [|b3 []]]]]; try done.
  cbn [fmap list_fmap inet_ntop4]. change (bs ".") with ["."%char]. cbn [app].
  assert (Hr : forall x, 0 <= u8 x) by (intros x; pose proof (u8_range x); lia).
  assert (Hd : forall x, "."%char ∉ fmt_u (u8 x)) by (intros x; by apply fmt_u_not_in).
  intros E. apply sep_inj in E as [E0 E]; [|apply Hd..]. apply sep_inj in E as [E1 E]; [|apply Hd..].
  apply sep_inj in E as [E2 E3]; [|apply Hd..].
  apply fmt_u_inj in E0, E1, E2, E3; [|apply Hr..]. apply u8_inj in E0, E1, E2, E3. congruence.
Qed.

Lemma inet_ntop4_no_colon a : length a = 4%nat -> ":"%char ∉ inet_ntop4 (u8 <$> a).
Proof.
  intros Ha. destruct a as [|a0 [|a1 [|a2 [|a3 []]]]]; try done. cbn [fmap list_fmap inet_ntop4].
  assert (Hd : forall x, ":"%char ∉ fmt_u (u8 x)).
  { intros x. apply fmt_u_not_in; [|done]. pose proof (u8_range x). lia. }
  change (bs ".") with ["."%char]. cbn [app].
  rewrite !not_elem_of_app, !not_elem_of_cons, !not_elem_of_app, !not_elem_of_cons, !not_elem_of_app, !not_elem_of_cons.
  repeat split; try done; apply Hd.
Qed.
