(* ===== verification/Common.v ===== *)
(** c/common.c: colour decision, the rotating buffer pools behind [clr] and
    [shquote], and the quoting itself, related to the way a shell reads a
    word back. *)
From S2P Require Import Prelude CLib.

(** * want_color *)

(** What [is_terminal] sees of a stream: a null pointer, a failing [fstat],
    or a file with its "character device" bit. *)
Inductive stream := NullStream | StatFails | Stream (chardev : bool).

Definition is_terminal (f : stream) : bool :=
  match f with NullStream => false | StatFails => false | Stream c => c end.

(** [no_color] is [getenv("NO_COLOR")]. *)
Definition want_color (no_color : option bytes) (force : bool) (f : stream) : bool :=
  if force then true
  else is_terminal f && match no_color with None => true | Some _ => false end.

(** * The rotating pools *)

Definition POOL_N : Z := 16.
Definition POOL_SZ : nat := 1024.
Definition INT_MAX : Z := 2 ^ 31 - 1.

(** [static char pool[POOL_N][POOL_SZ]; static int slot;] *)
Record pool := Pool { p_bufs : list bytes; p_slot : Z }.
Definition pool_init : pool := Pool (replicate (Z.to_nat POOL_N) []) 0.

(** [b = pool[slot++ % POOL_N]; snprintf(b, POOL_SZ, ..)]: the index of the
    buffer and the new state.  [slot] is an [int]: its increment past
    [INT_MAX] is undefined, and so is a negative index. *)
Definition pool_put (text : bytes) (p : pool) : outcome (nat * pool) :=
  if p_slot p =? INT_MAX then Ub
  else let i := Z.rem (p_slot p) POOL_N in
       if i <? 0 then Ub
       else Ok (Z.to_nat i, Pool (<[Z.to_nat i := text]> (p_bufs p)) (p_slot p + 1)).

(** The pointer [clr] returns: the caller's own string, or a pool buffer. *)
Inductive cref := Caller (s : bytes) | Slot (i : nat).
Definition deref (p : pool) (r : cref) : bytes :=
  match r with Caller s => s | Slot i => p_bufs p !!! i end.

Definition ESC : byte := "027"%char.

(** The text of a coloured field, cut at the buffer size. *)
Definition sgr (code s : bytes) : bytes :=
  trunc POOL_SZ ([ESC] ++ "[" ++ code ++ "m" ++ s ++ [ESC] ++ "[0m").

(** [s] is [None] for a null pointer. *)
Definition clr (on : bool) (code : bytes) (s : option bytes) (p : pool) : outcome (cref * pool) :=
  match s with
  | None => Ok (Caller "", p)
  | Some t =>
      if negb on || eqs t [] then Ok (Caller t, p)
      else r ← pool_put (sgr code t) p; Ok (Slot r.1, r.2)
  end.

#[global] Arguments clr : simpl never.
#[global] Arguments pool_put : simpl never.

(** The text a call denotes while its buffer is live. *)
Definition clr_text (on : bool) (code s : bytes) : bytes :=
  if negb on || eqs s [] then s else sgr code s.

(** Evaluating the [clr] arguments of one [printf] in turn. *)
Fixpoint clr_args (on : bool) (args : list (bytes * bytes)) (p : pool)
  : outcome (list cref * pool) :=
  match args with
  | [] => Ok ([], p)
  | (code, s) :: rest =>
      r ← clr on code (Some s) p;
      q ← clr_args on rest r.2;
      Ok (r.1 :: q.1, q.2)
  end.

(** * shquote *)

Definition sh_meta : bytes := "`^#*[]=|\?${}()'<>&;" ++ [chr 34; chr 127].

Definition sh_unsafe (c : byte) : bool :=
  (u8 c <=? 32) || match strchr sh_meta c with Some _ => true | None => false end.

(** One turn of the quoting loop: the bytes written for a character. *)
Definition quote_char (c : byte) : bytes :=
  if eqc c "'" then "'\''"
  else if eqc c "010" then "'$'\n''"
  else [c].

(** [for (p = s; *p && w < POOL_SZ - 8; p++)]: what is written after [w] bytes. *)
Fixpoint quote_loop (s : bytes) (w : nat) : bytes :=
  match s with
  | [] => []
  | c :: s' => if (w <? POOL_SZ - 8)%nat
               then quote_char c ++ quote_loop s' (w + length (quote_char c))
               else []
  end.

(** The text [shquote] leaves in its buffer for a C string [s] (a null
    pointer behaves as the empty string). *)
Definition shquote_text (s : bytes) : bytes :=
  match s with
  | [] => "''"
  | _ =>
      if negb (existsb sh_unsafe s) then trunc POOL_SZ s
      else let b := "'" ++ quote_loop s 1 in
           if (length b <? POOL_SZ - 1)%nat then b ++ "'" else b
  end.

Definition shquote (s : bytes) (p : pool) : outcome (nat * pool) := pool_put (shquote_text s) p.

(** * How a shell reads a word

    The reference reading of one word: plain characters, backslash escapes,
    single quotes and dollar-single-quotes with the newline escape.  A
    character that would end the word or be expanded makes the reading fail,
    as does a leading tilde. *)
Module Sh.
Inductive mode := Plain | Esc | Dollar | Sq | Dsq | DsqEsc.

Definition step (m : mode) (c : byte) : option (mode * bytes) :=
  match m with
  | Plain => if eqc c "'" then Some (Sq, [])
             else if eqc c "\" then Some (Esc, [])
             else if eqc c "$" then Some (Dollar, [])
             else if sh_unsafe c then None else Some (Plain, [c])
  | Esc => if eqc c "010" then None else Some (Plain, [c])
  | Dollar => if eqc c "'" then Some (Dsq, []) else None
  | Sq => if eqc c "'" then Some (Plain, []) else Some (Sq, [c])
  | Dsq => if eqc c "'" then Some (Plain, [])
           else if eqc c "\" then Some (DsqEsc, []) else Some (Dsq, [c])
  | DsqEsc => if eqc c "n" then Some (Dsq, ["010"%char]) else None
  end.

Fixpoint run (m : mode) (s : bytes) : option bytes :=
  match s with
  | [] => match m with Plain => Some [] | _ => None end
  | c :: s' => '(m', out) ← step m c; (out ++.) <$> run m' s'
  end.

Definition word (s : bytes) : option bytes :=
  match s with
  | [] => None
  | c :: _ => if eqc c "~" then None else run Plain s
  end.
End Sh.

(** The number of bytes the quoting loop needs for the whole of [s]. *)
Definition quoted_len (s : bytes) : nat := sum_list (length ∘ quote_char <$> s).

(** * Lemmas on the pools *)

(** A pool with its sixteen buffers and [k] calls left before the [int]
    counter is exhausted. *)
Definition pool_ok (k : Z) (p : pool) : Prop :=
  length (p_bufs p) = 16%nat /\ 0 <= p_slot p /\ p_slot p + k <= INT_MAX.

Lemma pool_put_ok k text p : 0 < k -> pool_ok k p ->
  pool_put text p =
    Ok (Z.to_nat (p_slot p mod 16),
        Pool (<[Z.to_nat (p_slot p mod 16) := text]> (p_bufs p)) (p_slot p + 1)).
Proof.
  intros Hk (Hl & H0 & H1). unfold pool_put, POOL_N.
  rewrite (proj2 (Z.eqb_neq _ _)) by lia.
  rewrite Z.rem_mod_nonneg by lia. pose proof (Z.mod_pos_bound (p_slot p) 16 ltac:(lia)).
  by rewrite (proj2 (Z.ltb_ge _ _)) by lia.
Qed.

Lemma pool_ok_put k i text p : pool_ok k p ->
  pool_ok (k - 1) (Pool (<[i := text]> (p_bufs p)) (p_slot p + 1)).
Proof. intros (?&?&?). unfold pool_ok; simpl. rewrite length_insert. lia. Qed.

(** [clr] never fails on such a pool; it advances the counter by at most one,
    and changes at most the buffer the counter points at. *)
Lemma clr_step on code s p k : 0 < k -> pool_ok k p ->
  exists r p', clr on code (Some s) p = Ok (r, p') /\ pool_ok (k - 1) p' /\
    deref p' r = clr_text on code s /\
    (p_slot p <= p_slot p' <= p_slot p + 1) /\
    (forall i, i <> Z.to_nat (p_slot p mod 16) -> p_bufs p' !!! i = p_bufs p !!! i) /\
    match r with Caller t => t = clr_text on code s
               | Slot i => i = Z.to_nat (p_slot p mod 16) /\ p_slot p' = p_slot p + 1 end.
Proof.
  intros Hk Hp. unfold clr, clr_text. destruct (negb on || eqs s []) eqn:E.
  - exists (Caller s), p. destruct Hp as (?&?&?). repeat split; auto; lia.
  - rewrite (pool_put_ok k) by done. simpl.
    eexists _, _. split; [done|]. split; [by apply pool_ok_put|].
    destruct Hp as (Hl&H0&H1). pose proof (Z.mod_pos_bound (p_slot p) 16 ltac:(lia)).
    simpl. split_and!; try done; try lia.
    + apply list_lookup_total_insert_eq. lia.
    + intros i Hi. by apply list_lookup_total_insert_ne.
Qed.

Lemma slot_mod_ne s j : 0 <= s -> 0 < j < 16 -> Z.to_nat ((s + j) mod 16) <> Z.to_nat (s mod 16).
Proof.
  intros Hs Hj E.
  pose proof (Z.mod_pos_bound s 16 ltac:(lia)).
  pose proof (Z.mod_pos_bound (s + j) 16 ltac:(lia)).
  assert (E' : (s + j) mod 16 = s mod 16) by lia.
  pose proof (Z.div_mod (s + j) 16 ltac:(lia)). pose proof (Z.div_mod s 16 ltac:(lia)). lia.
Qed.

(** Buffers other than the next [length args] ones survive. *)
Lemma clr_args_frame on args p : forall k, blen args <= k -> pool_ok k p ->
  exists refs p', clr_args on args p = Ok (refs, p') /\
    (forall i, (forall j, 0 <= j < blen args -> i <> Z.to_nat ((p_slot p + j) mod 16)) ->
       p_bufs p' !!! i = p_bufs p !!! i).
Proof.
  revert p. induction args as [|[code s] args IH]; intros p k Hlen Hp; simpl.
  - eexists _, _. split; [done|]. done.
  - rewrite blen_cons in *. pose proof (blen_nonneg args).
    destruct (clr_step on code s p k) as (r&p1&->&Hp1&_&Hs&Hf&_); [lia|done|]. simpl.
    destruct (IH p1 (k - 1)) as (refs&p'&->&Hf'); [lia|done|]. simpl.
    eexists _, _. split; [done|]. intros i Hi. rewrite Hf', Hf; [done| |].
    + rewrite <- (Z.add_0_r (p_slot p)). apply Hi. lia.
    + intros j Hj.
      replace (p_slot p1 + j) with (p_slot p + (p_slot p1 - p_slot p + j)) by lia.
      destruct (decide (p_slot p1 - p_slot p + j < 1 + blen args)); [apply Hi; lia|lia].
Qed.

(** The arguments of one print call may be up to sixteen coloured
    fields: when all of them have been evaluated, every pointer [clr] returned
    still denotes the text of its own field, since each occupies its own slot of
    the rotating pool; and no call is undefined while the counter of calls is
    at least that far from the largest [int]. *)
Theorem clr_args_live on args p : forall k, blen args <= k -> blen args <= 16 -> pool_ok k p ->
  exists refs p', clr_args on args p = Ok (refs, p') /\
    deref p' <$> refs = (fun a => clr_text on a.1 a.2) <$> args.
Proof.
  revert p. induction args as [|[code s] args IH]; intros p k Hk H16 Hp.
  - eexists _, _. split; [done|]. done.
  - rewrite blen_cons in *. pose proof (blen_nonneg args).
    destruct (clr_step on code s p k) as (r&p1&E&Hp1&Hd&Hs&_&Hr); [lia|done|].
    destruct (IH p1 (k - 1)) as (refs&p'&E'&Hm); [lia|lia|done|].
    destruct (clr_args_frame on args p1 (k - 1)) as (refs2&p2&E2&Hf); [lia|done|].
    rewrite E' in E2. injection E2 as <- <-.
    exists (r :: refs), p'. simpl. rewrite E. simpl. rewrite E'. simpl.
    split; [done|]. f_equal; [|done].
    destruct r as [t|i]; simpl in *; [done|]. destruct Hr as [-> Hslot].
    rewrite Hf; [done|]. intros j Hj. rewrite Hslot.
    replace (p_slot p + 1 + j) with (p_slot p + (1 + j)) by lia.
    apply not_eq_sym, slot_mod_ne; [by destruct Hp as (?&?&?)|lia].
Qed.

(** * Lemmas on quoting *)

Lemma quote_char_length c : (1 <= length (quote_char c) <= 7)%nat.
Proof. unfold quote_char, bs. case_ifs; simpl; lia. Qed.

Lemma quote_loop_length s w :
  (w + length (quote_loop s w) <= Nat.max w (POOL_SZ - 2))%nat.
Proof.
  assert (HP : POOL_SZ = 1024%nat) by done. revert w.
  induction s as [|c s IH]; intros w; cbn [quote_loop length]; [lia|].
  destruct (w <? POOL_SZ - 8)%nat eqn:E; [|cbn [length]; lia].
  apply Nat.ltb_lt in E. rewrite length_app.
  specialize (IH (w + length (quote_char c))%nat). pose proof (quote_char_length c). lia.
Qed.

Lemma quoted_len_cons c s : quoted_len (c :: s) = (length (quote_char c) + quoted_len s)%nat.
Proof. done. Qed.

(** The loop writes a prefix of the string, the whole of it when it fits. *)
Lemma quote_loop_prefix s w :
  exists p, p `prefix_of` s /\ quote_loop s w = mjoin (quote_char <$> p) /\
    ((w + quoted_len s <= POOL_SZ - 8)%nat -> p = s).
Proof.
  revert w. induction s as [|c s IH]; intros w; cbn [quote_loop].
  - exists []. split_and!; [apply prefix_nil|done|done].
  - destruct (w <? POOL_SZ - 8)%nat eqn:E.
    + destruct (IH (w + length (quote_char c))%nat) as (p&Hp&->&Hfit).
      exists (c :: p). split; [by apply prefix_cons|]. split; [reflexivity|].
      intros Hl. f_equal. apply Hfit. rewrite quoted_len_cons in Hl. lia.
    + apply Nat.ltb_ge in E. exists []. split; [apply prefix_nil|]. split; [done|].
      rewrite quoted_len_cons. pose proof (quote_char_length c). lia.
Qed.

(** Reading back, inside single quotes, the quoting of [p]. *)
Lemma sh_run_quoted p rest :
  Sh.run Sh.Sq (mjoin (quote_char <$> p) ++ rest) = (p ++.) <$> Sh.run Sh.Sq rest.
Proof.
  induction p as [|c p IH]; [simpl; by destruct (Sh.run Sh.Sq rest)|].
  rewrite fmap_cons. change (mjoin (?x :: ?l)) with (x ++ mjoin l). rewrite <- app_assoc.
  unfold quote_char at 1. destruct (eqc c "'") eqn:E1; [|destruct (eqc c "010") eqn:E2].
  - apply eqc_true in E1 as ->. simpl. rewrite IH. by destruct (Sh.run Sh.Sq rest).
  - apply eqc_true in E2 as ->. simpl. rewrite IH. by destruct (Sh.run Sh.Sq rest).
  - simpl. rewrite E1. simpl. rewrite IH. by destruct (Sh.run Sh.Sq rest).
Qed.

Lemma sh_unsafe_no_special c : sh_unsafe c = false -> Sh.step Sh.Plain c = Some (Sh.Plain, [c]).
Proof.
  intros H. unfold Sh.step.
  destruct (eqc c "'") eqn:E1; [apply eqc_true in E1 as ->; done|].
  destruct (eqc c "\") eqn:E2; [apply eqc_true in E2 as ->; done|].
  destruct (eqc c "$") eqn:E3; [apply eqc_true in E3 as ->; done|].
  by rewrite H.
Qed.

Lemma sh_run_safe s : existsb sh_unsafe s = false -> Sh.run Sh.Plain s = Some s.
Proof.
  induction s as [|c s IH]; [done|]. intros H.
  change (existsb sh_unsafe (c :: s)) with (sh_unsafe c || existsb sh_unsafe s) in H.
  apply orb_false_iff in H as [Hc H].
  cbn [Sh.run]. rewrite (sh_unsafe_no_special c Hc). cbn. by rewrite (IH H).
Qed.

Lemma existsb_take {A} (f : A -> bool) n l : existsb f l = false -> existsb f (take n l) = false.
Proof.
  revert n. induction l as [|a l IH]; intros [|n] H; simpl in *; try done.
  apply orb_false_iff in H as [-> H]. simpl. auto.
Qed.

Lemma quote_body_length s : (S (length (quote_loop s 1)) < POOL_SZ - 1)%nat.
Proof. pose proof (quote_loop_length s 1). unfold POOL_SZ in *. lia. Qed.

(** * Properties *)

(** The text [shquote] writes always fits its 1024-byte slot with the final
    NUL, whatever the string. *)
Lemma shquote_text_bounded s : (length (shquote_text s) < POOL_SZ)%nat.
Proof.
  unfold shquote_text. destruct s as [|c s]; [cbv; lia|].
  destruct (existsb sh_unsafe (c :: s)); cbn [negb].
  - pose proof (quote_body_length (c :: s)) as H.
    change (length ("'" ++ ?l)) with (S (length l)).
    rewrite (proj2 (Nat.ltb_lt _ _)) by done. rewrite length_app.
    change (length ("'" ++ ?l)) with (S (length l)). change (length (bs "'")) with 1%nat. lia.
  - apply trunc_length. unfold POOL_SZ. lia.
Qed.

(** C27. A POSIX shell (with the dollar-quote extension) reads the text that
    [shquote] writes as exactly one word, a prefix of the string, and the whole
    of it when the quoted form fits the buffer; the text always fits its 1024
    bytes. Strings that begin with a tilde are excluded: see
    [shquote_leaves_tilde]. *)
Theorem shquote_word s : hd_error s <> Some "~"%char ->
  exists p, p `prefix_of` s /\ Sh.word (shquote_text s) = Some p /\
    ((quoted_len s <= POOL_SZ - 9)%nat -> p = s) /\ (length (shquote_text s) < POOL_SZ)%nat.
Proof.
  assert (HP : POOL_SZ = 1024%nat) by done. pose proof (shquote_text_bounded s) as Hb. revert Hb.
  intros Hb Ht. destruct s as [|c s]; [by exists []|].
  revert Hb. unfold shquote_text. destruct (existsb sh_unsafe (c :: s)) eqn:E; cbn [negb].
  - destruct (quote_loop_prefix (c :: s) 1) as (p&Hp&Hq&Hfit).
    pose proof (quote_body_length (c :: s)).
    change (length ("'" ++ ?l)) with (S (length l)).
    rewrite (proj2 (Nat.ltb_lt _ _)) by done. rewrite Hq.
    intros Hb. exists p. split; [done|]. split; [|split; [intros; apply Hfit; lia|done]].
    change ((app []) <$> Sh.run Sh.Sq (mjoin (quote_char <$> p) ++ "'") = Some p).
    rewrite sh_run_quoted. simpl. by rewrite app_nil_r.
  - intros Hb. exists (trunc POOL_SZ (c :: s)). split; [by apply prefix_take|]. split; [|split; [|done]].
    + change (Sh.word (trunc POOL_SZ (c :: s))) with
        (if eqc c "~" then None else Sh.run Sh.Plain (trunc POOL_SZ (c :: s))).
      rewrite (proj2 (eqc_false c "~")) by (intros ->; done).
      by apply sh_run_safe, existsb_take.
    + intros Hl. apply trunc_fits.
      assert (Hs : forall l, (length l <= quoted_len l)%nat).
      { induction l as [|x l IH]; [done|]. rewrite quoted_len_cons. simpl.
        pose proof (quote_char_length x). lia. }
      specialize (Hs (c :: s)). unfold POOL_SZ in *. lia.
Qed.

Lemma shquote_word_witness :
  exists p, p `prefix_of` (bs "it's") /\ Sh.word (shquote_text "it's") = Some p /\
    ((quoted_len "it's" <= POOL_SZ - 9)%nat -> p = bs "it's") /\ (length (shquote_text "it's") < POOL_SZ)%nat.
Proof. apply (shquote_word "it's"). discriminate. Defined.

(** A leading tilde is left bare, and a shell would expand it. *)
Lemma shquote_leaves_tilde : shquote_text "~root/x" = "~root/x" /\ Sh.word (shquote_text "~root/x") = None.
Proof. split; reflexivity. Qed.

Lemma clr_args_live_witness :
  exists refs p', clr_args true [("33" : bytes, "12" : bytes); ("2" : bytes, "x" : bytes)] pool_init = Ok (refs, p') /\
    deref p' <$> refs = (fun a => clr_text true a.1 a.2) <$> [("33" : bytes, "12" : bytes); ("2" : bytes, "x" : bytes)].
Proof.
  apply (clr_args_live true [("33" : bytes, "12" : bytes); ("2" : bytes, "x" : bytes)] pool_init 2).
  - cbv. discriminate.
  - cbv. discriminate.
  - split; [reflexivity|]. cbv. split; discriminate.
Defined.

(** After [2^31 - 1] coloured fields the counter overflows. *)
Lemma clr_counter_overflows bufs : clr true "2" (Some (bs "x")) (Pool bufs INT_MAX) = Ub.
Proof. reflexivity. Qed.
