(* ===== verification/Os.v ===== *)
(** The operating system as the tracers see it: the answers of the system
    calls at the time an event is handled.  Nothing is assumed of them beyond
    their types; a theorem that needs more says so in its hypotheses. *)
From S2P Require Import Prelude CLib.

(** [readlink]: the target, or a failure with [errno == EACCES] or another. *)
Inductive link := Target (t : bytes) | LinkEacces | LinkFails.

Record os := Os {
  os_read : bytes -> option bytes;            (* the contents of a file, None: open fails *)
  os_link : bytes -> link;
  os_dir : bytes -> option (list bytes);      (* the entries of a directory *)
  os_uid : bytes -> option Z;                 (* st_uid of a path *)
  os_pwname : Z -> option bytes;              (* getpwuid *)
}.

(** [readlink(path, buf, cap - 1); buf[r] = 0]. *)
Definition readlink (o : os) (cap : nat) (path : bytes) : link :=
  match os_link o path with Target t => Target (trunc cap t) | l => l end.

(** [/proc/<pid>/<file>] *)
Definition proc_path (pid : Z) (file : bytes) : bytes := "/proc/" ++ fmt_d pid ++ "/" ++ file.

(** The owner of [/proc/<pid>]: [procUser] of c/exec.c, [proc_user] of
    c/net.c. *)
Definition procUser (o : os) (pid : Z) : bytes :=
  match os_uid o ("/proc/" ++ fmt_d pid) with
  | None => "?"
  | Some uid => match os_pwname o uid with
                | None => trunc 256 (fmt_u uid)
                | Some n => trunc 256 n
                end
  end.

(** Paths of different processes differ. *)
Lemma proc_path_inj p q f : proc_path p f = proc_path q f -> p = q.
Proof.
  unfold proc_path. intros E. apply app_inv_head in E. apply app_inv_tail in E. by apply fmt_d_inj in E.
Qed.

Lemma proc_path_eqb p q f : eqs (proc_path p f) (proc_path q f) = (p =? q).
Proof.
  destruct (p =? q) eqn:E; zbool.
  - subst. apply eqs_refl.
  - apply eqs_false. intros H. by apply proc_path_inj in H.
Qed.

(** * Reading a file

    [read_file]: the buffer doubles when it is full, and [fread] gives what it
    likes of the room that is left, a byte at least until the end. [short] is
    how much it likes at each turn. *)
Fixpoint slurp (turns : nat) (short : nat -> Z) (rest : bytes) (cap : Z) (buf : bytes) : outcome (bytes * Z) :=
  match turns with
  | O => Fuel
  | S t =>
      let cap := if blen buf =? cap then cap * 2 else cap in
      let n := Z.to_nat (Z.min (cap - blen buf) (Z.max 1 (short t))) in
      match take n rest with
      | [] => Ok (buf, cap)
      | r => slurp t short (drop n rest) cap (buf ++ r)
      end
  end.
Definition read_file (turns : nat) (short : nat -> Z) (contents : bytes) : outcome (bytes * Z) :=
  slurp turns short contents 4096 [].

(** However [fread] splits the file, all of it is read, inside of the buffer,
    and the buffer is never more than twice the file. *)
Lemma slurp_all turns short : forall rest cap buf, 0 < cap -> blen buf <= cap -> (length rest < turns)%nat ->
  exists cap', slurp turns short rest cap buf = Ok (buf ++ rest, cap') /\ blen (buf ++ rest) <= cap' /\
    cap' <= Z.max cap (2 * blen (buf ++ rest)).
Proof.
  induction turns as [|t IH]; intros rest cap buf Hc Hb Ht; [lia|]. cbn [slurp]. pose proof (blen_nonneg buf).
  set (cap1 := if blen buf =? cap then cap * 2 else cap).
  assert (H1 : blen buf < cap1 /\ cap <= cap1 <= Z.max cap (2 * blen buf)) by (unfold cap1; destruct (blen buf =? cap) eqn:E; zbool; lia).
  set (n := Z.to_nat (Z.min (cap1 - blen buf) (Z.max 1 (short t)))). assert (Hn : (1 <= n)%nat /\ Z.of_nat n <= cap1 - blen buf) by (unfold n; lia).
  destruct rest as [|x rest]; [rewrite take_nil, app_nil_r; exists cap1; split; [done|lia]|].
  destruct n as [|n]; [lia|]. cbn [take drop].
  destruct (IH (drop n rest) cap1 (buf ++ x :: take n rest)) as (cap'&->&H2&H3); [lia| |rewrite length_drop; cbn in Ht; lia|].
  - rewrite blen_app, blen_cons. unfold blen. rewrite length_take. unfold blen in *. lia.
  - exists cap'. rewrite <- app_assoc in *. cbn [app] in *. rewrite take_drop in *. split; [done|]. split; [done|].
    rewrite !blen_app in *. pose proof (blen_nonneg (x :: rest)). lia.
Qed.
Lemma read_file_all turns short s : (length s < turns)%nat ->
  exists cap, read_file turns short s = Ok (s, cap) /\ blen s <= cap <= Z.max 4096 (2 * blen s).
Proof. intros H. destruct (slurp_all turns short s 4096 []) as (cap&E&H1&H2); [done|done|done|]. by exists cap. Qed.
