(* ===== verification/Sys.v ===== *)
(** Code that is a sequence of system calls: a state monad over the history of
    the calls and of their answers, which come from an arbitrary environment.
    An answer is the number that the call returns, or minus the error number;
    the environment may answer differently at every call. *)
From S2P Require Import Prelude.

Section Sys.
Context {C : Type}.
Abbreviation history := (list (C * Z)).
Definition env : Type := history -> C -> Z.
Definition sysM (A : Type) : Type := env -> history -> A * history.

#[export] Instance sys_ret : MRet sysM := fun A a e h => (a, h).
#[export] Instance sys_bind : MBind sysM := fun A B f m e h => let '(a, h') := m e h in f a e h'.

(** One call. *)
Definition sys (c : C) : sysM Z := fun e h => let r := e h c in (r, h ++ [(c, r)]).

(** What holds of the value and of the history when the code has run. *)
Definition wp {A} (e : env) (h : history) (m : sysM A) (Q : A -> history -> Prop) : Prop := Q (m e h).1 (m e h).2.

Lemma wp_ret {A} e h (a : A) (Q : A -> history -> Prop) : Q a h -> wp e h (mret a) Q.
Proof. done. Qed.

Lemma wp_bind {A B} e h (m : sysM A) (f : A -> sysM B) Q :
  wp e h m (fun a h' => wp e h' (f a) Q) -> wp e h (m ≫= f) Q.
Proof. unfold wp, mbind, sys_bind. by destruct (m e h). Qed.

Lemma wp_sys e h c (Q : Z -> history -> Prop) : Q (e h c) (h ++ [(c, e h c)]) -> wp e h (sys c) Q.
Proof. done. Qed.

Lemma wp_mono {A} e h (m : sysM A) (P Q : A -> history -> Prop) :
  wp e h m P -> (forall a h', P a h' -> Q a h') -> wp e h m Q.
Proof. unfold wp. auto. Qed.

(** The history only grows, whatever the environment. *)
Definition grows {A} (m : sysM A) : Prop := forall e h, h `prefix_of` (m e h).2.

Lemma grows_ret {A} (a : A) : grows (mret a).
Proof. by intros e h. Qed.
Lemma grows_sys c : grows (sys c).
Proof. intros e h. by eexists. Qed.
Lemma grows_bind {A B} (m : sysM A) (f : A -> sysM B) : grows m -> (forall a, grows (f a)) -> grows (m ≫= f).
Proof.
  intros Hm Hf e h. unfold mbind, sys_bind. specialize (Hm e h). destruct (m e h) as [a h'].
  etrans; [exact Hm|apply Hf].
Qed.
Lemma wp_grows {A} e h (m : sysM A) (Q : A -> history -> Prop) :
  grows m -> wp e h m Q -> wp e h m (fun a h' => h `prefix_of` h' /\ Q a h').
Proof. intros Hg Hw. split; [apply Hg|exact Hw]. Qed.

(** ** Descriptors *)

(** The descriptors that are open after a history, given what a call opens and
    closes. *)
Context (opens : C -> Z -> option Z) (closes : C -> option Z).
Definition fd_step (fds : list Z) (x : C * Z) : list Z :=
  let fds := match closes x.1 with Some fd => filter (.≠ fd) fds | None => fds end in
  match opens x.1 x.2 with Some fd => fd :: fds | None => fds end.
Definition fds_after (h : history) : list Z := foldl fd_step [] h.

Lemma fds_app h h' : fds_after (h ++ h') = foldl fd_step (fds_after h) h'.
Proof. unfold fds_after. apply foldl_app. Qed.
Lemma fds_snoc h x : fds_after (h ++ [x]) = fd_step (fds_after h) x.
Proof. apply fds_app. Qed.

(** The kernel gives descriptors that are not in use. *)
Definition fresh_fds (e : env) : Prop := forall h c fd, opens c (e h c) = Some fd -> fd ∉ fds_after h.

(** A call that neither opens nor closes, one that opens, and the close of the
    last descriptor that was opened. *)
Lemma fds_other h c r : opens c r = None -> closes c = None -> fds_after (h ++ [(c, r)]) = fds_after h.
Proof. intros H1 H2. rewrite fds_snoc. unfold fd_step. cbn [fst snd]. by rewrite H1, H2. Qed.
Lemma fds_opened h c r fd : opens c r = Some fd -> closes c = None -> fds_after (h ++ [(c, r)]) = fd :: fds_after h.
Proof. intros H1 H2. rewrite fds_snoc. unfold fd_step. cbn [fst snd]. by rewrite H1, H2. Qed.

Lemma filter_fresh (fd : Z) (fds : list Z) : fd ∉ fds -> filter (.≠ fd) (fd :: fds) = fds.
Proof.
  intros H. rewrite filter_cons_False by auto. induction fds as [|x fds IH]; [done|]. apply not_elem_of_cons in H as [Hx H].
  rewrite filter_cons_True by auto. by rewrite IH.
Qed.

Lemma fds_closed h c r fd fds : opens c r = None -> closes c = Some fd -> fds_after h = fd :: fds -> fd ∉ fds ->
  fds_after (h ++ [(c, r)]) = fds.
Proof. intros H1 H2 Ho Hn. rewrite fds_snoc, Ho. unfold fd_step. cbn [fst snd]. rewrite H1, H2. by apply filter_fresh. Qed.
End Sys.

(** A descriptor that is not in use. *)
Definition lowest_fd (fds : list Z) : Z := 1 + foldr Z.max 2 fds.
Lemma lowest_fd_fresh fds : lowest_fd fds ∉ fds.
Proof.
  assert (H : forall x, x ∈ fds -> x <= foldr Z.max 2 fds); [|intros Hin; apply H in Hin; unfold lowest_fd in Hin; lia].
  induction fds as [|y l IH]; [by intros x ?%elem_of_nil|]. intros x [->|Hx]%elem_of_cons; cbn [foldr]; [lia|]. specialize (IH x Hx). lia.
Qed.
