(* ===== verification/Ledger.v ===== *)
(** Ownership of what a program acquires from the system and from its
    libraries (descriptors, memory, objects with a reference count): a ledger
    computed from the history of the calls, and triples that say what a piece
    of code holds before and after, whatever else is held.

    The ledger counts: a call that gives up something that is not held, or uses
    something that is neither held nor lent by what is held (an object that
    belongs to another one), has no ledger after it.  A run whose ledger is empty at its end has
    released everything that it acquired, once, and has used nothing after its
    release. *)
From S2P Require Import Prelude Sys.

(** * Multisets as lists *)

Section Remove.
Context {R : Type} `{EqDecision R}.

Fixpoint remove_one (x : R) (l : list R) : option (list R) :=
  match l with
  | [] => None
  | y :: l' => if decide (x = y) then Some l' else (y ::.) <$> remove_one x l'
  end.
Fixpoint remove_all (xs l : list R) : option (list R) :=
  match xs with [] => Some l | x :: xs' => remove_one x l ≫= remove_all xs' end.

Lemma remove_one_perm x l rest : l ≡ₚ x :: rest -> exists l', remove_one x l = Some l' /\ l' ≡ₚ rest.
Proof.
  revert rest. induction l as [|y l IH]; intros rest Hp.
  { by apply Permutation_nil_cons in Hp. }
  cbn [remove_one]. destruct (decide (x = y)) as [<-|Hn].
  - exists l. split; [done|]. by apply (Permutation.Permutation_cons_inv (a := x)).
  - assert (Hx : x ∈ l). { assert (x ∈ y :: l) as Hin by (rewrite Hp; set_solver). set_solver. }
    apply list_elem_of_split in Hx as (l1&l2&->).
    destruct (IH (l1 ++ l2)) as (l'&->&Hl'); [by rewrite Permutation_middle|].
    exists (y :: l'). split; [done|]. rewrite Hl'. apply (Permutation.Permutation_cons_inv (a := x)).
    rewrite <- Hp. rewrite Permutation_swap. by rewrite Permutation_middle.
Qed.

Lemma remove_all_perm xs l rest : l ≡ₚ xs ++ rest -> exists l', remove_all xs l = Some l' /\ l' ≡ₚ rest.
Proof.
  revert l. induction xs as [|x xs IH]; intros l Hp; cbn [remove_all]; [eauto|].
  destruct (remove_one_perm x l (xs ++ rest) Hp) as (l1&->&Hl1). by apply IH.
Qed.
End Remove.

(** ** Finding what is given up among what is held

    What is held is written as a list of elements and of segments. *)
Lemma pick_cons {R} (x y : R) l rest : l ≡ₚ x :: rest -> y :: l ≡ₚ x :: (y :: rest).
Proof. intros ->. apply Permutation_swap. Qed.
Lemma pick_cons_seg {R} s (y : R) l rest : l ≡ₚ s ++ rest -> y :: l ≡ₚ s ++ (y :: rest).
Proof. intros ->. apply Permutation_middle. Qed.
Lemma pick_seg {R} (x : R) t l rest : l ≡ₚ x :: rest -> t ++ l ≡ₚ x :: (t ++ rest).
Proof. intros ->. symmetry. apply Permutation_middle. Qed.
Lemma pick_seg_seg {R} (s t l rest : list R) : l ≡ₚ s ++ rest -> t ++ l ≡ₚ s ++ (t ++ rest).
Proof. intros ->. apply Permutation_app_swap_app. Qed.
Ltac pick := first [reflexivity | apply pick_cons; pick | apply pick_seg; pick | apply pick_cons_seg; pick | apply pick_seg_seg; pick].

Ltac held := repeat (apply Forall_cons; split);
  [repeat first [apply list_elem_of_here | apply list_elem_of_further | apply elem_of_app; right].. | apply Forall_nil_2].

(** * The ledger *)

Section Ledger.
Context {C R : Type} `{EqDecision R}.
(** What may be used while a resource is held, at least the resource itself;
    what a call uses, gives up and acquires. *)
Context (lends : R -> list R) (need : C -> list R) (takes gives : C -> Z -> list R).
Definition usable (l : list R) (y : R) : Prop := Exists (fun x => y ∈ x :: lends x) l.
#[export] Instance usable_dec l y : Decision (usable l y).
Proof. unfold usable. apply _. Defined.

Definition ledger_step (l : option (list R)) (x : C * Z) : option (list R) :=
  l ← l;
  if bool_decide (Forall (usable l) (need x.1))
  then (gives x.1 x.2 ++.) <$> remove_all (takes x.1 x.2) l else None.
Definition ledger (h : list (C * Z)) : option (list R) := foldl ledger_step (Some []) h.

(** After the history, these are held, in any order. *)
Definition holds (h : list (C * Z)) (rs : list R) : Prop := exists l, ledger h = Some l /\ l ≡ₚ rs.

#[export] Instance holds_perm : Proper ((=) ==> (≡ₚ) ==> iff) holds.
Proof. intros h ? <- rs rs' Hp. unfold holds. by setoid_rewrite Hp. Qed.

Lemma usable_mono l l' y : l ⊆ l' -> usable l y -> usable l' y.
Proof. unfold usable. rewrite !Exists_exists. intros Hl (x&Hx&Hy). exists x. split; [by apply Hl|done]. Qed.
Lemma usable_in l y : y ∈ l -> usable l y.
Proof. intros H. apply Exists_exists. exists y. split; [done|by left]. Qed.
Lemma usable_lent l x y : x ∈ l -> y ∈ lends x -> usable l y.
Proof. intros H Hy. apply Exists_exists. exists x. split; [done|by right]. Qed.

Lemma holds_start : holds [] [].
Proof. exists []. by split. Qed.

Lemma holds_call h c r rs rest : holds h rs -> Forall (usable rs) (need c) -> rs ≡ₚ takes c r ++ rest ->
  holds (h ++ [(c, r)]) (gives c r ++ rest).
Proof.
  intros (l&Hl&Hp) Hn Ht. unfold holds, ledger. rewrite foldl_app. fold (ledger h). rewrite Hl. cbn [foldl].
  unfold ledger_step. cbn [mbind option_bind fst snd]. rewrite bool_decide_true.
  - destruct (remove_all_perm (takes c r) l rest) as (l'&->&Hl'); [by rewrite Hp|].
    eexists. split; [done|]. by rewrite Hl'.
  - eapply Forall_impl; [exact Hn|]. intros x. apply usable_mono. by rewrite Hp.
Qed.

(** ** Triples *)

(** In the environment [e], and from the [n]-th call on, code that holds [pre]
    and anything else comes to a value, and holds what [post] says of it, and
    the rest untouched; the history only grows. *)
Definition triple {A} (e : @env C) (n : nat) (pre : list R) (m : sysM A) (post : A -> list R -> Prop) : Prop :=
  forall h fr, (n <= length h)%nat -> holds h (pre ++ fr) ->
    wp e h m (fun a h' => h `prefix_of` h' /\ exists rs, post a rs /\ holds h' (rs ++ fr)).

#[export] Instance triple_perm {A} e n : Proper ((≡ₚ) ==> (=) ==> (=) ==> iff) (@triple A e n).
Proof. intros p p' Hp m ? <- q ? <-. unfold triple. by setoid_rewrite Hp. Qed.

Lemma t_ret {A} e n pre (a : A) (post : A -> list R -> Prop) : post a pre -> triple e n pre (mret a) post.
Proof. intros Hp h fr _ Hh. apply wp_ret. split; [done|]. eauto. Qed.

Lemma t_conseq {A} e n pre (m : sysM A) (post post' : A -> list R -> Prop) :
  triple e n pre m post -> (forall a rs, post a rs -> post' a rs) -> triple e n pre m post'.
Proof. intros Ht Hi h fr Hl Hh. eapply wp_mono; [by apply Ht|]. intros a h' (?&rs&?&?). eauto. Qed.

(** A piece of code in its place: it is run with what it needs, and the rest is
    framed. *)
Lemma t_bind {A B} e n pre sub fr (m : sysM A) (f : A -> sysM B) mid post :
  triple e n sub m mid -> pre ≡ₚ sub ++ fr -> (forall a rs, mid a rs -> triple e n (rs ++ fr) (f a) post) ->
  triple e n pre (m ≫= f) post.
Proof.
  intros Hm Hp Hf h fr' Hl Hh. rewrite Hp, <- app_assoc in Hh. apply wp_bind. eapply wp_mono; [by apply Hm|].
  intros a h' (Hg&rs&Hmid&Hh'). rewrite app_assoc in Hh'. eapply wp_mono; [apply (Hf a rs Hmid); [|exact Hh']|].
  - apply prefix_length in Hg. lia.
  - intros b h'' (Hg'&?). split; [by etrans|done].
Qed.

Lemma t_bind0 {A B} e n pre (m : sysM A) (f : A -> sysM B) mid post :
  triple e n [] m mid -> (forall a rs, mid a rs -> triple e n (rs ++ pre) (f a) post) -> triple e n pre (m ≫= f) post.
Proof. intros Hm. by apply (t_bind e n pre [] pre). Qed.

(** One call, with what is known of its answer in this environment; or for any
    answer. *)
Lemma t_sys_lent {A} e n pre c (f : Z -> sysM A) post : Forall (usable pre) (need c) ->
  (forall h, (n <= length h)%nat ->
    exists rest, pre ≡ₚ takes c (e h c) ++ rest /\ triple e (S n) (gives c (e h c) ++ rest) (f (e h c)) post) ->
  triple e n pre (sys c ≫= f) post.
Proof.
  intros Hn Hc h fr Hl Hh. apply wp_bind, wp_sys. destruct (Hc h Hl) as (rest&Hp&Ht).
  eapply wp_mono; [apply (Ht (h ++ [(c, e h c)]) fr)|].
  - rewrite length_app. cbn. lia.
  - rewrite <- app_assoc. eapply holds_call; [exact Hh| |by rewrite Hp, app_assoc].
    eapply Forall_impl; [exact Hn|]. intros x. apply usable_mono. set_solver.
  - intros a h' (Hg&?). split; [|done]. etrans; [by eexists|exact Hg].
Qed.
Lemma t_sys_env {A} e n pre c (f : Z -> sysM A) post : Forall (.∈ pre) (need c) ->
  (forall h, (n <= length h)%nat ->
    exists rest, pre ≡ₚ takes c (e h c) ++ rest /\ triple e (S n) (gives c (e h c) ++ rest) (f (e h c)) post) ->
  triple e n pre (sys c ≫= f) post.
Proof. intros Hn. apply t_sys_lent. eapply Forall_impl; [exact Hn|]. intros x. apply usable_in. Qed.
Lemma t_sys {A} e n pre c (f : Z -> sysM A) post : Forall (.∈ pre) (need c) ->
  (forall r, exists rest, pre ≡ₚ takes c r ++ rest /\ triple e (S n) (gives c r ++ rest) (f r) post) ->
  triple e n pre (sys c ≫= f) post.
Proof. intros Hn Hc. apply t_sys_env; [done|]. intros h _. apply Hc. Qed.
(** A call that only uses. *)
Lemma t_use {A} e n pre c (f : Z -> sysM A) post : Forall (usable pre) (need c) ->
  (forall r, takes c r = [] /\ gives c r = []) -> (forall r, triple e (S n) pre (f r) post) ->
  triple e n pre (sys c ≫= f) post.
Proof.
  intros Hn Hc Hf. apply t_sys_lent; [done|]. intros h _. destruct (Hc (e h c)) as [-> ->]. exists pre. by split.
Qed.

(** What is true of the environment from a later call on stays true. *)
Lemma t_later {A} e n n' pre (m : sysM A) post : (n' <= n)%nat -> triple e n' pre m post -> triple e n pre m post.
Proof. intros Hn Ht h fr Hl Hh. apply Ht; [lia|done]. Qed.

(** ** Code that may meet undefined behaviour, or not end *)

(** The outcome is a value with [P], or undefined behaviour when [U] holds; and
    the code ends. *)
Definition ends {A} (U : Prop) (P : A -> list R -> Prop) (r : outcome A) (rs : list R) : Prop :=
  match r with Ok a => P a rs | Ub => U | Fuel => False end.
End Ledger.

(** One call of a triple; one with an answer that the environment determines;
    the end. *)
Ltac t_rest := eexists; split; [cbn; pick|cbn].
Ltac t_call := eapply t_sys; [cbn; held|intros ?; t_rest].
Ltac t_call_env h Hl := eapply t_sys_env; [cbn; held|intros h Hl; t_rest].
Ltac t_done := apply t_ret; cbn.
