(* ===== verification/Loop.v ===== *)
(** The main loops of the tracers: test a flag that signal handlers set, block
    in a read, handle what was read, for ever. A signal may come at any point
    between these steps. The loop is a step relation over the state of a
    tracer; its theorems are shared by the loops of exec.c, dns.c and net.c. *)
From S2P Require Import Prelude.

Section Loop.
(** The state of the tracer, what a read returns, what is read when the loop
    ends, the signals. *)
Context {St In Fin Sig : Type} (handle : In -> St -> outcome St) (final : Fin -> St -> outcome St) (raises : Sig -> bool).
(** Whether a read that a signal interrupts is restarted, as it is when the
    handlers are installed with SA_RESTART, or fails with EINTR. *)
Context (restarts : bool).

Inductive label := LSignal (x : Sig) | LTest | LRead (i : In) | LSkip | LDie | LStop (f : Fin).
(** Where the loop is: about to test the flag, in the read, done. *)
Inductive lstate := AtTest (s : St) (flag : bool) | AtRead (s : St) (flag : bool) | Stopped (s : St).

Definition tracer (x : lstate) : St := match x with AtTest s _ | AtRead s _ | Stopped s => s end.
Definition flag_of (x : lstate) : bool := match x with AtTest _ f | AtRead _ f => f | Stopped _ => true end.

(** The read returns something to handle, fails with EINTR and is to be tried
    again, or fails for good. *)
Inductive lstep : lstate -> label -> lstate -> Prop :=
  | StepSignalTest s f x : lstep (AtTest s f) (LSignal x) (AtTest s (f || raises x))
  | StepSignalRead s f x : lstep (AtRead s f) (LSignal x) (AtRead s (f || raises x))
  | StepTest s : lstep (AtTest s false) LTest (AtRead s false)
  | StepRead s f i s' : handle i s = Ok s' -> lstep (AtRead s f) (LRead i) (AtTest s' f)
  | StepSkip s f : restarts = false -> lstep (AtRead s f) LSkip (AtTest s f)
  | StepDie s f : lstep (AtRead s f) LDie (Stopped s)
  | StepStop s fin s' : final fin s = Ok s' -> lstep (AtTest s true) (LStop fin) (Stopped s').

Inductive lrun : lstate -> list label -> lstate -> Prop :=
  | RunNil x : lrun x [] x
  | RunCons x l y ls z : lstep x l y -> lrun y ls z -> lrun x (l :: ls) z.

(** What was read, in order, and what was read at the end. *)
Definition inputs (ls : list label) : list In := omap (fun l => match l with LRead i => Some i | _ => None end) ls.
Definition finals (ls : list label) : list Fin := omap (fun l => match l with LStop f => Some f | _ => None end) ls.
(** The steps of the loop itself. *)
Definition is_signal (l : label) : bool := match l with LSignal _ => true | _ => false end.
Definition works (ls : list label) : nat := length (List.filter (fun l => negb (is_signal l)) ls).

Fixpoint fold_in (l : list In) (s : St) : outcome St := match l with [] => Ok s | i :: l' => s' ← handle i s; fold_in l' s' end.
Fixpoint fold_fin (l : list Fin) (s : St) : outcome St := match l with [] => Ok s | i :: l' => s' ← final i s; fold_fin l' s' end.

Lemma lrun_app x ls y ls' z : lrun x ls y -> lrun y ls' z -> lrun x (ls ++ ls') z.
Proof. induction 1; [done|]. intros. econstructor; eauto. Qed.

Lemma lrun_snoc_inv x ls l z : lrun x (ls ++ [l]) z -> exists y, lrun x ls y /\ lstep y l z.
Proof.
  revert x. induction ls as [|l0 ls IH]; intros x H; cbn [app] in H.
  - inv H. match goal with H : lrun _ [] _ |- _ => inv H end. eexists. split; [constructor|done].
  - inv H. match goal with H : lrun _ (_ ++ _) _ |- _ => apply IH in H as (y'&Hr&Hs) end.
    exists y'. split; [econstructor; eauto|done].
Qed.

Lemma lrun_stopped s ls y : lrun (Stopped s) ls y -> ls = [] /\ y = Stopped s.
Proof. intros H. inv H; [done|]. match goal with H : lstep (Stopped _) _ _ |- _ => inv H end. Qed.

(** The state is the fold of what was read. *)
Lemma lrun_fold x ls y : lrun x ls y -> (s ← fold_in (inputs ls) (tracer x); fold_fin (finals ls) s) = Ok (tracer y).
Proof.
  induction 1 as [x|x l y ls z Hs Hr IH]; [done|]. destruct Hs; cbn [tracer inputs finals omap list_omap] in *; try exact IH.
  - cbn [fold_in]. by rewrite H.
  - apply lrun_stopped in Hr as [-> ->]. cbn [inputs finals omap list_omap fold_in fold_fin tracer]. rewrite ok_bind.
    cbn [fold_fin]. by rewrite H.
Qed.

(** How many steps the loop takes at most once the flag is up. *)
Definition patience (x : lstate) : nat := match x with AtTest _ _ => 1 | AtRead _ _ => 2 | Stopped _ => 0 end.

(** Once the flag is up, every step of the loop brings it closer to its end;
    the test is not passed again, so at most one more read is handled. *)
Lemma lrun_flag x ls y : lrun x ls y -> flag_of x = true ->
  flag_of y = true /\ (works ls + patience y <= patience x)%nat /\ (length (inputs ls) + 1 <= patience x \/ inputs ls = [])%nat.
Proof.
  induction 1 as [x|x l y ls z Hs Hr IH]; intros Hf; [split_and!; [done|cbn; lia|by right]|].
  assert (Hy : flag_of y = true) by (destruct Hs; cbn [flag_of] in *; subst; done).
  destruct (IH Hy) as (Hz&Hw&Hi). split; [done|].
  destruct Hs; cbn [flag_of patience works is_signal negb List.filter inputs omap list_omap length] in *;
    try discriminate; unfold works, inputs in *; cbn in *; split; try lia; try tauto.
  - left. destruct Hi as [Hi|Hi]; [lia|rewrite Hi; cbn; lia].
  - destruct Hi as [Hi|Hi]; [left; lia|by right].
  - destruct Hi as [Hi|Hi]; [left; lia|by right].
  - destruct Hi as [Hi|Hi]; [lia|by right].
Qed.

(** A run that a signal cuts in two. *)
Lemma lrun_at_signal x ls1 sg ls2 z : lrun x (ls1 ++ LSignal sg :: ls2) z ->
  exists y y', lrun x ls1 y /\ lstep y (LSignal sg) y' /\ lrun y' ls2 z.
Proof.
  revert x. induction ls1 as [|l ls1 IH]; intros x H; cbn [app] in H.
  - inv H. eexists _, _. split; [constructor|]. by split.
  - inv H. edestruct IH as (u&v&?&?&?); [eassumption|].
    exists u, v. split; [econstructor; eauto|]. by split.
Qed.

(** After a signal that raises the flag, the loop takes at most two steps and
    handles at most one read. *)
Definition ends_after (ls2 : list label) (z : lstate) : Prop :=
  (works ls2 <= 2)%nat /\ (length (inputs ls2) <= 1)%nat /\ (works ls2 = 2%nat -> exists s, z = Stopped s).
Lemma lrun_stops x ls1 sg ls2 z : raises sg = true -> lrun x (ls1 ++ LSignal sg :: ls2) z -> ends_after ls2 z.
Proof.
  intros Hsg H. apply lrun_at_signal in H as (y&y'&_&Hs&Hr).
  assert (Hy : flag_of y' = true) by (inv Hs; cbn [flag_of]; by rewrite Hsg, orb_true_r).
  destruct (lrun_flag _ _ _ Hr Hy) as (_&Hw&Hi). assert (patience y' <= 2)%nat by (destruct y'; cbn; lia).
  split_and!; [lia|destruct Hi as [Hi|Hi]; [lia|rewrite Hi; cbn; lia]|].
  intros E. destruct z; cbn [patience] in Hw; [lia|lia|eauto].
Qed.

(** The steps of the loop itself, and what they can be once the flag is up: at
    the test, nothing yet or the end; in the read, nothing until it returns. *)
Definition own (ls : list label) : list label := List.filter (fun l => negb (is_signal l)) ls.
Definition closing (s : St) (ls : list label) (y : lstate) : Prop :=
  ls = [] /\ y = AtTest s true \/ exists f s', ls = [LStop f] /\ final f s = Ok s' /\ y = Stopped s'.
Definition closing_read (s : St) (ls : list label) (y : lstate) : Prop :=
  ls = [] /\ y = AtRead s true \/ ls = [LDie] /\ y = Stopped s \/
  (exists ls', ls = LSkip :: ls' /\ restarts = false /\ closing s ls' y) \/
  (exists i s' ls', ls = LRead i :: ls' /\ handle i s = Ok s' /\ closing s' ls' y).

Lemma lrun_closing x ls y : lrun x ls y -> flag_of x = true ->
  match x with
  | AtTest s _ => closing s (own ls) y
  | AtRead s _ => closing_read s (own ls) y
  | Stopped s => own ls = [] /\ y = x
  end.
Proof.
  induction 1 as [x|x l y ls z Hs Hr IH]; intros Hf.
  - destruct x; cbn in *; subst; [by left..|done].
  - destruct Hs; cbn [flag_of own List.filter is_signal negb] in *; subst; try apply IH; try done.
    + right. right. right. exists i, s', (own ls). split_and!; [done|done|by apply IH].
    + right. right. left. exists (own ls). split_and!; [done|done|by apply IH].
    + apply lrun_stopped in Hr as [-> ->]. right. left. done.
    + apply lrun_stopped in Hr as [-> ->]. right. by exists fin, s'.
Qed.

(** After a signal that raises the flag. *)
Lemma lrun_signalled x ls1 sg ls2 z : raises sg = true -> lrun x (ls1 ++ LSignal sg :: ls2) z ->
  exists y, lrun x ls1 y /\
    match y with
    | AtTest s _ => closing s (own ls2) z
    | AtRead s _ => closing_read s (own ls2) z
    | Stopped _ => False
    end.
Proof.
  intros Hsg H. apply lrun_at_signal in H as (y&y'&H1&Hs&H2). exists y. split; [done|].
  apply lrun_closing in H2; [inv Hs; exact H2|]. inv Hs; cbn [flag_of]; by rewrite Hsg, orb_true_r.
Qed.

(** Without such a signal the loop does not end by itself. *)
Lemma lrun_goes_on x ls y : lrun x ls y -> flag_of x = false ->
  (forall sg, LSignal sg ∈ ls -> raises sg = false) -> finals ls = [].
Proof.
  induction 1 as [x|x l y ls z Hs Hr IH]; intros Hf Hsg; [done|].
  assert (Hls : forall sg, LSignal sg ∈ ls -> raises sg = false) by (intros sg Hi; apply Hsg; by right).
  destruct Hs; cbn [flag_of finals omap list_omap] in *; subst; try (apply IH; [|done]; rewrite ?(Hsg x); [done|by left]); try (by apply IH).
  - apply lrun_stopped in Hr as [-> _]. done.
  - discriminate.
Qed.

(** An invariant of the tracer is one of the loop. *)
Lemma lrun_invariant (P : St -> Prop) x ls y :
  (forall i s s', i ∈ inputs ls -> P s -> handle i s = Ok s' -> P s') -> (forall f s s', P s -> final f s = Ok s' -> P s') ->
  lrun x ls y -> P (tracer x) -> P (tracer y).
Proof.
  intros Hh Hf. induction 1 as [x|x l y ls z Hs Hr IH]; intros HP; [done|].
  apply IH; [intros i s s' Hi; apply Hh; destruct l; cbn; [done|done|by right|done..]|].
  destruct Hs; cbn [tracer] in *; try done; eauto. eapply Hh; eauto. cbn. by left.
Qed.
End Loop.
Arguments LSignal {In Fin Sig}. Arguments LTest {In Fin Sig}. Arguments LRead {In Fin Sig}.
Arguments LSkip {In Fin Sig}. Arguments LDie {In Fin Sig}. Arguments LStop {In Fin Sig}.

(** * The child of a command

    [g_child] is set after the fork; the handler of SIGCHLD compares the
    processes it reaps with it. *)
Record child := Child { g_child : Z; handler : bool; exited : bool }.
Definition child0 : child := Child 0 false false.
Inductive child_ev := InstallHandler | Forked (pid : Z) | Sigchld (reaped : list Z).
(** The loop around [waitpid(-1, &st, WNOHANG)]: its answers, up to the first
    that is not positive. *)
Fixpoint reaped_known (g : Z) (answers : list Z) : bool :=
  match answers with
  | [] => false
  | r :: answers' => if 0 <? r then (r =? g) || reaped_known g answers' else false
  end.
(** The handler reaps every child that has ended, and raises the flag for the
    one it knows. Without a handler, the default action is to do nothing. *)
Definition on_child (reaped : list Z) (c : child) : child :=
  if handler c then Child (g_child c) true (exited c || reaped_known (g_child c) reaped) else c.
Definition child_step (c : child) (ev : child_ev) : child :=
  match ev with
  | InstallHandler => Child (g_child c) true (exited c)
  | Forked pid => Child pid (handler c) (exited c)
  | Sigchld reaped => on_child reaped c
  end.
