(* ===== verification/Start.v ===== *)
(** The set-up of a tracer: the system calls that the main functions of
    c/exec.c, c/net.c and c/dns.c make before their loops, the errors that end
    the process, and the start of a command. *)
From S2P Require Import Prelude CLib Sys.

Inductive call :=
  | OpenLog (path : bytes)
  | Socket (domain type proto : Z)
  | Bind (fd groups pid : Z)
  | SendTo (fd : Z) (msg : bytes)
  | OpenFile (path : bytes)
  | OpenFlags (path : bytes) (flags : Z)
  | Ioctl (fd : Z) (request arg : bytes)
  | WriteFd (fd : Z) (b : bytes)
  | Close (fd : Z)
  | Signal (name : bytes)
  | Fork
  | Execvp (argv : list bytes)
  | WaiterThread
  | Waitpid (pid : Z)
  | Nanosleep (ns : Z)
  | ExitNow (status : Z).
Abbreviation callM := (sysM (C := call)).
Abbreviation calls := (list (call * Z)).

(** What the set-up comes to: the loop, with what it runs on; or the end of the
    process, with its status and what it prints on the standard error; the
    usage text is printed by [UsageEnd], with its status. *)
Inductive started (A : Type) := ToLoop (a : A) | ExitWith (status : Z) (text : bytes) | UsageEnd (status : Z).
Arguments ToLoop {A}. Arguments ExitWith {A}. Arguments UsageEnd {A}.

Definition NL : bytes := ["010"%char].

Section Start.
(** The messages of [strerror], and the name in front of the messages. *)
Context {A : Type} (strerror : Z -> bytes) (prog : bytes).

Definition fatalf (msg : bytes) : started A := ExitWith 1 (prog ++ msg ++ NL).
Definition on_error (bad : bool) (msg : bytes) (k : callM (started A)) : callM (started A) :=
  if bad then mret (fatalf msg) else k.

(** The output file, when one is named. *)
Definition open_log (path : option bytes) (k : callM (started A)) : callM (started A) :=
  match path with
  | Some ((_ :: _) as f) => r ← sys (OpenLog f); on_error (r <? 0) ("open " ++ f ++ ": " ++ strerror (- r)) k
  | _ => k
  end.

(** The command: the fork, and in the child [execvp], which comes back only
    when it fails. *)
Definition fork_command (status : Z) (text what : Z -> bytes) (cmd : list bytes) (k : Z -> callM (started A)) : callM (started A) :=
  pid ← sys Fork;
  on_error (pid <? 0) (what (- pid))
    (if pid =? 0 then e ← sys (Execvp cmd); mret (ExitWith status (text (- e))) else k pid).
Definition exec_failed (cmd : list bytes) (err : Z) : bytes := "exec " ++ default [] (head cmd) ++ ": " ++ strerror err.

(** What comes of it, for every answer of [fork]. *)
Definition forked (status : Z) (cmd : list bytes) (pid : Z) (r : started A) (post : calls) (k : started A) : Prop :=
  (pid < 0 /\ post = [] /\ exists m, r = fatalf m) \/
  (pid = 0 /\ exists e m, post = [(Execvp cmd, e)] /\ r = ExitWith status m) \/
  (0 < pid /\ post = [] /\ r = k).

Lemma wp_on_error bad msg k (Q : started A -> calls -> Prop) e h :
  (bad = true -> Q (fatalf msg) h) -> (bad = false -> wp e h k Q) -> wp e h (on_error bad msg k) Q.
Proof. intros H1 H2. unfold on_error. destruct bad; [by apply wp_ret, H1|by apply H2]. Qed.

Lemma wp_open_log path k (Q : started A -> calls -> Prop) e :
  (forall h, (h = [] \/ exists f r, path = Some f /\ h = [(OpenLog f, r)]) -> wp e h k Q) ->
  (forall f r m, Q (fatalf m) [(OpenLog f, r)]) ->
  wp e [] (open_log path k) Q.
Proof.
  intros Hk Hf. unfold open_log. destruct path as [[|x f]|]; [apply Hk; by left| |apply Hk; by left].
  apply wp_bind, wp_sys. cbn [app]. apply wp_on_error; intros _; [apply Hf|apply Hk; right; eauto].
Qed.

Lemma wp_fork_command status text what cmd k (Q : started A -> calls -> Prop) e h :
  (forall pid r post, pid <= 0 -> (forall k, forked status cmd pid r post k) -> Q r (h ++ [(Fork, pid)] ++ post)) ->
  (forall pid, 0 < pid -> wp e (h ++ [(Fork, pid)]) (k pid) Q) ->
  wp e h (fork_command status text what cmd k) Q.
Proof.
  intros Hq Hk. unfold fork_command. apply wp_bind, wp_sys. set (pid := e h Fork).
  apply wp_on_error; intros Hp; zbool.
  - apply (Hq pid _ []); [lia|]. intros k'. left. eauto.
  - destruct (pid =? 0) eqn:E; zbool; [|apply Hk; lia].
    apply wp_bind, wp_sys, wp_ret. rewrite <- app_assoc. apply Hq; [lia|]. intros k'. right. left. eauto.
Qed.

End Start.

Lemma log_no_fork path (h : calls) : (h = [] \/ exists f r, path = Some f /\ h = [(OpenLog f, r)]) -> Fork ∉ h.*1.
Proof. intros [->|(f&r&_&->)]; cbn; set_solver. Qed.
Lemma snoc_no_fork (h : calls) x r : Fork ∉ h.*1 -> x <> Fork -> Fork ∉ (h ++ [(x, r)]).*1.
Proof. intros. rewrite fmap_app. cbn. set_solver. Qed.
#[export] Hint Resolve log_no_fork snoc_no_fork : trace.
