(* ===== verification/ProbeTable.v ===== *)
(** Open addressing with linear probing and deletion by re-insertion of the
    following cluster: the table that c/exec.c writes twice ([pidDB] and
    [macDB]) and c/net.c once without deletion ([net_seen]).

    The definitions follow the C text for an arbitrary entry type, key, hash
    and power-of-two capacity; the specification is the finite map from keys
    to entries. *)
From S2P Require Import Prelude.

Section ProbeTable.
Context {K E : Type} `{Countable K}.
Context (key : E -> K) (home : K -> Z) (bits : Z).

Definition cap : Z := 2 ^ bits.

(** [(i + probe) & (CAP - 1)] *)
Definition slot (i probe : Z) : Z := Z.land (i + probe) (cap - 1).

(** The used slots (a slot that is absent has [used == false]) and the
    element count. *)
Record ptable := PTable { pt_slots : gmap Z E; pt_len : Z }.
Definition pt_empty : ptable := PTable ∅ 0.

(** ** Operations *)

(** What the probe loop stops at: the entry of the key, the first unused
    slot, or the end of the [CAP] probes. *)
Inductive probe_res := Hit (j : Z) | Hole (j : Z) | Full.

Fixpoint probe_go (m : gmap Z E) (k : K) (i probe : Z) (n : nat) : probe_res :=
  match n with
  | O => Full
  | S n' =>
      let j := slot i probe in
      match m !! j with
      | None => Hole j
      | Some e => if decide (key e = k) then Hit j else probe_go m k i (probe + 1) n'
      end
  end.
Definition probe (m : gmap Z E) (k : K) : probe_res :=
  probe_go m k (home k) 0 (Z.to_nat cap).

(** The entry for a key, or a null pointer. *)
Definition pt_find (t : ptable) (k : K) : option E :=
  match probe (pt_slots t) k with Hit j => pt_slots t !! j | _ => None end.

(** Writing [e] through the pointer the [get] function returns for its key:
    into the entry found, or into the first unused slot, which is counted.
    [None] is the null pointer of a full table. *)
Definition pt_put (t : ptable) (e : E) : option ptable :=
  match probe (pt_slots t) (key e) with
  | Hit j => Some (PTable (<[j := e]> (pt_slots t)) (pt_len t))
  | Hole j => Some (PTable (<[j := e]> (pt_slots t)) (pt_len t + 1))
  | Full => None
  end.

(** The [for (;;)] loop of the delete function: empty slot [j + 1], put its
    entry back from its home slot, go on until an unused slot. *)
Fixpoint reinsert (fuel : nat) (t : ptable) (j : Z) : outcome ptable :=
  match fuel with
  | O => Fuel
  | S f =>
      let j := Z.land (j + 1) (cap - 1) in
      match pt_slots t !! j with
      | None => Ok t
      | Some e =>
          match pt_put (PTable (delete j (pt_slots t)) (pt_len t - 1)) e with
          | None => Ub
          | Some t' => reinsert f t' j
          end
      end
  end.

Definition pt_delete (t : ptable) (k : K) : outcome ptable :=
  match probe (pt_slots t) k with
  | Hit j => reinsert (Z.to_nat cap) (PTable (delete j (pt_slots t)) (pt_len t - 1)) j
  | _ => Ok t
  end.

(** ** Specification *)

Definition occ (m : gmap Z E) (i : Z) : Prop := is_Some (m !! i).

(** The entry at [i] is reached by probing from its home slot. *)
Definition path_ok (m : gmap Z E) (i : Z) (e : E) : Prop :=
  exists p, 0 <= p < cap /\ slot (home (key e)) p = i /\
    forall q, 0 <= q < p -> occ m (slot (home (key e)) q).

Definition in_range (m : gmap Z E) : Prop := forall i e, m !! i = Some e -> 0 <= i < cap.
Definition uniq (m : gmap Z E) : Prop :=
  forall i j e e', m !! i = Some e -> m !! j = Some e' -> key e = key e' -> i = j.

Record pt_wf (t : ptable) : Prop := {
  wf_range : in_range (pt_slots t);
  wf_uniq : uniq (pt_slots t);
  wf_path : forall i e, pt_slots t !! i = Some e -> path_ok (pt_slots t) i e;
  wf_len : pt_len t = Z.of_nat (size (pt_slots t));
}.

(** The finite map the table stands for. *)
Definition absm (m : gmap Z E) : gmap K E :=
  list_to_map ((fun ie => (key ie.2, ie.2)) <$> map_to_list m).
Definition pt_abs (t : ptable) : gmap K E := absm (pt_slots t).

(** ** Slot arithmetic *)

Hypothesis bits_nonneg : 0 <= bits.
Hypothesis home_range : forall k, 0 <= home k < cap.

Lemma cap_pos : 0 < cap.
Proof using bits_nonneg. unfold cap. lia. Qed.

Lemma slot_mod i p : slot i p = (i + p) mod cap.
Proof using bits_nonneg. unfold slot, cap. by apply land_mask. Qed.

Lemma slot_range i p : 0 <= slot i p < cap.
Proof using bits_nonneg. rewrite slot_mod. apply Z.mod_pos_bound, cap_pos. Qed.

Lemma slot_to i h : 0 <= i < cap -> slot h ((i - h) mod cap) = i.
Proof using bits_nonneg.
  intros Hi. pose proof cap_pos. rewrite slot_mod, Z.add_mod_idemp_r by lia.
  replace (h + (i - h)) with i by lia. by apply Z.mod_small.
Qed.

(** ** The probe loop *)

Definition others (m : gmap Z E) (k : K) (i p q : Z) : Prop :=
  forall r, p <= r < q -> exists e, m !! slot i r = Some e /\ key e <> k.

Lemma probe_go_spec m k i p n :
  match probe_go m k i p n with
  | Hit j => exists q, p <= q < p + Z.of_nat n /\ j = slot i q /\ others m k i p q /\
               exists e, m !! j = Some e /\ key e = k
  | Hole j => exists q, p <= q < p + Z.of_nat n /\ j = slot i q /\ others m k i p q /\ m !! j = None
  | Full => others m k i p (p + Z.of_nat n)
  end.
Proof.
  revert p. induction n as [|n IH]; intros p; cbn [probe_go].
  - intros r Hr. lia.
  - destruct (m !! slot i p) as [e|] eqn:Em.
    + destruct (decide (key e = k)) as [Hk|Hk].
      * exists p. split_and!; [lia|lia|done|intros r Hr; lia|eauto].
      * assert (Hstep : forall q, others m k i (p + 1) q -> others m k i p q).
        { intros q Ho r Hr. destruct (decide (r = p)) as [->|]; [eauto|apply Ho; lia]. }
        specialize (IH (p + 1)). destruct (probe_go m k i (p + 1) n) as [j|j|].
        -- destruct IH as (q&Hq&Hj&Ho&He). exists q. split_and!; auto; lia.
        -- destruct IH as (q&Hq&Hj&Ho&He). exists q. split_and!; auto; lia.
        -- apply Hstep. by replace (p + Z.of_nat (S n)) with (p + 1 + Z.of_nat n) by lia.
    + exists p. split_and!; [lia|lia|done|intros r Hr; lia|done].
Qed.

(** A key found by probing is in the table, and conversely. *)
Lemma probe_hit_inv m k j : probe m k = Hit j -> exists e, m !! j = Some e /\ key e = k.
Proof.
  intros Hp. pose proof (probe_go_spec m k (home k) 0 (Z.to_nat cap)) as Hs.
  unfold probe in Hp. rewrite Hp in Hs. by destruct Hs as (q&_&_&_&?).
Qed.

Lemma probe_hit m i e : uniq m -> m !! i = Some e -> path_ok m i e -> probe m (key e) = Hit i.
Proof using bits_nonneg.
  intros Hu Hi (p&Hp&Hs&Hocc). pose proof cap_pos.
  pose proof (probe_go_spec m (key e) (home (key e)) 0 (Z.to_nat cap)) as Hspec.
  unfold probe. destruct (probe_go _ _ _ _ _) as [j|j|].
  - destruct Hspec as (q&_&_&_&e'&Hj&Hk). f_equal. by eapply Hu.
  - destruct Hspec as (q&Hq&->&Ho&Hnone). exfalso.
    destruct (Z.lt_trichotomy q p) as [Hlt|[->|Hlt]].
    + destruct (Hocc q) as [? ?]; [lia|congruence].
    + congruence.
    + destruct (Ho p) as (e'&He'&Hne); [lia|]. rewrite Hs in He'. congruence.
  - exfalso. destruct (Hspec p) as (e'&He'&Hne); [lia|]. rewrite Hs in He'. congruence.
Qed.

(** ** A table that is not full has an unused slot *)

Lemma all_occ_size m : (forall i, 0 <= i < cap -> occ m i) -> cap <= Z.of_nat (size m).
Proof using bits_nonneg.
  intros Hall. pose proof cap_pos.
  assert (Hsub : list_to_set (seqZ 0 cap) ⊆ dom m).
  { intros i Hi. apply elem_of_list_to_set, elem_of_seqZ in Hi.
    apply elem_of_dom, Hall. lia. }
  apply subseteq_size in Hsub. rewrite size_list_to_set in Hsub by apply NoDup_seqZ.
  rewrite length_seqZ, size_dom in Hsub. lia.
Qed.

Lemma probe_not_full m k : Z.of_nat (size m) < cap -> probe m k <> Full.
Proof using bits_nonneg.
  intros Hs Hp. pose proof cap_pos.
  pose proof (probe_go_spec m k (home k) 0 (Z.to_nat cap)) as Hspec.
  unfold probe in Hp. rewrite Hp in Hspec.
  enough (cap <= Z.of_nat (size m)) by lia. apply all_occ_size. intros i Hi.
  destruct (Hspec ((i - home k) mod cap)) as (e&He&_).
  - pose proof (Z.mod_pos_bound (i - home k) cap). lia.
  - rewrite slot_to in He by done. by eexists.
Qed.

(** ** The abstract map *)

Lemma absm_NoDup m : uniq m -> NoDup ((fun ie => (key ie.2, ie.2)) <$> map_to_list m).*1.
Proof.
  intros Hu. rewrite <- list_fmap_compose.
  apply NoDup_fmap_2_strong; [|apply NoDup_map_to_list].
  intros [i e1] [j e2] H1 H2 Heq. simpl in Heq.
  apply elem_of_map_to_list in H1, H2.
  assert (i = j) as -> by (by eapply Hu). congruence.
Qed.

Lemma absm_spec m k e : uniq m -> absm m !! k = Some e <-> exists i, m !! i = Some e /\ key e = k.
Proof.
  intros Hu. unfold absm. rewrite <- elem_of_list_to_map by (by apply absm_NoDup).
  rewrite list_elem_of_fmap. split.
  - intros ([i e']&Heq&Hin). simplify_eq/=. apply elem_of_map_to_list in Hin. eauto.
  - intros (i&Hi&<-). exists (i, e). split; [done|]. by apply elem_of_map_to_list.
Qed.

Lemma absm_size m : uniq m -> size (absm m) = size m.
Proof.
  intros Hu. rewrite <- length_map_to_list. unfold absm.
  rewrite (Permutation_length (map_to_list_to_map _ (absm_NoDup m Hu))).
  by rewrite length_fmap, length_map_to_list.
Qed.

Lemma absm_None m k : uniq m -> absm m !! k = None <-> forall i e, m !! i = Some e -> key e <> k.
Proof.
  intros Hu. rewrite eq_None_not_Some. split.
  - intros Hn i e Hi Hk. apply Hn. exists e. apply absm_spec; eauto.
  - intros Hn [e He]. apply absm_spec in He as (i&Hi&Hk); [|done]. by eapply Hn.
Qed.

Lemma pt_find_abs t k : pt_wf t -> pt_find t k = pt_abs t !! k.
Proof using bits_nonneg.
  intros [_ Hu Hp _]. unfold pt_find, pt_abs.
  destruct (absm (pt_slots t) !! k) as [e|] eqn:Ha.
  - apply absm_spec in Ha as (i&Hi&<-); [|done].
    rewrite (probe_hit _ i) by auto. done.
  - rewrite absm_None in Ha by done.
    destruct (probe (pt_slots t) k) as [j|j|] eqn:Hpr; try done.
    apply probe_hit_inv in Hpr as (e&He&Hk). destruct (Ha j e He Hk).
Qed.

(** ** put *)

Lemma occ_insert m j e i : occ m i -> occ (<[j := e]> m) i.
Proof. unfold occ. intros. rewrite lookup_insert. case_decide; eauto. Qed.

Lemma path_ok_mono m m' i e : (forall i, occ m i -> occ m' i) -> path_ok m i e -> path_ok m' i e.
Proof. intros Hm (p&?&?&?). exists p. auto. Qed.

Lemma path_ok_key m i e e' : key e = key e' -> path_ok m i e -> path_ok m i e'.
Proof. unfold path_ok. by intros ->. Qed.

Lemma put_hit t j e : pt_wf t -> probe (pt_slots t) (key e) = Hit j ->
  let t' := PTable (<[j := e]> (pt_slots t)) (pt_len t) in
  pt_wf t' /\ pt_abs t' = <[key e := e]> (pt_abs t).
Proof using bits_nonneg.
  intros [Hr Hu Hp Hl] Hpr t'. apply probe_hit_inv in Hpr as (e0&Hj&Hk0).
  assert (Hu' : uniq (pt_slots t')).
  { intros i1 i2 e1 e2 H1 H2 Hk. simpl in *. rewrite lookup_insert in H1, H2.
    repeat case_decide; simplify_eq; eauto.
    - symmetry. eapply Hu; [done..|congruence].
    - eapply Hu; [done..|congruence]. }
  split; [split|].
  - intros i e1 H1. simpl in H1. rewrite lookup_insert in H1. case_decide; simplify_eq; eauto.
  - done.
  - intros i e1 H1. simpl in *. eapply path_ok_mono; [intros; by apply occ_insert|].
    rewrite lookup_insert in H1. case_decide; simplify_eq; [|eauto].
    eapply path_ok_key; eauto.
  - simpl. rewrite map_size_insert_Some by eauto. done.
  - apply map_eq. intros k. unfold pt_abs. apply option_eq. intros e1.
    rewrite (absm_spec (pt_slots t')), lookup_insert by done. case_decide as Hk.
    + split.
      * intros (i&Hi&<-). simpl in Hi. rewrite lookup_insert in Hi. case_decide; [done|].
        exfalso. assert (i = j) by (eapply Hu; [done..|congruence]). congruence.
      * intros [= <-]. exists j. split; [apply lookup_insert_eq|done].
    + rewrite absm_spec by done. split; intros (i&Hi&<-); simpl in *; exists i.
      * rewrite lookup_insert in Hi. case_decide; [congruence|done].
      * split; [|done]. rewrite lookup_insert_ne; [done|]. congruence.
Qed.

Lemma put_hole t j e : pt_wf t -> probe (pt_slots t) (key e) = Hole j ->
  let t' := PTable (<[j := e]> (pt_slots t)) (pt_len t + 1) in
  pt_wf t' /\ pt_abs t' = <[key e := e]> (pt_abs t) /\ pt_abs t !! key e = None.
Proof using bits_nonneg.
  intros [Hr Hu Hp Hl] Hpr t'.
  assert (Hno : forall i e', pt_slots t !! i = Some e' -> key e' <> key e).
  { intros i e' Hi Hk. rewrite <- Hk, (probe_hit _ i) in Hpr by eauto. done. }
  pose proof (probe_go_spec (pt_slots t) (key e) (home (key e)) 0 (Z.to_nat cap)) as Hs.
  unfold probe in Hpr. rewrite Hpr in Hs. destruct Hs as (q&Hq&Hj&Ho&Hnone).
  pose proof cap_pos.
  assert (Hu' : uniq (pt_slots t')).
  { intros i1 i2 e1 e2 H1 H2 Hk. simpl in *. rewrite lookup_insert in H1, H2.
    repeat case_decide; simplify_eq; eauto.
    - exfalso. by eapply Hno.
    - exfalso. by eapply Hno. }
  split_and!; [split| |].
  - intros i e1 H1. simpl in H1. rewrite lookup_insert in H1.
    case_decide; simplify_eq; [apply slot_range|eauto].
  - done.
  - intros i e1 H1. simpl in *. eapply path_ok_mono; [intros; by apply occ_insert|].
    rewrite lookup_insert in H1. case_decide; simplify_eq; [|eauto].
    exists q. split_and!; [lia|lia|done|].
    intros r Hrq. destruct (Ho r) as (e'&?&_); [lia|]. by eexists.
  - simpl. rewrite map_size_insert_None by done. lia.
  - apply map_eq. intros k. unfold pt_abs. apply option_eq. intros e1.
    rewrite (absm_spec (pt_slots t')), lookup_insert by done. case_decide as Hk.
    + split.
      * intros (i&Hi&<-). simpl in Hi. rewrite lookup_insert in Hi. case_decide; [done|].
        exfalso. by eapply Hno.
      * intros [= <-]. exists j. split; [apply lookup_insert_eq|done].
    + rewrite absm_spec by done. split; intros (i&Hi&<-); simpl in *; exists i.
      * rewrite lookup_insert in Hi. case_decide; [congruence|done].
      * split; [|done]. rewrite lookup_insert_ne; [done|]. congruence.
  - apply absm_None; done.
Qed.

Lemma pt_put_spec t e : pt_wf t -> Z.of_nat (size (pt_slots t)) < cap ->
  exists t', pt_put t e = Some t' /\ pt_wf t' /\ pt_abs t' = <[key e := e]> (pt_abs t).
Proof using bits_nonneg.
  intros Hwf Hs. unfold pt_put. destruct (probe (pt_slots t) (key e)) as [j|j|] eqn:Hp.
  - eexists. split; [done|]. by apply put_hit.
  - eexists. split; [done|]. by destruct (put_hole t j e Hwf Hp) as (?&?&_).
  - by apply probe_not_full in Hp.
Qed.

(** Storing over an entry that is present needs no unused slot. *)
Lemma pt_store_spec t e : pt_wf t -> is_Some (pt_abs t !! key e) ->
  exists t', pt_put t e = Some t' /\ pt_wf t' /\ pt_abs t' = <[key e := e]> (pt_abs t).
Proof using bits_nonneg.
  intros Hw [e0 He0]. rewrite <- pt_find_abs in He0 by done.
  unfold pt_find in He0. unfold pt_put.
  destruct (probe (pt_slots t) (key e)) as [j|j|] eqn:Hp; try done.
  eexists. split; [done|]. by apply put_hit.
Qed.

(** Its entries carry their own key. *)
Lemma pt_abs_key t k e : pt_wf t -> pt_abs t !! k = Some e -> key e = k.
Proof. intros [_ Hu _ _] He. by apply absm_spec in He as (i&_&?). Qed.

Lemma pt_abs_size t : pt_wf t -> size (pt_abs t) = size (pt_slots t).
Proof. intros [_ Hu _ _]. by apply absm_size. Qed.

(** ** Coordinates relative to an unused slot

    Cutting the ring after an unused slot [f] turns every probe path into an
    interval: [off f i] is the distance of slot [i] from the cut, [pos f x]
    the slot at distance [x], and [f] itself is the last one. *)

Definition off (f i : Z) : Z := (i - f - 1) mod cap.
Definition pos (f x : Z) : Z := (f + 1 + x) mod cap.

Lemma off_range f i : 0 <= off f i < cap.
Proof using bits_nonneg. apply Z.mod_pos_bound, cap_pos. Qed.

Lemma pos_range f x : 0 <= pos f x < cap.
Proof using bits_nonneg. apply Z.mod_pos_bound, cap_pos. Qed.

Lemma pos_off f i : 0 <= i < cap -> pos f (off f i) = i.
Proof using bits_nonneg.
  intros Hi. pose proof cap_pos. unfold pos, off. rewrite Z.add_mod_idemp_r by lia.
  replace (f + 1 + (i - f - 1)) with i by lia. by apply Z.mod_small.
Qed.

Lemma off_pos f x : 0 <= x < cap -> off f (pos f x) = x.
Proof using bits_nonneg.
  intros Hx. pose proof cap_pos. unfold pos, off.
  replace ((f + 1 + x) mod cap - f - 1) with ((f + 1 + x) mod cap + (- f - 1)) by lia.
  rewrite Z.add_mod_idemp_l by lia.
  replace (f + 1 + x + (- f - 1)) with x by lia. by apply Z.mod_small.
Qed.

Lemma pos_last f : 0 <= f < cap -> pos f (cap - 1) = f.
Proof using bits_nonneg.
  intros Hf. pose proof cap_pos. unfold pos.
  replace (f + 1 + (cap - 1)) with (f + 1 * cap) by lia.
  rewrite Z.mod_add by lia. by apply Z.mod_small.
Qed.

Lemma pos_succ f x : Z.land (pos f x + 1) (cap - 1) = pos f (x + 1).
Proof using bits_nonneg.
  pose proof cap_pos. change (slot (pos f x) 1 = pos f (x + 1)). rewrite slot_mod.
  unfold pos. rewrite Z.add_mod_idemp_l by lia. f_equal. lia.
Qed.

Lemma slot_pos f h p : 0 <= h < cap -> slot h p = pos f (off f h + p).
Proof using bits_nonneg.
  intros Hh. pose proof cap_pos. rewrite slot_mod. unfold pos, off.
  replace (f + 1 + ((h - f - 1) mod cap + p)) with ((h - f - 1) mod cap + (f + 1 + p)) by lia.
  rewrite Z.add_mod_idemp_l by lia. f_equal. lia.
Qed.

(** The probe path of an entry as an interval. *)
Definition lin_ok (f : Z) (m : gmap Z E) (i : Z) (e : E) : Prop :=
  off f (home (key e)) <= off f i /\
  forall x, off f (home (key e)) <= x < off f i -> occ m (pos f x).

Lemma path_lin f m i e : 0 <= f < cap -> m !! f = None -> m !! i = Some e ->
  path_ok m i e -> lin_ok f m i e.
Proof using bits_nonneg home_range.
  intros Hf Hfe Hi (p&Hp&Hs&Ho). pose proof cap_pos. unfold lin_ok.
  pose proof (off_range f (home (key e))) as Hh. set (h := home (key e)) in *.
  assert (Hfit : off f h + p < cap).
  { destruct (decide (off f h + p < cap)) as [|Hge]; [done|exfalso].
    assert (Hq : slot h (cap - 1 - off f h) = f).
    { rewrite (slot_pos f) by apply home_range.
      replace (off f h + (cap - 1 - off f h)) with (cap - 1) by lia. by apply pos_last. }
    destruct (decide (cap - 1 - off f h = p)) as [Heq|].
    - rewrite Heq, Hs in Hq. congruence.
    - destruct (Ho (cap - 1 - off f h)) as [? Hsome]; [lia|]. congruence. }
  assert (Hoi : off f i = off f h + p).
  { rewrite <- Hs, (slot_pos f) by apply home_range. apply off_pos. lia. }
  split; [lia|]. intros x Hx. specialize (Ho (x - off f h)).
  rewrite (slot_pos f) in Ho by apply home_range.
  replace (off f h + (x - off f h)) with x in Ho by lia. apply Ho. lia.
Qed.

Lemma lin_path f m i e : 0 <= i < cap -> lin_ok f m i e -> path_ok m i e.
Proof using bits_nonneg home_range.
  intros Hi [Hle Ho]. pose proof (off_range f i). pose proof (off_range f (home (key e))).
  exists (off f i - off f (home (key e))). split_and!.
  - lia.
  - lia.
  - rewrite (slot_pos f) by apply home_range.
    replace (off f (home (key e)) + (off f i - off f (home (key e)))) with (off f i) by lia.
    by apply pos_off.
  - intros q Hq. rewrite (slot_pos f) by apply home_range. apply Ho. lia.
Qed.

(** ** The re-insertion loop

    [pend f a x m]: the slots at distances [a+1 .. x-1] have been processed;
    an entry at distance at least [x] may still have an unused slot of
    [a .. x-1] on its path. *)
Record pend (f a x : Z) (m : gmap Z E) : Prop := {
  pe_range : in_range m;
  pe_uniq : uniq m;
  pe_cut : m !! f = None;
  pe_run : forall y, x <= y < cap - 1 -> occ m (pos f y);
  pe_path : forall i e, m !! i = Some e ->
    off f (home (key e)) <= off f i /\
    forall y, off f (home (key e)) <= y < off f i ->
      occ m (pos f y) \/ (a <= y < x /\ x <= off f i);
}.

(** The same entries, in whatever slots. *)
Definition same_entries (m m' : gmap Z E) : Prop :=
  forall e, (exists i, m !! i = Some e) <-> (exists i, m' !! i = Some e).

Lemma pend_step f a x m e :
  0 <= f < cap -> 0 <= a < x -> x < cap - 1 -> pend f a x m -> m !! pos f x = Some e ->
  exists q, probe (delete (pos f x) m) (key e) = Hole q /\
    (delete (pos f x) m) !! q = None /\ 0 <= q < cap /\
    off f (home (key e)) <= off f q <= x /\
    forall y, off f (home (key e)) <= y < off f q -> occ (delete (pos f x) m) (pos f y).
Proof using bits_nonneg home_range.
  intros Hf Ha Hx [Hr Hu Hcut Hrun Hpath] He.
  set (m1 := delete (pos f x) m). set (h := home (key e)).
  pose proof cap_pos. pose proof (off_range f h) as Hh.
  destruct (Hpath _ _ He) as [Hle _]. rewrite off_pos in Hle by lia. fold h in Hle.
  assert (Hx0 : m1 !! slot h (x - off f h) = None).
  { rewrite (slot_pos f) by apply home_range.
    replace (off f h + (x - off f h)) with x by lia. apply lookup_delete_eq. }
  pose proof (probe_go_spec m1 (key e) h 0 (Z.to_nat cap)) as Hs.
  unfold probe. fold h. destruct (probe_go _ _ _ _ _) as [j|j|].
  - exfalso. destruct Hs as (_&_&_&_&e'&Hj&Hk). unfold m1 in Hj.
    rewrite lookup_delete in Hj. case_decide as Hne; [done|].
    apply Hne. by eapply Hu.
  - destruct Hs as (q&Hq&->&Ho&Hnone).
    assert (Hqx : q <= x - off f h).
    { destruct (decide (q <= x - off f h)) as [|]; [done|].
      destruct (Ho (x - off f h)) as (?&?&_); [lia|congruence]. }
    assert (Hoff : off f (slot h q) = off f h + q).
    { rewrite (slot_pos f) by apply home_range. apply off_pos. lia. }
    exists (slot h q). rewrite Hoff. split_and!; try done; try lia; try apply slot_range.
    intros y Hy. destruct (Ho (y - off f h)) as (e'&He'&_); [lia|].
    rewrite (slot_pos f) in He' by apply home_range.
    replace (off f h + (y - off f h)) with y in He' by lia. by eexists.
  - exfalso. destruct (Hs (x - off f h)) as (?&?&_); [lia|congruence].
Qed.

Lemma off_inj f i j : 0 <= i < cap -> 0 <= j < cap -> off f i = off f j -> i = j.
Proof using bits_nonneg. intros Hi Hj Ho. rewrite <- (pos_off f i), <- (pos_off f j) by done. by rewrite Ho. Qed.

Lemma pend_next f a x m e q :
  0 <= f < cap -> 0 <= a < x -> x < cap - 1 -> pend f a x m -> m !! pos f x = Some e ->
  0 <= q < cap -> off f (home (key e)) <= off f q <= x ->
  (delete (pos f x) m) !! q = None ->
  (forall y, off f (home (key e)) <= y < off f q -> occ (delete (pos f x) m) (pos f y)) ->
  pend f a (x + 1) (<[q := e]> (delete (pos f x) m)).
Proof using bits_nonneg home_range.
  intros Hf Ha Hx [Hr Hu Hcut Hrun Hpath] He Hq Hoq Hnone Hfill.
  set (m1 := delete (pos f x) m) in *.
  assert (Hold : forall i e', (<[q := e]> m1) !! i = Some e' ->
            (i = q /\ e' = e) \/ (i <> q /\ i <> pos f x /\ m !! i = Some e')).
  { intros i e' Hi. rewrite lookup_insert in Hi. case_decide; simplify_eq; [by left|right].
    unfold m1 in Hi. rewrite lookup_delete in Hi. case_decide; [done|]. auto. }
  assert (Hocc : forall y, 0 <= y < cap -> y <> x -> occ m (pos f y) -> occ (<[q := e]> m1) (pos f y)).
  { intros y Hy Hne [e' He']. apply occ_insert. unfold occ, m1.
    rewrite lookup_delete_ne; [by eexists|]. intros Heq. apply Hne.
    rewrite <- (off_pos f y), <- (off_pos f x) by lia. by rewrite Heq. }
  split.
  - intros i e' Hi. destruct (Hold _ _ Hi) as [[-> _]|(_&_&?)]; [done|eauto].
  - intros i j e1 e2 H1 H2 Hk.
    destruct (Hold _ _ H1) as [[-> ->]|(?&?&H1')], (Hold _ _ H2) as [[-> ->]|(?&?&H2')].
    + done.
    + exfalso. assert (pos f x = j) by (by eapply Hu). congruence.
    + exfalso. assert (i = pos f x) by (by eapply Hu). congruence.
    + by eapply Hu.
  - rewrite lookup_insert_ne.
    + unfold m1. rewrite lookup_delete. by case_decide.
    + intros ->. assert (off f f = cap - 1); [|lia].
      rewrite <- (pos_last f) at 2 by done. apply off_pos. lia.
  - intros y Hy. apply Hocc; [lia|lia|]. apply Hrun. lia.
  - intros i e' Hi. destruct (Hold _ _ Hi) as [[-> ->]|(Hiq&Hix&Hi')].
    + split; [lia|]. intros y Hy. left. apply occ_insert, Hfill. lia.
    + destruct (Hpath _ _ Hi') as [Hle Hp]. split; [done|]. intros y Hy.
      pose proof (off_range f i). pose proof (off_range f (home (key e'))).
      assert (off f i <> x).
      { intros Heq. apply Hix. rewrite <- Heq. symmetry. apply pos_off. eauto. }
      destruct (Hp y Hy) as [Hoc|[Hyx Hxi]].
      * destruct (decide (y = x)) as [->|]; [right; lia|left; apply Hocc; [lia|done|done]].
      * right. lia.
Qed.

Lemma same_entries_move m i q e : m !! i = Some e -> (delete i m) !! q = None ->
  same_entries m (<[q := e]> (delete i m)).
Proof.
  intros He Hq e'. split.
  - intros [j Hj]. destruct (decide (j = i)) as [->|].
    + simplify_eq. exists q. apply lookup_insert_eq.
    + exists j. rewrite lookup_insert_ne, lookup_delete_ne; [done|done|].
      intros ->. rewrite lookup_delete_ne in Hq by done. congruence.
  - intros [j Hj]. rewrite lookup_insert, lookup_delete in Hj. repeat case_decide; simplify_eq; eauto.
Qed.

Lemma same_entries_trans m1 m2 m3 : same_entries m1 m2 -> same_entries m2 m3 -> same_entries m1 m3.
Proof. intros H1 H2 e. rewrite (H1 e). apply H2. Qed.

Lemma reinsert_spec f a fuel : forall x t,
  0 <= f < cap -> 0 <= a < x -> x <= cap - 1 -> pend f a x (pt_slots t) ->
  pt_len t = Z.of_nat (size (pt_slots t)) -> cap - x <= Z.of_nat fuel ->
  exists t', reinsert fuel t (pos f (x - 1)) = Ok t' /\
    pend f a (cap - 1) (pt_slots t') /\ same_entries (pt_slots t) (pt_slots t') /\
    pt_len t' = Z.of_nat (size (pt_slots t')).
Proof using bits_nonneg home_range.
  induction fuel as [|n IH]; intros x t Hf Ha Hx Hpend Hlen Hfuel; [lia|].
  cbn [reinsert]. rewrite pos_succ. replace (x - 1 + 1) with x by lia.
  destruct (decide (x = cap - 1)) as [->|Hne].
  - rewrite pos_last by done. rewrite (pe_cut _ _ _ _ Hpend).
    exists t. split_and!; done.
  - destruct (pe_run _ _ _ _ Hpend x) as [e He]; [lia|]. rewrite He.
    destruct (pend_step f a x (pt_slots t) e) as (q&Hq&Hnone&Hr&Hoq&Hfill); [done|done|lia|done|done|].
    unfold pt_put. simpl. rewrite Hq.
    set (t1 := PTable _ _). destruct (IH (x + 1) t1) as (t'&Ht'&Hp'&Hs'&Hl').
    + done.
    + lia.
    + lia.
    + apply pend_next; auto. lia.
    + simpl. rewrite map_size_insert_None by done.
      rewrite map_size_delete, He. pose proof (map_size_ne_0_lookup_2 (pt_slots t) (pos f x)).
      assert (size (pt_slots t) <> 0%nat) by (apply map_size_non_empty_iff; intros Hn; rewrite Hn in He; done).
      simpl. lia.
    + lia.
    + replace (x + 1 - 1) with x in Ht' by lia. exists t'. split_and!; try done.
      eapply same_entries_trans; [|done]. by apply same_entries_move.
Qed.

(** The first unused slot after [s]. *)
Lemma first_hole m s : (exists r, 0 <= r < cap /\ m !! slot s r = None) -> occ m (slot s 0) ->
  exists d, 0 < d < cap /\ m !! slot s d = None /\ forall r, 0 <= r < d -> occ m (slot s r).
Proof.
  intros (r&Hr&Hn) H0.
  assert (Hm : forall n : nat, (exists d, 0 <= d <= Z.of_nat n /\ m !! slot s d = None /\
              forall r, 0 <= r < d -> occ m (slot s r)) \/ (forall r, 0 <= r <= Z.of_nat n -> occ m (slot s r))).
  { induction n as [|n [(d&?&?&?)|Hall]].
    - right. intros r0 ?. by replace r0 with 0 by lia.
    - left. exists d. split_and!; auto; lia.
    - destruct (m !! slot s (Z.of_nat (S n))) eqn:Em.
      + right. intros r0 ?. destruct (decide (r0 = Z.of_nat (S n))) as [->|]; [by eexists|apply Hall; lia].
      + left. exists (Z.of_nat (S n)). split_and!; [lia|lia|done|]. intros r0 ?. apply Hall. lia. }
  destruct (Hm (Z.to_nat r)) as [(d&Hd&Hdn&Hda)|Hall].
  - exists d. destruct (decide (d = 0)) as [->|].
    + destruct H0. congruence.
    + split_and!; [lia|lia|done|done].
  - destruct (Hall r) as [? ?]; [lia|congruence].
Qed.

Lemma exists_hole (m : gmap Z E) : Z.of_nat (size m) < cap -> forall s, exists r, 0 <= r < cap /\ m !! slot s r = None.
Proof using bits_nonneg.
  intros Hs s. pose proof cap_pos.
  destruct (decide (Exists (fun i => m !! i = None) (seqZ 0 cap))) as [He|He].
  - apply Exists_exists in He as (i&Hi&Hn). apply elem_of_seqZ in Hi.
    exists ((i - s) mod cap). rewrite slot_to by lia. split; [|done]. apply Z.mod_pos_bound. lia.
  - exfalso. enough (cap <= Z.of_nat (size m)) by lia. apply all_occ_size. intros i Hi.
    destruct (m !! i) eqn:Em; [by eexists|]. exfalso. apply He, Exists_exists.
    exists i. split; [|done]. apply elem_of_seqZ. lia.
Qed.

(** Cutting the table after the first unused slot that follows a deleted one
    gives the starting point of the loop. *)
Lemma pend_start m s d e0 :
  in_range m -> uniq m -> (forall i e, m !! i = Some e -> path_ok m i e) ->
  m !! s = Some e0 -> 0 < d < cap -> m !! slot s d = None ->
  (forall r, 0 <= r < d -> occ m (slot s r)) ->
  let f := slot s d in off f s = cap - 1 - d /\ pend f (off f s) (off f s + 1) (delete s m).
Proof using bits_nonneg home_range.
  intros Hr Hu Hp He0 Hd Hn Hocc f. pose proof cap_pos.
  assert (Hs : 0 <= s < cap) by eauto. assert (Hf : 0 <= f < cap) by apply slot_range.
  assert (Hoff : off f s = cap - 1 - d).
  { unfold off, f. rewrite slot_mod.
    replace ((s + d) mod cap) with (s + d - cap * ((s + d) / cap))
      by (pose proof (Z.div_mod (s + d) cap ltac:(lia)); lia).
    replace (s - (s + d - cap * ((s + d) / cap)) - 1) with (cap - 1 - d + ((s + d) / cap - 1) * cap) by lia.
    rewrite Z.mod_add by lia. apply Z.mod_small. lia. }
  split; [done|]. rewrite Hoff.
  assert (Hnes : forall y, 0 <= y < cap -> y <> cap - 1 - d -> pos f y <> s).
  { intros y Hy Hne Heq. apply Hne. rewrite <- Hoff, <- Heq. symmetry. by apply off_pos. }
  split.
  - intros i e Hi. rewrite lookup_delete in Hi. case_decide; [done|eauto].
  - intros i j e e' Hi Hj. rewrite lookup_delete in Hi, Hj. repeat case_decide; try done. by eapply Hu.
  - rewrite lookup_delete. by case_decide.
  - intros y Hy. unfold occ. rewrite lookup_delete_ne by (intros Heq; apply (Hnes y); lia).
    specialize (Hocc (y - (cap - 1 - d)) ltac:(lia)).
    rewrite (slot_pos f), Hoff in Hocc by done.
    by replace (cap - 1 - d + (y - (cap - 1 - d))) with y in Hocc by lia.
  - intros i e Hi. rewrite lookup_delete in Hi. case_decide as Hne; [done|].
    destruct (path_lin f m i e) as [Hle Ho]; auto. split; [done|]. intros y Hy.
    pose proof (off_range f i). pose proof (off_range f (home (key e))).
    destruct (decide (y = cap - 1 - d)) as [->|]; [right; lia|left].
    unfold occ. rewrite lookup_delete_ne by (apply not_eq_sym, Hnes; lia). by apply Ho.
Qed.

Lemma pend_done f a t : 0 <= f < cap -> pend f a (cap - 1) (pt_slots t) ->
  pt_len t = Z.of_nat (size (pt_slots t)) -> pt_wf t.
Proof using bits_nonneg home_range.
  intros Hf [Hr Hu Hcut _ Hp] Hl. split; [done|done| |done]. intros i e Hi.
  destruct (Hp i e Hi) as [Hle Ho]. assert (Hi' : 0 <= i < cap) by eauto.
  apply (lin_path f); [done|]. split; [done|]. intros y Hy.
  destruct (Ho y Hy) as [|[_ Hge]]; [done|exfalso]. pose proof (off_range f i).
  assert (i = f); [|congruence].
  transitivity (pos f (cap - 1)); [|by apply pos_last].
  replace (cap - 1) with (off f i) by lia. symmetry. by apply pos_off.
Qed.

Lemma absm_same m m' : uniq m -> uniq m' -> same_entries m m' -> absm m = absm m'.
Proof.
  intros Hu Hu' Hs. apply map_eq. intros k. apply option_eq. intros e.
  rewrite !absm_spec by done. split; intros (i&Hi&Hk).
  - destruct (proj1 (Hs e)) as [j Hj]; eauto.
  - destruct (proj2 (Hs e)) as [j Hj]; eauto.
Qed.

Lemma absm_delete m i e : uniq m -> m !! i = Some e -> absm (delete i m) = delete (key e) (absm m).
Proof.
  intros Hu Hi.
  assert (Hu' : uniq (delete i m)).
  { intros i1 i2 e1 e2 H1 H2. rewrite lookup_delete in H1, H2. repeat case_decide; try done. by eapply Hu. }
  apply map_eq. intros k. apply option_eq. intros e1.
  rewrite absm_spec, lookup_delete by done. case_decide as Hk.
  - split; [|done]. intros (j&Hj&Hkj). rewrite lookup_delete in Hj. case_decide; [done|].
    exfalso. assert (i = j); [|done]. eapply Hu; [done..|congruence].
  - rewrite absm_spec by done. split; intros (j&Hj&Hkj); exists j.
    + rewrite lookup_delete in Hj. case_decide; done.
    + split; [|done]. rewrite lookup_delete_ne; [done|]. intros ->. congruence.
Qed.

(** Deletion succeeds, keeps the table well formed, and removes exactly the
    key from the abstract map. *)
Lemma pt_delete_spec t k : pt_wf t -> Z.of_nat (size (pt_slots t)) < cap ->
  exists t', pt_delete t k = Ok t' /\ pt_wf t' /\ pt_abs t' = delete k (pt_abs t).
Proof using bits_nonneg home_range.
  intros Hwf Hs. pose proof Hwf as [Hr Hu Hp Hl]. pose proof cap_pos.
  pose proof (pt_find_abs t k Hwf) as Hfind. unfold pt_find in Hfind. unfold pt_delete.
  destruct (probe (pt_slots t) k) as [s|j|] eqn:Hpr.
  2-3: exists t; split_and!; [done|done|symmetry; by apply delete_id].
  apply probe_hit_inv in Hpr as (e0&He0&<-).
  assert (Hs0 : slot s 0 = s) by (rewrite slot_mod, Z.add_0_r; apply Z.mod_small; eauto).
  destruct (first_hole (pt_slots t) s) as (d&Hd&Hdn&Hocc);
    [by apply exists_hole|rewrite Hs0; by eexists|].
  destruct (pend_start (pt_slots t) s d e0) as [Hoff Hpend]; [done..|].
  set (f := slot s d) in *. assert (Hf : 0 <= f < cap) by apply slot_range.
  set (t1 := PTable (delete s (pt_slots t)) (pt_len t - 1)).
  assert (Hl1 : pt_len t1 = Z.of_nat (size (pt_slots t1))).
  { simpl. rewrite map_size_delete, He0.
    assert (size (pt_slots t) <> 0%nat) by (apply map_size_non_empty_iff; intros Hn; rewrite Hn in He0; done).
    simpl. lia. }
  destruct (reinsert_spec f (off f s) (Z.to_nat cap) (off f s + 1) t1) as (t'&Ht'&Hp'&Hs'&Hl');
    [done|lia|lia|done|done|lia|].
  replace (off f s + 1 - 1) with (off f s) in Ht' by lia. rewrite pos_off in Ht' by eauto.
  exists t'. split; [done|]. split; [by eapply pend_done|].
  unfold pt_abs. rewrite <- (absm_delete (pt_slots t) s e0) by done. symmetry.
  apply absm_same; [apply Hpend|apply Hp'|done].
Qed.

Lemma pt_empty_wf : pt_wf pt_empty.
Proof. split; simpl; try done; intros i *; rewrite lookup_empty; done. Qed.

Lemma pt_empty_abs : pt_abs pt_empty = ∅.
Proof. unfold pt_abs, absm. simpl. by rewrite map_to_list_empty. Qed.

(** A table with a hole is not full. *)
Lemma hole_room m j : in_range m -> m !! j = None -> 0 <= j < cap -> Z.of_nat (size m) < cap.
Proof using bits_nonneg.
  intros Hr Hj Hc. pose proof cap_pos.
  assert (Hsub : {[j]} ∪ dom m ⊆ list_to_set (C := gset Z) (seqZ 0 cap)).
  { intros i Hi. apply elem_of_list_to_set, elem_of_seqZ. apply elem_of_union in Hi as [->%elem_of_singleton|Hi]; [lia|].
    apply elem_of_dom in Hi as [e He]. apply Hr in He. lia. }
  apply subseteq_size in Hsub. rewrite size_list_to_set in Hsub by apply NoDup_seqZ.
  rewrite length_seqZ, size_union, size_singleton, size_dom in Hsub; [lia|].
  apply disjoint_singleton_l, not_elem_of_dom. done.
Qed.

(** Searching for a key to add: it is there; or it is not and the search ends
    at a hole, where an entry for it may be written; or the table is full. *)
Lemma pt_search_spec t k : pt_wf t ->
  match probe (pt_slots t) k with
  | Hit _ => is_Some (pt_abs t !! k)
  | Hole j => pt_abs t !! k = None /\ Z.of_nat (size (pt_slots t)) < cap /\ forall e, key e = k ->
      let t' := PTable (<[j := e]> (pt_slots t)) (pt_len t + 1) in
      pt_wf t' /\ pt_abs t' = <[k := e]> (pt_abs t)
  | Full => pt_abs t !! k = None /\ cap <= Z.of_nat (size (pt_slots t))
  end.
Proof using bits_nonneg.
  intros Hw. pose proof (pt_find_abs t k Hw) as Hf. unfold pt_find in Hf.
  destruct (probe (pt_slots t) k) as [j|j|] eqn:Hp.
  - destruct (probe_hit_inv _ _ _ Hp) as (e&He&Hk). exists e. apply absm_spec; [by destruct Hw|eauto].
  - split; [done|]. split.
    + pose proof (probe_go_spec (pt_slots t) k (home k) 0 (Z.to_nat cap)) as Hs. unfold probe in Hp. rewrite Hp in Hs.
      destruct Hs as (q&_&->&_&Hn). apply (hole_room _ (slot (home k) q)); [by destruct Hw|done|apply slot_range].
    + intros e <-. destruct (put_hole t j e Hw Hp) as (?&?&_). by split.
  - split; [done|]. pose proof (probe_not_full (pt_slots t) k). destruct (Z.lt_ge_cases (Z.of_nat (size (pt_slots t))) cap); [tauto|lia].
Qed.
End ProbeTable.
