(* ===== verification/ChainTable.v ===== *)
(** Separate chaining: the hash tables of linked lists of c/net.c ([conndb]
    and [dns_cache]), for an arbitrary entry type, key, hash and number of
    buckets.  The specification is the finite map from keys to entries. *)
From S2P Require Import Prelude.

Section ChainTable.
Context {K E : Type} `{Countable K}.
Context (key : E -> K) (home : K -> Z).

(** The lists of the buckets; a bucket that is absent is a null head. *)
Local Abbreviation ctable := (gmap Z (list E)).

(** ** Operations *)

Definition ct_bucket (t : ctable) (b : Z) : list E := default [] (t !! b).

Fixpoint chain_find (l : list E) (k : K) : option E :=
  match l with [] => None | e :: l' => if decide (key e = k) then Some e else chain_find l' k end.
(** Writing through the pointer to an entry: the entry of the same key. *)
Fixpoint chain_store (l : list E) (e : E) : list E :=
  match l with
  | [] => []
  | x :: l' => if decide (key x = key e) then e :: l' else x :: chain_store l' e
  end.
(** The loop of the delete function: unlink the first entry of the key. *)
Fixpoint chain_delete (l : list E) (k : K) : list E :=
  match l with [] => [] | e :: l' => if decide (key e = k) then l' else e :: chain_delete l' k end.

Definition ct_find (t : ctable) (k : K) : option E := chain_find (ct_bucket t (home k)) k.
Definition ct_push (t : ctable) (e : E) : ctable :=
  <[home (key e) := e :: ct_bucket t (home (key e))]> t.
Definition ct_store (t : ctable) (e : E) : ctable :=
  <[home (key e) := chain_store (ct_bucket t (home (key e))) e]> t.
Definition ct_delete (t : ctable) (k : K) : ctable :=
  <[home k := chain_delete (ct_bucket t (home k)) k]> t.

(** ** Invariant and abstraction *)

(** Entries are in the bucket of their key, once. *)
Definition ct_wf (t : ctable) : Prop :=
  forall b, NoDup (key <$> ct_bucket t b) /\ Forall (fun e => home (key e) = b) (ct_bucket t b).

(** [t] stores the map [m]. *)
Definition ct_rep (t : ctable) (m : gmap K E) : Prop := ct_wf t /\ forall k, ct_find t k = m !! k.

Lemma ct_bucket_insert t b l b' : ct_bucket (<[b := l]> t) b' = if decide (b = b') then l else ct_bucket t b'.
Proof. unfold ct_bucket. case_decide; [subst; by rewrite lookup_insert_eq|by rewrite lookup_insert_ne]. Qed.

Lemma chain_find_key l k e : chain_find l k = Some e -> key e = k /\ e ∈ l.
Proof.
  induction l as [|x l IH]; cbn [chain_find]; [done|]. case_decide; [intros [= ->]; set_solver|].
  intros [? ?]%IH. set_solver.
Qed.

Lemma chain_find_None l k : chain_find l k = None <-> k ∉ key <$> l.
Proof.
  induction l as [|x l IH]; cbn [chain_find fmap list_fmap]; [set_solver|].
  case_decide; [split; [done|set_solver]|]. rewrite IH. set_solver.
Qed.

Lemma chain_store_keys l e : key <$> chain_store l e = key <$> l.
Proof. induction l as [|x l IH]; [done|]. cbn [chain_store]. case_decide; csimpl; congruence. Qed.

Lemma chain_find_store l e k : key e ∈ key <$> l ->
  chain_find (chain_store l e) k = if decide (key e = k) then Some e else chain_find l k.
Proof.
  induction l as [|x l IH]; intros Hin; [by apply elem_of_nil in Hin|].
  cbn [chain_store]. destruct (decide (key x = key e)) as [E1|E1]; cbn [chain_find].
  - repeat case_decide; congruence.
  - rewrite IH by (rewrite fmap_cons in Hin; set_solver). repeat case_decide; congruence.
Qed.

Lemma chain_delete_sub l k : forall x, x ∈ key <$> chain_delete l k -> x ∈ key <$> l.
Proof.
  induction l as [|y l IH]; intros x; [done|]. cbn [chain_delete].
  case_decide; rewrite ?fmap_cons; set_solver.
Qed.

Lemma chain_find_delete l k k' : NoDup (key <$> l) ->
  chain_find (chain_delete l k) k' = if decide (k = k') then None else chain_find l k'.
Proof.
  induction l as [|x l IH]; intros Hnd; [by case_decide|].
  rewrite fmap_cons in Hnd. apply NoDup_cons in Hnd as [Hx Hnd]. cbn [chain_delete chain_find].
  destruct (decide (key x = k)) as [<-|E1].
  - destruct (decide (key x = k')) as [<-|]; [by apply chain_find_None|done].
  - cbn [chain_find]. rewrite IH by done. repeat case_decide; congruence.
Qed.

Lemma chain_delete_NoDup l k : NoDup (key <$> l) -> NoDup (key <$> chain_delete l k).
Proof.
  induction l as [|x l IH]; [done|]. rewrite fmap_cons. intros [Hx Hnd]%NoDup_cons. cbn [chain_delete].
  case_decide; [done|]. rewrite fmap_cons. apply NoDup_cons. split; [|by apply IH].
  intros ?%chain_delete_sub. done.
Qed.

Lemma chain_delete_Forall P l k : Forall P l -> Forall P (chain_delete l k).
Proof. induction 1; cbn [chain_delete]; [constructor|]. case_decide; [done|by constructor]. Qed.

Lemma chain_store_Forall b l e : home (key e) = b ->
  Forall (fun x => home (key x) = b) l -> Forall (fun x => home (key x) = b) (chain_store l e).
Proof. intros He. induction 1; cbn [chain_store]; [constructor|]. case_decide; by constructor. Qed.

(** ** The operations on the map *)

Lemma ct_empty_rep : ct_rep ∅ ∅.
Proof. split; [|done]. intros b. split; constructor. Qed.

Lemma ct_find_rep t m k : ct_rep t m -> ct_find t k = m !! k.
Proof. by intros [_ H1]. Qed.

Lemma ct_find_key t k e : ct_find t k = Some e -> key e = k.
Proof. intros []%chain_find_key. done. Qed.

Lemma ct_push_rep t m e : ct_rep t m -> m !! key e = None -> ct_rep (ct_push t e) (<[key e := e]> m).
Proof.
  intros [Hw Hf] Hn. split.
  - intros b. unfold ct_push. rewrite ct_bucket_insert. case_decide; [subst b|apply Hw].
    destruct (Hw (home (key e))) as [Hnd Hh]. split; [|by constructor].
    rewrite fmap_cons. apply NoDup_cons. split; [|done].
    rewrite <- (Hf (key e)) in Hn. by apply chain_find_None.
  - intros k. unfold ct_find, ct_push. rewrite ct_bucket_insert.
    destruct (decide (key e = k)) as [<-|Hk].
    + rewrite lookup_insert_eq, decide_True by done. cbn [chain_find]. by rewrite decide_True.
    + rewrite lookup_insert_ne, <- (Hf k) by done. unfold ct_find. case_decide as Hb; [|done].
      cbn [chain_find]. rewrite decide_False by done. by rewrite Hb.
Qed.

Lemma ct_store_rep t m e : ct_rep t m -> is_Some (m !! key e) -> ct_rep (ct_store t e) (<[key e := e]> m).
Proof.
  intros [Hw Hf] Hs. split.
  - intros b. unfold ct_store. rewrite ct_bucket_insert. case_decide; [subst b|apply Hw].
    destruct (Hw (home (key e))) as [Hnd Hh]. rewrite chain_store_keys. split; [done|by apply chain_store_Forall].
  - intros k. unfold ct_find, ct_store. rewrite ct_bucket_insert.
    assert (Hin : key e ∈ key <$> ct_bucket t (home (key e))).
    { rewrite <- (Hf (key e)) in Hs. destruct Hs as [x Hx]. apply chain_find_key in Hx as [<- Hx].
      by apply list_elem_of_fmap_2. }
    destruct (decide (key e = k)) as [<-|Hk].
    + rewrite lookup_insert_eq, decide_True, chain_find_store by done. by rewrite decide_True.
    + rewrite lookup_insert_ne, <- (Hf k) by done. unfold ct_find. case_decide as Hb; [|done].
      rewrite chain_find_store, decide_False by done. by rewrite Hb.
Qed.

Lemma ct_delete_rep t m k : ct_rep t m -> ct_rep (ct_delete t k) (delete k m).
Proof.
  intros [Hw Hf]. split.
  - intros b. unfold ct_delete. rewrite ct_bucket_insert. case_decide; [subst b|apply Hw].
    destruct (Hw (home k)) as [Hnd Hh]. split; [by apply chain_delete_NoDup|by apply chain_delete_Forall].
  - intros k'. unfold ct_find, ct_delete. rewrite ct_bucket_insert. destruct (Hw (home k)) as [Hnd _].
    destruct (decide (k = k')) as [<-|Hk].
    + rewrite lookup_delete_eq, decide_True, chain_find_delete by done. by rewrite decide_True.
    + rewrite lookup_delete_ne, <- (Hf k') by done. unfold ct_find. case_decide as Hb; [|done].
      rewrite chain_find_delete, decide_False by done. by rewrite Hb.
Qed.
End ChainTable.
