(* ===== verification/Table.v ===== *)
(** The interface of the keyed tables: what the process databases of
    c/exec.c and the connection table of c/net.c promise the code that calls
    them.  Every one is a set of entries that carry their key, looked up,
    looked up or created, written through the pointer the look-up returned and
    (where the code does it) removed.  The laws state that the table stands
    for a finite map; what is proved from the laws holds of every instance. *)
From S2P Require Import Prelude.

(** The operations, with the capacity of the table ([None]: the entries are
    allocated one by one) and the keys its key field has room for. *)
Class Table (T K E : Type) `{Countable K} := {
  tb_key : E -> K;
  tb_fresh : K -> E;
  tb_cap : option Z;
  tb_valid : K -> Prop;
  tb_find : T -> K -> option E;
  tb_get : T -> K -> option (E * T);
  tb_store : T -> E -> option T;
  tb_delete : T -> K -> outcome T;
}.

(** There is an unused slot for one more entry. *)
Definition has_room {T K E} `{Table T K E} (n : nat) : Prop :=
  match tb_cap with None => True | Some cap => Z.of_nat n < cap end.

Class TableLaws (T K E : Type) `{Table T K E} := {
  tb_rep : T -> gmap K E -> Prop;
  tb_key_law t m k e : tb_rep t m -> m !! k = Some e -> tb_key e = k;
  tb_fresh_law k : tb_valid k -> tb_key (tb_fresh k) = k;
  tb_find_law t m k : tb_rep t m -> tb_find t k = m !! k;
  tb_get_law t m k : tb_rep t m -> tb_valid k -> has_room (size m) ->
    exists t', tb_get t k = Some (default (tb_fresh k) (m !! k), t') /\
      tb_rep t' (<[k := default (tb_fresh k) (m !! k)]> m);
  tb_store_law t m e : tb_rep t m -> is_Some (m !! tb_key e) ->
    exists t', tb_store t e = Some t' /\ tb_rep t' (<[tb_key e := e]> m);
  tb_delete_law t m k : tb_rep t m -> has_room (size m) ->
    exists t', tb_delete t k = Ok t' /\ tb_rep t' (delete k m);
}.

(** * The operations in sequence *)

Section Table.
Context {T K E : Type} `{TableLaws T K E}.

(** Looking up or creating the entry of a key and filling it in. *)
Definition tb_update (t : T) (e : E) : option T :=
  r ← tb_get t (tb_key e); tb_store r.2 e.

Lemma tb_update_law t m e : tb_rep t m -> tb_valid (tb_key e) -> has_room (size m) ->
  exists t', tb_update t e = Some t' /\ tb_rep t' (<[tb_key e := e]> m).
Proof.
  intros Hr Hv Hs. unfold tb_update. destruct (tb_get_law t m (tb_key e) Hr Hv Hs) as (t1&->&Hr1).
  cbn [mbind option_bind snd].
  destruct (tb_store_law t1 _ e Hr1) as (t2&->&Hr2); [rewrite lookup_insert_eq; eauto|].
  rewrite insert_insert_eq in Hr2. eauto.
Qed.

Lemma has_room_le n n' : (n <= n')%nat -> has_room n' -> has_room n.
Proof. unfold has_room. destruct tb_cap; [lia|done]. Qed.
End Table.

(** What the callers ask of a table. *)
Inductive tb_op (K E : Type) := TFind (k : K) | TUpdate (e : E) | TDelete (k : K).
Arguments TFind {K E} k.
Arguments TUpdate {K E} e.
Arguments TDelete {K E} k.

Section Run.
Context {T K E : Type} `{TableLaws T K E}.

(** One operation, with the answer of a look-up. *)
Definition tb_step (t : T) (op : tb_op K E) : outcome (option E * T) :=
  match op with
  | TFind k => Ok (tb_find t k, t)
  | TUpdate e => match tb_update t e with Some t' => Ok (None, t') | None => Ub end
  | TDelete k => t' ← tb_delete t k; Ok (None, t')
  end.
Fixpoint tb_run (t : T) (ops : list (tb_op K E)) : outcome (list (option E) * T) :=
  match ops with
  | [] => Ok ([], t)
  | op :: ops' => r ← tb_step t op; rs ← tb_run r.2 ops'; Ok (r.1 :: rs.1, rs.2)
  end.

Definition op_valid (op : tb_op K E) : Prop :=
  match op with TUpdate e => tb_valid (tb_key e) | _ => True end.

(** The same operations on a finite map. *)
Definition map_step (m : gmap K E) (op : tb_op K E) : option E * gmap K E :=
  match op with
  | TFind k => (m !! k, m)
  | TUpdate e => (None, <[tb_key e := e]> m)
  | TDelete k => (None, delete k m)
  end.
Fixpoint map_run (m : gmap K E) (ops : list (tb_op K E)) : list (option E) * gmap K E :=
  match ops with
  | [] => ([], m)
  | op :: ops' => let r := map_step m op in let rs := map_run r.2 ops' in (r.1 :: rs.1, rs.2)
  end.

Lemma map_step_size m op : (size (map_step m op).2 <= S (size m))%nat.
Proof.
  destruct op as [k|e|k]; cbn [map_step snd]; [lia| |].
  - rewrite map_size_insert. destruct (m !! tb_key e); unfold id; simpl; lia.
  - rewrite map_size_delete. destruct (m !! k); unfold id; simpl; lia.
Qed.

Lemma tb_step_law t m op : tb_rep t m -> op_valid op -> has_room (size m) ->
  exists t', tb_step t op = Ok ((map_step m op).1, t') /\ tb_rep t' (map_step m op).2.
Proof.
  intros Hr Hv Hs. destruct op as [k|e|k]; cbn [tb_step map_step fst snd].
  - rewrite (tb_find_law t m k Hr). eauto.
  - destruct (tb_update_law t m e Hr Hv Hs) as (t'&->&?). eauto.
  - destruct (tb_delete_law t m k Hr Hs) as (t'&->&?). eauto.
Qed.

(** A table answers a sequence of operations as the finite map does, while it
    has an unused slot. *)
Lemma tb_run_law ops t m : tb_rep t m -> Forall op_valid ops ->
  has_room (pred (size m + length ops)) ->
  exists t', tb_run t ops = Ok ((map_run m ops).1, t') /\ tb_rep t' (map_run m ops).2.
Proof.
  revert t m. induction ops as [|op ops IH]; intros t m Hr Hv Hs; cbn [tb_run map_run fst snd]; [eauto|].
  apply Forall_cons in Hv as [Hop Hv]. cbn [length] in Hs.
  destruct (tb_step_law t m op Hr Hop) as (t1&->&Hr1); [eapply has_room_le; [|exact Hs]; lia|].
  pose proof (map_step_size m op). rewrite ok_bind. cbn [fst snd].
  destruct (IH t1 (map_step m op).2 Hr1 Hv) as (t2&->&Hr2); [eapply has_room_le; [|exact Hs]; lia|].
  rewrite ok_bind. eauto.
Qed.
End Run.
