(* ===== verification/ExecLinux.v ===== *)
(** c/exec.c on Linux: the process database, the /proc readers, the ancestry
    walk, the exec and exit handlers, and the netlink dispatch loop. *)
From S2P Require Import Prelude CLib Os Common ProbeTable Table.

(** * Options *)

Record cfg := Cfg {
  showCwd : bool; showEnv : bool; flatMode : bool; fullPath : bool; showArgs : bool;
  showErrors : bool; showExit : bool; showUser : bool; colorMode : bool;
  watchPIDs : list Z;
}.

Definition isWatchRoot (c : cfg) (pid : Z) : bool := bool_decide (pid ∈ watchPIDs c).

(** [c(code, s)] *)
Definition col (c : cfg) (code s : bytes) : bytes := clr_text (colorMode c) code s.

(** * The process database *)

Record pidEntry := PidEntry {
  pe_pid : Z;
  pe_depth : Z;
  pe_startNs : Z;
  pe_cmdline : option bytes;      (* None: a null pointer *)
}.

Definition PIDDB_BITS : Z := 14.  (* PIDDB_CAP = 16384 *)

(** Knuth's multiplicative hash, in 32-bit unsigned arithmetic. *)
Definition piddb_hash (pid : Z) : Z :=
  Z.land (u32 (u32 pid * 2654435761)) (2 ^ PIDDB_BITS - 1).

Abbreviation piddb := (@ptable pidEntry).

Definition piddb_find (db : piddb) (pid : Z) : option pidEntry :=
  pt_find pe_pid piddb_hash PIDDB_BITS db pid.

(** The entry of [pid], created zeroed when absent: the entry, whether it was
    created, and the table.  [None] is the null pointer of a full table. *)
Definition piddb_get (db : piddb) (pid : Z) : option (pidEntry * bool * piddb) :=
  match piddb_find db pid with
  | Some e => Some (e, false, db)
  | None =>
      let e := PidEntry pid 0 0 None in
      db' ← pt_put pe_pid piddb_hash PIDDB_BITS db e; Some (e, true, db')
  end.

(** Storing the fields of an entry through its pointer. *)
Definition piddb_store (db : piddb) (e : pidEntry) : option piddb :=
  pt_put pe_pid piddb_hash PIDDB_BITS db e.

Definition piddb_delete (db : piddb) (pid : Z) : outcome piddb :=
  pt_delete pe_pid piddb_hash PIDDB_BITS db pid.

(** * Signal names *)

Definition sig_names : list (Z * bytes) :=
  [(1, "SIGHUP" : bytes); (2, "SIGINT" : bytes); (3, "SIGQUIT" : bytes); (4, "SIGILL" : bytes);
   (5, "SIGTRAP" : bytes); (6, "SIGABRT" : bytes); (7, "SIGBUS" : bytes); (8, "SIGFPE" : bytes);
   (9, "SIGKILL" : bytes); (10, "SIGUSR1" : bytes); (11, "SIGSEGV" : bytes); (12, "SIGUSR2" : bytes);
   (13, "SIGPIPE" : bytes); (14, "SIGALRM" : bytes); (15, "SIGTERM" : bytes); (17, "SIGCHLD" : bytes);
   (18, "SIGCONT" : bytes); (19, "SIGSTOP" : bytes); (20, "SIGTSTP" : bytes); (21, "SIGTTIN" : bytes);
   (22, "SIGTTOU" : bytes); (23, "SIGURG" : bytes); (24, "SIGXCPU" : bytes); (25, "SIGXFSZ" : bytes);
   (26, "SIGVTALRM" : bytes); (27, "SIGPROF" : bytes); (28, "SIGWINCH" : bytes); (29, "SIGIO" : bytes);
   (30, "SIGPWR" : bytes); (31, "SIGSYS" : bytes)].

Definition sigName (sig : Z) : bytes :=
  match list_find (fun p => p.1 = sig) sig_names with
  | Some (_, (_, s)) => s
  | None => trunc 16 ("SIG" ++ fmt_d sig)
  end.

(** * /proc readers *)

(** Splitting at NUL bytes: the last piece is what follows the last NUL. *)
Fixpoint split_nul (s cur : bytes) : list bytes :=
  match s with
  | [] => [reverse cur]
  | c :: s' => if eqc c NUL then reverse cur :: split_nul s' [] else split_nul s' (c :: cur)
  end.

(** The common body of [readCmdline] and [readEnviron]. *)
Definition read_nul_list (o : os) (path : bytes) : list bytes :=
  match os_read o path with
  | None => []
  | Some data =>
      match rtrim (fun c => eqc c NUL) data with
      | [] => []
      | d => split_nul d []
      end
  end.

Definition readCmdline (o : os) (pid : Z) : list bytes := read_nul_list o (proc_path pid "cmdline").
Definition readEnviron (o : os) (pid : Z) : list bytes := read_nul_list o (proc_path pid "environ").

Definition readComm (o : os) (pid : Z) : bytes :=
  match os_read o (proc_path pid "comm") with
  | None => []
  | Some data => cstr (rtrim (fun c => eqc c "010") data)
  end.

(** What follows the last slash. *)
Definition base_of (a0 : bytes) : bytes :=
  match strrchr a0 "/" with Some i => drop (S i) a0 | None => a0 end.

Definition readFirstArg (o : os) (pid : Z) : bytes :=
  match readCmdline o pid with
  | [] => readComm o pid
  | a0 :: _ =>
      match base_of a0 with
      | [] => match a0 with [] => "." | _ => "/" end
      | b => b
      end
  end.

Definition readExe (o : os) (pid : Z) : bytes :=
  match readlink o 4096 (proc_path pid "exe") with Target t => cstr t | _ => [] end.

Definition procCwd (o : os) (pid : Z) : bytes :=
  match readlink o 4096 (proc_path pid "cwd") with
  | Target t => cstr t
  | LinkEacces => "EACCES"
  | LinkFails => "EUNKNOWN"
  end.

(** The next whitespace-separated field of [statPPID]'s scan, and the rest. *)
Fixpoint span_tok (s : bytes) : bytes * bytes :=
  match s with
  | [] => ([], [])
  | c :: s' => if is_space c then ([], s) else let '(t, r) := span_tok s' in (c :: t, r)
  end.

Definition statPPID (o : os) (pid : Z) : Z :=
  match os_read o (proc_path pid "stat") with
  | None => -1
  | Some data =>
      match strrchr data ")" with
      | None => -1
      | Some idx =>
          match ltrim is_space (ltrim (fun c => eqc c " ") (drop (S idx) data)) with
          | [] => -1
          | r0 =>
              match ltrim is_space (span_tok r0).2 with
              | [] => -1
              | r1 =>
                  let f1 := (span_tok r1).1 in
                  if (32 <=? length f1)%nat then -1
                  else let r := strtol (cstr f1) in
                       if negb (st_conv r) || negb (eqs (st_rest r) []) || st_erange r
                          || (st_val r <? - 2147483648) || (2147483647 <? st_val r)
                       then -1 else st_val r
              end
          end
      end
  end.

(** * Ancestry *)

(** [runtimeErr]: a line of standard error, unless [-Q]. *)
Definition runtimeErr (c : cfg) (msg : bytes) : list bytes := if showErrors c then [msg] else [].

(** The depth below the nearest watched process, or -1, with the lines it
    writes to standard error.  The recursion of the code follows the parent
    links; the fuel bounds their number. *)
Fixpoint pidDepth (fuel : nat) (c : cfg) (o : os) (db : piddb) (pid : Z)
  : outcome (Z * list bytes) :=
  if isWatchRoot c pid then Ok (0, [])
  else
    let ppid := statPPID o pid in
    if ppid <? 0 then
      Ok (-1, runtimeErr c ("proc-trace-exec: process vanished before we found its parent: pid "
                              ++ fmt_d pid))
    else if ppid =? 0 then Ok (-1, [])
    else if isWatchRoot c ppid then Ok (0, [])
    else match piddb_find db ppid with
         | Some ent => Ok (pe_depth ent + 1, [])
         | None =>
             match fuel with
             | O => Fuel
             | S f =>
                 r ← pidDepth f c o db ppid;
                 let '(d, errs) := r in
                 if d <? 0 then Ok (-1, errs) else Ok (d + 1, errs)
             end
         end.

(** * Output *)

Fixpoint indent_go (i : nat) (w cap : Z) : bytes :=
  match i with
  | O => []
  | S i' => if w + 2 <? cap then "  " ++ indent_go i' (w + 2) cap else []
  end.
Definition indentStr (c : cfg) (depth cap : Z) : bytes :=
  if flatMode c || (depth <=? 0) || (cap =? 0) then [] else indent_go (Z.to_nat depth) 0 cap.

(** [KEY=VALUE] with both sides quoted, or the whole entry when it has no [=]. *)
Definition env_entry (c : cfg) (e : bytes) : bytes :=
  match strchr e "=" with
  | Some i => col c "2" (shquote_text (take i e) ++ "=" ++ shquote_text (drop (S i) e))
  | None => col c "2" (shquote_text e)
  end.

Definition user_field (c : cfg) (o : os) (pid : Z) : bytes :=
  let name := procUser o pid in
  let wrapped := trunc 300 (" <" ++ name ++ ">") in
  col c (if eqs name "root" then "91" else "92") wrapped.

(** The command and its arguments; [None] when there is nothing to show. *)
Definition cmd_field (c : cfg) (o : os) (pid : Z) : option bytes :=
  match readCmdline o pid with
  | [] =>
      match readComm o pid with
      | [] => None
      | comm => Some (col c "2" (trunc 300 ("[" ++ comm ++ "]")))
      end
  | a0 :: args =>
      let cmd := if fullPath c
                 then match readExe o pid with [] => shquote_text a0 | exe => shquote_text exe end
                 else shquote_text a0 in
      Some (col c "96" cmd ++
            if showArgs c then mjoin ((fun a => " " ++ col c "2" (shquote_text a)) <$> args) else [])
  end.

Definition env_field (c : cfg) (o : os) (pid : Z) : bytes :=
  bs (String (ascii_of_nat 10) "  ") ++ mjoin ((fun e => " " ++ env_entry c e) <$> readEnviron o pid).

Definition NL : bytes := ["010"%char].

(** The line of an exec event, or nothing. *)
Definition printExec (c : cfg) (o : os) (pid depth : Z) : bytes :=
  match cmd_field c o pid with
  | None => []
  | Some cmd =>
      indentStr c depth 1024 ++ col c "33" (fmt_d pid) ++
      (if showExit c then col c "32" "+" else []) ++
      (if showUser c then user_field c o pid else []) ++ " " ++
      (if showCwd c then col c "35" (shquote_text (procCwd o pid)) ++ col c "2" " % " else []) ++
      cmd ++
      (if showEnv c then env_field c o pid else []) ++ NL
  end.

Definition cmd_text (s : option bytes) : bytes := match s with Some t => t | None => [] end.

Definition buildExecedLine (c : cfg) (ent : pidEntry) (pid : Z) : bytes :=
  indentStr c (pe_depth ent) 1024 ++ trunc 64 (col c "33" (fmt_d pid)) ++
  trunc 64 (col c "31" "-") ++ " " ++ col c "2" (shquote_text (cmd_text (pe_cmdline ent))) ++
  " execed" ++ NL.

(** * Event handlers *)

(** The tracer's state: the database, standard output, standard error. *)
Record state := St { st_db : piddb; st_out : bytes; st_err : list bytes }.

Definition handleExec (fuel : nat) (c : cfg) (o : os) (data : bytes) (tsNs : Z) (s : state)
  : outcome state :=
  if blen data <? 8 then Ok s
  else
    pid32 ← le32 data 0;
    let pid := i32 pid32 in
    r ← pidDepth fuel c o (st_db s) pid;
    let '(d, errs) := r in
    let s := St (st_db s) (st_out s) (st_err s ++ errs) in
    if d <? 0 then Ok s
    else
      match piddb_get (st_db s) pid with
      | None => Ub
      | Some (ent, created, db1) =>
          let execed :=
            if showExit c && negb created && negb (eqs (cmd_text (pe_cmdline ent)) [])
            then buildExecedLine c ent pid else [] in
          match piddb_store db1 (PidEntry (pe_pid ent) d tsNs (Some (readFirstArg o pid))) with
          | None => Ub
          | Some db2 => Ok (St db2 (st_out s ++ execed ++ printExec c o pid d) (st_err s))
          end
      end.

(** The text of an exit code as the kernel reports it. *)
Definition exit_text (c : cfg) (exitCode : Z) : bytes :=
  if Z.land exitCode 127 =? 0 then
    let code := Z.land (Z.shiftr exitCode 8) 255 in
    if code =? 0 then trunc 64 (col c "32" "status=0")
    else trunc 64 (col c "31" (trunc 32 ("status=" ++ fmt_d code)))
  else trunc 64 (col c "91" (trunc 32 ("signal=" ++ sigName (Z.land exitCode 127)))).

(** [(double)(tsNs - startNs) / 1e9] with three decimals. *)
Definition elapsed_text (c : cfg) (tsNs startNs : Z) : bytes :=
  let elapsed := f64_div (f64_of_Z (u64 (tsNs - startNs))) (f64_of_Z 1000000000) in
  trunc 64 (col c "36" (trunc 32 ("time=" ++ fmt_f 3 elapsed ++ "s"))).

Definition exit_line (c : cfg) (ent : pidEntry) (pid exitCode tsNs : Z) : bytes :=
  indentStr c (pe_depth ent) 1024 ++ trunc 64 (col c "33" (fmt_d pid)) ++
  trunc 64 (col c "31" "-") ++ " " ++ col c "2" (shquote_text (cmd_text (pe_cmdline ent))) ++
  " exited " ++ exit_text c exitCode ++ " " ++ elapsed_text c tsNs (pe_startNs ent) ++ NL.

Definition handleExit (c : cfg) (data : bytes) (tsNs : Z) (s : state) : outcome state :=
  if blen data <? 24 then Ok s
  else
    pid32 ← le32 data 0;
    exitCode ← le32 data 8;
    let pid := i32 pid32 in
    match piddb_find (st_db s) pid with
    | None => Ok s
    | Some ent =>
        db' ← piddb_delete (st_db s) pid;
        Ok (St db' (st_out s ++ if showExit c then exit_line c ent pid exitCode tsNs else [])
              (st_err s))
    end.

(** * Netlink *)

Definition NLMSG_HDR_SIZE : Z := 16.
Definition CN_MSG_SIZE : Z := 20.
Definition PROC_EVT_HDR : Z := 16.
Definition PROC_EVENT_EXEC : Z := 2.
Definition PROC_EVENT_EXIT : Z := 2147483648.

(** [NLMSG_ALIGN(len)] in 32-bit unsigned arithmetic. *)
Definition NLMSG_ALIGN (len : Z) : Z := Z.land (u32 (len + 3)) (u32 (Z.lnot 3)).

(** The proc-connector event inside of a message body [d]. *)
Definition dispatch_event (fuel : nat) (c : cfg) (o : os) (d : bytes) (s : state)
  : outcome state :=
  if blen d <? CN_MSG_SIZE + PROC_EVT_HDR then Ok s
  else
    idx ← le32 d 0;
    val ← le32 d 4;
    if (idx =? 1) && (val =? 1) then
      what ← le32 d CN_MSG_SIZE;
      tsNs ← le64 d (CN_MSG_SIZE + 8);
      ev ← sub d (CN_MSG_SIZE + PROC_EVT_HDR) (blen d - (CN_MSG_SIZE + PROC_EVT_HDR));
      if what =? PROC_EVENT_EXEC then handleExec fuel c o ev tsNs s
      else if what =? PROC_EVENT_EXIT then handleExit c ev tsNs s
      else Ok s
    else Ok s.

(** The walk over the messages of a receive buffer; [turns] bounds the number
    of loop turns, [fuel] the ancestry walks. *)
Fixpoint dispatch_go (turns fuel : nat) (c : cfg) (o : os) (data : bytes) (off : Z) (s : state)
  : outcome state :=
  if blen data - off <? NLMSG_HDR_SIZE then Ok s
  else
    match turns with
    | O => Fuel
    | S turns' =>
        nlmsg_len ← le32 data off;
        if (nlmsg_len <? NLMSG_HDR_SIZE) || (blen data - off <? nlmsg_len) then Ok s
        else
          d ← sub data (off + NLMSG_HDR_SIZE) (nlmsg_len - NLMSG_HDR_SIZE);
          s' ← dispatch_event fuel c o d s;
          let adv := NLMSG_ALIGN nlmsg_len in
          if (adv =? 0) || (blen data - off <? adv) then Ok s'
          else dispatch_go turns' fuel c o data (off + adv) s'
    end.

(** Every turn consumes at least sixteen bytes. *)
Definition dispatchNlMsg (fuel : nat) (c : cfg) (o : os) (data : bytes) (s : state)
  : outcome state :=
  dispatch_go (S (Z.to_nat (blen data / 16))) fuel c o data 0 s.

(** The request of [sendMcastOp]: the 40 bytes sent to the connector. *)
Definition mcast_msg (getpid op : Z) : bytes :=
  put32 40 ++ put16 3 ++ put16 0 ++ put32 0 ++ put32 (u32 getpid) ++
  put32 1 ++ put32 1 ++ put32 0 ++ put32 0 ++ put16 4 ++ put16 0 ++ put32 op.

(** * The database as a finite map *)

Definition db_wf (db : piddb) : Prop := pt_wf pe_pid piddb_hash PIDDB_BITS db.
Definition db_abs (db : piddb) : gmap Z pidEntry := pt_abs pe_pid db.
Definition PIDDB_CAP : Z := cap PIDDB_BITS.

Lemma piddb_bits : 0 <= PIDDB_BITS.
Proof. done. Qed.

Lemma piddb_hash_range pid : 0 <= piddb_hash pid < cap PIDDB_BITS.
Proof.
  unfold piddb_hash, cap. rewrite land_mask by apply piddb_bits.
  apply Z.mod_pos_bound. done.
Qed.
#[export] Hint Resolve piddb_bits piddb_hash_range : trace.

Lemma piddb_find_abs db pid : db_wf db -> piddb_find db pid = db_abs db !! pid.
Proof. intros Hw. exact (pt_find_abs pe_pid piddb_hash PIDDB_BITS piddb_bits db pid Hw). Qed.

Lemma db_abs_size db : db_wf db -> size (db_abs db) = size (pt_slots db).
Proof. exact (pt_abs_size pe_pid piddb_hash PIDDB_BITS db). Qed.

Lemma piddb_put_ok db e : db_wf db -> Z.of_nat (size (db_abs db)) < PIDDB_CAP ->
  exists db', pt_put pe_pid piddb_hash PIDDB_BITS db e = Some db' /\ db_wf db' /\
    db_abs db' = <[pe_pid e := e]> (db_abs db).
Proof.
  intros Hw Hs. rewrite db_abs_size in Hs by exact Hw.
  exact (pt_put_spec pe_pid piddb_hash PIDDB_BITS piddb_bits db e Hw Hs).
Qed.

(** Storing over an entry that is present needs no free slot. *)
Lemma piddb_store_ok db e : db_wf db -> is_Some (db_abs db !! pe_pid e) ->
  exists db', piddb_store db e = Some db' /\ db_wf db' /\ db_abs db' = <[pe_pid e := e]> (db_abs db).
Proof. exact (pt_store_spec pe_pid piddb_hash PIDDB_BITS piddb_bits db e). Qed.

Lemma piddb_get_ok db pid : db_wf db -> Z.of_nat (size (db_abs db)) < PIDDB_CAP ->
  match db_abs db !! pid with
  | Some e => piddb_get db pid = Some (e, false, db)
  | None => exists db', piddb_get db pid = Some (PidEntry pid 0 0 None, true, db') /\ db_wf db' /\
              db_abs db' = <[pid := PidEntry pid 0 0 None]> (db_abs db)
  end.
Proof.
  intros Hw Hs. unfold piddb_get. rewrite piddb_find_abs by done.
  destruct (db_abs db !! pid); [done|].
  destruct (piddb_put_ok db (PidEntry pid 0 0 None)) as (db'&->&?&?); [done..|]. eauto.
Qed.

Lemma piddb_delete_ok db pid : db_wf db -> Z.of_nat (size (db_abs db)) < PIDDB_CAP ->
  exists db', piddb_delete db pid = Ok db' /\ db_wf db' /\ db_abs db' = delete pid (db_abs db).
Proof.
  intros Hw Hs. rewrite db_abs_size in Hs by exact Hw.
  exact (pt_delete_spec pe_pid piddb_hash PIDDB_BITS piddb_bits piddb_hash_range db pid Hw Hs).
Qed.

Lemma db_abs_key db pid e : db_wf db -> db_abs db !! pid = Some e -> pe_pid e = pid.
Proof. exact (pt_abs_key pe_pid piddb_hash PIDDB_BITS db pid e). Qed.

(** The process database is a keyed table. *)
#[export] Instance piddb_table : Table piddb Z pidEntry := {
  tb_key := pe_pid;
  tb_fresh pid := PidEntry pid 0 0 None;
  tb_cap := Some PIDDB_CAP;
  tb_valid _ := True;
  tb_find := piddb_find;
  tb_get db pid := r ← piddb_get db pid; Some (r.1.1, r.2);
  tb_store := piddb_store;
  tb_delete := piddb_delete;
}.

#[export] Instance piddb_laws : TableLaws piddb Z pidEntry.
Proof.
  refine {| tb_rep db m := db_wf db /\ db_abs db = m |}; try done.
  - intros db m pid e [Hw <-]. by apply db_abs_key.
  - intros db m pid [Hw <-]. by apply piddb_find_abs.
  - intros db m pid [Hw <-] _ Hs. cbn [tb_get piddb_table]. pose proof (piddb_get_ok db pid Hw Hs) as Hg.
    destruct (db_abs db !! pid) as [e|] eqn:He; cbn [default].
    + rewrite Hg. exists db. split; [done|]. split; [done|]. by rewrite insert_id.
    + destruct Hg as (db'&->&?&?). exists db'. by split.
  - intros db m e [Hw <-] He. destruct (piddb_store_ok db e Hw He) as (db'&?&?&?). exists db'. by split.
  - intros db m pid [Hw <-] Hs. destruct (piddb_delete_ok db pid Hw Hs) as (db'&?&?&?). exists db'. by split.
Defined.

(** * Parsing lemmas *)

Lemma span_tok_app t c s :
  Forall (fun x => is_space x = false) t -> is_space c = true -> span_tok (t ++ c :: s) = (t, c :: s).
Proof.
  intros Ht Hc. induction Ht as [|x t Hx _ IH]; simpl; [by rewrite Hc|]. by rewrite Hx, IH.
Qed.

Lemma split_nul_go a : forall s cur, NUL ∉ a ->
  split_nul (a ++ s) cur = split_nul s (reverse a ++ cur).
Proof.
  induction a as [|x a IH]; intros s cur Hn; [done|]. simpl.
  rewrite (proj2 (eqc_false x NUL)) by set_solver. rewrite IH by set_solver.
  by rewrite reverse_cons, <- app_assoc.
Qed.

Lemma split_nul_end a : NUL ∉ a -> split_nul a [] = [a].
Proof.
  intros Hn. rewrite <- (app_nil_r a) at 1. rewrite split_nul_go by done. simpl.
  by rewrite app_nil_r, reverse_involutive.
Qed.

Lemma split_nul_nul a s : NUL ∉ a -> split_nul (a ++ NUL :: s) [] = a :: split_nul s [].
Proof.
  intros Hn. rewrite split_nul_go by done. cbn [split_nul]. rewrite eqc_refl.
  by rewrite app_nil_r, reverse_involutive.
Qed.

(** The kernel's rendering of a vector: every element followed by a NUL. *)
Definition nul_join (l : list bytes) : bytes := mjoin ((fun a => a ++ [NUL]) <$> l).

Lemma split_nul_join l z : Forall (fun a => NUL ∉ a) l -> NUL ∉ z ->
  split_nul (nul_join l ++ z) [] = l ++ [z].
Proof.
  intros Hl Hz. induction Hl as [|a l Ha _ IH].
  - by apply split_nul_end.
  - unfold nul_join in *. rewrite fmap_cons. change (mjoin (?x :: ?y)) with (x ++ mjoin y).
    rewrite <- !app_assoc. cbn [app]. rewrite split_nul_nul by done. by rewrite IH.
Qed.

Lemma rtrim_snoc_true f s c : f c = true -> rtrim f (s ++ [c]) = rtrim f s.
Proof. intros H. unfold rtrim. rewrite reverse_app. simpl. by rewrite H. Qed.

Lemma rtrim_snoc_false f s c : f c = false -> rtrim f (s ++ [c]) = s ++ [c].
Proof.
  intros H. unfold rtrim. rewrite reverse_app. simpl. rewrite H.
  change (c :: reverse s) with ([c] ++ reverse s). by rewrite reverse_app, reverse_involutive.
Qed.
