(* ===== verification/ExecProofs.v ===== *)
(** c/exec.c on Linux: what the /proc parsers, the ancestry walk, the event
    handlers and the netlink dispatch compute, and the refinement of the
    tracer by a specification over a finite map. *)
From S2P Require Import Prelude CLib Os Common ProbeTable ExecLinux.

(** * /proc parsers *)

(** [readCmdline] recovers an argument vector from the kernel's rendering
    (every argument followed by a NUL), provided the last one is not empty
    (trailing NULs are trimmed). *)
Theorem readCmdline_roundtrip o pid l z :
  os_read o (proc_path pid "cmdline") = Some (nul_join (l ++ [z])) ->
  Forall (fun a => NUL ∉ a) l -> NUL ∉ z -> z <> [] ->
  readCmdline o pid = l ++ [z].
Proof.
  intros Hr Hl Hz Hne. unfold readCmdline, read_nul_list. rewrite Hr.
  assert (Ht : rtrim (fun c => eqc c NUL) (nul_join (l ++ [z])) = nul_join l ++ z).
  { unfold nul_join. rewrite fmap_app, join_app.
    change (mjoin ((fun a => a ++ [NUL]) <$> [z])) with ((z ++ [NUL]) ++ []).
    rewrite app_nil_r, app_assoc, rtrim_snoc_true by apply eqc_refl.
    destruct (exists_last Hne) as (z'&x&->). rewrite app_assoc.
    apply rtrim_snoc_false, eqc_false. set_solver. }
  rewrite Ht. destruct (nul_join l ++ z) as [|c r] eqn:E.
  - apply app_eq_nil in E as [_ ?]. done.
  - rewrite <- E. by apply split_nul_join.
Qed.

Lemma readCmdline_roundtrip_witness :
  let o := Os (fun _ => Some (nul_join ["ls" : bytes; "" : bytes; "-l" : bytes])) (fun _ => LinkFails)
              (fun _ => None) (fun _ => None) (fun _ => None) in
  readCmdline o 7 = ["ls" : bytes; "" : bytes; "-l" : bytes].
Proof.
  intros o. apply (readCmdline_roundtrip o 7 ["ls" : bytes; "" : bytes] "-l").
  - reflexivity.
  - repeat constructor; apply strchr_None; reflexivity.
  - apply strchr_None; reflexivity.
  - discriminate.
Defined.

(** The text of /proc/<pid>/stat. *)
Definition stat_text (pid : Z) (comm : bytes) (st : byte) (ppid : Z) (rest : bytes) : bytes :=
  fmt_d pid ++ " (" ++ comm ++ ")" ++ " " ++ [st] ++ " " ++ fmt_d ppid ++ " " ++ rest.

Lemma stat_tail_scan st ppid rest :
  is_space st = false ->
  let r0 := st :: " "%char :: fmt_d ppid ++ " "%char :: rest in
  ltrim is_space r0 = r0 /\ ltrim is_space (span_tok r0).2 = fmt_d ppid ++ " "%char :: rest /\
  (span_tok (fmt_d ppid ++ " "%char :: rest)).1 = fmt_d ppid.
Proof.
  intros Hst r0. split_and!.
  - by apply ltrim_none.
  - unfold r0. simpl. rewrite Hst. simpl.
    destruct (fmt_d_cons ppid) as (c&r&->&Hc). simpl. by rewrite Hc.
  - rewrite span_tok_app; [done|apply fmt_d_not_space|done].
Qed.

(** [statPPID] returns the parent field of /proc/<pid>/stat for every
    process name, including names with parentheses and spaces: it looks after
    the last parenthesis of the file. *)
Theorem statPPID_roundtrip o pid comm st ppid rest :
  os_read o (proc_path pid "stat") = Some (stat_text pid comm st ppid rest) ->
  is_space st = false -> st <> ")"%char -> ")"%char ∉ rest ->
  - 2 ^ 31 <= ppid < 2 ^ 31 ->
  statPPID o pid = ppid.
Proof.
  intros Hr Hst Hp Hrest Hpp. unfold statPPID. rewrite Hr.
  set (tail := " "%char :: st :: " "%char :: fmt_d ppid ++ " "%char :: rest).
  assert (Hd : stat_text pid comm st ppid rest = (fmt_d pid ++ " (" ++ comm) ++ ")"%char :: tail).
  { unfold stat_text, tail. by rewrite <- !app_assoc. }
  assert (Htail : ")"%char ∉ tail).
  { assert (")"%char ∉ fmt_d ppid) by (by apply fmt_d_not_in). set_solver. }
  rewrite Hd, strrchr_app by done.
  rewrite drop_snoc_eq.
  destruct (stat_tail_scan st ppid rest Hst) as (H0&H1&H2).
  unfold tail. cbn [ltrim]. change (eqc " " " ") with true. cbn [ltrim].
  replace (ltrim _ (if eqc st " " then _ else _))
    with (st :: " "%char :: fmt_d ppid ++ " "%char :: rest).
  2: { destruct (eqc st " ") eqn:E; [apply eqc_true in E; by subst|]. by rewrite H0. }
  cbv iota. rewrite H1.
  destruct (fmt_d ppid ++ " "%char :: rest) as [|c r] eqn:Ef.
  { by apply app_eq_nil in Ef as [_ ?]. }
  rewrite H2. clear Ef H1 H2.
  pose proof (fmt_d_length 10 ppid ltac:(lia) ltac:(lia)) as Hlen.
  destruct (32 <=? length (fmt_d ppid))%nat eqn:E; [apply Nat.leb_le in E; lia|].
  rewrite cstr_id by (by apply fmt_d_not_in).
  rewrite <- (app_nil_r (fmt_d ppid)), strtol_fmt_d by (done || unfold LONG_MIN, LONG_MAX; lia).
  cbn [st_conv st_rest st_erange st_val]. rewrite eqs_refl. cbn [negb orb].
  destruct (ppid <? - 2147483648) eqn:E1; [zbool; lia|].
  destruct (2147483647 <? ppid) eqn:E2; [zbool; lia|]. done.
Qed.

Lemma statPPID_roundtrip_witness :
  let o := Os (fun _ => Some (stat_text 7 "a) R 1 (" "S" 42 "7 7 0")) (fun _ => LinkFails)
              (fun _ => None) (fun _ => None) (fun _ => None) in
  statPPID o 7 = 42.
Proof.
  intros o. apply (statPPID_roundtrip o 7 "a) R 1 (" "S" 42 "7 7 0").
  - reflexivity.
  - reflexivity.
  - discriminate.
  - apply strchr_None. reflexivity.
  - lia.
Defined.

(** * The ancestry walk *)

Section Ancestry.
Context (c : cfg) (o : os).

(** The [n]-th ancestor. *)
Definition ppid_n (n : nat) (pid : Z) : Z := Nat.iter n (statPPID o) pid.

(** The nearest watched process at or above [pid] is its [n]-th ancestor. *)
Definition root_at (n : nat) (pid : Z) : Prop :=
  isWatchRoot c (ppid_n n pid) = true /\
  forall i, (i < n)%nat -> isWatchRoot c (ppid_n i pid) = false /\ 0 < ppid_n (S i) pid.

(** The depth printed for a process: a watched process and its children are
    at depth 0, each further generation one deeper. *)
Definition depth_at (n : nat) : Z := Z.of_nat (pred n).

Lemma root_at_O pid : root_at 0 pid <-> isWatchRoot c pid = true.
Proof. unfold root_at. simpl. split; [tauto|]. intros H. split; [done|]. intros i Hi. lia. Qed.

Lemma ppid_n_S n pid : ppid_n (S n) pid = ppid_n n (statPPID o pid).
Proof. apply Nat.iter_succ_r. Qed.

Lemma root_at_S n pid : root_at (S n) pid <->
  isWatchRoot c pid = false /\ 0 < statPPID o pid /\ root_at n (statPPID o pid).
Proof.
  unfold root_at. rewrite ppid_n_S. split.
  - intros [Hr Hi]. destruct (Hi 0%nat) as [H1 H2]; [lia|].
    split; [exact H1|]. split; [exact H2|]. split; [done|].
    intros i Hlt. specialize (Hi (S i) ltac:(lia)). by rewrite (ppid_n_S i), (ppid_n_S (S i)) in Hi.
  - intros (H1&H2&Hr&Hi). split; [done|]. intros [|i] Hlt; [done|].
    rewrite (ppid_n_S i), (ppid_n_S (S i)). apply Hi. lia.
Qed.

(** Every recorded depth is the right one. *)
Definition db_consistent (m : gmap Z pidEntry) : Prop :=
  forall pid e, m !! pid = Some e -> exists n, root_at n pid /\ pe_depth e = depth_at n.

(** The walk over a finite map instead of the table. *)
Fixpoint depth_of (fuel : nat) (m : gmap Z pidEntry) (pid : Z) : outcome (Z * list bytes) :=
  if isWatchRoot c pid then Ok (0, [])
  else
    let ppid := statPPID o pid in
    if ppid <? 0 then
      Ok (-1, runtimeErr c ("proc-trace-exec: process vanished before we found its parent: pid "
                              ++ fmt_d pid))
    else if ppid =? 0 then Ok (-1, [])
    else if isWatchRoot c ppid then Ok (0, [])
    else match m !! ppid with
         | Some ent => Ok (pe_depth ent + 1, [])
         | None =>
             match fuel with
             | O => Fuel
             | S f => r ← depth_of f m ppid;
                      let '(d, errs) := r in
                      if d <? 0 then Ok (-1, errs) else Ok (d + 1, errs)
             end
         end.

Lemma pidDepth_abs fuel db pid : db_wf db -> pidDepth fuel c o db pid = depth_of fuel (db_abs db) pid.
Proof.
  intros Hw. revert pid. induction fuel as [|f IH]; intros pid; cbn [pidDepth depth_of];
    rewrite !piddb_find_abs by done; [done|]. by rewrite IH.
Qed.

Context (rank : Z -> nat).
(** Following positive parent links ends: [rank] is, for instance, the number
    of ancestors. *)
Hypothesis rank_dec : forall p, 0 < statPPID o p -> (rank (statPPID o p) < rank p)%nat.

Lemma depth_of_spec fuel m pid : (rank pid <= fuel)%nat -> db_consistent m ->
  exists d errs, depth_of fuel m pid = Ok (d, errs) /\
    ((exists n, root_at n pid /\ d = depth_at n) \/ (d = -1 /\ forall n, ~ root_at n pid)).
Proof using rank_dec.
  intros Hf Hm. revert pid Hf. induction fuel as [|f IH]; intros pid Hf; cbn [depth_of].
  all: destruct (isWatchRoot c pid) eqn:Hr;
    [eexists _, _; split; [done|]; left; exists 0%nat; split; [by apply root_at_O|done]|].
  all: assert (Hno : 0 < statPPID o pid \/ forall n, ~ root_at n pid);
    [destruct (decide (0 < statPPID o pid)); [by left|right];
     intros [|n']; rewrite ?root_at_O, ?root_at_S; [congruence|tauto]|].
  all: destruct (statPPID o pid <? 0) eqn:E1; zbool;
    [eexists _, _; split; [done|]; right; split; [done|]; destruct Hno; [lia|done]|].
  all: destruct (statPPID o pid =? 0) eqn:E2; zbool;
    [eexists _, _; split; [done|]; right; split; [done|]; destruct Hno; [lia|done]|].
  all: destruct (isWatchRoot c (statPPID o pid)) eqn:Hp;
    [eexists _, _; split; [done|]; left; exists 1%nat; split;
       [apply root_at_S; split_and!; [done|lia|by apply root_at_O]|done]|].
  all: assert (Hpos : 0 < statPPID o pid) by lia; pose proof (rank_dec pid Hpos) as Hrk.
  all: destruct (m !! statPPID o pid) as [ent|] eqn:Hent;
    [destruct (Hm _ _ Hent) as (n&Hn&Hd); eexists _, _; split; [done|]; left; exists (S n);
     split; [apply root_at_S; split_and!; [done|lia|done]|rewrite Hd];
     destruct n; [apply root_at_O in Hn; congruence|unfold depth_at; lia]|].
  - lia.
  - destruct (IH (statPPID o pid)) as (d&errs&->&Hd); [lia|]. cbn [mbind outcome_bind].
    destruct Hd as [(n&Hn&->)|(->&Hn)].
    + destruct (depth_at n <? 0) eqn:E; [unfold depth_at in E; zbool; lia|].
      eexists _, _; split; [done|]. left. exists (S n). split; [by apply root_at_S|].
      destruct n; [apply root_at_O in Hn; congruence|unfold depth_at; lia].
    + eexists _, _; split; [done|]. right. split; [done|]. intros [|n].
      * rewrite root_at_O. congruence.
      * rewrite root_at_S. intros (_&_&Hr'). by eapply Hn.
Qed.

End Ancestry.

(** A process tree 30 - 20 - 10, seen through /proc. *)
Definition demo_os : os :=
  Os (fun p => if eqs p (proc_path 30 "stat") then Some (stat_text 30 "sh" "S" 20 "0")
               else if eqs p (proc_path 20 "stat") then Some (stat_text 20 "sh" "S" 10 "0")
               else if eqs p (proc_path 30 "cmdline") then Some (nul_join ["/bin/ls" : bytes; "a b" : bytes])
               else None)
     (fun _ => LinkFails) (fun _ => None) (fun _ => None) (fun _ => None).
Definition demo_cfg : cfg := Cfg false false false false true true true false false [10].
Definition demo_rank (p : Z) : nat := if p =? 30 then 3%nat else if p =? 20 then 2%nat else 1%nat.

Lemma stat_not_cmdline p : eqs (proc_path p "stat") (proc_path 30 "cmdline") = false.
Proof.
  apply eqs_false. intros E. unfold proc_path in E. rewrite !app_assoc in E.
  apply (f_equal (fun l => hd_error (reverse l))) in E. rewrite !reverse_app in E. done.
Qed.

Lemma demo_ppid p : statPPID demo_os p = if p =? 30 then 20 else if p =? 20 then 10 else -1.
Proof.
  unfold statPPID. cbn [os_read demo_os]. rewrite !proc_path_eqb, stat_not_cmdline.
  destruct (p =? 30); [reflexivity|]. destruct (p =? 20); reflexivity.
Qed.

Lemma demo_rank_dec p : 0 < statPPID demo_os p ->
  (demo_rank (statPPID demo_os p) < demo_rank p)%nat.
Proof.
  rewrite demo_ppid. unfold demo_rank. destruct (p =? 30); [cbn; lia|]. destruct (p =? 20); cbn; lia.
Qed.

Lemma demo_rank_le p : (demo_rank p <= 3)%nat.
Proof. unfold demo_rank. destruct (p =? 30); [lia|]. destruct (p =? 20); lia. Qed.

Lemma pt_empty_consistent c o : db_consistent c o (db_abs pt_empty).
Proof. intros pid e He. unfold db_abs in He. rewrite pt_empty_abs in He. done. Qed.

Lemma db_empty_wf : db_wf pt_empty.
Proof. apply pt_empty_wf. Qed.

Example demo_depth : pidDepth 3 demo_cfg demo_os pt_empty 30 = Ok (1, []).
Proof. reflexivity. Qed.
