(* ===== verification/ExecSpec.v ===== *)
(** The specification of the Linux exec tracer, a fold of kernel events over a
    finite map of traced processes, and the refinement theorems: the handlers
    of c/exec.c implement its steps, and the netlink loop implements the fold
    for every way of framing the events, and is safe on arbitrary bytes. *)
From S2P Require Import Prelude CLib Os Common ProbeTable ExecLinux ExecProofs.

(** * Specification *)

(** The messages of the connector: a program executed, a process exited, an
    event of another kind (a fork, a new name or user, ...), and the message of
    another connector. *)
Inductive event :=
  | EvExec (pid tsNs : Z)
  | EvExit (pid exitCode tsNs : Z)
  | EvOther (what tsNs : Z)
  | EvForeign (idx val : Z).

Record sst := Sst { s_map : gmap Z pidEntry; s_out : bytes; s_err : list bytes }.

Section Spec.
Context (fuel : nat) (c : cfg) (o : os).

(** The line announcing that a traced process executed again. *)
Definition execed_line (m : gmap Z pidEntry) (pid : Z) : bytes :=
  match m !! pid with
  | Some ent => if showExit c && negb (eqs (cmd_text (pe_cmdline ent)) [])
                then buildExecedLine c ent pid else []
  | None => []
  end.

Definition spec_step (ev : event) (t : sst) : outcome sst :=
  match ev with
  | EvExec pid ts =>
      r ← depth_of c o fuel (s_map t) pid;
      let '(d, errs) := r in
      if d <? 0 then Ok (Sst (s_map t) (s_out t) (s_err t ++ errs))
      else Ok (Sst (<[pid := PidEntry pid d ts (Some (readFirstArg o pid))]> (s_map t))
                   (s_out t ++ execed_line (s_map t) pid ++ printExec c o pid d)
                   (s_err t ++ errs))
  | EvExit pid code ts =>
      match s_map t !! pid with
      | None => Ok t
      | Some ent =>
          Ok (Sst (delete pid (s_map t))
                  (s_out t ++ if showExit c then exit_line c ent pid code ts else []) (s_err t))
      end
  | EvOther _ _ | EvForeign _ _ => Ok t
  end.

Fixpoint spec_run (evs : list event) (t : sst) : outcome sst :=
  match evs with [] => Ok t | ev :: evs' => t' ← spec_step ev t; spec_run evs' t' end.

(** Every event finds the table with a free slot: fewer processes than its
    capacity are traced at a time. *)
Definition has_room (t : sst) : bool := Z.of_nat (size (s_map t)) <? PIDDB_CAP.
Fixpoint roomy (evs : list event) (t : sst) : bool :=
  match evs with
  | [] => true
  | ev :: evs' => has_room t && match spec_step ev t with Ok t' => roomy evs' t' | _ => true end
  end.

(** The abstraction relation. *)
Definition refines (s : state) (t : sst) : Prop :=
  db_wf (st_db s) /\ db_abs (st_db s) = s_map t /\ st_out s = s_out t /\ st_err s = s_err t.

(** The outcome of the code matches the outcome of the specification. *)
Definition sim (x : outcome state) (y : outcome sst) : Prop :=
  match y with
  | Ok t' => exists s', x = Ok s' /\ refines s' t'
  | Ub => x = Ub
  | Fuel => x = Fuel
  end.

Lemma handleExec_sim data pid32 ts s t :
  refines s t -> Z.of_nat (size (s_map t)) < PIDDB_CAP ->
  8 <= blen data -> le32 data 0 = Ok pid32 ->
  sim (handleExec fuel c o data ts s) (spec_step (EvExec (i32 pid32) ts) t).
Proof.
  intros (Hw&Ha&Ho&He) Hsz Hl Hrd. unfold handleExec.
  rewrite (proj2 (Z.ltb_ge _ _)) by lia. rewrite Hrd. cbn [mbind outcome_bind].
  rewrite pidDepth_abs, Ha by done. unfold spec_step. set (pid := i32 pid32).
  destruct (depth_of c o fuel (s_map t) pid) as [[d errs]| |]; [|done|done].
  cbn [mbind outcome_bind st_db st_out st_err]. destruct (d <? 0).
  { cbn [sim]. eexists. split; [done|]. split_and!; cbn; congruence. }
  rewrite <- Ha in Hsz. pose proof (piddb_get_ok (st_db s) pid Hw Hsz) as Hget.
  unfold execed_line. rewrite Ha in Hget. destruct (s_map t !! pid) as [ent|] eqn:Hent.
  - rewrite Hget. cbn [negb].
    assert (Hk : pe_pid ent = pid) by (apply (db_abs_key (st_db s)); [done|by rewrite Ha]).
    destruct (piddb_store_ok (st_db s) (PidEntry (pe_pid ent) d ts (Some (readFirstArg o pid))))
      as (db2&->&Hw2&Ha2); [done|cbn; rewrite Hk, Ha; by eexists|].
    cbn [sim]. eexists. split; [done|]. rewrite andb_true_r. split_and!; cbn; try congruence.
    rewrite Ha2. cbn. congruence.
  - destruct Hget as (db'&->&Hw'&Ha'). cbn [negb]. rewrite andb_false_r. cbn [andb].
    destruct (piddb_store_ok db' (PidEntry pid d ts (Some (readFirstArg o pid))))
      as (db2&Hst&Hw2&Ha2); [done|cbn; rewrite Ha', lookup_insert_eq; by eexists|].
    cbn [pe_pid]. rewrite Hst. cbn [sim]. eexists. split; [done|].
    split_and!; cbn; try congruence. rewrite Ha2, Ha'. cbn. rewrite insert_insert_eq. congruence.
Qed.

Lemma handleExit_sim data pid32 code ts s t :
  refines s t -> Z.of_nat (size (s_map t)) < PIDDB_CAP ->
  24 <= blen data -> le32 data 0 = Ok pid32 -> le32 data 8 = Ok code ->
  sim (handleExit c data ts s) (spec_step (EvExit (i32 pid32) code ts) t).
Proof.
  intros (Hw&Ha&Ho&He) Hsz Hl Hr0 Hr8. unfold handleExit.
  rewrite (proj2 (Z.ltb_ge _ _)) by lia. rewrite Hr0, Hr8. cbn [mbind outcome_bind].
  rewrite piddb_find_abs, Ha by done. unfold spec_step.
  destruct (s_map t !! i32 pid32) as [ent|] eqn:Hent; cbn [sim].
  - rewrite <- Ha in Hsz. destruct (piddb_delete_ok (st_db s) (i32 pid32)) as (db'&->&Hw'&Ha'); [done..|].
    cbn [mbind outcome_bind]. eexists. split; [done|]. split_and!; cbn; congruence.
  - eexists. split; [done|]. done.
Qed.

Lemma spec_step_size ev t t' : spec_step ev t = Ok t' -> (size (s_map t') <= S (size (s_map t)))%nat.
Proof.
  destruct ev as [pid ts|pid code ts|what ts|idx val]; cbn [spec_step].
  - intros H. apply bind_Ok in H as ([d errs]&_&Hr). destruct (d <? 0); inv Hr; cbn [s_map]; [lia|].
    destruct (s_map t !! pid) eqn:E.
    + rewrite map_size_insert_Some by eauto. lia.
    + rewrite map_size_insert_None by done. lia.
  - destruct (s_map t !! pid) eqn:E; intros [= <-]; cbn [s_map]; [|lia].
    rewrite map_size_delete, E. lia.
  - intros [= <-]. lia.
  - intros [= <-]. lia.
Qed.

(** * Framing *)

(** The fields of the netlink, connector and event headers, and of the
    payload, that the tracer does not look at; [w_rest] is the rest of the
    union of the event's data, or the whole data of a foreign message. *)
Record wire := Wire {
  w_type : Z; w_flags : Z; w_seq : Z; w_pid : Z;
  w_cseq : Z; w_cack : Z; w_clen : Z; w_cflags : Z; w_cpu : Z; w_tgid : Z;
  w_signal : Z; w_ppid : Z; w_ptgid : Z; w_rest : bytes;
}.

Definition enc_payload (w : wire) (ev : event) : bytes :=
  match ev with
  | EvExec pid _ => put32 (u32 pid) ++ put32 (w_tgid w) ++ w_rest w
  | EvExit pid code _ =>
      put32 (u32 pid) ++ put32 (w_tgid w) ++ put32 code ++ put32 (w_signal w) ++
      put32 (w_ppid w) ++ put32 (w_ptgid w) ++ w_rest w
  | EvOther _ _ | EvForeign _ _ => w_rest w
  end.
Definition ev_what (ev : event) : Z :=
  match ev with EvExec _ _ => PROC_EVENT_EXEC | EvExit _ _ _ => PROC_EVENT_EXIT | EvOther what _ => what | EvForeign _ _ => 0 end.
Definition ev_ts (ev : event) : Z :=
  match ev with EvExec _ ts | EvExit _ _ ts | EvOther _ ts => ts | EvForeign _ _ => 0 end.

(** A message of the kernel's proc connector, or of another one; messages are
    padded to four bytes. *)
Definition enc_cn (w : wire) : bytes :=
  put32 (w_cseq w) ++ put32 (w_cack w) ++ put16 (w_clen w) ++ put16 (w_cflags w).
Definition enc_event (w : wire) (ev : event) : bytes :=
  put32 1 ++ put32 1 ++ enc_cn w ++ put32 (ev_what ev) ++ put32 (w_cpu w) ++ put64 (ev_ts ev) ++
  enc_payload w ev.
Definition enc_body (w : wire) (ev : event) : bytes :=
  match ev with
  | EvForeign idx val => put32 idx ++ put32 val ++ enc_cn w ++ w_rest w
  | _ => enc_event w ev
  end.
Definition enc_nl (w : wire) : bytes :=
  put16 (w_type w) ++ put16 (w_flags w) ++ put32 (w_seq w) ++ put32 (w_pid w).
Definition nl_pad (n : Z) : bytes := replicate (Z.to_nat ((- n) mod 4)) NUL.
Definition enc_msg (m : wire * event) : bytes :=
  put32 (16 + blen (enc_body m.1 m.2)) ++ enc_nl m.1 ++ enc_body m.1 m.2 ++ nl_pad (blen (enc_body m.1 m.2)).

Definition event_ok (ev : event) : Prop :=
  match ev with
  | EvExec pid ts => - 2 ^ 31 <= pid < 2 ^ 31 /\ 0 <= ts < 2 ^ 64
  | EvExit pid code ts => - 2 ^ 31 <= pid < 2 ^ 31 /\ 0 <= code < 2 ^ 32 /\ 0 <= ts < 2 ^ 64
  | EvOther what ts => 0 <= what < 2 ^ 32 /\ what <> PROC_EVENT_EXEC /\ what <> PROC_EVENT_EXIT /\ 0 <= ts < 2 ^ 64
  | EvForeign idx val => 0 <= idx < 2 ^ 32 /\ 0 <= val < 2 ^ 32 /\ ~ (idx = 1 /\ val = 1)
  end.
Definition msg_ok (m : wire * event) : Prop := event_ok m.2 /\ blen (w_rest m.1) < 2 ^ 31.

(** What may follow the messages of a datagram: less than a header, or a
    message that says a length below a header's, or longer than what is there
    (the datagram has been cut to the size of the buffer). *)
Definition tail_ok (tl : bytes) : Prop :=
  blen tl < NLMSG_HDR_SIZE \/ exists n, le32 tl 0 = Ok n /\ (n < NLMSG_HDR_SIZE \/ blen tl < n).

Lemma i32_u32 pid : - 2 ^ 31 <= pid < 2 ^ 31 -> i32 (u32 pid) = pid.
Proof.
  intros H. unfold swrap, wrap. rewrite Z.mod_mod by lia. apply (swrap_small 32); [lia|]. exact H.
Qed.

Lemma le32_first v s : 0 <= v < 2 ^ 32 -> le32 (put32 v ++ s) 0 = Ok v.
Proof. intros. by apply (le32_put32 []). Qed.

Lemma enc_payload_sim w ev s t : event_ok ev ->
  refines s t -> Z.of_nat (size (s_map t)) < PIDDB_CAP ->
  sim (match ev with EvExec _ ts => handleExec fuel c o (enc_payload w ev) ts s
                   | EvExit _ _ ts => handleExit c (enc_payload w ev) ts s
                   | _ => Ok s end)
      (spec_step ev t).
Proof.
  intros Hok HR Hsz. pose proof (blen_nonneg (w_rest w)) as Hwr.
  destruct ev as [pid ts|pid code ts|what ts|idx val]; cbn [enc_payload].
  - destruct Hok as [Hp _]. pose proof (wrap_range 32 pid ltac:(lia)).
    rewrite <- (i32_u32 pid) at 2 by done. apply handleExec_sim; try done; [rewrite !blen_app, !blen_put32; lia|]. by apply le32_first.
  - destruct Hok as (Hp&Hc&_). pose proof (wrap_range 32 pid ltac:(lia)).
    rewrite <- (i32_u32 pid) at 2 by done. apply handleExit_sim; try done; [rewrite !blen_app, !blen_put32; lia|by apply le32_first|].
    rewrite (app_assoc (put32 (u32 pid))). by apply le32_put32.
  - by exists s.
  - by exists s.
Qed.

Lemma blen_event w ev : blen (enc_event w ev) = 36 + blen (enc_payload w ev).
Proof. unfold enc_event, enc_cn. rewrite !blen_app, !blen_put32, !blen_put16, blen_put64. lia. Qed.

Lemma dispatch_foreign_sim w idx val s t : event_ok (EvForeign idx val) -> refines s t ->
  sim (dispatch_event fuel c o (enc_body w (EvForeign idx val)) s) (Ok t).
Proof.
  intros (Hi&Hv&Hne) HR. unfold dispatch_event. destruct (_ <? _); [by exists s|]. cbn [enc_body].
  rewrite le32_first by lia. rewrite (le32_put32 (put32 idx) _ _ 4) by (done || lia). cbn [mbind outcome_bind].
  destruct (_ && _) eqn:E; [zbool; tauto|]. by exists s.
Qed.

Lemma dispatch_enc_event_sim w ev s t : event_ok ev -> (forall idx val, ev <> EvForeign idx val) ->
  refines s t -> Z.of_nat (size (s_map t)) < PIDDB_CAP ->
  sim (dispatch_event fuel c o (enc_event w ev) s) (spec_step ev t).
Proof.
  intros Hok Hev HR Hsz. pose proof (enc_payload_sim w ev s t Hok HR Hsz) as Hsim.
  unfold dispatch_event. pose proof (blen_event w ev) as Hb.
  change (CN_MSG_SIZE + PROC_EVT_HDR) with 36. change (CN_MSG_SIZE + 8) with 28.
  change CN_MSG_SIZE with 20. rewrite (proj2 (Z.ltb_ge _ _)).
  2: { rewrite Hb. pose proof (blen_nonneg (enc_payload w ev)). lia. }
  assert (H0 : le32 (enc_event w ev) 0 = Ok 1) by (by apply le32_first).
  assert (H4 : le32 (enc_event w ev) 4 = Ok 1) by (by apply (le32_put32 (put32 1))).
  assert (Hpre : enc_event w ev = (put32 1 ++ put32 1 ++ enc_cn w) ++ put32 (ev_what ev) ++
     put32 (w_cpu w) ++ put64 (ev_ts ev) ++ enc_payload w ev)
    by (unfold enc_event; by rewrite <- !app_assoc).
  assert (H20 : le32 (enc_event w ev) 20 = Ok (ev_what ev)).
  { rewrite Hpre. apply le32_put32; [done|]. destruct ev; try done. exact (proj1 Hok). }
  assert (H28 : le64 (enc_event w ev) 28 = Ok (ev_ts ev)).
  { rewrite Hpre. rewrite (app_assoc (put32 (ev_what ev))), app_assoc.
    apply put64_le64; [done|]. destruct ev; unfold event_ok, ev_ts in *; lia. }
  assert (Hsl : sub (enc_event w ev) 36 (blen (enc_event w ev) - 36) = Ok (enc_payload w ev)).
  { rewrite Hb, Hpre. rewrite !(app_assoc _ _ (enc_payload w ev)), <- (app_nil_r (enc_payload w ev)) at 1.
    apply sub_prefix; [done|lia]. }
  rewrite H0, H4, H20, H28, Hsl. cbn [mbind outcome_bind Z.eqb Pos.eqb andb].
  destruct ev as [?|?|what ts|idx val]; [exact Hsim|exact Hsim| |by destruct (Hev idx val)].
  destruct Hok as (_&H1&H2&_). cbn [ev_what]. rewrite !(proj2 (Z.eqb_neq _ _)) by done. exact Hsim.
Qed.

Lemma dispatch_event_sim w ev s t : event_ok ev ->
  refines s t -> Z.of_nat (size (s_map t)) < PIDDB_CAP ->
  sim (dispatch_event fuel c o (enc_body w ev) s) (spec_step ev t).
Proof.
  intros Hok HR Hsz. destruct ev; [by apply dispatch_enc_event_sim..|by apply dispatch_foreign_sim].
Qed.

Lemma sim_bind x y f g : sim x y ->
  (forall s' t', y = Ok t' -> refines s' t' -> sim (f s') (g t')) -> sim (x ≫= f) (y ≫= g).
Proof.
  intros Hx Hf. destruct y as [t'| |]; simpl in Hx; [|by subst..].
  destruct Hx as (s'&->&HR). by apply Hf.
Qed.

Lemma NLMSG_ALIGN_eq len : 0 <= len < 2 ^ 32 - 3 -> NLMSG_ALIGN len = (len + 3) / 4 * 4.
Proof.
  intros Hl. unfold NLMSG_ALIGN. rewrite (wrap_small 32) by lia.
  change (wrap 32 (Z.lnot 3)) with (2 ^ 32 - 1 - 3).
  assert (Hd : Z.land (len + 3) (2 ^ 32 - 1 - 3) = Z.ldiff (len + 3) 3).
  { apply Z.bits_inj'. intros n Hn. rewrite Z.land_spec, Z.ldiff_spec.
    destruct (decide (n < 32)).
    - replace (2 ^ 32 - 1 - 3) with (Z.land (Z.ones 32) (Z.lnot 3)) by done.
      rewrite Z.land_spec, Z.ones_spec_low, Z.lnot_spec by lia. done.
    - rewrite (Z.bits_above_log2 (len + 3)); [done|lia|].
      apply Z.log2_lt_pow2; [lia|]. assert (2 ^ 32 <= 2 ^ n) by (apply Z.pow_le_mono_r; lia). lia. }
  rewrite Hd. change 3 with (Z.ones 2) at 2. rewrite Z.ldiff_ones_r by lia.
  by rewrite Z.shiftr_div_pow2, Z.shiftl_mul_pow2 by lia.
Qed.

Lemma blen_body w ev : blen (w_rest w) < 2 ^ 31 -> 20 <= blen (enc_body w ev) < 2 ^ 31 + 64.
Proof.
  intros Hr. pose proof (blen_nonneg (w_rest w)).
  destruct ev; cbn [enc_body]; rewrite ?blen_event; unfold enc_payload, enc_cn; rewrite ?blen_app, ?blen_put32, ?blen_put16; lia.
Qed.

Lemma blen_msg m : blen (enc_msg m) = 16 + blen (enc_body m.1 m.2) + (- blen (enc_body m.1 m.2)) mod 4.
Proof.
  unfold enc_msg, nl_pad. rewrite !blen_app, blen_replicate. change (blen (put32 _)) with 4. change (blen (enc_nl _)) with 12.
  pose proof (Z.mod_pos_bound (- blen (enc_body m.1 m.2)) 4 ltac:(lia)). lia.
Qed.

Lemma enc_msg_align m : msg_ok m ->
  NLMSG_ALIGN (16 + blen (enc_body m.1 m.2)) = blen (enc_msg m) /\ 36 <= 16 + blen (enc_body m.1 m.2) <= blen (enc_msg m) /\ blen (enc_msg m) < 2 ^ 32.
Proof.
  intros [_ Hr]. pose proof (blen_body m.1 m.2 Hr) as Hb. rewrite blen_msg.
  pose proof (Z.mod_pos_bound (- blen (enc_body m.1 m.2)) 4 ltac:(lia)). rewrite NLMSG_ALIGN_eq by lia.
  split; [Z.div_mod_to_equations|]; lia.
Qed.

Lemma dispatch_tail turns pre tl s : tail_ok tl -> dispatch_go (S turns) fuel c o (pre ++ tl) (blen pre) s = Ok s.
Proof.
  intros Ht. cbn [dispatch_go]. rewrite blen_app. replace (blen pre + blen tl - blen pre) with (blen tl) by lia.
  destruct (blen tl <? NLMSG_HDR_SIZE) eqn:E; [done|]. zbool. destruct Ht as [Ht|(n&Hn&Hlt)]; [lia|].
  rewrite le32_app_r, Hn, ok_bind. by replace ((n <? NLMSG_HDR_SIZE) || (blen tl <? n)) with true by (symmetry; apply orb_true_iff; lia).
Qed.

Lemma dispatch_go_sim tl l : forall turns pre s t,
  (length l < turns)%nat -> Forall msg_ok l -> tail_ok tl -> refines s t -> roomy l.*2 t = true ->
  sim (dispatch_go turns fuel c o (pre ++ mjoin (enc_msg <$> l) ++ tl) (blen pre) s) (spec_run l.*2 t).
Proof.
  induction l as [|[w ev] l IH]; intros [|turns] pre s t Ht Hok Htl HR Hrm; [lia| |cbn in Ht; lia|].
  { cbn [fmap list_fmap mjoin list_join app spec_run sim]. rewrite dispatch_tail by done. by exists s. }
  apply Forall_cons in Hok as [Hm Hok]. cbn [fmap list_fmap roomy snd] in Hrm. apply andb_true_iff in Hrm as [Hsz Hrm].
  unfold has_room in Hsz. zbool.
  rewrite !fmap_cons. change (mjoin (?x :: ?y)) with (x ++ mjoin y). rewrite <- app_assoc.
  set (rest := mjoin (enc_msg <$> l) ++ tl). cbn [dispatch_go spec_run snd].
  destruct (enc_msg_align (w, ev) Hm) as [Hal Hlen]. cbn [fst snd] in *. pose proof (blen_nonneg rest).
  set (n := 16 + blen (enc_body w ev)) in *.
  rewrite !blen_app. unfold NLMSG_HDR_SIZE. rewrite (proj2 (Z.ltb_ge (_ - _) 16)) by lia.
  assert (Hrd : le32 (pre ++ enc_msg (w, ev) ++ rest) (blen pre) = Ok n).
  { unfold enc_msg at 1. rewrite <- !app_assoc. cbn [fst snd]. apply le32_put32; [done|lia]. }
  assert (Hsl : sub (pre ++ enc_msg (w, ev) ++ rest) (blen pre + 16) (n - 16) = Ok (enc_body w ev)).
  { replace (pre ++ enc_msg (w, ev) ++ rest)
      with ((pre ++ put32 n ++ enc_nl w) ++ enc_body w ev ++ nl_pad (blen (enc_body w ev)) ++ rest)
      by (unfold enc_msg; by rewrite <- !app_assoc).
    apply sub_prefix; [by rewrite !blen_app|lia]. }
  rewrite Hrd. cbn [mbind outcome_bind]. rewrite (proj2 (Z.ltb_ge n 16)), (proj2 (Z.ltb_ge _ n)) by lia. cbn [orb].
  rewrite Hsl, ok_bind.
  apply sim_bind; [by apply dispatch_event_sim; [apply Hm|..]|].
  intros s' t' Hst HR'. rewrite Hst in Hrm.
  rewrite Hal. rewrite (proj2 (Z.eqb_neq _ _)), (proj2 (Z.ltb_ge _ _)) by lia. cbn [orb].
  rewrite app_assoc, <- blen_app. apply IH; [cbn in Ht; lia|done..].
Qed.
End Spec.

(** * Safety on arbitrary bytes *)

Section Safety.
Context (c : cfg) (o : os) (rank : Z -> nat) (fuel : nat).
Hypothesis rank_dec : forall p, 0 < statPPID o p -> (rank (statPPID o p) < rank p)%nat.
Hypothesis rank_fuel : forall p, (rank p <= fuel)%nat.
(** A property of the table that the steps of the specification keep. *)
Context (P : gmap Z pidEntry -> Prop).
Hypothesis P_step : forall ev t t', spec_step fuel c o ev t = Ok t' -> P (s_map t) -> P (s_map t').

Lemma depth_of_total f m pid : (rank pid <= f)%nat -> exists d errs, depth_of c o f m pid = Ok (d, errs).
Proof using rank_dec.
  revert pid. induction f as [|f IH]; intros pid Hf; cbn [depth_of].
  all: destruct (isWatchRoot c pid); [eauto|]; destruct (statPPID o pid <? 0) eqn:E1; [eauto|].
  all: destruct (statPPID o pid =? 0) eqn:E2; [eauto|]; destruct (isWatchRoot c (statPPID o pid)); [eauto|].
  all: zbool; assert (Hlt : 0 < statPPID o pid) by lia; pose proof (rank_dec pid Hlt).
  all: destruct (m !! statPPID o pid); [eauto|].
  - lia.
  - destruct (IH (statPPID o pid)) as (d&errs&->); [lia|]. cbn [mbind outcome_bind].
    destruct (d <? 0); eauto.
Qed.

Lemma spec_step_total ev t : exists t', spec_step fuel c o ev t = Ok t' /\ s_out t `prefix_of` s_out t'.
Proof using rank_dec rank_fuel.
  destruct ev as [pid ts|pid code ts|what ts|idx val]; cbn [spec_step].
  - destruct (depth_of_total fuel (s_map t) pid) as (d&errs&->); [done|]. cbn [mbind outcome_bind].
    case_ifs; eexists; (split; [done|]); cbn [s_out]; [done|by apply prefix_app_r].
  - destruct (s_map t !! pid); eexists; (split; [done|]); cbn [s_out]; [by apply prefix_app_r|done].
  - by exists t.
  - by exists t.
Qed.

(** [s'] can follow [s] after at most [n] new processes. *)
Definition grows (n : Z) (s s' : state) : Prop :=
  db_wf (st_db s') /\ Z.of_nat (size (db_abs (st_db s'))) <= Z.of_nat (size (db_abs (st_db s))) + n /\
  st_out s `prefix_of` st_out s' /\ (P (db_abs (st_db s)) -> P (db_abs (st_db s'))).

Lemma sim_grows ev x s : db_wf (st_db s) ->
  (forall t, refines s t -> sim x (spec_step fuel c o ev t)) -> exists s', x = Ok s' /\ grows 1 s s'.
Proof using rank_dec rank_fuel P_step.
  intros Hw Hx. set (t := Sst (db_abs (st_db s)) (st_out s) (st_err s)).
  assert (HR : refines s t) by done. specialize (Hx t HR).
  destruct (spec_step_total ev t) as (t'&Ht&Hpre). rewrite Ht in Hx.
  destruct Hx as (s'&->&(Hw'&Ha'&Ho'&He')). exists s'. split; [done|].
  pose proof (P_step ev t t' Ht). apply spec_step_size in Ht. unfold grows. rewrite Ha', Ho'. split_and!; [done| |done|done].
  cbn [t s_map] in Ht. lia.
Qed.

Lemma grows_refl n s : 0 <= n -> db_wf (st_db s) -> grows n s s.
Proof. intros Hn Hw. split; [done|]. split; [lia|done]. Qed.

Lemma grows_trans a b x y z : grows a x y -> grows b y z -> grows (a + b) x z.
Proof. intros (?&?&?&?) (?&?&?&?). split; [done|]. split; [lia|]. split; [by etrans|tauto]. Qed.

(** Only a message of 44 bytes or more can add a process. *)
Definition adds (n : Z) : Z := if n <? 44 then 0 else 1.

Lemma dispatch_event_safe d s : db_wf (st_db s) ->
  Z.of_nat (size (db_abs (st_db s))) + adds (blen d) <= PIDDB_CAP ->
  exists s', dispatch_event fuel c o d s = Ok s' /\ grows (adds (blen d)) s s'.
Proof using rank_dec rank_fuel P_step.
  intros Hw Hsz. assert (Hn : 0 <= adds (blen d)) by (unfold adds; destruct (_ <? _); lia).
  assert (Hsame : exists s', Ok s = Ok s' /\ grows (adds (blen d)) s s')
    by (exists s; split; [done|by apply grows_refl]).
  unfold dispatch_event. change (CN_MSG_SIZE + PROC_EVT_HDR) with 36.
  change (CN_MSG_SIZE + 8) with 28. change CN_MSG_SIZE with 20.
  destruct (blen d <? 36) eqn:E; [done|]. zbool.
  destruct (le32_safe d 0) as (i&->&_); [lia..|]. destruct (le32_safe d 4) as (v&->&_); [lia..|].
  destruct (le32_safe d 20) as (w&->&_); [lia..|]. destruct (le64_safe d 28) as (ts&->&_); [lia..|].
  cbn [mbind outcome_bind]. destruct ((i =? 1) && (v =? 1)); [|done].
  rewrite sub_ok by lia. pose proof (blen_slice d 36 (blen d - 36) ltac:(lia) ltac:(lia) ltac:(lia)) as Hev.
  set (ev := slice d 36 (blen d - 36)) in *. cbn [mbind outcome_bind].
  destruct (w =? PROC_EVENT_EXEC); [|destruct (w =? PROC_EVENT_EXIT); [|done]].
  - destruct (decide (8 <= blen ev)) as [Hl|Hl]; [|unfold handleExec; by rewrite (proj2 (Z.ltb_lt _ _)) by lia].
    assert (Ha : adds (blen d) = 1) by (unfold adds; rewrite (proj2 (Z.ltb_ge _ _)); lia). rewrite Ha in *.
    destruct (le32_safe ev 0) as (p&Hp&_); [lia..|].
    apply (sim_grows (EvExec (i32 p) ts)); [done|]. intros t HR. apply handleExec_sim; try done.
    destruct HR as (_&<-&_). lia.
  - destruct (decide (24 <= blen ev)) as [Hl|Hl]; [|unfold handleExit; by rewrite (proj2 (Z.ltb_lt _ _)) by lia].
    assert (Ha : adds (blen d) = 1) by (unfold adds; rewrite (proj2 (Z.ltb_ge _ _)); lia). rewrite Ha in *.
    destruct (le32_safe ev 0) as (p&Hp&_); [lia..|]. destruct (le32_safe ev 8) as (q&Hq&_); [lia..|].
    apply (sim_grows (EvExit (i32 p) q ts)); [done|]. intros t HR. apply handleExit_sim; try done.
    destruct HR as (_&<-&_). lia.
Qed.

Lemma NLMSG_ALIGN_ge len : 0 <= len < 2 ^ 32 - 3 -> len <= NLMSG_ALIGN len.
Proof. intros Hl. rewrite NLMSG_ALIGN_eq by lia. Z.div_mod_to_equations. lia. Qed.

(** A message that can add a process takes sixty bytes. *)
Lemma dispatch_go_safe turns data off s : db_wf (st_db s) -> 0 <= off <= blen data ->
  blen data < 2 ^ 32 - 3 -> (blen data - off) < 16 * (Z.of_nat turns) ->
  Z.of_nat (size (db_abs (st_db s))) + (blen data - off) / 60 <= PIDDB_CAP ->
  exists s', dispatch_go turns fuel c o data off s = Ok s' /\ grows ((blen data - off) / 60) s s'.
Proof using rank_dec rank_fuel P_step.
  revert off s. induction turns as [|turns IH]; intros off s Hw Hoff Hmax Ht Hsz; [lia|].
  assert (Hnn : 0 <= (blen data - off) / 60) by (apply Z.div_pos; lia).
  cbn [dispatch_go]. unfold NLMSG_HDR_SIZE.
  destruct (blen data - off <? 16) eqn:E1; zbool; [exists s; split; [done|by apply grows_refl]|].
  destruct (le32_safe data off) as (len&->&_); [lia..|]. cbn [mbind outcome_bind].
  destruct ((len <? 16) || (blen data - off <? len)) eqn:E2; zbool; [exists s; split; [done|by apply grows_refl]|].
  pose proof (blen_slice data (off + 16) (len - 16) ltac:(lia) ltac:(lia) ltac:(lia)) as Hd.
  rewrite sub_ok by lia. cbn [mbind outcome_bind].
  assert (Ha : adds (len - 16) + (blen data - (off + len)) / 60 <= (blen data - off) / 60).
  { unfold adds. destruct (len - 16 <? 44) eqn:E; zbool; Z.div_mod_to_equations; lia. }
  assert (0 <= (blen data - (off + len)) / 60) by (apply Z.div_pos; lia).
  destruct (dispatch_event_safe (slice data (off + 16) (len - 16)) s) as (s1&->&G1); [done|rewrite Hd; lia|].
  rewrite Hd in G1. cbn [mbind outcome_bind]. pose proof (NLMSG_ALIGN_ge len ltac:(lia)).
  destruct ((_ =? 0) || _) eqn:E3; zbool.
  - exists s1. split; [done|]. destruct G1 as (?&?&?&?). split; [done|]. split; [lia|done].
  - pose proof G1 as (Hw1&Hs1&_).
    assert ((blen data - (off + NLMSG_ALIGN len)) / 60 <= (blen data - (off + len)) / 60) by (apply Z.div_le_mono; lia).
    destruct (IH (off + NLMSG_ALIGN len) s1) as (s2&->&G2); [done|lia..|].
    exists s2. split; [done|]. destruct (grows_trans _ _ _ _ _ G1 G2) as (?&?&?&?). split; [done|]. split; [lia|done].
Qed.
End Safety.

(** * Theorems *)

Lemma blen_stream l : Forall msg_ok l -> 36 * blen l <= blen (mjoin (enc_msg <$> l)).
Proof.
  induction 1 as [|m l Hm _ IH]; [done|]. rewrite fmap_cons. change (mjoin (?x :: ?y)) with (x ++ mjoin y).
  rewrite blen_app, blen_cons. destruct (enc_msg_align m Hm) as [_ H]. lia.
Qed.

(** Refinement of the netlink loop: on any buffer that concatenates the
    messages of the proc connector, of every kind, and those of others,
    whatever the header fields and data the tracer ignores, and that may end
    in a message cut short, [dispatchNlMsg] terminates and does to the process
    table, to the trace and to the diagnostics exactly what the fold of the
    specification does to a finite map, as long as every event finds the table
    with a free slot. *)
Theorem dispatchNlMsg_refines_fold fuel c o l tl s t :
  Forall msg_ok l -> tail_ok tl -> refines s t -> roomy fuel c o l.*2 t = true ->
  sim (dispatchNlMsg fuel c o (mjoin (enc_msg <$> l) ++ tl) s) (spec_run fuel c o l.*2 t).
Proof.
  intros Hok Htl HR Hrm. apply (dispatch_go_sim fuel c o tl l _ []); try done.
  pose proof (blen_stream l Hok). pose proof (blen_nonneg l). pose proof (blen_nonneg tl). rewrite blen_app.
  set (n := blen (mjoin (enc_msg <$> l))) in *.
  assert (blen l <= (n + blen tl) / 16) by (apply Z.div_le_lower_bound; lia).
  unfold blen at 1 in H2. lia.
Qed.

(** An exec event with the whole union of the event's data, a fork, a message
    of another connector, an exit event, and the start of a message. *)
Definition demo_wire : wire := Wire 3 0 7 0 1 0 40 0 2 30 17 10 10 (replicate 16 NUL).
Definition demo_stream : list (wire * event) :=
  [(demo_wire, EvExec 30 1000000000); (demo_wire, EvOther 1 1200000000); (demo_wire, EvForeign 4 1);
   (demo_wire, EvExit 30 256 2500000000)].
Definition demo_tail : bytes := put32 76 ++ put32 3 ++ put32 0 ++ put32 0 ++ put32 1.
Definition st0 : state := St pt_empty [] [].
Definition sst0 : sst := Sst ∅ [] [].

Lemma refines_0 : refines st0 sst0.
Proof. split; [exact db_empty_wf|]. split; [exact (pt_empty_abs pe_pid)|done]. Qed.

Lemma demo_stream_ok : Forall msg_ok demo_stream.
Proof. repeat constructor; cbn; try lia; done. Qed.
Lemma demo_tail_ok : tail_ok demo_tail.
Proof. right. exists 76. split; [reflexivity|]. right. vm_compute. done. Qed.

Lemma dispatchNlMsg_refines_fold_witness :
  sim (dispatchNlMsg 3 demo_cfg demo_os (mjoin (enc_msg <$> demo_stream) ++ demo_tail) st0)
      (spec_run 3 demo_cfg demo_os demo_stream.*2 sst0).
Proof.
  apply (dispatchNlMsg_refines_fold 3 demo_cfg demo_os demo_stream demo_tail st0 sst0).
  - exact demo_stream_ok.
  - exact demo_tail_ok.
  - exact refines_0.
  - vm_compute. reflexivity.
Defined.

Lemma dispatchNlMsg_grows c o rank fuel P data s :
  (forall p, 0 < statPPID o p -> (rank (statPPID o p) < rank p)%nat) ->
  (forall p, (rank p <= fuel)%nat) ->
  (forall ev t t', spec_step fuel c o ev t = Ok t' -> P (s_map t) -> P (s_map t')) ->
  db_wf (st_db s) -> blen data < 2 ^ 32 - 3 ->
  Z.of_nat (size (db_abs (st_db s))) + blen data / 60 <= PIDDB_CAP ->
  exists s', dispatchNlMsg fuel c o data s = Ok s' /\ grows P (blen data / 60) s s'.
Proof.
  intros Hr Hf HP Hw Hmax Hsz. pose proof (blen_nonneg data). unfold dispatchNlMsg.
  rewrite <- (Z.sub_0_r (blen data)) in Hsz.
  destruct (dispatch_go_safe c o rank fuel Hr Hf P HP (S (Z.to_nat (blen data / 16))) data 0 s)
    as (s'&Hs'&HG); [done|lia|done| |lia|].
  { pose proof (Z.mul_succ_div_gt (blen data) 16 ltac:(lia)). pose proof (Z.div_pos (blen data) 16 ltac:(lia) ltac:(lia)). lia. }
  rewrite Z.sub_0_r in HG. by exists s'.
Qed.

(** Safety of the netlink loop: whatever bytes the kernel or a forger
    sends, [dispatchNlMsg] terminates, never reads outside of the buffer nor
    takes a message from outside of it, and never dereferences a null entry,
    keeps the process table well formed and only appends to the trace,
    provided that the ancestry of processes ends and the table has a free slot
    per sixty bytes. *)
Theorem dispatchNlMsg_safe c o rank fuel data s :
  (forall p, 0 < statPPID o p -> (rank (statPPID o p) < rank p)%nat) ->
  (forall p, (rank p <= fuel)%nat) ->
  db_wf (st_db s) -> blen data < 2 ^ 32 - 3 ->
  Z.of_nat (size (db_abs (st_db s))) + blen data / 60 <= PIDDB_CAP ->
  exists s', dispatchNlMsg fuel c o data s = Ok s' /\ db_wf (st_db s') /\
    st_out s `prefix_of` st_out s'.
Proof.
  intros Hr Hf Hw Hmax Hsz.
  destruct (dispatchNlMsg_grows c o rank fuel (fun _ => True) data s) as (s'&Hs&(Hw'&_&Hp&_)); [done..|]. by exists s'.
Qed.

Lemma dispatchNlMsg_safe_witness :
  exists s', dispatchNlMsg 3 demo_cfg demo_os ("not a netlink message at all, but forty bytes of text" : bytes) st0
               = Ok s' /\ db_wf (st_db s') /\ st_out st0 `prefix_of` st_out s'.
Proof.
  apply (dispatchNlMsg_safe demo_cfg demo_os demo_rank).
  - exact demo_rank_dec.
  - exact demo_rank_le.
  - exact db_empty_wf.
  - cbv. reflexivity.
  - vm_compute. discriminate.
Defined.

(** * The depths *)

(** The steps of the specification record the right depths. *)
Lemma spec_step_consistent c o rank fuel ev t t' :
  (forall p, 0 < statPPID o p -> (rank (statPPID o p) < rank p)%nat) -> (forall p, (rank p <= fuel)%nat) ->
  spec_step fuel c o ev t = Ok t' -> db_consistent c o (s_map t) -> db_consistent c o (s_map t').
Proof.
  intros Hr Hf Hs Hc. destruct ev as [pid ts|pid code ts|what ts|idx val]; cbn [spec_step] in Hs.
  - destruct (depth_of_spec c o rank Hr fuel (s_map t) pid) as (d&errs&Hd&Hroot); [done..|]. rewrite Hd, ok_bind in Hs.
    destruct (d <? 0) eqn:E; injection Hs as <-; [done|]. zbool. cbn [s_map]. intros p e.
    rewrite lookup_insert. case_decide as Hp; [|by apply Hc]. intros [= <-]. subst p. cbn [pe_depth].
    destruct Hroot as [?|[-> _]]; [done|lia].
  - destruct (s_map t !! pid) as [ent|]; injection Hs as <-; [|done]. intros p e He. cbn [s_map] in He. apply lookup_delete_Some in He as [_ He]. by eapply Hc.
  - by injection Hs as <-.
  - by injection Hs as <-.
Qed.

(** The buffers that a tracer handles, and the room for each of them. *)
Fixpoint handles (fuel : nat) (c : cfg) (o : os) (datas : list bytes) (s : state) : outcome state :=
  match datas with [] => Ok s | d :: datas' => s' ← dispatchNlMsg fuel c o d s; handles fuel c o datas' s' end.
Definition fits (d : bytes) (s : state) : Prop :=
  blen d <= 65536 /\ Z.of_nat (size (db_abs (st_db s))) + blen d / 60 <= PIDDB_CAP.
Fixpoint all_fit (fuel : nat) (c : cfg) (o : os) (datas : list bytes) (s : state) : Prop :=
  match datas with
  | [] => True
  | d :: datas' => fits d s /\ forall s', dispatchNlMsg fuel c o d s = Ok s' -> all_fit fuel c o datas' s'
  end.

Lemma handles_consistent c o rank fuel datas : forall s s',
  (forall p, 0 < statPPID o p -> (rank (statPPID o p) < rank p)%nat) -> (forall p, (rank p <= fuel)%nat) ->
  db_wf (st_db s) -> db_consistent c o (db_abs (st_db s)) -> all_fit fuel c o datas s -> handles fuel c o datas s = Ok s' ->
  db_wf (st_db s') /\ db_consistent c o (db_abs (st_db s')).
Proof.
  induction datas as [|d datas IH]; intros s s' Hr Hf Hw Hc Hfit H; cbn [handles all_fit] in *; [by injection H as <-|].
  destruct Hfit as [[Hl Hsz] Hfit]. apply bind_Ok in H as (s1&H1&H2).
  destruct (dispatchNlMsg_grows c o rank fuel (db_consistent c o) d s) as (s2&E&(Hw2&_&_&Hc2)); [done|done| |done|lia|done|].
  { intros ev t t'. by apply (spec_step_consistent c o rank). }
  rewrite E in H1. injection H1 as ->. apply (IH s1); [done..|by apply Hc2|by apply Hfit|done].
Qed.

(** C12. The ancestry walk, in the tracer as it runs: after any datagrams,
    whatever they hold, [pidDepth] terminates on every process and returns the
    distance to the nearest watched ancestor (the watched process and its
    children counting as 0), or -1 exactly when there is none, although it
    takes the depths that the handlers have recorded for shortcuts: these are
    right, as long as the parent links that /proc shows stand still and end
    (their number is bounded by a rank), and the table has a free slot per
    sixty bytes of the datagrams. *)
Theorem pidDepth_correct c o rank fuel datas s pid :
  (forall p, 0 < statPPID o p -> (rank (statPPID o p) < rank p)%nat) -> (forall p, (rank p <= fuel)%nat) ->
  all_fit fuel c o datas st0 -> handles fuel c o datas st0 = Ok s ->
  exists d errs, pidDepth fuel c o (st_db s) pid = Ok (d, errs) /\
    ((exists n, root_at c o n pid /\ d = depth_at n) \/ (d = -1 /\ forall n, ~ root_at c o n pid)).
Proof.
  intros Hr Hf Hfit H. destruct (handles_consistent c o rank fuel datas st0 s) as [Hw Hc]; [done..|exact db_empty_wf|apply pt_empty_consistent|done|done|].
  rewrite pidDepth_abs by done. by apply (depth_of_spec c o rank).
Qed.

(** The process 20 is in the table when the depth of its child is asked for. *)
Definition demo_exec : bytes := enc_msg (demo_wire, EvExec 20 1000000000).
Lemma pidDepth_correct_witness : exists s, handles 3 demo_cfg demo_os [demo_exec] st0 = Ok s /\
  is_Some (piddb_find (st_db s) 20) /\
  exists d errs, pidDepth 3 demo_cfg demo_os (st_db s) 30 = Ok (d, errs) /\
    ((exists n, root_at demo_cfg demo_os n 30 /\ d = depth_at n) \/
     (d = -1 /\ forall n, ~ root_at demo_cfg demo_os n 30)).
Proof.
  destruct (handles 3 demo_cfg demo_os [demo_exec] st0) as [s| |] eqn:E; [|vm_compute in E; discriminate E..].
  exists s. split; [reflexivity|]. split.
  - assert (Hs : match handles 3 demo_cfg demo_os [demo_exec] st0 with
                 | Ok s => bool_decide (is_Some (piddb_find (st_db s) 20)) | _ => false end = true) by (vm_compute; reflexivity).
    rewrite E in Hs. by apply bool_decide_eq_true in Hs.
  - apply (pidDepth_correct demo_cfg demo_os demo_rank 3 [demo_exec] s 30).
    + exact demo_rank_dec.
    + exact demo_rank_le.
    + split; [split; vm_compute; discriminate|]. done.
    + exact E.
Defined.

(** A wait status decodes to the exit code it was built from, or to the
    name of the signal, whatever the core-dump bit and the bits above. *)
Theorem exit_text_decodes c code sig core hi :
  0 <= code < 256 -> 1 <= sig <= 127 -> 0 <= core <= 1 -> 0 <= hi ->
  exit_text c (code * 2 ^ 8) = trunc 64 (col c (if code =? 0 then "32" else "31")
    (if code =? 0 then "status=0" else trunc 32 ("status=" ++ fmt_d code))) /\
  exit_text c (hi * 2 ^ 8 + core * 2 ^ 7 + sig) = trunc 64 (col c "91" (trunc 32 ("signal=" ++ sigName sig))).
Proof.
  intros Hc Hs Hcore Hhi. unfold exit_text.
  rewrite !(land_mask _ 7), !(land_mask _ 8), Z.shiftr_div_pow2 by lia.
  rewrite Z.div_mul, (Z.mod_small code) by lia.
  replace ((code * 2 ^ 8) mod 2 ^ 7) with 0 by (rewrite <- (Z.mod_mul (code * 2) (2 ^ 7)); [f_equal; lia|lia]).
  replace ((hi * 2 ^ 8 + core * 2 ^ 7 + sig) mod 2 ^ 7) with sig.
  2: { replace (hi * 2 ^ 8 + core * 2 ^ 7 + sig) with (sig + (hi * 2 + core) * 2 ^ 7) by lia.
       rewrite Z.mod_add by lia. by rewrite Z.mod_small by lia. }
  cbn [Z.eqb]. rewrite (proj2 (Z.eqb_neq sig 0)) by lia. split; [|done]. by destruct (code =? 0).
Qed.

Lemma exit_text_decodes_witness :
  exit_text demo_cfg (3 * 2 ^ 8) = trunc 64 (col demo_cfg (if 3 =? 0 then "32" else "31")
    (if 3 =? 0 then "status=0" else trunc 32 ("status=" ++ fmt_d 3))) /\
  exit_text demo_cfg (0 * 2 ^ 8 + 1 * 2 ^ 7 + 11)
    = trunc 64 (col demo_cfg "91" (trunc 32 ("signal=" ++ sigName 11))).
Proof. apply (exit_text_decodes demo_cfg 3 11 1 0); lia. Defined.
