(* ===== verification/ExecArgs.v ===== *)
(** The command line of c/exec.c, of its Linux and of its macOS version: the
    scan of the clusters of flags, the list of watched processes, and the
    configuration the tracer runs with. *)
From S2P Require Import Prelude CLib Common ExecLinux.

Record xopts := XOpts {
  x_color : bool; x_cwd : bool; x_env : bool; x_flat : bool; x_full : bool; x_args : bool;
  x_errors : bool; x_exit : bool; x_user : bool;
  x_watch : list Z; x_out : option bytes; x_interval : Z;
}.
Definition xopts0 : xopts := XOpts false false false false false true true false false [] None 50.

(** How the scan ends: with the options and the command, in the usage text
    (status 1), or with an error message (status 1). *)
Inductive xres := XRun (o : xopts) (cmd : list bytes) | XUsage | XDie (msg : bytes).

Definition MAX_WATCH : nat := 256.

Definition with_watch (o : xopts) (w : list Z) : xopts :=
  XOpts (x_color o) (x_cwd o) (x_env o) (x_flat o) (x_full o) (x_args o) (x_errors o) (x_exit o) (x_user o)
    w (x_out o) (x_interval o).
Definition with_out (o : xopts) (f : bytes) : xopts :=
  XOpts (x_color o) (x_cwd o) (x_env o) (x_flat o) (x_full o) (x_args o) (x_errors o) (x_exit o) (x_user o)
    (x_watch o) (Some f) (x_interval o).
Definition with_interval (o : xopts) (v : Z) : xopts :=
  XOpts (x_color o) (x_cwd o) (x_env o) (x_flat o) (x_full o) (x_args o) (x_errors o) (x_exit o) (x_user o)
    (x_watch o) (x_out o) v.

(** The flags without an argument. *)
Definition switch (o : xopts) (ch : byte) : option xopts :=
  let '(XOpts co cw en fl fu ar er ex us w out iv) := o in
  if eqc ch "c" then Some (XOpts true cw en fl fu ar er ex us w out iv)
  else if eqc ch "d" then Some (XOpts co true en fl fu ar er ex us w out iv)
  else if eqc ch "e" then Some (XOpts co cw true fl fu ar er ex us w out iv)
  else if eqc ch "f" then Some (XOpts co cw en true fu ar er ex us w out iv)
  else if eqc ch "l" then Some (XOpts co cw en fl true ar er ex us w out iv)
  else if eqc ch "q" then Some (XOpts co cw en fl fu false er ex us w out iv)
  else if eqc ch "Q" then Some (XOpts co cw en fl fu ar false ex us w out iv)
  else if eqc ch "t" then Some (XOpts co cw en fl fu ar er true us w out iv)
  else if eqc ch "u" then Some (XOpts co cw en fl fu ar er ex true w out iv)
  else None.

Section Args.
(** Which version, and whether [kill(pid, 0)] finds the process. *)
Context (mac : bool) (alive : Z -> bool).

Definition lead_blank (c : byte) : bool := existsb (eqc c) (if mac then [" "%char; "009"%char] else
  [" "%char; "009"%char; "010"%char; "013"%char; "011"%char; "012"%char]).
Definition trail_blank (c : byte) : bool := existsb (eqc c) (if mac then [" "%char; "009"%char; "010"%char; "013"%char] else
  [" "%char; "009"%char; "010"%char; "013"%char; "011"%char; "012"%char]).

(** One entry of the list of [-p]: the new list, or the message of
    [fatalf]. *)
Definition watch_add (w : list Z) (tok : bytes) : list Z + bytes :=
  match rtrim trail_blank (ltrim lead_blank tok) with
  | [] => inl w
  | s =>
      let r := strtol s in
      let pid := i32 (st_val r) in
      if negb (st_conv r) || negb (eqs (st_rest r) []) || st_erange r || (st_val r <=? 0)
      then inr ("-p: invalid PID: " ++ s)
      else if negb (alive pid) then inr ("-p " ++ fmt_d pid ++ ": no such process")
      else inl (if (length w <? MAX_WATCH)%nat then w ++ [pid] else w)
  end.
Fixpoint watch_all (w : list Z) (toks : list bytes) : list Z + bytes :=
  match toks with
  | [] => inl w
  | t :: toks' => match watch_add w t with inl w' => watch_all w' toks' | inr m => inr m end
  end.

(** The interval of [-i], in an [int]. *)
Definition interval_of (s : bytes) : Z + bytes :=
  let r := strtol s in
  if negb (st_conv r) || negb (eqs (st_rest r) []) || st_erange r || (st_val r <=? 0)
  then inr ("-i: invalid interval: " ++ s) else inl (i32 (st_val r)).

(** The characters of one cluster; a flag with an argument takes the next of
    the arguments [rest]. *)
Inductive cres := CNext (o : xopts) (rest : list bytes) | CUsage | CDie (msg : bytes).
Fixpoint cluster (s : bytes) (rest : list bytes) (o : xopts) : cres :=
  match s with
  | [] => CNext o rest
  | ch :: s' =>
      match switch o ch with
      | Some o' => cluster s' rest o'
      | None =>
          if eqc ch "p" then
            match rest with
            | [] => CDie "flag -p requires an argument"
            | v :: rest' => match watch_all (x_watch o) (strtok is_comma v) with
                            | inl w => cluster s' rest' (with_watch o w)
                            | inr m => CDie m
                            end
            end
          else if eqc ch "o" then
            match rest with
            | [] => CDie "flag -o requires an argument"
            | v :: rest' => cluster s' rest' (with_out o v)
            end
          else if mac && eqc ch "i" then
            match rest with
            | [] => CDie "flag -i requires an argument (poll interval in ms)"
            | v :: rest' => match interval_of v with
                            | inl n => cluster s' rest' (with_interval o n)
                            | inr m => CDie m
                            end
            end
          else if eqc ch "h" then CUsage
          else CDie ("unknown flag -" ++ [ch])
      end
  end.

(** A word that is not a flag: the command starts with it. *)
Definition is_word (a : bytes) : bool :=
  (length a <? 2)%nat || match a with c :: _ => negb (eqc c "-") | [] => true end.

Fixpoint scan_args (fuel : nat) (args : list bytes) (o : xopts) : outcome xres :=
  match args with
  | [] => Ok (XRun o [])
  | a :: rest =>
      if is_word a then Ok (XRun o args)
      else match fuel with
           | O => Fuel
           | S f => match cluster (drop 1 a) rest o with
                    | CNext o' rest' => scan_args f rest' o'
                    | CUsage => Ok XUsage
                    | CDie m => Ok (XDie m)
                    end
           end
  end.
Definition parse_args (args : list bytes) : outcome xres := scan_args (length args) args xopts0.

(** The configuration after the scan: process 1 is watched by default, and
    the tracer itself when it runs a command. *)
Definition exec_cfg (getpid : Z) (no_color : option bytes) (out : stream) (o : xopts) (cmd : list bytes) : cfg :=
  let w := match x_watch o with [] => [1] | w => w end in
  let w := match cmd with [] => w | _ => [i32 getpid] end in
  let color := if x_color o then true else match no_color with None => is_terminal out | Some _ => false end in
  Cfg (x_cwd o) (x_env o) (x_flat o) (x_full o) (x_args o) (x_errors o) (x_exit o) (x_user o) color w.

(** * The command line is read as it is written *)

Lemma cluster_length s : forall rest o o' rest', cluster s rest o = CNext o' rest' -> (length rest' <= length rest)%nat.
Proof using.
  induction s as [|ch s IH]; intros rest o o' rest' H; cbn [cluster] in H; [by injection H as _ <-|].
  destruct (switch o ch); [by eapply IH|].
  repeat match type of H with
    | (if ?b then _ else _) = _ => destruct b
    | match ?r with _ => _ end = _ => destruct r
    end; try discriminate; apply IH in H; cbn [length]; lia.
Qed.

(** The number of arguments bounds the turns of the scan. *)
Lemma scan_args_total fuel : forall args o, (length args <= fuel)%nat -> exists r, scan_args fuel args o = Ok r.
Proof using.
  induction fuel as [|f IH]; intros [|a rest] o Hl; cbn [scan_args]; eauto.
  - cbn in Hl. lia.
  - destruct (is_word a); [eauto|]. destruct (cluster (drop 1 a) rest o) as [o' rest'| |] eqn:E; [|eauto..].
    apply IH. apply cluster_length in E. cbn in Hl. lia.
Qed.

(** A spare turn changes nothing. *)
Lemma scan_args_more fuel : forall args o k, (length args <= fuel)%nat ->
  scan_args (fuel + k) args o = scan_args fuel args o.
Proof using.
  induction fuel as [|f IH]; intros [|a rest] o k Hl; cbn [length] in Hl; try lia; try (destruct k; reflexivity).
  cbn [scan_args Nat.add]. destruct (is_word a); [done|].
  destruct (cluster (drop 1 a) rest o) as [o' rest'| |] eqn:E; [|done..].
  apply IH. apply cluster_length in E. lia.
Qed.

Lemma scan_args_fuel fuel args o : (length args <= fuel)%nat -> scan_args fuel args o = scan_args (length args) args o.
Proof using. intros H. replace fuel with (length args + (fuel - length args))%nat by lia. by apply scan_args_more. Qed.

Lemma switch_watch o o' ch : switch o ch = Some o' -> x_watch o' = x_watch o.
Proof using. destruct o. unfold switch. intros H. repeat case_match; by inv H. Qed.

(** An option as a user means it. *)
Inductive opt := OSwitches (s : bytes) | OWatch (l : list Z) | OOut (f : bytes) | OInterval (v : Z).
Definition words (p : opt) : list bytes :=
  match p with
  | OSwitches s => ["-"%char :: s]
  | OWatch l => [bs "-p"; joined_by "," (fmt_d <$> l)]
  | OOut f => [bs "-o"; f]
  | OInterval v => [bs "-i"; fmt_d v]
  end.
Definition apply_opt (o : xopts) (p : opt) : xopts :=
  match p with
  | OSwitches s => foldl (fun o ch => default o (switch o ch)) o s
  | OWatch l => with_watch o (x_watch o ++ take (MAX_WATCH - length (x_watch o)) l)
  | OOut f => with_out o f
  | OInterval v => with_interval o v
  end.
Definition pid_ok (v : Z) : Prop := 0 < v < 2 ^ 31 /\ alive v = true.
Definition opt_ok (p : opt) : Prop :=
  match p with
  | OSwitches s => s <> [] /\ Forall (fun c => c ∈ ("cdeflqQtu" : bytes)) s
  | OWatch l => Forall pid_ok l
  | OOut _ => True
  | OInterval v => mac = true /\ 0 < v < 2 ^ 31
  end.

Lemma switch_known o ch : ch ∈ ("cdeflqQtu" : bytes) -> switch o ch = Some (default o (switch o ch)).
Proof using.
  intros H. assert (Hs : exists o', switch o ch = Some o'); [|by destruct Hs as [o' ->]].
  destruct o. cbn [bs String.list_ascii_of_string] in H.
  repeat (apply elem_of_cons in H as [->|H]; [eexists; reflexivity|]). by apply elem_of_nil in H.
Qed.

Lemma cluster_switches s : forall rest o, Forall (fun c => c ∈ ("cdeflqQtu" : bytes)) s ->
  cluster s rest o = CNext (apply_opt o (OSwitches s)) rest.
Proof using.
  induction s as [|ch s IH]; intros rest o Hs; [done|]. apply Forall_cons in Hs as [Hc Hs].
  cbn [cluster]. rewrite switch_known by done. by rewrite IH.
Qed.

Lemma trim_none f s : Forall (fun c => f c = false) s -> ltrim f s = s.
Proof using. intros [|c s' Hc _]; [done|]. by apply ltrim_none. Qed.

Lemma rtrim_none f s : Forall (fun c => f c = false) s -> rtrim f s = s.
Proof using.
  intros H. unfold rtrim. rewrite trim_none; [by rewrite reverse_involutive|]. by apply Forall_reverse.
Qed.

Lemma digit_not_blank c : is_digit c = true -> lead_blank c = false /\ trail_blank c = false.
Proof using.
  intros Hc. unfold lead_blank, trail_blank. split; destruct mac; cbn [existsb];
    repeat (rewrite (proj2 (eqc_false c _)) by (intros ->; discriminate Hc)); reflexivity.
Qed.

Lemma fmt_d_pos v : 0 <= v -> fmt_d v = fmt_u v.
Proof using. intros. unfold fmt_d. by rewrite (proj2 (Z.ltb_ge _ _)) by lia. Qed.

Lemma strtol_pos v : 0 < v < 2 ^ 31 -> strtol (fmt_d v) = Strto v [] true false.
Proof using.
  intros Hv. rewrite <- (app_nil_r (fmt_d v)). apply strtol_fmt_d; [unfold LONG_MIN, LONG_MAX; lia|done].
Qed.

Lemma watch_add_ok w v : pid_ok v ->
  watch_add w (fmt_d v) = inl (if (length w <? MAX_WATCH)%nat then w ++ [v] else w).
Proof using.
  intros [Hv Ha]. unfold watch_add.
  pose proof (fmt_u_digits v ltac:(lia)) as Hd. rewrite <- (fmt_d_pos v) in Hd by lia.
  rewrite trim_none, rtrim_none by (eapply Forall_impl; [exact Hd|intros ? ?; by apply digit_not_blank]).
  destruct (fmt_d_cons v) as (c&r&E&_). rewrite E. rewrite <- E, strtol_pos by done.
  cbn [st_conv st_rest st_erange st_val]. rewrite eqs_refl, (swrap_small 32), Ha by lia.
  rewrite (proj2 (Z.leb_gt _ _)) by lia. done.
Qed.

Lemma watch_all_ok l : forall w, Forall pid_ok l ->
  watch_all w (fmt_d <$> l) = inl (w ++ take (MAX_WATCH - length w) l).
Proof using.
  induction l as [|v l IH]; intros w Hl; [by rewrite take_nil, app_nil_r|].
  apply Forall_cons in Hl as [Hv Hl]. rewrite fmap_cons. cbn [watch_all].
  rewrite watch_add_ok by done. rewrite IH by done.
  destruct (length w <? MAX_WATCH)%nat eqn:E; [apply Nat.ltb_lt in E|apply Nat.ltb_ge in E].
  - rewrite length_app. cbn [length]. rewrite <- app_assoc.
    replace (MAX_WATCH - length w)%nat with (S (MAX_WATCH - (length w + 1)))%nat by lia. done.
  - by replace (MAX_WATCH - length w)%nat with 0%nat by lia.
Qed.

Lemma pid_list_tokens l : strtok is_comma (joined_by "," (fmt_d <$> l)) = fmt_d <$> l.
Proof using.
  apply strtok_joined, Forall_fmap, Forall_forall. intros v _. unfold compose. split.
  - destruct (fmt_d_cons v) as (c&r&E&_). by rewrite E.
  - by apply fmt_d_not_in.
Qed.

Lemma scan_step fuel a rest o : is_word a = false ->
  scan_args (S fuel) (a :: rest) o =
  match cluster (drop 1 a) rest o with
  | CNext o' rest' => scan_args fuel rest' o'
  | CUsage => Ok XUsage
  | CDie m => Ok (XDie m)
  end.
Proof using. intros H. cbn [scan_args]. by rewrite H. Qed.

(** The flags with an argument are no switches. *)
Lemma no_switch o ch : ch ∈ ("poi" : bytes) -> switch o ch = None.
Proof using.
  intros H. destruct o. cbn [bs String.list_ascii_of_string] in H.
  repeat (apply elem_of_cons in H as [->|H]; [reflexivity|]). by apply elem_of_nil in H.
Qed.

(** One option of the command line, whatever follows. *)
Lemma scan_opt p rest o : opt_ok p ->
  scan_args (length (words p ++ rest)) (words p ++ rest) o
  = scan_args (length rest) rest (apply_opt o p).
Proof using.
  destruct p as [s|l|f|v]; intros Hp; cbn [words app length].
  - destruct Hp as [Hne Hs]. destruct s as [|c s]; [done|].
    rewrite scan_step by done. cbn [drop]. by rewrite cluster_switches.
  - rewrite scan_step by done. change (drop 1 (bs "-p")) with [("p")%char]. cbn [cluster].
    rewrite no_switch by (cbn; set_solver). change (eqc "p" "p") with true. cbv iota.
    rewrite pid_list_tokens, watch_all_ok by done. apply scan_args_fuel. lia.
  - rewrite scan_step by done. change (drop 1 (bs "-o")) with [("o")%char]. cbn [cluster].
    rewrite no_switch by (cbn; set_solver).
    change (eqc "o" "p") with false. change (eqc "o" "o") with true. cbv iota. apply scan_args_fuel. lia.
  - destruct Hp as [Hm Hv]. rewrite scan_step by done. change (drop 1 (bs "-i")) with [("i")%char]. cbn [cluster].
    rewrite no_switch by (cbn; set_solver). rewrite Hm.
    change (eqc "i" "p") with false. change (eqc "i" "o") with false. change (eqc "i" "i") with true. cbn [andb].
    unfold interval_of. rewrite strtol_pos by done. cbn [st_conv st_rest st_erange st_val].
    rewrite eqs_refl, (swrap_small 32) by lia. rewrite (proj2 (Z.leb_gt _ _)) by lia. cbn [negb orb].
    apply scan_args_fuel. lia.
Qed.

(** ** What the options mean

    Field by field, from the letters of all clusters and the arguments of the
    others; the scan is not mentioned. *)
Definition letters (ps : list opt) : bytes := ps ≫= fun p => match p with OSwitches s => s | _ => [] end.
Definition watched (ps : list opt) : list Z := ps ≫= fun p => match p with OWatch l => l | _ => [] end.
Definition outs (ps : list opt) : list bytes := ps ≫= fun p => match p with OOut f => [f] | _ => [] end.
Definition intervals (ps : list opt) : list Z := ps ≫= fun p => match p with OInterval v => [v] | _ => [] end.
Definition has (ch : byte) (s : bytes) : bool := existsb (eqc ch) s.
Definition meant (ps : list opt) : xopts :=
  let l := letters ps in
  {| x_color := has "c" l; x_cwd := has "d" l; x_env := has "e" l; x_flat := has "f" l; x_full := has "l" l;
     x_args := negb (has "q" l); x_errors := negb (has "Q" l); x_exit := has "t" l; x_user := has "u" l;
     x_watch := take 256 (watched ps); x_out := last (outs ps); x_interval := default 50 (last (intervals ps)) |}.

Lemma switches_meant s : Forall (fun c => c ∈ ("cdeflqQtu" : bytes)) s -> forall o,
  foldl (fun o ch => default o (switch o ch)) o s =
  {| x_color := x_color o || has "c" s; x_cwd := x_cwd o || has "d" s; x_env := x_env o || has "e" s; x_flat := x_flat o || has "f" s;
     x_full := x_full o || has "l" s; x_args := x_args o && negb (has "q" s); x_errors := x_errors o && negb (has "Q" s);
     x_exit := x_exit o || has "t" s; x_user := x_user o || has "u" s;
     x_watch := x_watch o; x_out := x_out o; x_interval := x_interval o |}.
Proof using.
  induction 1 as [|ch s Hc _ IH]; intros o; [destruct o; cbn; by rewrite ?orb_false_r, ?andb_true_r|].
  cbn [foldl]. rewrite IH. destruct o. cbn [bs String.list_ascii_of_string] in Hc.
  repeat (apply elem_of_cons in Hc as [->|Hc]; [cbn; by rewrite ?orb_true_r, ?andb_false_r|]). by apply elem_of_nil in Hc.
Qed.

Lemma has_app ch s s' : has ch (s ++ s') = has ch s || has ch s'.
Proof using. apply existsb_app. Qed.
Lemma take_watch (a b : list Z) : take 256 a ++ take (256 - length (take 256 a)) b = take 256 (a ++ b).
Proof using. rewrite take_app, length_take. f_equal. f_equal. lia. Qed.
Lemma apply_meant p ps : opt_ok p -> apply_opt (meant ps) p = meant (ps ++ [p]).
Proof using.
  intros Hp. unfold meant, letters, watched, outs, intervals. rewrite !bind_app. cbn [mbind list_bind].
  destruct p as [s|l|f|v]; cbn [apply_opt]; rewrite ?app_nil_r.
  - destruct Hp as [_ Hs]. rewrite (switches_meant s Hs). cbn. by rewrite !has_app, !negb_orb.
  - unfold with_watch. cbn. f_equal. unfold MAX_WATCH. apply take_watch.
  - unfold with_out. cbn. by rewrite last_snoc.
  - unfold with_interval. cbn. by rewrite last_snoc.
Qed.
Lemma meant_all ps : Forall opt_ok ps -> foldl apply_opt xopts0 ps = meant ps.
Proof using.
  intros Hps. assert (H : forall qs, foldl apply_opt (meant qs) ps = meant (qs ++ ps)); [|exact (H [])].
  induction Hps as [|p ps Hp _ IH]; intros qs; cbn [foldl]; [by rewrite app_nil_r|].
  by rewrite apply_meant, IH, <- app_assoc.
Qed.

Lemma scan_opts ps cmd : Forall opt_ok ps -> match cmd with [] => True | a :: _ => is_word a = true end -> forall o,
  scan_args (length (mjoin (words <$> ps) ++ cmd)) (mjoin (words <$> ps) ++ cmd) o = Ok (XRun (foldl apply_opt o ps) cmd).
Proof using.
  intros Hps Hcmd. induction Hps as [|p ps Hp _ IH]; intros o.
  - destruct cmd as [|a cmd]; [done|]. change (mjoin (words <$> []) ++ a :: cmd) with (a :: cmd).
    cbn [length scan_args foldl]. by rewrite Hcmd.
  - rewrite fmap_cons. change (mjoin (?x :: ?y)) with (x ++ mjoin y). rewrite <- app_assoc. rewrite scan_opt by done. apply IH.
Qed.

(** C35. The command line of exec is read as it is written: any sequence of
    options (clusters of switches, [-p] with running processes, [-o], and [-i]
    on macOS), followed by a command, is parsed to that command and to what the
    options mean, field by field: c, d, e, f, l, t and u each set their own
    option and q and Q each clear theirs, wherever they stand; the processes of
    all [-p] are watched, in order, the first 256 of them; the last [-o] and the
    last [-i] count, and without [-i] the interval is 50. *)
Theorem exec_args_parsed ps cmd :
  Forall opt_ok ps -> match cmd with [] => True | a :: _ => is_word a = true end ->
  parse_args (mjoin (words <$> ps) ++ cmd) = Ok (XRun (meant ps) cmd).
Proof using. intros Hps Hcmd. unfold parse_args. by rewrite scan_opts, meant_all. Qed.
End Args.

Lemma exec_args_parsed_witness :
  parse_args false (fun p => p =? 42) [bs "-tq"; bs "-p"; bs "42"; bs "-o"; bs "log"; bs "make"; bs "-j"]
  = Ok (XRun (XOpts false false false false false false true true false [42] (Some (bs "log")) 50) [bs "make"; bs "-j"]).
Proof.
  apply (exec_args_parsed false (fun p => p =? 42) [OSwitches "tq"; OWatch [42]; OOut "log"] [bs "make"; bs "-j"]); [|reflexivity].
  apply Forall_cons. split.
  { split; [discriminate|]. apply Forall_cons. split; [|apply Forall_cons; split; [|apply Forall_nil_2]];
      cbn; repeat constructor. }
  apply Forall_cons. split; [apply Forall_cons; split; [split; [lia|reflexivity]|apply Forall_nil_2]|].
  apply Forall_cons. split; [exact I|apply Forall_nil_2].
Defined.
