(* ===== verification/ExecMac.v ===== *)
(** c/exec.c on macOS: the process table, the argument vectors of
    kern.procargs2, the ancestry walk, the printed lines, and the polling loop
    that compares the list of processes with the table. *)
From S2P Require Import Prelude CLib Os Common ProbeTable ExecLinux.

(** * The system *)

(** The answers of libproc and sysctl during one tick. *)
Record macos := MacOs {
  mo_count : Z;                          (* proc_listallpids(NULL, 0) *)
  mo_fill : Z -> Z * list Z;             (* proc_listallpids(pids, size): its result, the buffer *)
  mo_bsd : Z -> option (Z * Z * Z * Z);  (* parent, user, start seconds and microseconds *)
  mo_args : Z -> option bytes;           (* kern.procargs2 *)
  mo_path : Z -> bytes;                  (* proc_pidpath, empty when it fails *)
  mo_cwd : Z -> link;                    (* PROC_PIDVNODEPATHINFO *)
  mo_pwname : Z -> option bytes;         (* getpwuid *)
}.

(** [procListAllPIDs]; [None]: no list. *)
Definition procListAllPIDs (o : macos) : outcome (option (list Z)) :=
  let sz := mo_count o in
  if sz <=? 0 then Ok None
  else if 2 ^ 31 <=? sz + 4096 then Ub
  else
    let '(n, pids) := mo_fill o (Z.land (sz + 4096) (Z.lnot 3)) in
    if n <=? 0 then Ok None
    else if blen pids <? n / 4 then Ub
    else Ok (Some (take (Z.to_nat (n / 4)) pids)).

(** libproc counts the processes: [proc_listallpids] gives their number, and
    fills a buffer of [size] bytes with as many as fit. *)
Definition counts_pids (o : macos) (all : list Z) : Prop :=
  mo_count o = blen all /\ forall size, mo_fill o size = (Z.min (blen all) (size / 4), take (Z.to_nat (size / 4)) all).

(** The program takes the number for a number of bytes and divides it by four:
    it sees only the first quarter of the processes. *)
Lemma procListAllPIDs_quarter o all : counts_pids o all -> 0 < blen all < 2 ^ 20 ->
  exists n, procListAllPIDs o = Ok (Some (take (Z.to_nat n) all)) /\ 4 * n <= blen all.
Proof.
  intros [Hc Hf] Hl. unfold procListAllPIDs. rewrite Hc, (proj2 (Z.leb_gt _ _)), (proj2 (Z.leb_gt (2 ^ 31) _)) by lia.
  rewrite Hf. set (k := Z.land _ _ / 4).
  assert (Hk : 1 <= k).
  { unfold k. replace (blen all + 4096) with (blen all + 4093 + 3) by lia. rewrite align4, Z.div_mul by lia. Z.div_mod_to_equations. lia. }
  rewrite (proj2 (Z.leb_gt _ 0)) by lia.
  assert (Hn : 4 * (Z.min (blen all) k / 4) <= Z.min (blen all) k) by (apply Z.mul_div_le; lia).
  assert (0 <= Z.min (blen all) k / 4) by (apply Z.div_pos; lia).
  rewrite (proj2 (Z.ltb_ge _ _)) by (unfold blen in *; rewrite length_take; lia).
  exists (Z.min (blen all) k / 4). rewrite take_take. split; [|lia]. do 3 f_equal. lia.
Qed.

(** * Argument vectors *)

Definition not_nul (c : byte) : bool := negb (eqc c NUL).

(** The bytes before the next NUL, and the rest from it on. *)
Fixpoint span_nul (s : bytes) : bytes * bytes :=
  match s with
  | [] => ([], [])
  | c :: s' => if eqc c NUL then ([], s) else let '(e, r) := span_nul s' in (c :: e, r)
  end.

(** Every turn consumes a byte, so that the length of [s] is enough fuel. *)
Fixpoint read_argv (fuel : nat) (argc : Z) (s : bytes) : list bytes * bytes :=
  match fuel with
  | O => ([], s)
  | S f =>
      if (argc <=? 0) || eqs s [] then ([], s)
      else let '(e, r) := span_nul s in
           let '(l, r') := read_argv f (argc - 1) (drop 1 r) in (e :: l, r')
  end.
Fixpoint read_env (fuel : nat) (s : bytes) : list bytes :=
  match fuel with
  | O => []
  | S f =>
      if eqs s [] then []
      else let '(e, r) := span_nul s in
           match e with [] => read_env f (drop 1 r) | _ => e :: read_env f (drop 1 r) end
  end.

(** The arguments and the environment of a process; empty when they cannot be
    read.  A count near [INT_MAX] overflows [(int)argc + 4], and above it the
    vector that is written to has not been allocated. *)
Definition pidArgvEnv (o : macos) (pid : Z) : outcome (list bytes * list bytes) :=
  match mo_args o pid with
  | None => Ok ([], [])
  | Some buf =>
      if blen buf <? 4 then Ok ([], [])
      else
        argc ← le32 buf 0;
        let s := ltrim (fun c => eqc c NUL) (ltrim not_nul (drop 4 buf)) in
        if (2 ^ 31 - 4 <=? argc) && ((argc <? 2 ^ 31) || negb (eqs s [])) then Ub
        else let '(argv, r) := read_argv (length s) argc s in Ok (argv, read_env (length r) r)
  end.

(** * The process table *)

Record macEntry := MacEntry {
  me_pid : Z; me_ppid : Z; me_uid : Z; me_startSec : Z; me_startUsec : Z;
  me_argv0 : option bytes; me_depth : Z;
}.
Abbreviation macdb := (@ptable macEntry).
Definition MACDB_BITS : Z := 14.  (* MACDB_CAP = 16384 *)
Definition macdb_hash (pid : Z) : Z := Z.land (u32 (u32 pid * 2654435761)) (2 ^ MACDB_BITS - 1).

Definition macdb_find (db : macdb) (pid : Z) : option macEntry := pt_find me_pid macdb_hash MACDB_BITS db pid.
Definition macdb_get (db : macdb) (pid : Z) : option (macEntry * bool * macdb) :=
  match macdb_find db pid with
  | Some e => Some (e, false, db)
  | None =>
      let e := MacEntry pid 0 0 0 0 None (-1) in
      db' ← pt_put me_pid macdb_hash MACDB_BITS db e; Some (e, true, db')
  end.
(** Storing the fields of an entry through its pointer. *)
Definition macdb_store (db : macdb) (e : macEntry) : outcome macdb :=
  match pt_put me_pid macdb_hash MACDB_BITS db e with Some db' => Ok db' | None => Ub end.
Definition macdb_delete (db : macdb) (pid : Z) : outcome macdb := pt_delete me_pid macdb_hash MACDB_BITS db pid.

(** * Ancestry *)

Fixpoint macPidDepth (fuel : nat) (c : cfg) (o : macos) (db : macdb) (pid : Z) : outcome Z :=
  if isWatchRoot c pid then Ok 0
  else
    match mo_bsd o pid with
    | None => Ok (-1)
    | Some (ppid, _, _, _) =>
        if (ppid =? 0) || (ppid =? pid) then Ok (-1)
        else if isWatchRoot c ppid then Ok 0
        else
          let up := match fuel with
                    | O => Fuel
                    | S f => d ← macPidDepth f c o db ppid; Ok (if d <? 0 then -1 else d + 1)
                    end in
          match macdb_find db ppid with
          | Some ent => if 0 <=? me_depth ent then Ok (me_depth ent + 1) else up
          | None => up
          end
    end.

(** * Output *)

Definition userOf (o : macos) (uid : Z) : bytes :=
  match mo_pwname o uid with Some n => n | None => trunc 16 (fmt_u uid) end.
Definition pidCwd (o : macos) (pid : Z) : bytes :=
  match mo_cwd o pid with Target t => cstr t | LinkEacces => "EACCES" | LinkFails => "EUNKNOWN" end.

Definition mac_user_field (c : cfg) (o : macos) (uid : Z) : bytes :=
  let name := userOf o uid in
  col c (if eqs name "root" then "91" else "92") (trunc 300 (" <" ++ name ++ ">")).

(** The command and its arguments; [None]: nothing to show. *)
Definition mac_cmd_field (c : cfg) (o : macos) (pid : Z) (argv : list bytes) : option bytes :=
  match argv with
  | [] =>
      let exe := cstr (mo_path o pid) in
      match exe with
      | [] => None
      | _ => Some (col c "2" (trunc 300 ("[" ++ (match base_of exe with [] => exe | b => b end) ++ "]")))
      end
  | a0 :: args =>
      let cmd := if fullPath c
                 then match cstr (mo_path o pid) with [] => shquote_text a0 | exe => shquote_text exe end
                 else shquote_text a0 in
      Some (col c "96" cmd ++
            if showArgs c then mjoin ((fun a => " " ++ col c "2" (shquote_text a)) <$> args) else [])
  end.

Definition macEmitExec (c : cfg) (o : macos) (ent : macEntry) : outcome bytes :=
  r ← pidArgvEnv o (me_pid ent);
  let '(argv, env) := r in
  Ok (match mac_cmd_field c o (me_pid ent) argv with
      | None => []
      | Some cmd =>
          indentStr c (me_depth ent) 1024 ++ col c "33" (fmt_d (me_pid ent)) ++
          (if showExit c then col c "32" "+" else []) ++
          (if showUser c then mac_user_field c o (me_uid ent) else []) ++ " " ++
          (if showCwd c then col c "35" (shquote_text (pidCwd o (me_pid ent))) ++ col c "2" " % " else []) ++
          cmd ++
          (if showEnv c && negb (bool_decide (env = []))
           then NL ++ "  " ++ mjoin ((fun e => " " ++ env_entry c e) <$> env) else []) ++ NL
      end).

(** A time in seconds, from its seconds and microseconds. *)
Definition seconds (sec usec : Z) : spec_float :=
  f64_add (f64_of_Z sec) (f64_div (f64_of_Z usec) (f64_of_Z 1000000)).

(** The line of an exit at the time [now]. *)
Definition macEmitExit (c : cfg) (ent : macEntry) (now : Z * Z) : bytes :=
  if negb (showExit c) then []
  else
    let elapsed := f64_sub (seconds now.1 now.2) (seconds (me_startSec ent) (me_startUsec ent)) in
    let elapsed := if f64_lt elapsed (f64_of_Z 0) then f64_of_Z 0 else elapsed in
    let cmd : bytes := match me_argv0 ent with Some (a :: r) => (a :: r : bytes) | _ => bs "?" end in
    indentStr c (me_depth ent) 1024 ++ trunc 64 (col c "33" (fmt_d (me_pid ent))) ++
    trunc 64 (col c "31" "-") ++ " " ++ col c "2" (shquote_text cmd) ++ " exited " ++
    trunc 64 (col c "2" "status=?") ++ " " ++
    trunc 64 (col c "36" (trunc 32 ("time=" ++ fmt_f 3 elapsed ++ "s"))) ++ NL.

(** * Polling *)

Record mstate := MSt { ms_db : macdb; ms_out : bytes }.

(** One process of [seedMacDB]. *)
Definition seed_pid (o : macos) (db : macdb) (pid : Z) : outcome macdb :=
  match macdb_get db pid with
  | None => Ub
  | Some (ent, _, db1) =>
      match mo_bsd o pid with
      | None => macdb_store db1 (MacEntry pid (me_ppid ent) (me_uid ent) (me_startSec ent) (me_startUsec ent) (me_argv0 ent) (-1))
      | Some (ppid, uid, sec, usec) =>
          r ← pidArgvEnv o pid;
          macdb_store db1 (MacEntry pid ppid uid sec usec
                             (match r.1 with a :: _ => Some a | [] => me_argv0 ent end) (-1))
      end
  end.
Fixpoint seed_all (o : macos) (db : macdb) (pids : list Z) : outcome macdb :=
  match pids with [] => Ok db | p :: pids' => db' ← seed_pid o db p; seed_all o db' pids' end.
Definition seedMacDB (o : macos) (db : macdb) : outcome macdb :=
  l ← procListAllPIDs o; seed_all o db (default [] l).

(** One process of the list: nothing when it is known. *)
Definition scan_pid (fuel : nat) (c : cfg) (o : macos) (s : mstate) (pid : Z) : outcome mstate :=
  match macdb_find (ms_db s) pid with
  | Some _ => Ok s
  | None =>
      match macdb_get (ms_db s) pid with
      | None => Ub
      | Some (ne, _, db1) =>
          match mo_bsd o pid with
          | None => db2 ← macdb_store db1 (MacEntry pid (me_ppid ne) (me_uid ne) (me_startSec ne) (me_startUsec ne) (me_argv0 ne) (-1));
                    Ok (MSt db2 (ms_out s))
          | Some (ppid, uid, sec, usec) =>
              db2 ← macdb_store db1 (MacEntry pid ppid uid sec usec (me_argv0 ne) (me_depth ne));
              d ← macPidDepth fuel c o db2 pid;
              r ← pidArgvEnv o pid;
              let ne := MacEntry pid ppid uid sec usec (match r.1 with a :: _ => Some a | [] => me_argv0 ne end) d in
              db3 ← macdb_store db2 ne;
              line ← (if 0 <=? d then macEmitExec c o ne else Ok []);
              Ok (MSt db3 (ms_out s ++ line))
          end
      end
  end.
Fixpoint scan_pids (fuel : nat) (c : cfg) (o : macos) (s : mstate) (pids : list Z) : outcome mstate :=
  match pids with [] => Ok s | p :: pids' => s' ← scan_pid fuel c o s p; scan_pids fuel c o s' pids' end.

(** The entries without a process: the bitmap of the hashes of the list, then
    the list itself; in the order of the slots, 1024 at most. *)
Definition liveBitmap (pids : list Z) (h : Z) : bool := existsb (fun p => macdb_hash p =? h) pids.
Definition gone (pids : list Z) (e : macEntry) : bool :=
  negb (liveBitmap pids (macdb_hash (me_pid e)) && existsb (fun p => p =? me_pid e) pids).
Definition GONERS : nat := 1024.
Definition goners (db : macdb) (pids : list Z) : list Z :=
  take GONERS (omap (fun i => e ← pt_slots db !! i; if gone pids e then Some (me_pid e) else None)
                    (seqZ 0 (2 ^ MACDB_BITS))).

Definition sweep_pid (c : cfg) (now : Z * Z) (s : mstate) (pid : Z) : outcome mstate :=
  match macdb_find (ms_db s) pid with
  | None => Ok s
  | Some e =>
      db' ← macdb_delete (ms_db s) pid;
      Ok (MSt db' (ms_out s ++ if 0 <=? me_depth e then macEmitExit c e now else []))
  end.
Fixpoint sweep (c : cfg) (now : Z * Z) (s : mstate) (gs : list Z) : outcome mstate :=
  match gs with [] => Ok s | p :: gs' => s' ← sweep_pid c now s p; sweep c now s' gs' end.

(** [scanMacDB]: one tick at the time [now]. *)
Definition scanMacDB (fuel : nat) (c : cfg) (o : macos) (now : Z * Z) (s : mstate) : outcome mstate :=
  l ← procListAllPIDs o;
  match l with
  | None => Ok s
  | Some pids =>
      s1 ← scan_pids fuel c o s pids;
      sweep c now s1 (goners (ms_db s1) pids)
  end.
