(* ===== verification/ExecMacProofs.v ===== *)
(** The polling tracer of c/exec.c: the argument vectors it reads back, and
    what one tick does to its table and to its output. *)
From S2P Require Import Prelude CLib Os Common ProbeTable Table ExecLinux ExecMac.

(** * Argument vectors *)

(** The image the kernel gives: the count, the path of the executable, NULs,
    the arguments and the environment, each followed by a NUL. *)
Definition enc_args (path : bytes) (pad : nat) (argv env : list bytes) : bytes :=
  put32 (blen argv) ++ path ++ replicate (S pad) NUL ++ nul_join argv ++ nul_join env.

Lemma span_nul_app e r : NUL ∉ e -> span_nul (e ++ NUL :: r) = (e, NUL :: r).
Proof.
  induction e as [|c e IH]; intros Hn; [done|]. cbn [app span_nul].
  rewrite (proj2 (eqc_false c NUL)) by set_solver. by rewrite IH by set_solver.
Qed.

Lemma nul_join_cons a l : nul_join (a :: l) = a ++ NUL :: nul_join l.
Proof. unfold nul_join. rewrite fmap_cons. change (mjoin (?x :: ?y)) with (x ++ mjoin y). by rewrite <- app_assoc. Qed.

Lemma read_argv_join l r : Forall (fun a => NUL ∉ a) l -> forall fuel, (length l <= fuel)%nat ->
  read_argv fuel (blen l) (nul_join l ++ r) = (l, r).
Proof.
  induction 1 as [|a l Ha _ IH]; intros fuel Hf.
  - destruct fuel; [done|]. reflexivity.
  - cbn in Hf. destruct fuel as [|fuel]; [lia|]. rewrite nul_join_cons, <- app_assoc. cbn [app read_argv].
    rewrite blen_cons. pose proof (blen_nonneg l). rewrite (proj2 (Z.leb_gt _ _)) by lia.
    rewrite (proj2 (eqs_false _ [])) by (by destruct a). cbn [orb].
    rewrite span_nul_app by done. cbn [drop]. replace (1 + blen l - 1) with (blen l) by lia.
    by rewrite IH by lia.
Qed.

Lemma read_env_join l : Forall (fun a => a <> [] /\ NUL ∉ a) l -> forall fuel, (length l <= fuel)%nat ->
  read_env fuel (nul_join l) = l.
Proof.
  induction 1 as [|a l [Hne Ha] _ IH]; intros fuel Hf.
  - by destruct fuel.
  - cbn in Hf. destruct fuel as [|fuel]; [lia|]. rewrite nul_join_cons. cbn [read_env].
    rewrite (proj2 (eqs_false _ [])) by (by destruct a).
    rewrite span_nul_app by done. cbn [drop]. rewrite IH by lia. by destruct a.
Qed.

Lemma nul_join_length l : (length l <= length (nul_join l))%nat.
Proof. induction l as [|a l IH]; [done|]. rewrite nul_join_cons, length_app. cbn [length]. lia. Qed.

Lemma not_nul_all p : NUL ∉ p -> Forall (fun c => not_nul c = true) p.
Proof. intros Hp. apply Forall_forall. intros c Hc. unfold not_nul. rewrite (proj2 (eqc_false c NUL)); [done|]. by intros ->. Qed.

(** C34. [pidArgvEnv] recovers the arguments and the environment of a process
    from the image the kernel gives, whatever the path of the executable and
    the padding after it; arguments may be empty, except for the first. *)
Theorem pidArgvEnv_roundtrip o pid path pad a argv env :
  mo_args o pid = Some (enc_args path pad (a :: argv) env) ->
  NUL ∉ path -> a <> [] -> Forall (fun x => NUL ∉ x) (a :: argv) ->
  Forall (fun x => x <> [] /\ NUL ∉ x) env -> blen argv < 2 ^ 31 - 5 ->
  pidArgvEnv o pid = Ok (a :: argv, env).
Proof.
  intros Ho Hp Ha Hargv Henv Hlen. unfold pidArgvEnv. rewrite Ho. unfold enc_args.
  pose proof (blen_nonneg argv). rewrite blen_cons.
  set (tail := path ++ replicate (S pad) NUL ++ nul_join (a :: argv) ++ nul_join env).
  rewrite (proj2 (Z.ltb_ge _ _)) by (rewrite blen_app, blen_put32; pose proof (blen_nonneg tail); lia).
  assert (le32 (put32 (1 + blen argv) ++ tail) 0 = Ok (1 + blen argv)) as -> by (apply (le32_put32 []); [done|lia]). cbn [mbind outcome_bind].
  change (drop 4 (put32 (1 + blen argv) ++ tail)) with tail.
  assert (Hs : ltrim (fun c => eqc c NUL) (ltrim not_nul tail) = nul_join (a :: argv) ++ nul_join env).
  { unfold tail. rewrite ltrim_all by (by apply not_nul_all). cbn [replicate app].
    rewrite ltrim_none by done. cbn [ltrim]. change (eqc NUL NUL) with true. cbv iota.
    rewrite ltrim_all by (apply Forall_replicate; done).
    rewrite nul_join_cons. destruct a as [|x a]; [done|]. apply ltrim_none, eqc_false.
    apply Forall_cons in Hargv as [Hx _]. set_solver. }
  rewrite Hs. rewrite (proj2 (Z.leb_gt _ _)) by lia. cbn [andb].
  replace (1 + blen argv) with (blen (a :: argv)) by (by rewrite blen_cons).
  rewrite read_argv_join by (done || (rewrite length_app; pose proof (nul_join_length (a :: argv)); lia)).
  by rewrite read_env_join by (done || apply nul_join_length).
Qed.

Definition demo_macos (args : bytes) : macos :=
  MacOs 2 (fun _ => (8, [42; 1])) (fun p => if p =? 42 then Some (7, 501, 100, 500000) else None)
    (fun p => if p =? 42 then Some args else None) (fun _ => []) (fun _ => LinkFails) (fun _ => None).

Lemma pidArgvEnv_roundtrip_witness :
  pidArgvEnv (demo_macos (enc_args "/bin/ls" 3 [bs "ls"; bs ""; bs "-l"] [bs "A=1"])) 42 = Ok ([bs "ls"; bs ""; bs "-l"], [bs "A=1"]).
Proof.
  apply (pidArgvEnv_roundtrip _ 42 "/bin/ls" 3 "ls" [bs ""; bs "-l"] [bs "A=1"]); try reflexivity; try discriminate.
  - apply strchr_None. reflexivity.
  - repeat (apply Forall_cons; split; [apply strchr_None; reflexivity|]). apply Forall_nil_2.
  - apply Forall_cons. split; [split; [discriminate|apply strchr_None; reflexivity]|apply Forall_nil_2].
Defined.

(** * The table as a finite map *)

Definition mac_wf (db : macdb) : Prop := pt_wf me_pid macdb_hash MACDB_BITS db.
Definition mac_abs (db : macdb) : gmap Z macEntry := pt_abs me_pid db.
Definition MACDB_CAP : Z := cap MACDB_BITS.

Lemma macdb_bits : 0 <= MACDB_BITS.
Proof. done. Qed.

Lemma macdb_hash_range pid : 0 <= macdb_hash pid < cap MACDB_BITS.
Proof. unfold macdb_hash, cap. rewrite land_mask by done. by apply Z.mod_pos_bound. Qed.

Lemma macdb_find_abs db pid : mac_wf db -> macdb_find db pid = mac_abs db !! pid.
Proof. exact (pt_find_abs me_pid macdb_hash MACDB_BITS macdb_bits db pid). Qed.

Lemma mac_abs_key db pid e : mac_wf db -> mac_abs db !! pid = Some e -> me_pid e = pid.
Proof. exact (pt_abs_key me_pid macdb_hash MACDB_BITS db pid e). Qed.

Lemma mac_abs_size db : mac_wf db -> size (mac_abs db) = size (pt_slots db).
Proof. exact (pt_abs_size me_pid macdb_hash MACDB_BITS db). Qed.

Lemma macdb_get_new db pid : mac_wf db -> Z.of_nat (size (mac_abs db)) < MACDB_CAP -> mac_abs db !! pid = None ->
  exists db', macdb_get db pid = Some (MacEntry pid 0 0 0 0 None (-1), true, db') /\ mac_wf db' /\
    mac_abs db' = <[pid := MacEntry pid 0 0 0 0 None (-1)]> (mac_abs db).
Proof.
  intros Hw Hs Hn. unfold macdb_get. rewrite macdb_find_abs, Hn by done. rewrite mac_abs_size in Hs by done.
  destruct (pt_put_spec me_pid macdb_hash MACDB_BITS macdb_bits db (MacEntry pid 0 0 0 0 None (-1)) Hw Hs)
    as (db'&->&?&?). eauto.
Qed.

Lemma macdb_store_ok db e : mac_wf db -> is_Some (mac_abs db !! me_pid e) ->
  exists db', macdb_store db e = Ok db' /\ mac_wf db' /\ mac_abs db' = <[me_pid e := e]> (mac_abs db).
Proof.
  intros Hw Hs. destruct (pt_store_spec me_pid macdb_hash MACDB_BITS macdb_bits db e Hw Hs) as (db'&E&?&?).
  exists db'. unfold macdb_store. by rewrite E.
Qed.

Lemma macdb_delete_ok db pid : mac_wf db -> Z.of_nat (size (mac_abs db)) < MACDB_CAP ->
  exists db', macdb_delete db pid = Ok db' /\ mac_wf db' /\ mac_abs db' = delete pid (mac_abs db).
Proof.
  intros Hw Hs. rewrite mac_abs_size in Hs by done.
  exact (pt_delete_spec me_pid macdb_hash MACDB_BITS macdb_bits macdb_hash_range db pid Hw Hs).
Qed.

Lemma macdb_get_known db pid e : mac_wf db -> mac_abs db !! pid = Some e -> macdb_get db pid = Some (e, false, db).
Proof. intros Hw He. unfold macdb_get. by rewrite macdb_find_abs, He. Qed.

(** The database is a keyed table. *)
#[export] Instance macdb_table : Table macdb Z macEntry := {
  tb_key := me_pid;
  tb_fresh pid := MacEntry pid 0 0 0 0 None (-1);
  tb_cap := Some MACDB_CAP;
  tb_valid _ := True;
  tb_find := macdb_find;
  tb_get db pid := r ← macdb_get db pid; Some (r.1.1, r.2);
  tb_store db e := match macdb_store db e with Ok db' => Some db' | _ => None end;
  tb_delete := macdb_delete;
}.

#[export] Instance macdb_laws : TableLaws macdb Z macEntry.
Proof.
  refine {| tb_rep db m := mac_wf db /\ mac_abs db = m |}; try done.
  - intros db m pid e [Hw <-]. by apply mac_abs_key.
  - intros db m pid [Hw <-]. by apply macdb_find_abs.
  - intros db m pid [Hw <-] _ Hs. cbn [tb_get macdb_table].
    destruct (mac_abs db !! pid) as [e|] eqn:He; cbn [default].
    + rewrite (macdb_get_known db pid e Hw He). exists db. split; [done|]. split; [done|]. by rewrite insert_id.
    + destruct (macdb_get_new db pid Hw Hs He) as (db'&->&?&?). exists db'. by split.
  - intros db m e [Hw <-] He. destruct (macdb_store_ok db e Hw He) as (db'&E&?&?). exists db'.
    cbn [tb_store macdb_table]. rewrite E. by split.
  - intros db m pid [Hw <-] Hs. destruct (macdb_delete_ok db pid Hw Hs) as (db'&?&?&?). exists db'. by split.
Defined.

#[local] Opaque macdb_find macdb_get macdb_store macdb_delete pidArgvEnv mac_cmd_field.

(** * One tick *)

Lemma filter_ext_in {A} (P Q : A -> Prop) `{!forall x, Decision (P x), !forall x, Decision (Q x)} (l : list A) :
  (forall x : A, x ∈ l -> P x <-> Q x) -> filter P l = filter Q l.
Proof.
  induction l as [|x l IH]; intros Hpq; [done|]. rewrite !filter_cons, IH by (intros y Hy; apply Hpq; set_solver).
  apply decide_ext, Hpq. set_solver.
Qed.

Section Tick.
Context (fuel : nat) (c : cfg) (o : macos) (rank : Z -> nat).
(** Parents precede their children in some order, and every image of
    arguments has a count that fits. *)
Hypothesis rank_dec : forall p q uid s us, mo_bsd o p = Some (q, uid, s, us) -> q <> 0 -> q <> p -> (rank q < rank p)%nat.
Hypothesis rank_fuel : forall p, (rank p <= fuel)%nat.
Hypothesis args_ok : forall p, exists r, pidArgvEnv o p = Ok r.

Lemma macPidDepth_total db p : exists d, macPidDepth fuel c o db p = Ok d.
Proof using rank_dec rank_fuel.
  assert (H : forall f p, (rank p <= f)%nat -> exists d, macPidDepth f c o db p = Ok d); [|by apply H].
  clear p. induction f as [|f IH]; intros p Hp; cbn [macPidDepth].
  all: destruct (isWatchRoot c p); [eauto|]; destruct (mo_bsd o p) as [[[[q ?] ?] ?]|] eqn:E; [|eauto].
  all: destruct ((q =? 0) || (q =? p)) eqn:E2; [eauto|]; zbool; destruct (isWatchRoot c q); [eauto|].
  all: pose proof (rank_dec p q _ _ _ E ltac:(done) ltac:(done)).
  - lia.
  - destruct (IH q) as [d ->]; [lia|]. cbn [mbind outcome_bind].
    destruct (macdb_find db q); [case_ifs|]; eauto.
Qed.

(** The line of a new process with the entry [e]. *)
Definition exec_text (e : macEntry) : bytes :=
  if 0 <=? me_depth e then match macEmitExec c o e with Ok l => l | _ => [] end else [].
Definition exec_line (m : gmap Z macEntry) (p : Z) : bytes :=
  match m !! p with Some e => exec_text e | None => [] end.
Definition exit_line (now : Z * Z) (m : gmap Z macEntry) (p : Z) : bytes :=
  match m !! p with Some e => if 0 <=? me_depth e then macEmitExit c e now else [] | None => [] end.

Lemma scan_pid_known s pid e : mac_wf (ms_db s) -> mac_abs (ms_db s) !! pid = Some e -> scan_pid fuel c o s pid = Ok s.
Proof using. intros Hw He. unfold scan_pid. by rewrite macdb_find_abs, He. Qed.

(** What a tick does with a process that is not in the table. *)
Definition new_ok (s : mstate) (pid : Z) (r : outcome mstate) : Prop :=
  exists s' e, r = Ok s' /\ mac_wf (ms_db s') /\
    mac_abs (ms_db s') = <[pid := e]> (mac_abs (ms_db s)) /\ ms_out s' = ms_out s ++ exec_text e.

Lemma macEmitExec_ok e : exists l, macEmitExec c o e = Ok l.
Proof using args_ok.
  unfold macEmitExec. destruct (args_ok (me_pid e)) as [[argv env] ->]. cbn [mbind outcome_bind]. eauto.
Qed.

Lemma new_store s pid db1 e out : mac_wf db1 -> me_pid e = pid ->
  (exists e0, mac_abs db1 = <[pid := e0]> (mac_abs (ms_db s))) -> out = ms_out s ++ exec_text e ->
  exists db2, macdb_store db1 e = Ok db2 /\ new_ok s pid (Ok (MSt db2 out)).
Proof using.
  intros Hw Hp [e0 Ha] Ho. destruct (macdb_store_ok db1 e) as (db2&Hst&Hw2&Ha2); [done|rewrite Hp, Ha, lookup_insert_eq; eauto|].
  exists db2. split; [done|]. exists (MSt db2 out), e. split_and!; [done|done| |done].
  cbn [ms_db]. by rewrite Ha2, Hp, Ha, insert_insert_eq.
Qed.

Lemma scan_pid_new s pid : mac_wf (ms_db s) -> mac_abs (ms_db s) !! pid = None ->
  Z.of_nat (size (mac_abs (ms_db s))) < MACDB_CAP -> new_ok s pid (scan_pid fuel c o s pid).
Proof using rank_dec rank_fuel args_ok.
  intros Hw Hn Hs. unfold scan_pid. rewrite macdb_find_abs, Hn by done.
  destruct (macdb_get_new (ms_db s) pid) as (db1&->&Hw1&Ha1); [done..|].
  cbn [me_ppid me_uid me_startSec me_startUsec me_argv0 me_depth].
  destruct (mo_bsd o pid) as [[[[ppid uid] sec] usec]|].
  - destruct (new_store s pid db1 (MacEntry pid ppid uid sec usec None (-1)) (ms_out s)) as (db2&->&Hnew);
      [done|done|eauto|cbn; by rewrite app_nil_r|].
    rewrite ok_bind. destruct (macPidDepth_total db2 pid) as [d ->]. rewrite ok_bind.
    destruct (args_ok pid) as [r ->]. rewrite ok_bind.
    set (a0 := match r.1 with a :: _ => Some a | [] => None end).
    destruct (macEmitExec_ok (MacEntry pid ppid uid sec usec a0 d)) as [l Hl].
    destruct Hnew as (s2&e2&[= <-]&Hw2&Ha2&_). cbn [ms_db] in Hw2, Ha2.
    destruct (new_store s pid db2 (MacEntry pid ppid uid sec usec a0 d) (ms_out s ++ if 0 <=? d then l else []))
      as (db3&->&Hnew); [done|done|eauto|by unfold exec_text; cbn [me_depth]; rewrite Hl|].
    rewrite ok_bind, Hl. destruct (0 <=? d); rewrite ok_bind; exact Hnew.
  - destruct (new_store s pid db1 (MacEntry pid 0 0 0 0 None (-1)) (ms_out s)) as (db2&->&Hnew);
      [done|done|eauto|cbn; by rewrite app_nil_r|]. rewrite ok_bind. exact Hnew.
Qed.

Definition is_new (m : gmap Z macEntry) (p : Z) : Prop := m !! p = None.
#[local] Instance is_new_dec m p : Decision (is_new m p).
Proof using. unfold is_new. apply _. Defined.

Lemma scan_pids_spec pids : forall s, NoDup pids -> mac_wf (ms_db s) ->
  Z.of_nat (size (mac_abs (ms_db s))) + blen pids < MACDB_CAP ->
  exists s', scan_pids fuel c o s pids = Ok s' /\ mac_wf (ms_db s') /\
    (forall p, is_Some (mac_abs (ms_db s') !! p) <-> is_Some (mac_abs (ms_db s) !! p) \/ p ∈ pids) /\
    mac_abs (ms_db s) ⊆ mac_abs (ms_db s') /\
    Z.of_nat (size (mac_abs (ms_db s'))) < MACDB_CAP /\
    ms_out s' = ms_out s ++ mjoin (exec_line (mac_abs (ms_db s')) <$> filter (is_new (mac_abs (ms_db s))) pids).
Proof using rank_dec rank_fuel args_ok.
  induction pids as [|p pids IH]; intros s Hnd Hw Hs.
  { exists s. rewrite app_nil_r. split_and!; try done; [|rewrite blen_nil in Hs; lia].
    intros p. rewrite elem_of_nil. tauto. }
  apply NoDup_cons in Hnd as [Hp Hnd]. rewrite blen_cons in Hs. pose proof (blen_nonneg pids). cbn [scan_pids].
  rewrite filter_cons. destruct (mac_abs (ms_db s) !! p) as [e|] eqn:He.
  - rewrite (scan_pid_known s p e) by done. cbn [mbind outcome_bind].
    destruct (IH s) as (s'&->&Hw'&Hd&Hsub&Hsz&Hout); [done|done|lia|]. exists s'.
    rewrite decide_False by (unfold is_new; congruence). split_and!; try done.
    intros q. rewrite Hd, elem_of_cons. split; [tauto|]. intros [?|[->|?]]; eauto.
  - destruct (scan_pid_new s p Hw He ltac:(lia)) as (s1&e&->&Hw1&Ha1&Ho1). cbn [mbind outcome_bind].
    assert (Hs1 : size (mac_abs (ms_db s1)) = S (size (mac_abs (ms_db s)))) by (rewrite Ha1; by apply map_size_insert_None).
    destruct (IH s1) as (s'&->&Hw'&Hd&Hsub&Hsz&Hout); [done|done|lia|]. exists s'.
    rewrite decide_True by done. split_and!; try done.
    + intros q. rewrite Hd, Ha1, elem_of_cons, lookup_insert_is_Some. destruct (decide (p = q)); naive_solver.
    + etrans; [|exact Hsub]. rewrite Ha1. by apply insert_subseteq.
    + rewrite Hout, Ho1, <- app_assoc, fmap_cons. change (mjoin (?x :: ?y)) with (x ++ mjoin y). f_equal. f_equal.
      * unfold exec_line. erewrite lookup_weaken; [done| |exact Hsub]. by rewrite Ha1, lookup_insert_eq.
      * f_equal. f_equal. apply filter_ext_in. intros q Hq. unfold is_new. rewrite Ha1, lookup_insert_ne; [done|].
        by intros ->.
Qed.

Lemma exec_line_store m p e : exec_line (<[p := e]> m) p = exec_text e.
Proof using. unfold exec_line. by rewrite lookup_insert_eq. Qed.

(** ** The sweep *)

Lemma sweep_spec now gs : forall s, NoDup gs -> mac_wf (ms_db s) ->
  Z.of_nat (size (mac_abs (ms_db s))) < MACDB_CAP -> Forall (fun p => is_Some (mac_abs (ms_db s) !! p)) gs ->
  exists s', sweep c now s gs = Ok s' /\ mac_wf (ms_db s') /\
    (forall p, mac_abs (ms_db s') !! p = if decide (p ∈ gs) then None else mac_abs (ms_db s) !! p) /\
    ms_out s' = ms_out s ++ mjoin (exit_line now (mac_abs (ms_db s)) <$> gs).
Proof using.
  clear rank_dec rank_fuel args_ok rank. induction gs as [|p gs IH]; intros s Hnd Hw Hs Hg.
  { exists s. split; [done|]. split; [done|]. split; [|by rewrite app_nil_r]. intros q.
    rewrite decide_False; [done|]. by apply not_elem_of_nil. }
  apply NoDup_cons in Hnd as [Hp Hnd]. apply Forall_cons in Hg as [[e He] Hg]. cbn [sweep].
  unfold sweep_pid at 1. rewrite macdb_find_abs, He by done.
  destruct (macdb_delete_ok (ms_db s) p) as (db'&->&Hw'&Ha'); [done..|]. rewrite !ok_bind.
  set (s1 := MSt db' _). destruct (IH s1) as (s'&->&Hws&Hd&Hout); [done|done| | |].
  { cbn [ms_db s1]. rewrite Ha', map_size_delete, He. lia. }
  { eapply Forall_impl; [|]. 2: { intros q Hq. exact Hq. }
    rewrite Forall_forall in Hg |- *. intros q Hq. cbn [ms_db s1]. rewrite Ha', lookup_delete_ne by (by intros ->). by apply Hg. }
  exists s'. split; [done|]. split; [done|]. split.
  - intros q. rewrite Hd. cbn [ms_db s1]. rewrite Ha'. destruct (decide (q ∈ gs)); [by rewrite decide_True by set_solver|].
    destruct (decide (q = p)) as [->|Hne]; [by rewrite lookup_delete_eq, decide_True by set_solver|].
    rewrite lookup_delete_ne by done. by rewrite decide_False by set_solver.
  - rewrite Hout. cbn [ms_out s1]. rewrite <- app_assoc, fmap_cons. change (mjoin (?x :: ?y)) with (x ++ mjoin y).
    f_equal. f_equal; [unfold exit_line; by rewrite He|]. f_equal. apply list_fmap_ext. intros i q Hq.
    apply list_elem_of_lookup_2 in Hq. unfold exit_line. cbn [ms_db s1]. rewrite Ha', lookup_delete_ne; [done|]. by intros ->.
Qed.

(** The entries the sweep looks for are those of the processes that left. *)
Lemma gone_spec pids e : gone pids e = true <-> me_pid e ∉ pids.
Proof using.
  unfold gone. rewrite negb_true_iff, andb_false_iff. unfold liveBitmap.
  assert (Hex : forall f, existsb f pids = false <-> forall p, p ∈ pids -> f p = false).
  { intros f. rewrite <- not_true_iff_false, existsb_exists. split.
    - intros Hn p Hp. apply not_true_iff_false. intros Hf. apply Hn. exists p. by rewrite <- list_elem_of_In.
    - intros Hf (p&Hp&Ht). apply list_elem_of_In in Hp. specialize (Hf p Hp). congruence. }
  rewrite !Hex. split.
  - intros [H|H] Hin; apply H in Hin; by rewrite Z.eqb_refl in Hin.
  - intros Hn. right. intros p Hp. apply Z.eqb_neq. by intros ->.
Qed.

(** The bitmap changes nothing but the time: the entries that the sweep
    collects, with a look at the list of processes only for a hash that the
    bitmap has, are those that a search of the whole list would give, in the
    same order and up to the same bound, for every table and every list. *)
Theorem goners_without_bitmap db pids :
  goners db pids = take GONERS (omap (fun i => e ← pt_slots db !! i; if decide (me_pid e ∈ pids) then None else Some (me_pid e))
                                     (seqZ 0 (2 ^ MACDB_BITS))).
Proof using.
  unfold goners. generalize (seqZ 0 (2 ^ MACDB_BITS)) as l. intros l. f_equal. apply list_omap_ext, Forall_Forall2_diag, Forall_forall. intros i _.
  destruct (pt_slots db !! i) as [e|]; [|done]. cbn. pose proof (gone_spec pids e) as Hg.
  destruct (gone pids e), (decide (me_pid e ∈ pids)); tauto || (exfalso; intuition congruence).
Qed.

Definition departed (m : gmap Z macEntry) (pids : list Z) : gset Z := dom m ∖ list_to_set pids.

Lemma goners_spec db pids : mac_wf db -> (size (departed (mac_abs db) pids) <= GONERS)%nat ->
  NoDup (goners db pids) /\ forall p, p ∈ goners db pids <-> p ∈ departed (mac_abs db) pids.
Proof using.
  intros Hw Hsz. unfold goners. set (f := fun i => e ← pt_slots db !! i; if gone pids e then Some (me_pid e) else None).
  set (L := omap f (seqZ 0 (2 ^ MACDB_BITS))).
  pose proof Hw as [Hr Hu _ _].
  assert (HL : forall p, p ∈ L <-> p ∈ departed (mac_abs db) pids).
  { intros p. unfold L, departed. rewrite list_elem_of_omap, elem_of_difference, elem_of_dom, elem_of_list_to_set.
    unfold f. split.
    - intros (i&_&Hi). destruct (pt_slots db !! i) as [e|] eqn:E; [|done]. cbn in Hi. destruct (gone pids e) eqn:G; [|done].
      injection Hi as <-. split; [|by apply gone_spec]. exists e. apply absm_spec; [exact Hu|eauto].
    - intros [[e He] Hn]. apply absm_spec in He as (i&Hi&Hk); [|exact Hu]. exists i. split.
      + apply elem_of_seqZ. pose proof (Hr i e Hi). unfold cap in *. lia.
      + rewrite Hi. cbn. rewrite (proj2 (gone_spec pids e)) by (by rewrite Hk). by rewrite Hk. }
  assert (Hnd : NoDup L).
  { unfold L. assert (Hs : NoDup (seqZ 0 (2 ^ MACDB_BITS))) by apply NoDup_seqZ. revert Hs.
    generalize (seqZ 0 (2 ^ MACDB_BITS)) as l. induction l as [|i l IH]; intros Hl; [constructor|].
    apply NoDup_cons in Hl as [Hi Hl]. cbn [omap list_omap]. destruct (f i) as [p|] eqn:E; [|by apply IH].
    apply NoDup_cons. split; [|by apply IH]. intros Hin. apply list_elem_of_omap in Hin as (j&Hj&Ej).
    unfold f in E, Ej. destruct (pt_slots db !! i) as [e|] eqn:Hei; [|done]. destruct (pt_slots db !! j) as [e'|] eqn:Hej; [|done].
    cbn in E, Ej. destruct (gone pids e); [|done]. destruct (gone pids e'); [|done].
    injection E as E. injection Ej as Ej. assert (i = j) as -> by (eapply Hu; [done|done|congruence]). done. }
  assert (Hlen : (length L <= GONERS)%nat).
  { etrans; [|exact Hsz]. rewrite <- (size_list_to_set (C := gset Z) L) by done.
    apply subseteq_size. intros p Hp. apply HL. by apply elem_of_list_to_set in Hp. }
  rewrite take_ge by done. done.
Qed.
End Tick.

(** C15. One tick of the polling loop: when the table has room for the list
    of processes and at most 1024 processes have left since the last tick,
    [scanMacDB] terminates without an error, keeps the table well formed,
    leaves in it exactly the processes of the list, changes no entry of a
    process that stays, and prints the line of every process that is new, in
    the order of the list, and then that of every process that left, once
    each, and nothing else. *)
Theorem scanMacDB_tracks fuel c o rank now s pids :
  (forall p q uid sec us, mo_bsd o p = Some (q, uid, sec, us) -> q <> 0 -> q <> p -> (rank q < rank p)%nat) ->
  (forall p, (rank p <= fuel)%nat) -> (forall p, exists r, pidArgvEnv o p = Ok r) ->
  procListAllPIDs o = Ok (Some pids) -> NoDup pids -> mac_wf (ms_db s) ->
  Z.of_nat (size (mac_abs (ms_db s))) + blen pids < MACDB_CAP ->
  (size (departed (mac_abs (ms_db s)) pids) <= GONERS)%nat ->
  exists s' gs, scanMacDB fuel c o now s = Ok s' /\ mac_wf (ms_db s') /\
    (forall p, is_Some (mac_abs (ms_db s') !! p) <-> p ∈ pids) /\
    (forall p e, p ∈ pids -> mac_abs (ms_db s) !! p = Some e -> mac_abs (ms_db s') !! p = Some e) /\
    NoDup gs /\ (forall p, p ∈ gs <-> p ∈ departed (mac_abs (ms_db s)) pids) /\
    ms_out s' = ms_out s ++
      mjoin (exec_line c o (mac_abs (ms_db s')) <$> filter (is_new (mac_abs (ms_db s))) pids) ++
      mjoin (exit_line c now (mac_abs (ms_db s)) <$> gs).
Proof.
  intros Hrk Hf Hargs Hl Hnd Hw Hs Hg.
  destruct (scan_pids_spec fuel c o rank Hrk Hf Hargs pids s) as (s1&Hscan&Hw1&Hd1&Hsub&Hs1&Ho1); [done..|].
  assert (Hdep : departed (mac_abs (ms_db s1)) pids = departed (mac_abs (ms_db s)) pids).
  { apply set_eq. intros p. unfold departed. rewrite !elem_of_difference, !elem_of_dom, Hd1, elem_of_list_to_set. tauto. }
  destruct (goners_spec (ms_db s1) pids) as [Hgn Hgm]; [done|by rewrite Hdep|]. rewrite Hdep in Hgm.
  assert (Hold : forall p, p ∈ goners (ms_db s1) pids -> exists e, mac_abs (ms_db s) !! p = Some e /\
     mac_abs (ms_db s1) !! p = Some e).
  { intros p Hp. apply Hgm in Hp. unfold departed in Hp. apply elem_of_difference in Hp as [Hp _].
    apply elem_of_dom in Hp as [e He]. exists e. split; [done|]. by eapply lookup_weaken. }
  destruct (sweep_spec c now (goners (ms_db s1) pids) s1) as (s'&Hsw&Hw'&Hd'&Ho'); [done|done|done| |].
  { apply Forall_forall. intros p Hp. destruct (Hold p Hp) as (e&_&->). eauto. }
  exists s', (goners (ms_db s1) pids). unfold scanMacDB. rewrite Hl, ok_bind, Hscan, ok_bind, Hsw.
  assert (Hin : forall p, p ∈ pids -> p ∉ goners (ms_db s1) pids).
  { intros p Hp. rewrite Hgm. unfold departed. rewrite elem_of_difference, elem_of_list_to_set. tauto. }
  split_and!; try done.
  - intros p. rewrite Hd'. split.
    + intros Hp. destruct (decide (p ∈ goners (ms_db s1) pids)) as [|Hn]; [by destruct Hp|].
      apply Hd1 in Hp as [Hp|]; [|done]. apply dec_stable. intros Hnp. apply Hn, Hgm. unfold departed.
      by rewrite elem_of_difference, elem_of_dom, elem_of_list_to_set.
    + intros Hp. rewrite decide_False by auto. apply Hd1. by right.
  - intros p e Hp He. rewrite Hd', decide_False by auto. by eapply lookup_weaken.
  - rewrite Ho', Ho1, <- app_assoc. f_equal. f_equal; [f_equal|f_equal].
    + apply list_fmap_ext. intros i p Hp. apply list_elem_of_lookup_2, list_elem_of_filter in Hp as [_ Hp].
      unfold exec_line. by rewrite Hd', decide_False by auto.
    + apply list_fmap_ext. intros i p Hp. apply list_elem_of_lookup_2 in Hp. unfold exit_line.
      by destruct (Hold p Hp) as (e&->&->).
Qed.

#[local] Transparent macdb_find macdb_get macdb_store macdb_delete pidArgvEnv mac_cmd_field.

(** A tick that sees two processes for the first time. *)
Definition mst0 : mstate := MSt pt_empty [].
Definition tick_os : macos :=
  MacOs 2 (fun _ => (8, [42; 1])) (fun p => if p =? 42 then Some (10, 501, 100, 500000) else None)
    (fun p => if p =? 42 then Some (enc_args "/bin/ls" 3 [bs "ls"; bs "-l"] []) else None)
    (fun _ => []) (fun _ => LinkFails) (fun _ => None).
Definition tick_cfg : cfg := Cfg false false false false true true true false false [10].

Lemma scanMacDB_tracks_witness :
  exists s' gs, scanMacDB 1 tick_cfg tick_os (102, 0) mst0 = Ok s' /\ mac_wf (ms_db s') /\
    (forall p, is_Some (mac_abs (ms_db s') !! p) <-> p ∈ [42; 1]) /\
    (forall p e, p ∈ [42; 1] -> mac_abs (ms_db mst0) !! p = Some e -> mac_abs (ms_db s') !! p = Some e) /\
    NoDup gs /\ (forall p, p ∈ gs <-> p ∈ departed (mac_abs (ms_db mst0)) [42; 1]) /\
    ms_out s' = ms_out mst0 ++
      mjoin (exec_line tick_cfg tick_os (mac_abs (ms_db s')) <$> filter (is_new (mac_abs (ms_db mst0))) [42; 1]) ++
      mjoin (exit_line tick_cfg (102, 0) (mac_abs (ms_db mst0)) <$> gs).
Proof.
  apply (scanMacDB_tracks 1 tick_cfg tick_os (fun p => if p =? 42 then 1%nat else 0%nat)).
  - intros p q uid sec us H. cbn in H. destruct (p =? 42); [|discriminate]. injection H as <- _ _ _. intros _ _. cbn. lia.
  - intros p. destruct (p =? 42); lia.
  - intros p. unfold pidArgvEnv. cbn [mo_args tick_os]. destruct (p =? 42); eexists; vm_compute; reflexivity.
  - vm_compute. reflexivity.
  - repeat (apply NoDup_cons; split; [set_solver|]). apply NoDup_nil_2.
  - apply pt_empty_wf.
  - vm_compute. reflexivity.
  - vm_compute. lia.
Defined.

Lemma goners_none db pids :
  forallb (fun ie => negb (gone pids ie.2)) (map_to_list (pt_slots db)) = true -> goners db pids = [].
Proof.
  rewrite forallb_forall. intros H. unfold goners. replace (omap _ _) with (@nil Z); [apply take_nil|].
  induction (seqZ 0 (2 ^ MACDB_BITS)) as [|i l IH]; [done|]. simpl.
  destruct (pt_slots db !! i) as [e|] eqn:He; simpl; [|exact IH].
  apply elem_of_map_to_list, list_elem_of_In, H, negb_true_iff in He. simpl in He. rewrite He. exact IH.
Qed.

Example tick_demo :
  match scanMacDB 1 tick_cfg tick_os (102, 0) mst0 with
  | Ok s => ms_out s = bs "42+ ls -l" ++ NL
  | _ => False
  end.
Proof.
  unfold scanMacDB.
  let v := eval vm_compute in (procListAllPIDs tick_os) in
  change (procListAllPIDs tick_os) with v.
  rewrite ok_bind.
  let v := eval vm_compute in (scan_pids 1 tick_cfg tick_os mst0 [42; 1]) in
  change (scan_pids 1 tick_cfg tick_os mst0 [42; 1]) with v.
  rewrite ok_bind, goners_none; [vm_compute; reflexivity|].
  vm_compute. reflexivity.
Qed.
