(* ===== verification/ExecMain.v ===== *)
(** The run of c/exec.c, in its Linux and in its macOS version: the set-up of
    [exec_main] as a sequence of system calls, the command that it starts, and
    the main loop, which ends when the command has ended. *)
From S2P Require Import Prelude CLib Os Sys Loop Start Common ProbeTable ExecLinux ExecProofs ExecSpec ExecArgs ExecMac ExecMacProofs.

(** * The set-up *)

Definition AF_NETLINK : Z := 16.
Definition SOCK_DGRAM : Z := 2.
Definition NETLINK_CONNECTOR_PROTO : Z := 11.
Definition CN_IDX_PROC : Z := 1.
Definition PROC_CN_MCAST_LISTEN : Z := 1.
Definition PROC_CN_MCAST_IGNORE : Z := 2.

Section Start.
(** The process, [kill(pid, 0)], the environment variable NO_COLOR, what
    [is_terminal] sees of the output, and the messages of [strerror]. *)
Context (getpid : Z) (alive : Z -> bool) (no_color : option bytes) (term : option bytes -> stream) (strerror : Z -> bytes).

(** What the loop runs on: the socket, the configuration, the process of the
    command. *)
Record exec_start := ExecStart { xs_fd : Z; xs_cfg : cfg; xs_child : option Z }.
Definition prog (mac : bool) : bytes := if mac then "tracep exec: " else "proc-trace-exec: ".

(** The command: the handler, then the fork. *)
Definition start_command (mac : bool) (cmd : list bytes) (k : option Z -> callM (started exec_start)) : callM (started exec_start) :=
  match cmd with
  | [] => k None
  | _ =>
      sys (Signal "SIGCHLD");;
      fork_command (prog mac) 1 (fun err => prog mac ++ exec_failed strerror cmd err ++ NL) (exec_failed strerror cmd) cmd
        (fun pid => k (Some pid))
  end.

(** [socket], [bind] and [sendMcastOp(fd, PROC_CN_MCAST_LISTEN)]. *)
Definition subscribe (k : Z -> callM (started exec_start)) : callM (started exec_start) :=
  fd ← sys (Socket AF_NETLINK SOCK_DGRAM NETLINK_CONNECTOR_PROTO);
  on_error (prog false) (fd <? 0) ("socket: " ++ strerror (- fd))
    (b ← sys (Bind fd CN_IDX_PROC (u32 getpid));
     on_error (prog false) (negb (b =? 0)) ("bind: " ++ strerror (- b))
       (r ← sys (SendTo fd (mcast_msg getpid PROC_CN_MCAST_LISTEN));
        on_error (prog false) (r <? 0) ("subscribe: " ++ strerror (- r)) (k fd))).

Definition exec_main (args : list bytes) : outcome (callM (started exec_start)) :=
  r ← parse_args false alive args;
  Ok match r with
     | XUsage => mret (UsageEnd 1)
     | XDie m => mret (fatalf (prog false) m)
     | XRun o cmd =>
         open_log strerror (prog false) (x_out o)
           (subscribe (fun fd => start_command false cmd
              (fun child => mret (ToLoop (ExecStart fd (exec_cfg getpid no_color (term (x_out o)) o cmd) child)))))
     end.

(** The macOS version has no socket. *)
Definition mac_exec_main (args : list bytes) : outcome (callM (started exec_start)) :=
  r ← parse_args true alive args;
  Ok match r with
     | XUsage => mret (UsageEnd 1)
     | XDie m => mret (fatalf (prog true) m)
     | XRun o cmd =>
         open_log strerror (prog true) (x_out o)
           (start_command true cmd
              (fun child => mret (ToLoop (ExecStart (-1) (exec_cfg getpid no_color (term (x_out o)) o cmd) child))))
     end.

(** The line on the standard error before the first poll. *)
Definition mac_banner (showErrors root : bool) (interval : Z) : bytes :=
  if showErrors then
    "tracep exec: polling at " ++ fmt_d interval ++ "ms on darwin " ++ [chr 226; chr 128; chr 148] ++
    " short-lived processes may be missed" ++
    (if root then [] else bs "; non-root sees argv only for own-user processes") ++ NL
  else [].
(** The argument of [nanosleep]. *)
Definition poll_timespec (interval : Z) : Z * Z := (interval ÷ 1000, Z.rem interval 1000 * 1000000).
End Start.

(** * The main loops *)

Section Main.
Context (fuel : nat) (c : cfg) (getpid : Z).

(** A datagram comes with what the system answers while it is handled; the
    state is the tracer's and the messages it has sent. *)
Definition exec_read (i : os * bytes) (s : state * list bytes) : outcome (state * list bytes) :=
  s' ← dispatchNlMsg fuel c i.1 i.2 s.1; Ok (s', s.2).
Definition exec_last (_ : unit) (s : state * list bytes) : outcome (state * list bytes) :=
  Ok (s.1, s.2 ++ [mcast_msg getpid PROC_CN_MCAST_IGNORE]).
(** [exec_main] installs its handler with SA_RESTART, so that [recvfrom] is
    restarted ([restarts] is true); the test of EINTR in the code is kept for
    the other case. *)
Definition exec_run (restarts : bool) (child : Z) := lrun exec_read exec_last (reaped_known child) restarts.

(** The macOS version: a sleep, that a signal may cut short, then a scan, whose
    answers come with it. *)
Definition mac_read (i : macos * (Z * Z)) (s : mstate) : outcome mstate := scanMacDB fuel c i.1 i.2 s.
Definition mac_last (_ : unit) (s : mstate) : outcome mstate := Ok s.
Definition mac_run (child : Z) := lrun mac_read mac_last (reaped_known child) true.
End Main.
