(* ===== verification/ExecMainProps.v ===== *)
(** Theorems on the run of c/exec.c: the order of its set-up, the refinement of
    the whole run by the specification's fold, its safety on arbitrary
    datagrams, how it ends, and the one interleaving in which it does not. *)
From S2P Require Import Prelude CLib Os Sys Loop Start Common ProbeTable ExecLinux ExecProofs ExecSpec ExecArgs ExecMac ExecMacProofs ExecMain.

(** * The set-up *)

Section Start.
Context (getpid : Z) (alive : Z -> bool) (no_color : option bytes) (term : option bytes -> stream) (strerror : Z -> bytes).

Lemma wp_start_command mac cmd k e h : cmd <> [] ->
  wp e h (start_command strerror mac cmd (fun child => mret (k child)))
    (fun r h' => exists a pid post, h' = h ++ [(Signal "SIGCHLD", a); (Fork, pid)] ++ post /\ forked (prog mac) 1 cmd pid r post (k (Some pid))).
Proof.
  intros Hc. destruct cmd as [|name cmd]; [done|]. cbn [start_command].
  apply wp_bind, wp_sys. set (a := e h _). apply wp_fork_command.
  - intros pid r post _ Hf. exists a, pid, post. split; [by rewrite <- !app_assoc|apply Hf].
  - intros pid Hp. apply wp_ret. exists a, pid, []. split; [by rewrite <- !app_assoc|]. right. right. done.
Qed.

(** C22. The order of the set-up: whatever the system answers, the command is
    started only after the socket is open, bound to the group of process
    events, and subscribed, and after the handler of SIGCHLD is installed; the
    tracer that then runs watches its own subtree, and knows the command by
    the answer of [fork]; in the child nothing happens but [execvp]. *)
Theorem exec_main_subscribes_first e args o cmd m :
  parse_args false alive args = Ok (XRun o cmd) -> cmd <> [] ->
  exec_main getpid alive no_color term strerror args = Ok m ->
  wp e [] m (fun r h => Fork ∈ h.*1 -> exists pre fd n a pid post,
    h = pre ++ [(Socket AF_NETLINK SOCK_DGRAM NETLINK_CONNECTOR_PROTO, fd); (Bind fd CN_IDX_PROC (u32 getpid), 0);
                (SendTo fd (mcast_msg getpid PROC_CN_MCAST_LISTEN), n); (Signal "SIGCHLD", a); (Fork, pid)] ++ post /\
    0 <= fd /\ 0 <= n /\ Fork ∉ pre.*1 /\
    forked (prog false) 1 cmd pid r post (ToLoop (ExecStart fd (exec_cfg getpid no_color (term (x_out o)) o cmd) (Some pid)))).
Proof.
  intros Hp Hc Hm. unfold exec_main in Hm. rewrite Hp, ok_bind in Hm. injection Hm as <-.
  apply wp_open_log; [|intros f r m Hf; cbn in Hf; set_solver].
  intros h Hh. apply log_no_fork in Hh. unfold subscribe.
  apply wp_bind, wp_sys. set (fd := e h _). apply wp_on_error; intros Hfd; [intros Hf; exfalso; revert Hf; by apply snoc_no_fork|].
  apply wp_bind, wp_sys. set (h1 := h ++ _). set (b := e h1 _).
  assert (Hn1 : Fork ∉ (h1 ++ [(Bind fd CN_IDX_PROC (u32 getpid), b)]).*1) by (by repeat apply snoc_no_fork).
  apply wp_on_error; intros Hb; zbool; [by intros|].
  apply wp_bind, wp_sys. set (h2 := h1 ++ _) in *. set (n := e h2 _). apply wp_on_error; intros Hn; zbool.
  { intros Hf. exfalso. revert Hf. by apply snoc_no_fork. }
  eapply wp_mono; [by apply wp_start_command|]. intros r h' (a&pid&post&->&Hf) _.
  exists h, fd, n, a, pid, post. split_and!; [|done..]. unfold h2, h1. rewrite Hb. by rewrite <- !app_assoc.
Qed.

(** In the macOS version the handler is installed before the fork as well. *)
Lemma mac_exec_main_starts e args o cmd m :
  parse_args true alive args = Ok (XRun o cmd) -> cmd <> [] ->
  mac_exec_main getpid alive no_color term strerror args = Ok m ->
  wp e [] m (fun r h => Fork ∈ h.*1 -> exists pre a pid post, h = pre ++ [(Signal "SIGCHLD", a); (Fork, pid)] ++ post /\
    Fork ∉ pre.*1 /\
    forked (prog true) 1 cmd pid r post (ToLoop (ExecStart (-1) (exec_cfg getpid no_color (term (x_out o)) o cmd) (Some pid)))).
Proof.
  intros Hp Hc Hm. unfold mac_exec_main in Hm. rewrite Hp, ok_bind in Hm. injection Hm as <-.
  apply wp_open_log; [|intros f r m Hf; cbn in Hf; set_solver].
  intros h Hh. apply log_no_fork in Hh. eapply wp_mono; [by apply wp_start_command|].
  intros r h' (a&pid&post&->&Hf) _. by exists h, a, pid, post.
Qed.
End Start.

(** An environment in which everything works. *)
Definition demo_env : env (C := call) := fun _ x =>
  match x with Socket _ _ _ => 3 | SendTo _ m => blen m | Fork => 4242 | OpenLog _ => 4 | _ => 0 end.
Definition demo_args : list bytes := [bs "-ct"; bs "make"; bs "-j"].

Lemma exec_main_subscribes_first_witness :
  exists m, exec_main 77 (fun _ => true) None (fun _ => Stream true) (fun _ => []) demo_args = Ok m /\
  wp demo_env [] m (fun r h => Fork ∈ h.*1 -> exists pre fd n a pid post,
    h = pre ++ [(Socket AF_NETLINK SOCK_DGRAM NETLINK_CONNECTOR_PROTO, fd); (Bind fd CN_IDX_PROC (u32 77), 0);
                (SendTo fd (mcast_msg 77 PROC_CN_MCAST_LISTEN), n); (Signal "SIGCHLD", a); (Fork, pid)] ++ post /\
    0 <= fd /\ 0 <= n /\ Fork ∉ pre.*1 /\
    forked (prog false) 1 [bs "make"; bs "-j"] pid r post
      (ToLoop (ExecStart fd (exec_cfg 77 None (Stream true)
         (XOpts true false false false false true true true false [] None 50) [bs "make"; bs "-j"]) (Some pid)))).
Proof.
  eexists. split; [reflexivity|].
  apply (exec_main_subscribes_first 77 (fun _ => true) None (fun _ => Stream true) (fun _ => []) demo_env demo_args
    (XOpts true false false false false true true true false [] None 50) [bs "make"; bs "-j"]); [reflexivity|discriminate|reflexivity].
Defined.

(** * The run as a fold *)

Section Run.
Context (fuel : nat) (c : cfg) (getpid child : Z).

(** The messages of a datagram, with what the system answers meanwhile, and
    what the datagram has after its last whole message. *)
Record batch := Batch { b_os : os; b_msgs : list (wire * event); b_tail : bytes }.
Definition frame (b : batch) : os * bytes := (b_os b, mjoin (enc_msg <$> b_msgs b) ++ b_tail b).
Definition batch_ok (b : batch) : Prop := Forall msg_ok (b_msgs b) /\ tail_ok (b_tail b).
Fixpoint spec_batches (l : list batch) (t : sst) : outcome sst :=
  match l with [] => Ok t | b :: l' => t' ← spec_run fuel c (b_os b) (b_msgs b).*2 t; spec_batches l' t' end.
(** Every event of the run finds the table with a free slot. *)
Fixpoint roomy_batches (l : list batch) (t : sst) : bool :=
  match l with
  | [] => true
  | b :: l' => roomy fuel c (b_os b) (b_msgs b).*2 t &&
               match spec_run fuel c (b_os b) (b_msgs b).*2 t with Ok t' => roomy_batches l' t' | _ => true end
  end.

Lemma fold_batches l : forall s t s', Forall batch_ok l ->
  refines s.1 t -> roomy_batches l t = true ->
  fold_in (exec_read fuel c) (frame <$> l) s = Ok s' ->
  s'.2 = s.2 /\ exists t', spec_batches l t = Ok t' /\ refines s'.1 t'.
Proof.
  induction l as [|b l IH]; intros s t s' Hok HR Hsz H; cbn [fmap list_fmap fold_in] in H; [injection H as <-; split; [done|by exists t]|].
  apply Forall_cons in Hok as [[Hm Htl] Hok]. cbn [roomy_batches] in Hsz. apply andb_true_iff in Hsz as [Hrm Hsz].
  apply bind_Ok in H as (s1&H1&H2). unfold exec_read, frame in H1. cbn [fst snd] in H1.
  pose proof (dispatchNlMsg_refines_fold fuel c (b_os b) (b_msgs b) (b_tail b) s.1 t Hm Htl HR Hrm) as Hsim. cbn [spec_batches].
  destruct (spec_run fuel c (b_os b) (b_msgs b).*2 t) as [t1| |] eqn:Et; cbn [sim] in Hsim.
  - destruct Hsim as (s1'&Es&HR1). rewrite Es, ok_bind in H1. injection H1 as <-.
    destruct (IH (s1', s.2) t1 s') as (Hs2&t'&Ht'&HR'); [done..|]. split; [done|]. rewrite ok_bind. by exists t'.
  - by rewrite Hsim in H1.
  - by rewrite Hsim in H1.
Qed.

Lemma fold_last l : forall s s', fold_fin (exec_last getpid) l s = Ok s' ->
  s'.1 = s.1 /\ s'.2 = s.2 ++ ((fun _ => mcast_msg getpid PROC_CN_MCAST_IGNORE) <$> l).
Proof.
  induction l as [|u l IH]; intros s s' H; cbn [fold_fin] in H; [injection H as <-; by rewrite app_nil_r|].
  apply bind_Ok in H as (s1&[= <-]&H). apply IH in H as [-> ->]. cbn [fst snd fmap list_fmap]. by rewrite <- app_assoc.
Qed.

(** C1. The whole run refines the specification: whatever messages of the
    connector the datagrams hold (the execs and exits of processes, the events
    of every other kind, the messages of other connectors, with any rest of
    their data, and at the end of a datagram a message cut short), however they
    are framed, and however signals and interrupted reads come between them,
    the tracer's table, its output and its messages are what the fold of the
    specification over a finite map makes of the execs and exits, and what it
    sends before it ends is the request to unsubscribe; as long as every event
    finds the table of 16384 slots with a free one. *)
Theorem exec_run_refines restarts l ls y :
  exec_run fuel c getpid restarts child (AtTest (st0, []) false) ls y -> inputs ls = frame <$> l ->
  Forall batch_ok l -> roomy_batches l sst0 = true ->
  exists t, spec_batches l sst0 = Ok t /\ refines (tracer y).1 t /\
    (tracer y).2 = (fun _ => mcast_msg getpid PROC_CN_MCAST_IGNORE) <$> finals ls.
Proof.
  intros Hr Hin Hok Hsz. apply lrun_fold in Hr. rewrite Hin in Hr. apply bind_Ok in Hr as (s&Hs&Hf).
  apply fold_last in Hf as [E1 E2]. apply (fold_batches l _ sst0) in Hs as (Hs2&t&Ht&HR); [|done|exact refines_0|exact Hsz].
  exists t. rewrite E1, E2, Hs2. done.
Qed.

(** * Safety *)

(** The ancestry of processes ends, within the fuel. *)
Definition sane (o : os) : Prop :=
  exists rank : Z -> nat, (forall p, 0 < statPPID o p -> (rank (statPPID o p) < rank p)%nat) /\ forall p, (rank p <= fuel)%nat.
(** A datagram that the tracer can take: the ancestry of processes ends, it
    fits the buffer, and the table has a slot per sixty bytes of it, the length
    of the shortest message that adds a process. *)
Definition can_take (i : os * bytes) (s : state * list bytes) : Prop := sane i.1 /\ fits i.2 s.1.
(** Every datagram finds the tracer so. *)
Fixpoint takes_all (l : list (os * bytes)) (s : state * list bytes) : Prop :=
  match l with
  | [] => True
  | i :: l' => can_take i s /\ forall s', exec_read fuel c i s = Ok s' -> takes_all l' s'
  end.

Lemma exec_read_safe i s : can_take i s -> db_wf (st_db s.1) ->
  exists s', exec_read fuel c i s = Ok s' /\ db_wf (st_db s'.1) /\ st_out s.1 `prefix_of` st_out s'.1.
Proof.
  intros [(rank&H1&H2) [Hl Hsz]] Hw. unfold exec_read.
  destruct (dispatchNlMsg_safe c i.1 rank fuel i.2 s.1) as (s'&->&?&?); [done..|lia|done|].
  rewrite ok_bind. eexists. by split.
Qed.

Lemma fold_safe l : forall s s', takes_all l s -> db_wf (st_db s.1) ->
  fold_in (exec_read fuel c) l s = Ok s' -> db_wf (st_db s'.1).
Proof.
  induction l as [|i l IH]; intros s s' Hok Hw H; cbn [fold_in takes_all] in *; [by injection H as <-|].
  destruct Hok as [Hi Hok]. destruct (exec_read_safe i s Hi Hw) as (s1&E&Hw1&_). rewrite E, ok_bind in H.
  apply (IH s1); [by apply Hok|done|done].
Qed.

(** C16. The run never gets stuck: whatever bytes the datagrams hold, and
    whatever the signals do, the tracer can handle the next datagram too: it
    takes no message and no data from outside of it, reads nothing outside of
    them, dereferences no null entry, and comes back; its table stays well
    formed and its output only grows; provided that at every datagram the
    ancestry of processes ends and the table has a free slot per sixty bytes of
    that datagram. *)
Theorem exec_run_safe restarts ls y i :
  exec_run fuel c getpid restarts child (AtTest (st0, []) false) ls y ->
  takes_all (inputs ls) (st0, []) -> can_take i (tracer y) ->
  db_wf (st_db (tracer y).1) /\
  exists s', exec_read fuel c i (tracer y) = Ok s' /\ db_wf (st_db s'.1) /\ st_out (tracer y).1 `prefix_of` st_out s'.1.
Proof.
  intros Hr Hok Hi. apply lrun_fold in Hr. apply bind_Ok in Hr as (s&Hs&Hf). apply fold_last in Hf as [E1 _].
  apply fold_safe in Hs; [|exact Hok|exact db_empty_wf]. rewrite <- E1 in Hs. split; [done|]. by apply exec_read_safe.
Qed.

(** The farewell: at the test of the flag, the loop has yet to take its last
    step, or has sent the request to unsubscribe and stopped. *)
Definition farewell (s : state * list bytes) (ls : list (@label (os * bytes) unit (list Z))) (y : lstate) : Prop :=
  ls = [] /\ y = AtTest s true \/
  ls = [LStop tt] /\ y = Stopped (s.1, s.2 ++ [mcast_msg getpid PROC_CN_MCAST_IGNORE]).

Lemma closing_farewell s (ls : list (@label (os * bytes) unit (list Z))) y : closing (exec_last getpid) s ls y -> farewell s ls y.
Proof. intros [[-> ->]|([]&s'&->&[= <-]&->)]; [by left|by right]. Qed.

(** C21. The end of the command. Once the handler has reaped it, the loop goes
    no further than its next test of the flag, where it sends the request to
    unsubscribe, once, and stops. But a signal that comes while the loop is in
    [recvfrom] does not bring it to that test: the handler is installed with
    SA_RESTART, the call is restarted, and the loop stays in it until one more
    datagram comes, which it handles before it stops, or until the call fails. *)
Theorem exec_run_ends x ls1 reaped ls2 y :
  reaped_known child reaped = true ->
  exec_run fuel c getpid true child x (ls1 ++ LSignal reaped :: ls2) y ->
  exists z, exec_run fuel c getpid true child x ls1 z /\
    match z with
    | AtTest s _ => farewell s (own ls2) y
    | AtRead s _ =>
        own ls2 = [] /\ y = AtRead s true \/ own ls2 = [LDie] /\ y = Stopped s \/
        exists i s' ls, own ls2 = LRead i :: ls /\ dispatchNlMsg fuel c i.1 i.2 s.1 = Ok s' /\ farewell (s', s.2) ls y
    | Stopped _ => False
    end.
Proof.
  intros Hr H. apply lrun_signalled in H as (z&Hz&Hy); [|done]. exists z. split; [exact Hz|].
  destruct z as [s b|s b|s]; [by apply closing_farewell| |done].
  destruct Hy as [?|[?|[(?&_&?&_)|(i&s'&ls'&E1&E2&Hc)]]]; [by left|by right; left|done|].
  right. right. apply bind_Ok in E2 as (s1&E2&[= <-]). exists i, s1, ls'. split_and!; [done|done|by apply closing_farewell].
Qed.

(** And so does the macOS version. *)
Lemma mac_run_ends x ls1 reaped ls2 y :
  reaped_known child reaped = true -> mac_run fuel c child x (ls1 ++ LSignal reaped :: ls2) y ->
  ends_after ls2 y.
Proof. intros Hr. by apply lrun_stops. Qed.

Lemma reaped_known_unknown pid l : pid ∉ l -> reaped_known pid l = false.
Proof.
  induction l as [|r l IH]; intros Hn; [done|]. apply not_elem_of_cons in Hn as [Hr Hn]. cbn [reaped_known].
  destruct (0 <? r); [|done]. by rewrite (proj2 (Z.eqb_neq _ _)), IH by auto.
Qed.
End Run.

(** C39. The exit of the command counts only when the signal comes after the
    assignment of [g_child]: when the command ends between the fork and the
    assignment, the handler reaps it without knowing it, the flag stays down,
    and no run of the loop, in which the same process cannot be reaped again,
    comes to the end. *)
Theorem exec_missed_child fuel c getpid restarts pid :
  0 < pid ->
  exited (foldl child_step child0 [InstallHandler; Forked pid; Sigchld [pid; -1]]) = true /\
  let late := foldl child_step child0 [InstallHandler; Sigchld [pid; -1]; Forked pid] in
  exited late = false /\
  forall s ls y, (forall r, LSignal r ∈ ls -> pid ∉ r) ->
    exec_run fuel c getpid restarts (g_child late) (AtTest s (exited late)) ls y -> finals ls = [].
Proof.
  intros Hp. cbn. rewrite (proj2 (Z.ltb_lt _ _)), Z.eqb_refl, (proj2 (Z.eqb_neq pid 0)) by lia. split; [done|]. split; [done|].
  intros s ls y Hls Hr. eapply lrun_goes_on; [exact Hr|done|]. intros r Hi. by apply reaped_known_unknown, Hls.
Qed.

(** * The interval *)

(** C36. The interval of -i: every positive number that a [long] holds is
    accepted; below [2^31] the time that [nanosleep] gets is valid and is that
    many milliseconds; but the number is kept in an [int], and one with bit 31
    set is accepted and makes the time negative, so that no call sleeps. *)
Theorem poll_interval v : 0 < v <= LONG_MAX ->
  interval_of (fmt_d v) = inl (i32 v) /\
  let '(sec, nsec) := poll_timespec (i32 v) in
  (v < 2 ^ 31 -> 0 <= sec /\ 0 <= nsec < 10 ^ 9 /\ sec * 1000 + nsec / 10 ^ 6 = v) /\
  (Z.testbit v 31 = true -> sec < 0 \/ nsec < 0).
Proof.
  intros Hv. split.
  - unfold interval_of. rewrite <- (app_nil_r (fmt_d v)), strtol_fmt_d by (unfold LONG_MIN, LONG_MAX in *; first [lia|done]).
    cbn [st_conv st_rest st_erange st_val]. rewrite eqs_refl, (proj2 (Z.leb_gt _ _)) by lia. done.
  - unfold poll_timespec. split.
    + intros Hs. rewrite (swrap_small 32) by lia. rewrite Z.quot_div_nonneg, Z.rem_mod_nonneg by lia. Z.div_mod_to_equations. lia.
    + intros Hb. unfold swrap. assert (Hw : 2 ^ 31 <= u32 v < 2 ^ 32).
      { pose proof (wrap_range 32 v ltac:(lia)). split; [|lia]. apply Z.le_ngt. intros Hlt.
        assert (Ht : Z.testbit (u32 v) 31 = false) by (apply Z.bits_above_log2; [lia|]; destruct (decide (u32 v = 0)) as [->|]; [done|]; apply Z.log2_lt_pow2; lia).
        unfold wrap in Ht. rewrite Z.mod_pow2_bits_low in Ht by lia. congruence. }
      change (32 - 1) with 31. rewrite (proj2 (Z.ltb_ge _ _)) by lia. set (w := u32 v) in *.
      pose proof (Z.quot_rem' (w - 2 ^ 32) 1000). pose proof (Z.rem_nonpos (w - 2 ^ 32) 1000 ltac:(lia) ltac:(lia)).
      lia.
Qed.
Lemma poll_interval_witness :
  interval_of (fmt_d (2 ^ 31)) = inl (i32 (2 ^ 31)) /\
  let '(sec, nsec) := poll_timespec (i32 (2 ^ 31)) in
  (2 ^ 31 < 2 ^ 31 -> 0 <= sec /\ 0 <= nsec < 10 ^ 9 /\ sec * 1000 + nsec / 10 ^ 6 = 2 ^ 31) /\
  (Z.testbit (2 ^ 31) 31 = true -> sec < 0 \/ nsec < 0).
Proof. apply (poll_interval (2 ^ 31)). cbv. split; [reflexivity|discriminate]. Defined.

(** * A run *)

Definition demo_batch : batch := Batch demo_os demo_stream demo_tail.
(** A datagram with an exec and an exit, then, in the next read, the end of the
    command, a datagram, and the end of the run. *)
Definition demo_labels1 : list (@label (os * bytes) unit (list Z)) := [LTest; LRead (frame demo_batch); LTest].
Definition demo_labels2 : list (@label (os * bytes) unit (list Z)) := [LRead (frame demo_batch); LStop tt].
Definition demo_labels : list (@label (os * bytes) unit (list Z)) :=
  demo_labels1 ++ LSignal [77; 42; 0] :: demo_labels2.
(** The same with an interrupted read. *)
Definition demo_skip : list (@label (os * bytes) unit (list Z)) := [LTest; LSkip] ++ demo_labels.

Lemma demo_read s : exec_read 3 demo_cfg (frame demo_batch) (st0, []) = Ok s ->
  exists s', exec_read 3 demo_cfg (frame demo_batch) s = Ok s'.
Proof.
  intros E. assert (H : match exec_read 3 demo_cfg (frame demo_batch) (st0, []) with
     | Ok s => match exec_read 3 demo_cfg (frame demo_batch) s with Ok _ => true | _ => false end | _ => false end = true)
    by (vm_compute; reflexivity).
  rewrite E in H. destruct (exec_read 3 demo_cfg (frame demo_batch) s); [eauto|discriminate..].
Qed.
Lemma demo_run restarts : exists y, exec_run 3 demo_cfg 7 restarts 42 (AtTest (st0, []) false) demo_labels y.
Proof.
  destruct (exec_read 3 demo_cfg (frame demo_batch) (st0, [])) as [s1| |] eqn:E1; [|vm_compute in E1; discriminate E1..].
  destruct (demo_read s1 E1) as [s2 E2].
  eexists. unfold demo_labels, demo_labels1, demo_labels2. cbn [app]. repeat (eapply RunCons; [econstructor; first [exact E1|exact E2|reflexivity]|]). constructor.
Qed.
Lemma demo_run_skip : exists y, exec_run 3 demo_cfg 7 false 42 (AtTest (st0, []) false) demo_skip y.
Proof.
  destruct (demo_run false) as [y Hr]. exists y. unfold demo_skip. cbn [app].
  do 2 (eapply RunCons; [constructor; reflexivity|]). exact Hr.
Qed.

Lemma exec_run_refines_witness :
  exists y, exec_run 3 demo_cfg 7 false 42 (AtTest (st0, []) false) demo_skip y /\
  exists t, spec_batches 3 demo_cfg [demo_batch; demo_batch] sst0 = Ok t /\ refines (tracer y).1 t /\
    (tracer y).2 = (fun _ => mcast_msg 7 PROC_CN_MCAST_IGNORE) <$> finals demo_skip.
Proof.
  destruct demo_run_skip as [y Hr]. exists y. split; [exact Hr|].
  apply (exec_run_refines 3 demo_cfg 7 42 false [demo_batch; demo_batch] demo_skip y Hr).
  - reflexivity.
  - do 2 (apply Forall_cons; split; [split; [exact demo_stream_ok|exact demo_tail_ok]|]). constructor.
  - vm_compute. reflexivity.
Defined.

Lemma demo_sane : sane 3 demo_os.
Proof. exists demo_rank. split; [exact demo_rank_dec|exact demo_rank_le]. Qed.

Definition demo_junk : os * bytes := (demo_os, bs "not thirty bytes, but some, and no message at all").
Lemma exec_run_safe_witness :
  exists y, exec_run 3 demo_cfg 7 true 42 (AtTest (st0, []) false) demo_labels1 y /\
  db_wf (st_db (tracer y).1) /\
  exists s', exec_read 3 demo_cfg demo_junk (tracer y) = Ok s' /\
    db_wf (st_db s'.1) /\ st_out (tracer y).1 `prefix_of` st_out s'.1.
Proof.
  destruct (exec_read 3 demo_cfg (frame demo_batch) (st0, [])) as [s1| |] eqn:E1; [|vm_compute in E1; discriminate E1..].
  assert (Hr : exec_run 3 demo_cfg 7 true 42 (AtTest (st0, []) false) demo_labels1 (AtRead s1 false)).
  { unfold demo_labels1. repeat (eapply RunCons; [econstructor; first [exact E1|reflexivity]|]). constructor. }
  exists (AtRead s1 false). split; [exact Hr|]. apply (exec_run_safe 3 demo_cfg 7 42 true demo_labels1 _ demo_junk Hr).
  - split; [|done]. split; [exact demo_sane|]. split; vm_compute; discriminate.
  - split; [exact demo_sane|]. split; [vm_compute; discriminate|]. cbn [tracer].
    assert (Hs : match exec_read 3 demo_cfg (frame demo_batch) (st0, []) with
       | Ok s => Z.of_nat (size (db_abs (st_db s.1))) + blen demo_junk.2 / 60 <=? PIDDB_CAP | _ => false end = true)
      by (vm_compute; reflexivity).
    rewrite E1 in Hs. by apply Z.leb_le.
Defined.

Lemma exec_run_ends_witness :
  exists y, exec_run 3 demo_cfg 7 true 42 (AtTest (st0, []) false) demo_labels y /\
  exists z, exec_run 3 demo_cfg 7 true 42 (AtTest (st0, []) false) demo_labels1 z /\
    match z with
    | AtTest s _ => farewell 7 s (own demo_labels2) y
    | AtRead s _ =>
        own demo_labels2 = [] /\ y = AtRead s true \/
        own demo_labels2 = [LDie] /\ y = Stopped s \/
        exists i s' ls, own demo_labels2 = LRead i :: ls /\
          dispatchNlMsg 3 demo_cfg i.1 i.2 s.1 = Ok s' /\ farewell 7 (s', s.2) ls y
    | Stopped _ => False
    end.
Proof.
  destruct (demo_run true) as [y Hr]. exists y. split; [exact Hr|]. apply (exec_run_ends 3 demo_cfg 7 42 (AtTest (st0, []) false)
    demo_labels1 [77; 42; 0] demo_labels2); [reflexivity|exact Hr].
Defined.

Lemma exec_missed_child_witness :
  0 < 42 /\ exited (foldl child_step child0 [InstallHandler; Forked 42; Sigchld [42; -1]]) = true /\
  let late := foldl child_step child0 [InstallHandler; Sigchld [42; -1]; Forked 42] in
  exited late = false /\
  forall s ls y, (forall r, LSignal r ∈ ls -> 42 ∉ r) ->
    exec_run 3 demo_cfg 7 true (g_child late) (AtTest s (exited late)) ls y -> finals ls = [].
Proof. split; [lia|]. apply (exec_missed_child 3 demo_cfg 7 true 42). lia. Defined.
