(* ===== verification/DnsWire.v ===== *)
(** The DNS wire format of c/dns.c: names with compression, messages, and the
    Ethernet/IP/UDP framing around them.

    A buffer is the list of its bytes: the [(pointer, length)] pairs of the C
    code are taken with [sub].  Reads go through [rd], so that a read outside
    of the buffer, and a pair that reaches out of it, is [Ub]; loops whose end
    depends on the packet take fuel. *)
From S2P Require Import Prelude CLib Inet.

(** * Names *)

(** [dst[w++] = ..] while [w < dstcap - 1]: the text grows up to the cap. *)
Definition put_label (cap : option Z) (acc lab : bytes) : bytes :=
  match cap with
  | None => acc
  | Some n =>
      let acc := if (0 <? blen acc) && (blen acc <? n - 1) then acc ++ "." else acc in
      acc ++ take (Z.to_nat (n - 1 - blen acc)) lab
  end.

(** One turn of the [for (;;)] loop: leave it with a result, or go on at
    another offset. *)
Inductive turn :=
  | Stop (res : option Z)                  (* return; None is -1 *)
  | Label (next : Z) (lab : bytes)         (* a label; go on after it *)
  | Jump (back target : Z).                (* a pointer; [back] follows it *)

Definition name_turn (d : bytes) (off : Z) : outcome turn :=
  if blen d <=? off then Ok (Stop None)
  else
    l ← rd d off;
    if l =? 0 then Ok (Stop (Some (off + 1)))
    else if Z.land l 192 =? 192 then
      if blen d <? off + 2 then Ok (Stop None)
      else v ← be16 d off; Ok (Jump (off + 2) (Z.land v 16383))
    else if Z.land l 192 =? 0 then
      if blen d <? off + 1 + l then Ok (Stop None)
      else lab ← sub d (off + 1) l; Ok (Label (off + 1 + l) lab)
    else Ok (Stop None).

(** [read_name(d, len, off, dst, dstcap)] from the loop on: [orig] is the
    offset after the first pointer, [acc] the text in [dst].  The result is
    the offset after the name ([None] for -1) and the text. *)
Fixpoint read_name_go (fuel : nat) (d : bytes) (cap : option Z) (off : Z) (orig : option Z) (acc : bytes)
  : outcome (option Z * bytes) :=
  match fuel with
  | O => Fuel
  | S f =>
      t ← name_turn d off;
      match t with
      | Stop None => Ok (None, acc)
      | Stop (Some e) => Ok (Some (default e orig), acc)
      | Label next lab => read_name_go f d cap next orig (put_label cap acc lab)
      | Jump back target => read_name_go f d cap target (Some (default back orig)) acc
      end
  end.

Definition read_name (fuel : nat) (d : bytes) (off : Z) (cap : option Z) : outcome (option Z * bytes) :=
  read_name_go fuel d cap off None [].

(** * Messages *)

Definition MAX_ANS : nat := 16.
Definition NAME_CAP : Z := 256.

Record dns_msg := DnsMsg {
  m_id : Z; m_flags : Z; m_qtype : Z;
  m_question : bytes;
  m_answers : list bytes;
}.

(** [snprintf(buf, 300, "%s%s", prefix, val)], dropped past sixteen. *)
Definition add_answer (m : dns_msg) (prefix val : bytes) : dns_msg :=
  if (MAX_ANS <=? length (m_answers m))%nat then m
  else DnsMsg (m_id m) (m_flags m) (m_qtype m) (m_question m)
              (m_answers m ++ [trunc 300 (prefix ++ cstr val)]).

(** The question section: [qd] questions from [off], the first one kept. *)
Fixpoint parse_questions (fuel : nat) (d : bytes) (qd : nat) (first : bool) (off : Z) (m : dns_msg)
  : outcome (option (Z * dns_msg)) :=
  match qd with
  | O => Ok (Some (off, m))
  | S qd' =>
      r ← read_name fuel d off (Some NAME_CAP);
      match r with
      | (None, _) => Ok None
      | (Some off, name) =>
          if blen d <? off + 4 then Ok None
          else
            qt ← be16 d off;
            let m := if first
                     then DnsMsg (m_id m) (m_flags m) qt (trunc 256 (cstr name)) (m_answers m)
                     else m in
            parse_questions fuel d qd' false (off + 4) m
      end
  end.

(** A name inside of the data of a record, added when it can be read. *)
Definition add_name (fuel : nat) (d : bytes) (off : Z) (prefix : bytes) (m : dns_msg) : outcome dns_msg :=
  r ← read_name fuel d off (Some NAME_CAP);
  Ok match r with (Some _, nm) => add_answer m prefix nm | (None, _) => m end.

(** The character strings of a TXT record [rd]; the buffer [t] of 300 bytes
    holds any of them. *)
Fixpoint txt_loop (fuel : nat) (r : bytes) (p : Z) (m : dns_msg) : outcome dns_msg :=
  if p <? blen r then
    match fuel with
    | O => Fuel
    | S f =>
        sl ← rd r p;
        if blen r <? p + 1 + sl then Ok m
        else t ← sub r (p + 1) (Z.min sl 299); txt_loop f r (p + 1 + sl) (add_answer m [] t)
    end
  else Ok m.

(** The switch on the type of a record whose data is [d[rdoff .. rdoff+rdlen)]. *)
Definition answer_rdata (fuel : nat) (d : bytes) (rtype rdoff rdlen : Z) (m : dns_msg) : outcome dns_msg :=
  r ← sub d rdoff rdlen;
  if rtype =? 1 then Ok (if rdlen =? 4 then add_answer m [] (inet_ntop4 (u8 <$> r)) else m)
  else if rtype =? 28 then Ok (if rdlen =? 16 then add_answer m [] (inet_ntop6 (u8 <$> r)) else m)
  else if rtype =? 5 then add_name fuel d rdoff "CNAME:" m
  else if rtype =? 2 then add_name fuel d rdoff "NS:" m
  else if rtype =? 12 then add_name fuel d rdoff [] m
  else if rtype =? 15 then if 2 <? rdlen then add_name fuel d (rdoff + 2) "MX:" m else Ok m
  else if rtype =? 33 then if 6 <? rdlen then add_name fuel d (rdoff + 6) "SRV:" m else Ok m
  else if rtype =? 16 then txt_loop (S (length r)) r 0 m
  else Ok m.

(** The answer section: [an] records from [off]; a malformed one ends it. *)
Fixpoint parse_answers (fuel : nat) (d : bytes) (an : nat) (off : Z) (m : dns_msg) : outcome dns_msg :=
  match an with
  | O => Ok m
  | S an' =>
      r ← read_name fuel d off None;
      match r with
      | (None, _) => Ok m
      | (Some off, _) =>
          if blen d <? off + 10 then Ok m
          else
            rtype ← be16 d off;
            rdlen ← be16 d (off + 8);
            if blen d <? off + 10 + rdlen then Ok m
            else
              m' ← answer_rdata fuel d rtype (off + 10) rdlen m;
              parse_answers fuel d an' (off + 10 + rdlen) m'
      end
  end.

(** [parse_dns(d, len, m)]: [None] is false. *)
Definition parse_dns (fuel : nat) (d : bytes) : outcome (option dns_msg) :=
  if blen d <? 12 then Ok None
  else
    id ← be16 d 0;
    flags ← be16 d 2;
    qd ← be16 d 4;
    an ← be16 d 6;
    q ← parse_questions fuel d (Z.to_nat qd) true 12 (DnsMsg id flags 0 [] []);
    match q with
    | None => Ok None
    | Some (off, m) => m' ← parse_answers fuel d (Z.to_nat an) off m; Ok (Some m')
    end.

Definition qtype_str (t : Z) : bytes :=
  if t =? 1 then "A" else if t =? 2 then "NS" else if t =? 5 then "CNAME" else if t =? 6 then "SOA"
  else if t =? 12 then "PTR" else if t =? 15 then "MX" else if t =? 16 then "TXT"
  else if t =? 28 then "AAAA" else if t =? 33 then "SRV" else if t =? 255 then "ANY"
  else trunc 16 ("TYPE" ++ fmt_u t).

Definition rcode_str (r : Z) : bytes :=
  let r := Z.land r 15 in
  if r =? 0 then "NOERROR" else if r =? 1 then "FORMERR" else if r =? 2 then "SERVFAIL"
  else if r =? 3 then "NXDOMAIN" else if r =? 4 then "NOTIMP" else if r =? 5 then "REFUSED"
  else trunc 16 ("RCODE" ++ fmt_u r).

(** * Frames *)

(** The offset of the UDP header in a frame, or [None]. *)
Definition udp_offset (pkt : bytes) : outcome (option Z) :=
  if blen pkt <? 14 then Ok None
  else
    eth ← be16 pkt 12;
    let iplen := blen pkt - 14 in
    if eth =? 2048 then
      if iplen <? 20 then Ok None
      else
        v ← rd pkt 14;
        if negb (Z.shiftr v 4 =? 4) then Ok None
        else
          proto ← rd pkt (14 + 9);
          if negb (proto =? 17) then Ok None
          else
            let ihl := Z.land v 15 * 4 in
            if (ihl <? 20) || (iplen <? ihl + 8) then Ok None else Ok (Some (14 + ihl))
    else if eth =? 34525 then
      if iplen <? 40 then Ok None
      else
        v ← rd pkt 14;
        if negb (Z.shiftr v 4 =? 6) then Ok None
        else
          proto ← rd pkt (14 + 6);
          if negb (proto =? 17) then Ok None else Ok (Some 54)
    else Ok None.

(** [parse_packet(pkt, len, &m, &src, &dst)]. *)
Definition parse_packet (fuel : nat) (pkt : bytes) : outcome (option (dns_msg * Z * Z)) :=
  o ← udp_offset pkt;
  match o with
  | None => Ok None
  | Some off =>
      if blen pkt - off <? 8 then Ok None
      else
        src ← be16 pkt off;
        dst ← be16 pkt (off + 2);
        if negb (src =? 53) && negb (dst =? 53) then Ok None
        else
          dns ← sub pkt (off + 8) (blen pkt - off - 8);
          m ← parse_dns fuel dns;
          Ok match m with Some m => Some (m, src, dst) | None => None end
  end.

(** * A specification of names

    [name_at d off labels next]: at [off] stands a domain name of RFC 1035,
    labels and an end mark or a pointer, and [next] is the offset after it. *)
Inductive name_at (d : bytes) : Z -> list bytes -> Z -> Prop :=
  | NameEnd off : rd d off = Ok 0 -> name_at d off [] (off + 1)
  | NameLabel off l ls next :
      rd d off = Ok l -> 0 < l < 64 -> off + 1 + l <= blen d ->
      name_at d (off + 1 + l) ls next ->
      name_at d off (slice d (off + 1) l :: ls) next
  | NamePtr off l v ls next :
      rd d off = Ok l -> 192 <= l -> be16 d off = Ok v ->
      name_at d (v mod 2 ^ 14) ls next ->
      name_at d off ls (off + 2).

(** The text of a name: the labels with dots in between. *)
Fixpoint dotted (labels : list bytes) : bytes :=
  match labels with
  | [] => []
  | [l] => l
  | l :: ls => l ++ "." ++ dotted ls
  end.

(** ** Bits of the length byte *)

Lemma land_192 l : 0 <= l < 256 -> Z.land l 192 = l / 64 * 64.
Proof.
  intros H. replace (Z.land l 192) with (Z.ldiff l (Z.ones 6)).
  - rewrite Z.ldiff_ones_r by lia. by rewrite Z.shiftl_mul_pow2, Z.shiftr_div_pow2 by lia.
  - apply Z.bits_inj'. intros n Hn. rewrite Z.ldiff_spec, Z.land_spec.
    destruct (decide (n < 8)).
    + change 192 with (Z.land (Z.ones 8) (Z.lnot (Z.ones 6))).
      by rewrite Z.land_spec, Z.lnot_spec, (Z.ones_spec_low 8) by lia.
    + rewrite (Z.bits_above_log2 l); [done|lia|].
      destruct (decide (l = 0)) as [->|]; [simpl; lia|]. apply Z.log2_lt_pow2; [lia|].
      assert (2 ^ 8 <= 2 ^ n) by (apply Z.pow_le_mono_r; lia). lia.
Qed.

Lemma land_16383 v : Z.land v 16383 = v mod 2 ^ 14.
Proof. apply (land_mask v 14). lia. Qed.

(** What a turn does, by the range of the length byte. *)
Lemma name_turn_spec d off : 0 <= off ->
  (exists r, name_turn d off = Ok (Stop r) /\
     match r with
     | Some e => e = off + 1 /\ rd d off = Ok 0
     | None => blen d <= off \/ exists l, rd d off = Ok l /\
         (64 <= l < 192 \/ (0 < l < 64 /\ blen d < off + 1 + l) \/ (192 <= l /\ blen d < off + 2))
     end) \/
  (exists l, rd d off = Ok l /\ 0 < l < 64 /\ off + 1 + l <= blen d /\
     name_turn d off = Ok (Label (off + 1 + l) (slice d (off + 1) l))) \/
  (exists l v, rd d off = Ok l /\ 192 <= l /\ be16 d off = Ok v /\ off + 2 <= blen d /\
     name_turn d off = Ok (Jump (off + 2) (v mod 2 ^ 14))).
Proof.
  intros Hoff. unfold name_turn. destruct (blen d <=? off) eqn:E; zbool.
  { left. eexists. split; [done|]. by left. }
  destruct (rd_safe d off) as (l&Hl&Hr); [lia|]. rewrite Hl. cbn [mbind outcome_bind].
  rewrite land_192 by done. destruct (l =? 0) eqn:E0; zbool.
  { left. eexists. split; [done|]. subst. done. }
  destruct (l / 64 * 64 =? 192) eqn:E1; zbool.
  { assert (192 <= l) by (Z.div_mod_to_equations; lia).
    destruct (blen d <? off + 2) eqn:E2; zbool.
    - left. eexists. split; [done|]. right. exists l. auto with lia.
    - right. right. destruct (be16_safe d off) as (v&Hv&_); [lia..|]. rewrite Hv.
      cbn [mbind outcome_bind]. rewrite land_16383. eauto 10. }
  destruct (l / 64 * 64 =? 0) eqn:E2; zbool.
  - assert (0 < l < 64) by (Z.div_mod_to_equations; lia).
    destruct (blen d <? off + 1 + l) eqn:E3; zbool; [|rewrite sub_ok by lia; right; left; eauto 10].
    left. eexists. split; [done|]. right. exists l. auto with lia.
  - left. eexists. split; [done|]. right. exists l. split; [done|]. left.
    Z.div_mod_to_equations. lia.
Qed.

Lemma name_turn_det {d off t t'} : name_turn d off = Ok t -> name_turn d off = Ok t' -> t = t'.
Proof. congruence. Qed.

(** ** Reading is safe *)

Lemma read_name_go_safe fuel d cap : forall off orig acc, 0 <= off ->
  read_name_go fuel d cap off orig acc <> Ub.
Proof.
  induction fuel as [|f IH]; intros off orig acc Hoff; cbn [read_name_go]; [done|].
  destruct (name_turn_spec d off Hoff) as [(r&->&_)|[(l&_&Hl&_&->)|(l&v&_&_&_&_&->)]];
    cbn [mbind outcome_bind].
  - by destruct r.
  - apply IH. lia.
  - apply IH. pose proof (Z.mod_pos_bound v (2 ^ 14)). lia.
Qed.

(** ** The walk over offsets

    Where the loop goes next depends on the offset only. *)
Definition next_off (d : bytes) (off : Z) : option Z :=
  match name_turn d off with
  | Ok (Label next _) => Some next
  | Ok (Jump _ target) => Some target
  | _ => None
  end.

Fixpoint halts_in (fuel : nat) (d : bytes) (off : Z) : bool :=
  match fuel with
  | O => false
  | S f => match next_off d off with Some o => halts_in f d o | None => true end
  end.

Lemma read_name_go_halts fuel d cap : forall off orig acc, 0 <= off ->
  read_name_go fuel d cap off orig acc = Fuel <-> halts_in fuel d off = false.
Proof.
  induction fuel as [|f IH]; intros off orig acc Hoff; cbn [read_name_go halts_in]; [done|].
  unfold next_off.
  destruct (name_turn_spec d off Hoff) as [(r&->&_)|[(l&_&Hl&_&->)|(l&v&_&_&_&_&->)]];
    cbn [mbind outcome_bind].
  - by destruct r.
  - apply IH. lia.
  - apply IH. pose proof (Z.mod_pos_bound v (2 ^ 14)). lia.
Qed.
