(* ===== verification/DnsName.v ===== *)
(** Names of c/dns.c: reading a name decodes the names of RFC 1035 and nothing
    else, with a number of turns bounded by the size of the packet unless the
    compression pointers form a cycle, in which case it never returns. *)
From S2P Require Import Prelude CLib Inet DnsWire.

(** * How many turns are enough *)

(** [halt_time d off n]: the loop started at [off] leaves in its [n]-th turn. *)
Inductive halt_time (d : bytes) : Z -> nat -> Prop :=
  | HaltNow off : next_off d off = None -> halt_time d off 1
  | HaltLater off off' n : next_off d off = Some off' -> halt_time d off' n -> halt_time d off (S n).

Lemma halt_time_det d off n m : halt_time d off n -> halt_time d off m -> n = m.
Proof.
  intros Hn. revert m. induction Hn as [off H|off off' n H Hn IH]; intros m Hm; inv Hm; try congruence.
  f_equal. apply IH. congruence.
Qed.

Lemma halts_in_time d n off : halts_in n d off = true -> exists k, (k <= n)%nat /\ halt_time d off k.
Proof.
  revert off. induction n as [|n IH]; intros off; cbn [halts_in]; [done|].
  destruct (next_off d off) as [off'|] eqn:E.
  - intros (k&Hk&Ht)%IH. exists (S k). split; [lia|]. by econstructor.
  - intros _. exists 1%nat. split; [lia|]. by constructor.
Qed.

Lemma time_halts_in d n off m : halt_time d off n -> (n <= m)%nat -> halts_in m d off = true.
Proof.
  intros H. revert m. induction H as [off E|off off' n E H IH]; intros [|m] Hm; try lia; cbn [halts_in];
    rewrite E; [done|]. apply IH. lia.
Qed.

Lemma next_off_inside d off o : 0 <= off -> next_off d off = Some o -> 0 <= off < blen d /\ 0 <= o.
Proof.
  intros Hoff. unfold next_off.
  destruct (name_turn_spec d off Hoff) as [(r&->&_)|[(l&_&Hl&Hb&->)|(l&v&_&_&_&Hb&->)]]; [by destruct r| |].
  - intros [= <-]. lia.
  - intros [= <-]. pose proof (Z.mod_pos_bound v (2 ^ 14)). lia.
Qed.

(** The offsets a halting walk moves on from are distinct. *)
Lemma halt_path d off n : 0 <= off -> halt_time d off (S n) ->
  exists l, length l = n /\ NoDup l /\
    (forall x, x ∈ l -> 0 <= x < blen d /\ exists j, (j <= S n)%nat /\ halt_time d x j).
Proof.
  revert off. induction n as [|n IH]; intros off Hoff Ht.
  - exists []. split; [done|]. split; [constructor|]. intros x Hx. by apply elem_of_nil in Hx.
  - inversion Ht as [|? off2 ? Hnext Ht2]; subst.
    destruct (next_off_inside d off off2 Hoff Hnext) as [Hin Hoff2].
    destruct (IH off2 Hoff2 Ht2) as (l&Hlen&Hnd&Hl).
    exists (off :: l). split; [simpl; lia|]. split.
    + constructor; [|done]. intros Hx. destruct (Hl off Hx) as (_&j&Hj&Hjt).
      assert (S (S n) = j); [|lia]. eapply halt_time_det; [|done]. by econstructor.
    + intros x [->|Hx]%elem_of_cons.
      * split; [done|]. exists (S (S n)). split; [lia|]. by econstructor.
      * destruct (Hl x Hx) as (?&j&?&?). split; [done|]. exists j. split; [lia|done].
Qed.

Lemma halt_time_bound d off n : 0 <= off -> halt_time d off n -> (n <= S (length d))%nat.
Proof.
  intros Hoff Ht. destruct n as [|n]; [lia|]. destruct (halt_path d off n Hoff Ht) as (l&<-&Hnd&Hl).
  assert (Hsub : l ⊆+ seqZ 0 (blen d)).
  { apply NoDup_submseteq; [done|]. intros x Hx. apply elem_of_seqZ. destruct (Hl x Hx) as [? _]. lia. }
  apply submseteq_length in Hsub. rewrite length_seqZ in Hsub. unfold blen in Hsub. lia.
Qed.

(** As many turns as bytes, and one, decide whether the loop ends. *)
Lemma halts_in_enough d off fuel : 0 <= off -> (S (length d) <= fuel)%nat ->
  halts_in fuel d off = halts_in (S (length d)) d off.
Proof.
  intros Hoff Hf. destruct (halts_in fuel d off) eqn:E.
  - destruct (halts_in_time d fuel off E) as (k&_&Ht). symmetry.
    eapply time_halts_in; [done|]. by eapply halt_time_bound.
  - destruct (halts_in (S (length d)) d off) eqn:E2; [|done].
    destruct (halts_in_time d _ off E2) as (k&Hk&Ht).
    rewrite (time_halts_in d k off fuel Ht) in E by lia. done.
Qed.

Lemma read_name_go_mono fuel d cap off orig acc r fuel' :
  read_name_go fuel d cap off orig acc = Ok r -> (fuel <= fuel')%nat ->
  read_name_go fuel' d cap off orig acc = Ok r.
Proof.
  revert off orig acc fuel'. induction fuel as [|f IH]; intros off orig acc [|f'] H Hf; try done; [lia|].
  cbn [read_name_go] in *. destruct (name_turn d off) as [t| |]; try done. cbn [mbind outcome_bind] in *.
  destruct t as [[e|]|next lab|back target]; try done; apply IH; try done; lia.
Qed.

Lemma read_name_stable d off cap fuel : 0 <= off -> (S (length d) <= fuel)%nat ->
  read_name fuel d off cap = read_name (S (length d)) d off cap.
Proof.
  intros Hoff Hf. unfold read_name.
  destruct (read_name_go (S (length d)) d cap off None []) eqn:E.
  - by eapply read_name_go_mono.
  - by apply read_name_go_safe in E.
  - apply read_name_go_halts; [done|]. rewrite halts_in_enough by done.
    by eapply (read_name_go_halts _ _ cap).
Qed.

(** * What it reads *)

Lemma name_at_turns d off ls next : name_at d off ls next -> 0 <= off ->
  exists n, forall cap orig acc,
    read_name_go n d cap off orig acc = Ok (Some (default next orig), foldl (put_label cap) acc ls).
Proof.
  intros H. induction H as [off E|off l ls next E Hl Hb _ IH|off l v ls next E Hl Ev _ IH]; intros Hoff.
  - exists 1%nat. intros cap orig acc. cbn [read_name_go].
    destruct (name_turn_spec d off Hoff) as [(r&->&Hr)|[(l&E2&?&_)|(l&v&E2&?&_)]]; try (rewrite E in E2; inv E2; lia).
    cbn [mbind outcome_bind]. destruct r as [e|].
    + destruct Hr as [-> _]. done.
    + exfalso. destruct Hr as [Hr|(l&Hl&Hr)]; [rewrite rd_Ub in E by lia; done|]. rewrite Hl in E. inv E. lia.
  - destruct IH as [n IH]; [lia|]. exists (S n). intros cap orig acc. cbn [read_name_go foldl].
    destruct (name_turn_spec d off Hoff) as [(r&->&Hr)|[(l2&E2&?&_&->)|(l2&v&E2&?&_)]].
    + exfalso. destruct r as [e|]; [destruct Hr as [_ Hr]; rewrite E in Hr; inv Hr; lia|].
      destruct Hr as [Hr|(l2&Hl2&Hr)]; [rewrite rd_Ub in E by lia; done|]. rewrite E in Hl2. inv Hl2. lia.
    + rewrite E in E2. inv E2. cbn [mbind outcome_bind]. apply IH.
    + exfalso. rewrite E in E2. inv E2. lia.
  - destruct IH as [n IH]; [pose proof (Z.mod_pos_bound v (2 ^ 14)); lia|].
    exists (S n). intros cap orig acc. cbn [read_name_go].
    destruct (name_turn_spec d off Hoff) as [(r&->&Hr)|[(l2&E2&?&_)|(l2&v2&E2&?&Ev2&_&->)]].
    + exfalso. destruct r as [e|]; [destruct Hr as [_ Hr]; rewrite E in Hr; inv Hr; lia|].
      destruct Hr as [Hr|(l2&Hl2&Hr)]; [rewrite rd_Ub in E by lia; done|]. rewrite E in Hl2. inv Hl2.
      assert (blen d < off + 2) by lia. unfold be16 in Ev. rewrite E in Ev. cbn [mbind outcome_bind] in Ev.
      by rewrite rd_Ub in Ev by lia.
    + exfalso. rewrite E in E2. inv E2. lia.
    + rewrite Ev in Ev2. inv Ev2. cbn [mbind outcome_bind]. rewrite IH. by destruct orig.
Qed.

Lemma read_name_go_inv fuel d cap : forall off orig acc e s, 0 <= off ->
  read_name_go fuel d cap off orig acc = Ok (Some e, s) ->
  exists ls next, name_at d off ls next /\ e = default next orig /\ s = foldl (put_label cap) acc ls.
Proof.
  induction fuel as [|f IH]; intros off orig acc e s Hoff; cbn [read_name_go]; [done|].
  destruct (name_turn_spec d off Hoff) as [(r&->&Hr)|[(l&El&Hl&Hb&->)|(l&v&El&Hl&Ev&Hb&->)]];
    cbn [mbind outcome_bind].
  - destruct r as [e'|]; [|done]. destruct Hr as [-> Hr]. intros [= <- <-].
    exists [], (off + 1). split; [by constructor|done].
  - intros H. apply IH in H as (ls&next&Hn&->&->); [|lia].
    exists (slice d (off + 1) l :: ls), next. split; [by econstructor|done].
  - pose proof (Z.mod_pos_bound v (2 ^ 14) ltac:(lia)).
    intros H0. apply IH in H0 as (ls&next&Hn&->&->); [|lia].
    exists ls, (off + 2). split; [by econstructor|done].
Qed.

Lemma name_at_labels d off ls next : 0 <= off -> name_at d off ls next ->
  Forall (fun l => 0 < blen l < 64) ls.
Proof.
  intros Hoff H. induction H as [|off l ls next E Hl Hb _ IH|off l v ls next E Hl Ev _ IH].
  - constructor.
  - constructor; [rewrite blen_slice; lia|]. apply IH. lia.
  - apply IH. pose proof (Z.mod_pos_bound v (2 ^ 14)). lia.
Qed.

(** The text, label by label. *)
Lemma put_label_nonempty n acc lab : 0 < blen acc <= n - 1 ->
  put_label (Some n) acc lab = take (Z.to_nat (n - 1)) (acc ++ "." ++ lab).
Proof.
  intros Hacc. unfold put_label. rewrite (proj2 (Z.ltb_lt 0 _)) by lia. cbn [andb].
  destruct (blen acc <? n - 1) eqn:E; zbool.
  - rewrite app_assoc, (take_app_ge (acc ++ ".")).
    2: { rewrite length_app. unfold blen in *. cbn. lia. }
    f_equal. f_equal. rewrite blen_app, length_app. unfold blen. cbn. lia.
  - replace (n - 1 - blen acc) with 0 by lia. rewrite app_nil_r, take_app_le by (unfold blen in *; lia).
    rewrite take_ge; [done|]. unfold blen in *. lia.
Qed.

Lemma dotted_cons l ls : ls <> [] -> dotted (l :: ls) = l ++ "." ++ dotted ls.
Proof. by destruct ls. Qed.

Lemma dotted_app acc ls : dotted (acc :: ls) = acc ++ mjoin ((fun l => "." ++ l) <$> ls).
Proof.
  revert acc. induction ls as [|l ls IH]; intros acc; [by rewrite app_nil_r|].
  rewrite dotted_cons, IH, fmap_cons by done. cbn [mjoin list_join]. by rewrite <- app_assoc.
Qed.

Lemma take_take_app {A} k (x y : list A) : take k (take k x ++ y) = take k (x ++ y).
Proof.
  destruct (decide (length x <= k)%nat); [by rewrite (take_ge x)|].
  rewrite !take_app_le by (rewrite ?length_take; lia). by rewrite take_take, Nat.min_id.
Qed.

Lemma put_labels_nonempty n ls : forall acc, 0 < blen acc <= n - 1 ->
  foldl (put_label (Some n)) acc ls = take (Z.to_nat (n - 1)) (dotted (acc :: ls)).
Proof.
  induction ls as [|l ls IH]; intros acc Hacc; cbn [foldl].
  - cbn [dotted]. rewrite take_ge; [done|]. unfold blen in *. lia.
  - rewrite put_label_nonempty by done. rewrite IH.
    + rewrite !dotted_app, fmap_cons. change (mjoin (?x :: ?y)) with (x ++ mjoin y).
      by rewrite take_take_app, <- !app_assoc.
    + unfold blen in *. rewrite length_take, !length_app. cbn. lia.
Qed.

Lemma put_labels n ls : 2 <= n -> Forall (fun l => 0 < blen l) ls ->
  foldl (put_label (Some n)) [] ls = take (Z.to_nat (n - 1)) (dotted ls).
Proof.
  intros Hn Hls. destruct Hls as [|l ls Hl Hls]; [by destruct (Z.to_nat (n - 1))|]. cbn [foldl].
  assert (E : put_label (Some n) [] l = take (Z.to_nat (n - 1)) l).
  { unfold put_label. cbn. by rewrite Z.sub_0_r. }
  rewrite E, put_labels_nonempty.
  - by rewrite !dotted_app, take_take_app.
  - unfold blen in *. rewrite length_take. lia.
Qed.

Lemma read_name_decodes_iff d off fuel e s :
  0 <= off -> (S (length d) <= fuel)%nat ->
  read_name fuel d off (Some NAME_CAP) = Ok (Some e, s) <->
  exists ls, name_at d off ls e /\ s = take 255 (dotted ls).
Proof.
  intros Hoff Hf. split.
  - intros H. destruct (read_name_go_inv _ _ _ _ _ _ _ _ Hoff H) as (ls&next&Hn&->&->).
    exists ls. split; [done|]. apply (put_labels NAME_CAP); [done|].
    eapply Forall_impl; [by eapply name_at_labels|]. cbn. lia.
  - intros (ls&Hn&->). destruct (name_at_turns d off ls e Hn Hoff) as [n Hread].
    specialize (Hread (Some NAME_CAP) None []).
    assert (Hls : Forall (fun l => 0 < blen l) ls)
      by (eapply Forall_impl; [by eapply name_at_labels|]; cbn; lia).
    rewrite (put_labels NAME_CAP ls) in Hread by done.
    rewrite read_name_stable by done. rewrite <- (read_name_stable _ _ _ (Nat.max n (S (length d)))) by lia.
    eapply read_name_go_mono; [exact Hread|lia].
Qed.

(** C13. [read_name] decodes names: with a turn per byte of the packet, and
    one, it returns an offset and a text exactly when a domain name of RFC
    1035 (labels, end mark, compression pointers) stands there; the offset is
    the one after the name and the text its labels joined by dots, cut at 255
    bytes. *)
Theorem read_name_decodes d off fuel e s :
  0 <= off -> (S (length d) <= fuel)%nat ->
  read_name fuel d off (Some NAME_CAP) = Ok (Some e, s) <->
  exists ls, name_at d off ls e /\ s = take 255 (dotted ls).
Proof. apply read_name_decodes_iff. Qed.

Definition two_names : bytes :=
  [chr 3] ++ "www" ++ [chr 2] ++ "ex" ++ [chr 0] ++ [chr 3] ++ "ftp" ++ [chr 192; chr 4].

Lemma read_name_decodes_witness :
  read_name 20 two_names 8 (Some NAME_CAP) = Ok (Some 14, bs "ftp.ex") <->
  exists ls, name_at two_names 8 ls 14 /\ bs "ftp.ex" = take 255 (dotted ls).
Proof. apply (read_name_decodes two_names 8 20 14 (bs "ftp.ex")); [lia|cbv; lia]. Defined.

Example read_name_pointer : read_name 20 two_names 8 (Some NAME_CAP) = Ok (Some 14, bs "ftp.ex").
Proof. reflexivity. Qed.

(** C31. Termination of [read_name]: either it returns within one turn more
    than the packet has bytes, and a larger bound changes nothing, or its
    pointers form a cycle and it never returns; in neither case has it read a
    byte, or copied a label, from outside of the packet (else it would be
    [Ub]). *)
Theorem read_name_terminates_or_loops d off cap :
  0 <= off ->
  (exists r, forall fuel, (S (length d) <= fuel)%nat -> read_name fuel d off cap = Ok r) \/
  (forall fuel, read_name fuel d off cap = Fuel).
Proof.
  intros Hoff. destruct (read_name (S (length d)) d off cap) as [r| |] eqn:E.
  - left. exists r. intros fuel Hf. by rewrite read_name_stable.
  - by apply read_name_go_safe in E.
  - right. intros fuel. destruct (read_name fuel d off cap) as [r| |] eqn:E2; [|by apply read_name_go_safe in E2|done].
    exfalso. assert (H : read_name (Nat.max fuel (S (length d))) d off cap = Ok r)
      by (eapply read_name_go_mono; [done|lia]).
    rewrite read_name_stable in H by lia. congruence.
Qed.

Lemma read_name_terminates_or_loops_witness :
  (exists r, forall fuel, (S (length two_names) <= fuel)%nat -> read_name fuel two_names 0 None = Ok r) \/
  (forall fuel, read_name fuel two_names 0 None = Fuel).
Proof. apply (read_name_terminates_or_loops two_names 0 None). lia. Defined.
