(* ===== verification/DnsCodec.v ===== *)
(** An encoder of DNS messages and frames, and the round trip through the
    parser of c/dns.c: what a client or a server writes is what is read. *)
From S2P Require Import Prelude CLib Inet DnsWire DnsName DnsMessage.

(** * Names *)

Definition label_ok (l : bytes) : Prop := 0 < blen l < 64.
Definition enc_label (l : bytes) : bytes := chr (blen l) :: l.
Definition enc_name (ls : list bytes) : bytes := mjoin (enc_label <$> ls) ++ [NUL].

Lemma mjoin_cons {A} (x : list A) l : mjoin (x :: l) = x ++ mjoin l.
Proof. done. Qed.

Lemma enc_name_cons l ls : enc_name (l :: ls) = enc_label l ++ enc_name ls.
Proof. unfold enc_name. by rewrite fmap_cons, mjoin_cons, <- app_assoc. Qed.

Lemma enc_name_pos ls : 0 < blen (enc_name ls).
Proof.
  unfold enc_name. rewrite blen_app. change (blen [NUL]) with 1.
  pose proof (blen_nonneg (mjoin (enc_label <$> ls))). lia.
Qed.

Lemma rd_mid a c s i : blen a = i -> rd (a ++ c :: s) i = Ok (u8 c).
Proof. intros <-. rewrite <- (Z.add_0_r (blen a)), rd_app_r by lia. apply rd_cons_0. Qed.

Lemma name_at_enc ls : forall a s off, blen a = off -> Forall label_ok ls ->
  name_at (a ++ enc_name ls ++ s) off ls (off + blen (enc_name ls)).
Proof.
  induction ls as [|l ls IH]; intros a s off Ha Hls.
  - change (blen (enc_name [])) with 1. constructor. by apply rd_mid.
  - inv Hls. unfold label_ok in *. rewrite enc_name_cons, blen_app. unfold enc_label at 2. rewrite blen_cons.
    assert (Hc : u8 (chr (blen l)) = blen l) by (rewrite u8_chr, Z.mod_small by lia; done).
    assert (Hs : slice (a ++ (enc_label l ++ enc_name ls) ++ s) (blen a + 1) (blen l) = l).
    { unfold enc_label. replace (a ++ ((chr (blen l) :: l) ++ enc_name ls) ++ s)
        with ((a ++ [chr (blen l)]) ++ l ++ enc_name ls ++ s) by (by rewrite <- !app_assoc).
      apply slice_app; [by rewrite blen_app|done]. }
    rewrite <- Hs at 2.
    replace (blen a + (1 + blen l + blen (enc_name ls))) with (blen a + 1 + blen l + blen (enc_name ls)) by lia.
    econstructor.
    + unfold enc_label. cbn [app]. by rewrite (rd_mid a), Hc.
    + done.
    + rewrite !blen_app. unfold enc_label. rewrite blen_cons. pose proof (blen_nonneg (enc_name ls)).
      pose proof (blen_nonneg s). lia.
    + replace (a ++ (enc_label l ++ enc_name ls) ++ s) with ((a ++ enc_label l) ++ enc_name ls ++ s)
        by (by rewrite <- !app_assoc).
      apply IH; [|done]. rewrite blen_app. unfold enc_label. rewrite blen_cons. lia.
Qed.

(** The pointer to offset 12, where the first question is. *)
Definition ptr12 : bytes := [chr 192; chr 12].

Lemma name_at_ptr a s off ls e : blen a = off -> name_at (a ++ ptr12 ++ s) 12 ls e ->
  name_at (a ++ ptr12 ++ s) off ls (off + 2).
Proof.
  intros Ha H. assert (E : be16 (a ++ ptr12 ++ s) off = Ok 49164) by (by apply (putbe16_be16 a 49164)).
  eapply (NamePtr _ off 192 49164); [by apply rd_mid|lia|done|exact H].
Qed.

Lemma read_name_at d off ls e cap fuel : 0 <= off -> (S (length d) <= fuel)%nat -> name_at d off ls e ->
  read_name fuel d off cap = Ok (Some e, foldl (put_label cap) [] ls).
Proof.
  intros Hoff Hf Hn. destruct (name_at_turns d off ls e Hn Hoff) as [n Hr].
  rewrite read_name_stable by done. rewrite <- (read_name_stable _ _ _ (Nat.max n (S (length d)))) by lia.
  eapply read_name_go_mono; [apply Hr|lia].
Qed.

Lemma read_name_text d off ls e fuel : 0 <= off -> (S (length d) <= fuel)%nat -> name_at d off ls e ->
  read_name fuel d off (Some NAME_CAP) = Ok (Some e, take 255 (dotted ls)).
Proof. intros Hoff Hf Hn. apply (read_name_decodes_iff d off fuel e); eauto. Qed.

(** * Records *)

Inductive name_kind := KCname | KNs | KPtr.

Inductive rdata :=
  | RAddr4 (b : bytes)
  | RAddr6 (b : bytes)
  | RName (k : name_kind) (ls : list bytes)
  | RMx (pref : bytes) (ls : list bytes)
  | RSrv (hdr : bytes) (ls : list bytes)
  | RTxt (ss : list bytes)
  | ROther (ty : Z) (b : bytes).

(** The owner ([None]: a pointer to the question), class and TTL, data. *)
Record rr := Rr { rr_owner : option (list bytes); rr_class_ttl : bytes; rr_body : rdata }.

Definition kind_type (k : name_kind) : Z := match k with KCname => 5 | KNs => 2 | KPtr => 12 end.
Definition rr_type (r : rdata) : Z :=
  match r with
  | RAddr4 _ => 1 | RAddr6 _ => 28 | RName k _ => kind_type k
  | RMx _ _ => 15 | RSrv _ _ => 33 | RTxt _ => 16 | ROther ty _ => ty
  end.
Definition enc_rdata (r : rdata) : bytes :=
  match r with
  | RAddr4 b | RAddr6 b => b
  | RName _ ls => enc_name ls
  | RMx pref ls => pref ++ enc_name ls
  | RSrv hdr ls => hdr ++ enc_name ls
  | RTxt ss => mjoin (enc_label <$> ss)
  | ROther _ b => b
  end.
Definition enc_owner (o : option (list bytes)) : bytes :=
  match o with Some ls => enc_name ls | None => ptr12 end.
Definition enc_rr (r : rr) : bytes :=
  enc_owner (rr_owner r) ++ putbe16 (rr_type (rr_body r)) ++ rr_class_ttl r ++
  putbe16 (blen (enc_rdata (rr_body r))) ++ enc_rdata (rr_body r).

Definition rdata_ok (r : rdata) : Prop :=
  blen (enc_rdata r) < 2 ^ 16 /\
  match r with
  | RAddr4 b => blen b = 4
  | RAddr6 b => blen b = 16
  | RName _ ls => Forall label_ok ls
  | RMx pref ls => blen pref = 2 /\ Forall label_ok ls
  | RSrv hdr ls => blen hdr = 6 /\ Forall label_ok ls
  | RTxt ss => Forall (fun s => blen s < 256) ss
  | ROther ty b => 0 <= ty < 2 ^ 16 /\ ty ∉ [1; 28; 5; 2; 12; 15; 33; 16]
  end.
Definition rr_ok (r : rr) : Prop :=
  match rr_owner r with Some ls => Forall label_ok ls | None => True end /\
  blen (rr_class_ttl r) = 6 /\ rdata_ok (rr_body r).

(** The texts a record is shown as. *)
Definition ans (prefix val : bytes) : bytes := trunc 300 (prefix ++ cstr val).
Definition name_text (ls : list bytes) : bytes := take 255 (dotted ls).
Definition kind_prefix (k : name_kind) : bytes := match k with KCname => "CNAME:" | KNs => "NS:" | KPtr => "" end.
Definition rr_text (r : rdata) : list bytes :=
  match r with
  | RAddr4 b => [ans [] (inet_ntop4 (u8 <$> b))]
  | RAddr6 b => [ans [] (inet_ntop6 (u8 <$> b))]
  | RName k ls => [ans (kind_prefix k) (name_text ls)]
  | RMx _ ls => [ans "MX:" (name_text ls)]
  | RSrv _ ls => [ans "SRV:" (name_text ls)]
  | RTxt ss => ans [] <$> ss
  | ROther _ _ => []
  end.

(** The first sixteen texts are kept. *)
Definition add_all (m : dns_msg) (texts : list bytes) : dns_msg :=
  DnsMsg (m_id m) (m_flags m) (m_qtype m) (m_question m) (take 16 (m_answers m ++ texts)).

Lemma add_answer_all m prefix val : (length (m_answers m) <= 16)%nat ->
  add_answer m prefix val = add_all m [ans prefix val].
Proof.
  intros Hm. unfold add_answer, add_all, MAX_ANS. destruct m as [i f q qn a]; cbn [m_answers m_id m_flags m_qtype m_question] in *.
  destruct (16 <=? length a)%nat eqn:E; [apply Nat.leb_le in E|apply Nat.leb_gt in E].
  - by rewrite take_app_le, take_ge by lia.
  - rewrite (take_ge (a ++ _)) by (rewrite length_app; cbn; lia). done.
Qed.

Lemma add_all_nil m : (length (m_answers m) <= 16)%nat -> add_all m [] = m.
Proof. intros Hm. unfold add_all. rewrite app_nil_r, take_ge by done. by destruct m. Qed.

Lemma add_all_app m a b : add_all (add_all m a) b = add_all m (a ++ b).
Proof. unfold add_all. cbn [m_id m_flags m_qtype m_question m_answers]. by rewrite take_take_app, <- app_assoc. Qed.

Lemma add_all_length m a : (length (m_answers (add_all m a)) <= 16)%nat.
Proof. cbn [add_all m_answers]. rewrite length_take. lia. Qed.

Lemma add_name_all fuel d off prefix m ls e : (length (m_answers m) <= 16)%nat ->
  0 <= off -> (S (length d) <= fuel)%nat -> name_at d off ls e ->
  add_name fuel d off prefix m = Ok (add_all m [ans prefix (name_text ls)]).
Proof.
  intros Hm Hoff Hf Hn. unfold add_name. rewrite (read_name_text d off ls e) by done.
  cbn [mbind outcome_bind]. by rewrite add_answer_all.
Qed.

Lemma txt_loop_all ss : forall fuel pre m, (length ss < fuel)%nat -> (length (m_answers m) <= 16)%nat ->
  Forall (fun s => blen s < 256) ss ->
  txt_loop fuel (pre ++ mjoin (enc_label <$> ss)) (blen pre) m = Ok (add_all m (ans [] <$> ss)).
Proof.
  induction ss as [|s ss IH]; intros fuel pre m Hf Hm Hss.
  - rewrite app_nil_r, add_all_nil by done.
    destruct fuel; cbn [txt_loop]; by rewrite (proj2 (Z.ltb_ge _ _)) by lia.
  - inv Hss. destruct fuel as [|fuel]; [cbn in Hf; lia|]. rewrite fmap_cons, mjoin_cons. cbn [txt_loop].
    set (rest := mjoin (enc_label <$> ss)). pose proof (blen_nonneg rest). pose proof (blen_nonneg s).
    assert (Hc : u8 (chr (blen s)) = blen s) by (rewrite u8_chr, Z.mod_small by lia; done).
    assert (Hlen : blen (pre ++ enc_label s ++ rest) = blen pre + 1 + blen s + blen rest).
    { rewrite !blen_app. unfold enc_label. rewrite blen_cons. lia. }
    rewrite Hlen, (proj2 (Z.ltb_lt _ _)) by lia.
    assert (Hrd : rd (pre ++ enc_label s ++ rest) (blen pre) = Ok (blen s))
      by (unfold enc_label; cbn [app]; by rewrite (rd_mid pre), Hc).
    rewrite Hrd. cbn [mbind outcome_bind]. rewrite (proj2 (Z.ltb_ge _ _)) by lia.
    rewrite Z.min_l by lia.
    replace (pre ++ enc_label s ++ rest) with ((pre ++ [chr (blen s)]) ++ s ++ rest)
      by (unfold enc_label; by rewrite <- !app_assoc).
    rewrite (sub_prefix (pre ++ [chr (blen s)]) s rest), ok_bind by (by rewrite ?blen_app).
    rewrite (app_assoc (pre ++ [chr (blen s)])).
    replace (blen pre + 1 + blen s) with (blen ((pre ++ [chr (blen s)]) ++ s))
      by (rewrite !blen_app; change (blen [chr (blen s)]) with 1; lia).
    rewrite add_answer_all, IH by (done || apply add_all_length || (cbn in Hf; lia)).
    by rewrite add_all_app.
Qed.

Lemma answer_rdata_all fuel pre r s m :
  (S (length (pre ++ enc_rdata r ++ s)) <= fuel)%nat -> (length (m_answers m) <= 16)%nat -> rdata_ok r ->
  answer_rdata fuel (pre ++ enc_rdata r ++ s) (rr_type r) (blen pre) (blen (enc_rdata r)) m
    = Ok (add_all m (rr_text r)).
Proof.
  intros Hf Hm [Hlen Hr]. unfold answer_rdata. rewrite (sub_prefix pre _ s), ok_bind by done.
  pose proof (blen_nonneg pre).
  destruct r as [b|b|k ls|p ls|h ls|ss|ty b]; cbn [rr_type enc_rdata rr_text] in *.
  - cbn [Z.eqb Pos.eqb]. rewrite Hr. cbn [Z.eqb Pos.eqb]. by rewrite add_answer_all.
  - cbn [Z.eqb Pos.eqb]. rewrite Hr. cbn [Z.eqb Pos.eqb]. by rewrite add_answer_all.
  - destruct k; cbn [kind_type Z.eqb Pos.eqb kind_prefix];
      (eapply add_name_all; [done|done|done|by apply name_at_enc]).
  - destruct Hr as [Hp Hls]. cbn [Z.eqb Pos.eqb]. rewrite blen_app, Hp.
    pose proof (enc_name_pos ls).
    rewrite (proj2 (Z.ltb_lt _ _)) by lia. eapply add_name_all; [done|lia|done|].
    rewrite <- (app_assoc p), (app_assoc pre). apply name_at_enc; [|done]. rewrite blen_app. lia.
  - destruct Hr as [Hp Hls]. cbn [Z.eqb Pos.eqb]. rewrite blen_app, Hp.
    pose proof (enc_name_pos ls).
    rewrite (proj2 (Z.ltb_lt _ _)) by lia. eapply add_name_all; [done|lia|done|].
    rewrite <- (app_assoc h), (app_assoc pre). apply name_at_enc; [|done]. rewrite blen_app. lia.
  - cbn [Z.eqb Pos.eqb]. apply (txt_loop_all ss _ []); [|done|done].
    clear. induction ss as [|x ss IH]; [cbn; lia|]. rewrite fmap_cons, mjoin_cons. cbn. rewrite length_app. lia.
  - destruct Hr as [_ Hty]. rewrite !not_elem_of_cons in Hty. destruct Hty as (?&?&?&?&?&?&?&?&_).
    rewrite !(proj2 (Z.eqb_neq ty _)) by done. by rewrite add_all_nil.
Qed.

(** * Messages *)

Lemma blen_putbe16 v : blen (putbe16 v) = 2.
Proof. done. Qed.

Lemma owner_at r pre s ls12 e12 : rr_ok r -> name_at (pre ++ enc_owner (rr_owner r) ++ s) 12 ls12 e12 ->
  exists ls, name_at (pre ++ enc_owner (rr_owner r) ++ s) (blen pre) ls
                     (blen pre + blen (enc_owner (rr_owner r))).
Proof.
  intros (Ho&_) H. destruct (rr_owner r) as [ls|]; cbn [enc_owner] in *.
  - exists ls. by apply name_at_enc.
  - exists ls12. by apply (name_at_ptr pre s (blen pre) ls12 e12).
Qed.

Lemma rr_type_range r : rdata_ok r -> 0 <= rr_type r < 2 ^ 16.
Proof. intros [_ H]. destruct r as [| |[]| | | |]; cbn [rr_type kind_type]; lia. Qed.

Lemma parse_answers_all d fuel l : forall pre tail m ls12 e12,
  d = pre ++ mjoin (enc_rr <$> l) ++ tail -> (S (length d) <= fuel)%nat -> name_at d 12 ls12 e12 ->
  Forall rr_ok l -> (length (m_answers m) <= 16)%nat ->
  parse_answers fuel d (length l) (blen pre) m = Ok (add_all m (mjoin (rr_text ∘ rr_body <$> l))).
Proof.
  induction l as [|r l IH]; intros pre tail m ls12 e12 Hd Hf H12 Hok Hm; cbn [length parse_answers].
  { by rewrite add_all_nil. }
  apply Forall_cons in Hok as [Hr Hl]. pose proof Hr as (_&Hct&Hrd).
  rewrite fmap_cons, mjoin_cons in Hd. unfold enc_rr at 1 in Hd.
  set (own := enc_owner (rr_owner r)) in *. set (ty := rr_type (rr_body r)) in *.
  set (data := enc_rdata (rr_body r)) in *. set (rest := mjoin (_ <$> l)) in *.
  assert (Hd1 : d = pre ++ own ++ (putbe16 ty ++ rr_class_ttl r ++ putbe16 (blen data) ++ data ++ rest ++ tail))
    by (rewrite Hd; by rewrite <- !app_assoc).
  clear Hd.
  destruct (owner_at r pre (putbe16 ty ++ rr_class_ttl r ++ putbe16 (blen data) ++ data ++ rest ++ tail) ls12 e12)
    as [ls Hls]; [done|fold own; by rewrite <- Hd1|]. fold own in Hls. rewrite <- Hd1 in Hls.
  pose proof (blen_nonneg pre). pose proof (blen_nonneg own). pose proof (blen_nonneg data).
  pose proof (blen_nonneg rest). pose proof (blen_nonneg tail).
  rewrite (read_name_at d _ ls (blen pre + blen own)) by done. cbn [mbind outcome_bind].
  set (e := blen pre + blen own).
  assert (Hlen : blen d = e + 10 + blen data + blen rest + blen tail).
  { rewrite Hd1, !blen_app, !blen_putbe16, Hct. unfold e. lia. }
  rewrite (proj2 (Z.ltb_ge (blen d) _)) by lia.
  assert (Hty : be16 d e = Ok ty).
  { rewrite Hd1, app_assoc. apply putbe16_be16; [unfold e; by rewrite blen_app|by apply rr_type_range]. }
  assert (Hlen8 : be16 d (e + 8) = Ok (blen data)).
  { rewrite Hd1. replace (pre ++ own ++ putbe16 ty ++ rr_class_ttl r ++ putbe16 (blen data) ++ data ++ rest ++ tail)
      with ((pre ++ own ++ putbe16 ty ++ rr_class_ttl r) ++ putbe16 (blen data) ++ data ++ rest ++ tail)
      by (by rewrite <- !app_assoc).
    apply putbe16_be16; [|destruct Hrd as [Hdl _]; fold data in Hdl; lia]. rewrite !blen_app, blen_putbe16, Hct. unfold e. lia. }
  rewrite Hty, Hlen8. cbn [mbind outcome_bind]. rewrite (proj2 (Z.ltb_ge (blen d) _)) by lia.
  set (pre2 := pre ++ own ++ putbe16 ty ++ rr_class_ttl r ++ putbe16 (blen data)).
  assert (Hd2 : d = pre2 ++ data ++ rest ++ tail) by (rewrite Hd1; unfold pre2; by rewrite <- !app_assoc).
  assert (Hpre2 : e + 10 = blen pre2)
    by (unfold pre2; rewrite !blen_app, !blen_putbe16, Hct; unfold e; lia).
  assert (Hans : answer_rdata fuel d ty (e + 10) (blen data) m = Ok (add_all m (rr_text (rr_body r)))).
  { rewrite Hpre2, Hd2. apply answer_rdata_all; [by rewrite Hd2 in Hf|done|done]. }
  rewrite Hans. cbn [mbind outcome_bind].
  replace (e + 10 + blen data) with (blen (pre2 ++ data)) by (rewrite blen_app; lia).
  rewrite (IH (pre2 ++ data) tail _ ls12 e12); [|by rewrite <- app_assoc|done..|apply add_all_length].
  by rewrite add_all_app, fmap_cons, mjoin_cons.
Qed.

(** A message with one question.  [m_class] and [m_counts] are the bytes the
    tracer does not look at; [m_tail] stands for the other sections. *)
Record message := Message {
  ms_id : Z; ms_flags : Z; ms_counts : bytes;
  ms_qname : list bytes; ms_qtype : Z; ms_class : bytes;
  ms_rrs : list rr; ms_tail : bytes;
}.

Definition enc_header (x : message) : bytes :=
  putbe16 (ms_id x) ++ putbe16 (ms_flags x) ++ putbe16 1 ++ putbe16 (blen (ms_rrs x)) ++ ms_counts x.
Definition enc_question (x : message) : bytes :=
  enc_name (ms_qname x) ++ putbe16 (ms_qtype x) ++ ms_class x.
Definition enc_dns (x : message) : bytes :=
  enc_header x ++ enc_question x ++ mjoin (enc_rr <$> ms_rrs x) ++ ms_tail x.

Definition message_ok (x : message) : Prop :=
  0 <= ms_id x < 2 ^ 16 /\ 0 <= ms_flags x < 2 ^ 16 /\ 0 <= ms_qtype x < 2 ^ 16 /\
  blen (ms_counts x) = 4 /\ blen (ms_class x) = 2 /\ blen (ms_rrs x) < 2 ^ 16 /\
  Forall label_ok (ms_qname x) /\ Forall rr_ok (ms_rrs x).

(** What the tracer keeps of it. *)
Definition message_dns (x : message) : dns_msg :=
  DnsMsg (ms_id x) (ms_flags x) (ms_qtype x) (trunc 256 (cstr (name_text (ms_qname x))))
         (take 16 (mjoin (rr_text ∘ rr_body <$> ms_rrs x))).

Lemma blen_header x : message_ok x -> blen (enc_header x) = 12.
Proof. intros (_&_&_&H&_). unfold enc_header. rewrite !blen_app, !blen_putbe16, H. done. Qed.

Lemma parse_dns_enc x fuel : message_ok x -> (S (length (enc_dns x)) <= fuel)%nat ->
  parse_dns fuel (enc_dns x) = Ok (Some (message_dns x)).
Proof.
  intros Hok Hf. pose proof (blen_header x Hok) as Hh.
  pose proof Hok as (Hid&Hfl&Hqt&Hcnt&Hcl&Hn&Hq&Hrr).
  set (d := enc_dns x) in *. set (rrs := mjoin (enc_rr <$> ms_rrs x)).
  assert (Hd : d = enc_header x ++ enc_name (ms_qname x) ++
     (putbe16 (ms_qtype x) ++ ms_class x ++ rrs ++ ms_tail x))
    by (unfold d, enc_dns, enc_question; by rewrite <- !app_assoc).
  set (e := 12 + blen (enc_name (ms_qname x))).
  assert (Hname : name_at d 12 (ms_qname x) e) by (rewrite Hd; by apply name_at_enc).
  assert (Hlen : blen d = e + 4 + blen rrs + blen (ms_tail x)).
  { rewrite Hd, !blen_app, Hh, blen_putbe16, Hcl. unfold e. lia. }
  pose proof (blen_nonneg rrs). pose proof (blen_nonneg (ms_tail x)).
  pose proof (blen_nonneg (ms_rrs x)). pose proof (enc_name_pos (ms_qname x)).
  unfold parse_dns. rewrite (proj2 (Z.ltb_ge _ _)) by (unfold e in *; lia).
  assert (B0 : be16 d 0 = Ok (ms_id x)) by (rewrite Hd; unfold enc_header; rewrite <- !app_assoc; by apply (putbe16_be16 [])).
  assert (B2 : be16 d 2 = Ok (ms_flags x)).
  { rewrite Hd. unfold enc_header. rewrite <- !app_assoc. by apply (putbe16_be16 (putbe16 (ms_id x))). }
  assert (B4 : be16 d 4 = Ok 1).
  { rewrite Hd. unfold enc_header. rewrite <- !app_assoc, (app_assoc (putbe16 (ms_id x))). by apply putbe16_be16. }
  assert (B6 : be16 d 6 = Ok (blen (ms_rrs x))).
  { rewrite Hd. unfold enc_header. rewrite <- !app_assoc, (app_assoc (putbe16 (ms_id x))), (app_assoc _ (putbe16 1)).
    by apply putbe16_be16. }
  rewrite B0, B2, B4, B6. cbn [mbind outcome_bind]. change (Z.to_nat 1) with 1%nat. cbn [parse_questions].
  rewrite (read_name_text d 12 (ms_qname x) e) by (done || lia). cbn [mbind outcome_bind].
  rewrite (proj2 (Z.ltb_ge (blen d) _)) by lia.
  assert (Hqt' : be16 d e = Ok (ms_qtype x)).
  { rewrite Hd, app_assoc. apply putbe16_be16; [by rewrite blen_app, Hh|done]. }
  rewrite Hqt'. cbn [mbind outcome_bind m_id m_flags m_qtype m_question m_answers].
  assert (Hans : forall m, (length (m_answers m) <= 16)%nat ->
    parse_answers fuel d (Z.to_nat (blen (ms_rrs x))) (e + 4) m = Ok (add_all m (mjoin (rr_text ∘ rr_body <$> ms_rrs x)))).
  { intros m Hm. unfold blen at 1. rewrite Nat2Z.id.
    replace (e + 4) with (blen (enc_header x ++ enc_question x))
      by (unfold enc_question; rewrite !blen_app, Hh, blen_putbe16, Hcl; unfold e; lia).
    eapply parse_answers_all; [|done|exact Hname|done|done]. unfold d, enc_dns. by rewrite <- !app_assoc. }
  fold (name_text (ms_qname x)). rewrite Hans by (cbn; lia). cbn [mbind outcome_bind]. done.
Qed.

(** * Frames *)

Inductive ip_header :=
  | Ip4 (tos : bytes) (addrs options : bytes)      (* 8 bytes, 10 bytes, the options *)
  | Ip6 (flow : Z) (len : bytes) (addrs : bytes).  (* 4 bits of the class, 5 bytes, 33 bytes *)
Definition ip_ok (h : ip_header) : Prop :=
  match h with
  | Ip4 tos addrs options => blen tos = 8 /\ blen addrs = 10 /\
      exists n, 0 <= n <= 10 /\ blen options = 4 * n
  | Ip6 flow len addrs => 0 <= flow < 16 /\ blen len = 5 /\ blen addrs = 33
  end.
Definition enc_ip (h : ip_header) : bytes :=
  match h with
  | Ip4 tos addrs options =>
      putbe16 2048 ++ [chr (64 + (5 + blen options / 4))] ++ tos ++ [chr 17] ++ addrs ++ options
  | Ip6 flow len addrs => putbe16 34525 ++ [chr (96 + flow)] ++ len ++ [chr 17] ++ addrs
  end.
(** The MAC addresses, the IP header, the UDP header (its length and checksum
    are not looked at) and the payload. *)
Definition enc_frame (macs : bytes) (h : ip_header) (src dst : Z) (lenck payload : bytes) : bytes :=
  macs ++ enc_ip h ++ putbe16 src ++ putbe16 dst ++ lenck ++ payload.

Lemma udp_offset_ip4 macs tos addrs options rest : blen macs = 12 -> ip_ok (Ip4 tos addrs options) ->
  8 <= blen rest ->
  udp_offset (macs ++ enc_ip (Ip4 tos addrs options) ++ rest)
    = Ok (Some (blen (macs ++ enc_ip (Ip4 tos addrs options)))).
Proof.
  intros Hm Hh Hr. unfold udp_offset. cbn [enc_ip ip_ok] in *.
  destruct Hh as (Ht&Ha&n&Hn&Ho). rewrite Ho. replace (4 * n / 4) with n by (rewrite Z.mul_comm, Z.div_mul; lia).
  set (d := macs ++ _). set (ihl := 5 + n).
  assert (Hd : d = macs ++ putbe16 2048 ++ [chr (64 + ihl)] ++ tos ++ [chr 17] ++ addrs ++ options ++ rest)
    by (unfold d; by rewrite <- !app_assoc).
  assert (Hlen : blen d = 14 + 4 * ihl + blen rest).
  { rewrite Hd, !blen_app, blen_putbe16, Hm, Ht, Ha, Ho. change (blen [_]) with 1. unfold ihl. lia. }
  rewrite (proj2 (Z.ltb_ge _ _)) by (unfold ihl in *; lia).
  assert (H12 : be16 d 12 = Ok 2048) by (rewrite Hd; by apply putbe16_be16).
  assert (H14 : rd d 14 = Ok (64 + ihl)).
  { rewrite Hd, app_assoc. cbn [app]. rewrite rd_mid by (by rewrite blen_app, Hm).
    by rewrite u8_chr, Z.mod_small by (unfold ihl; lia). }
  assert (H23 : rd d (14 + 9) = Ok 17).
  { replace d with ((macs ++ putbe16 2048 ++ [chr (64 + ihl)] ++ tos) ++ chr 17 :: addrs ++ options ++ rest)
      by (rewrite Hd; by rewrite <- !app_assoc).
    rewrite rd_mid; [done|]. rewrite !blen_app, Hm, Ht. done. }
  rewrite H12. cbn [mbind outcome_bind]. cbn [Z.eqb Pos.eqb].
  rewrite (proj2 (Z.ltb_ge _ _)) by (unfold ihl in *; lia). rewrite H14. cbn [mbind outcome_bind].
  rewrite Z.shiftr_div_pow2 by lia. replace ((64 + ihl) / 2 ^ 4) with 4 by (unfold ihl; Z.div_mod_to_equations; lia).
  cbn [negb Z.eqb Pos.eqb]. rewrite H23. cbn [mbind outcome_bind negb Z.eqb Pos.eqb].
  rewrite (land_mask _ 4) by lia. replace ((64 + ihl) mod 2 ^ 4) with ihl by (unfold ihl; Z.div_mod_to_equations; lia).
  rewrite (proj2 (Z.ltb_ge (ihl * 4) _)) by (unfold ihl; lia). rewrite (proj2 (Z.ltb_ge _ _)) by lia. cbn [orb].
  do 2 f_equal. rewrite !blen_app, blen_putbe16, Hm, Ht, Ha, Ho. change (blen [_]) with 1. unfold ihl. lia.
Qed.

Lemma udp_offset_ip6 macs flow len addrs rest : blen macs = 12 -> ip_ok (Ip6 flow len addrs) ->
  8 <= blen rest ->
  udp_offset (macs ++ enc_ip (Ip6 flow len addrs) ++ rest)
    = Ok (Some (blen (macs ++ enc_ip (Ip6 flow len addrs)))).
Proof.
  intros Hm Hh Hr. unfold udp_offset. cbn [enc_ip ip_ok] in *.
  destruct Hh as (Hfl&Hl&Ha). set (d := macs ++ _).
  assert (Hd : d = macs ++ putbe16 34525 ++ [chr (96 + flow)] ++ len ++ [chr 17] ++ addrs ++ rest)
    by (unfold d; by rewrite <- !app_assoc).
  assert (Hlen : blen d = 54 + blen rest).
  { rewrite Hd, !blen_app, blen_putbe16, Hm, Hl, Ha. change (blen [_]) with 1. lia. }
  rewrite (proj2 (Z.ltb_ge _ _)) by lia.
  assert (H12 : be16 d 12 = Ok 34525) by (rewrite Hd; by apply putbe16_be16).
  assert (H14 : rd d 14 = Ok (96 + flow)).
  { rewrite Hd, app_assoc. cbn [app]. rewrite rd_mid by (by rewrite blen_app, Hm).
    by rewrite u8_chr, Z.mod_small by lia. }
  assert (H20 : rd d (14 + 6) = Ok 17).
  { replace d with ((macs ++ putbe16 34525 ++ [chr (96 + flow)] ++ len) ++ chr 17 :: addrs ++ rest)
      by (rewrite Hd; by rewrite <- !app_assoc).
    rewrite rd_mid; [done|]. rewrite !blen_app, Hm, Hl. done. }
  rewrite H12. cbn [mbind outcome_bind Z.eqb Pos.eqb].
  rewrite (proj2 (Z.ltb_ge _ _)) by lia. rewrite H14. cbn [mbind outcome_bind].
  rewrite Z.shiftr_div_pow2 by lia. replace ((96 + flow) / 2 ^ 4) with 6 by (Z.div_mod_to_equations; lia).
  cbn [negb Z.eqb Pos.eqb]. rewrite H20. cbn [mbind outcome_bind negb Z.eqb Pos.eqb].
  do 2 f_equal. rewrite !blen_app, blen_putbe16, Hm, Hl, Ha. done.
Qed.

Lemma udp_offset_enc macs h rest : blen macs = 12 -> ip_ok h -> 8 <= blen rest ->
  udp_offset (macs ++ enc_ip h ++ rest) = Ok (Some (blen (macs ++ enc_ip h))).
Proof. destruct h; [apply udp_offset_ip4|apply udp_offset_ip6]. Qed.

Lemma parse_packet_enc macs h src dst lenck x fuel :
  blen macs = 12 -> ip_ok h -> blen lenck = 4 -> 0 <= src < 2 ^ 16 -> 0 <= dst < 2 ^ 16 ->
  src = 53 \/ dst = 53 -> message_ok x ->
  (length (enc_frame macs h src dst lenck (enc_dns x)) < fuel)%nat ->
  parse_packet fuel (enc_frame macs h src dst lenck (enc_dns x)) = Ok (Some (message_dns x, src, dst)).
Proof.
  intros Hm Hh Hl Hs Hd H53 Hx Hf. unfold parse_packet, enc_frame in *.
  set (pre := macs ++ enc_ip h). pose proof (blen_nonneg pre). pose proof (blen_nonneg (enc_dns x)).
  rewrite udp_offset_enc by first [done|rewrite !blen_app, !blen_putbe16, Hl; lia].
  cbn [mbind outcome_bind]. rewrite (app_assoc macs). fold pre.
  assert (Hlen : blen (pre ++ putbe16 src ++ putbe16 dst ++ lenck ++ enc_dns x) = blen pre + 8 + blen (enc_dns x))
    by (rewrite !blen_app, !blen_putbe16, Hl; lia).
  rewrite Hlen, (proj2 (Z.ltb_ge _ _)) by lia.
  rewrite (putbe16_be16 pre src _ (blen pre)) by done. cbn [mbind outcome_bind].
  assert (Hdst : be16 (pre ++ putbe16 src ++ putbe16 dst ++ lenck ++ enc_dns x) (blen pre + 2) = Ok dst).
  { rewrite app_assoc. apply putbe16_be16; [by rewrite blen_app|done]. }
  rewrite Hdst. cbn [mbind outcome_bind].
  replace (negb (src =? 53) && negb (dst =? 53)) with false
    by (destruct H53 as [->| ->]; rewrite Z.eqb_refl; [done|by rewrite andb_false_r]).
  assert (Hsl : sub (pre ++ putbe16 src ++ putbe16 dst ++ lenck ++ enc_dns x) (blen pre + 8)
                  (blen pre + 8 + blen (enc_dns x) - blen pre - 8) = Ok (enc_dns x)).
  { replace (pre ++ putbe16 src ++ putbe16 dst ++ lenck ++ enc_dns x)
      with ((pre ++ putbe16 src ++ putbe16 dst ++ lenck) ++ enc_dns x ++ [])
      by (by rewrite app_nil_r, <- !app_assoc).
    apply sub_prefix; [|lia]. rewrite !blen_app, !blen_putbe16, Hl. lia. }
  rewrite Hsl, ok_bind, parse_dns_enc; [done|done|]. rewrite !length_app in Hf. lia.
Qed.

(** C4. Round trip of the capture path: a DNS message with one question and
    any records (addresses, aliases, name servers, mail exchangers, services,
    texts, unknown types; owners in full or compressed), carried by UDP over
    IPv4 with any options or over IPv6 in an Ethernet frame, to or from port
    53, is parsed into its identifier, flags, query type and name, and the
    texts of its first sixteen answers. *)
Theorem parse_packet_roundtrip macs h src dst lenck x fuel :
  blen macs = 12 -> ip_ok h -> blen lenck = 4 -> 0 <= src < 2 ^ 16 -> 0 <= dst < 2 ^ 16 ->
  src = 53 \/ dst = 53 -> message_ok x ->
  (length (enc_frame macs h src dst lenck (enc_dns x)) < fuel)%nat ->
  parse_packet fuel (enc_frame macs h src dst lenck (enc_dns x)) = Ok (Some (message_dns x, src, dst)).
Proof. apply parse_packet_enc. Qed.

Definition demo_message : message :=
  Message 7 33152 (replicate 4 NUL) ["www" : bytes; "ex" : bytes] 1 [NUL; chr 1]
    [Rr None (replicate 6 NUL) (RName KCname ["ex" : bytes]);
     Rr (Some ["ex" : bytes]) (replicate 6 NUL) (RAddr4 [chr 10; chr 0; chr 0; chr 1])] [].
Definition demo_ip : ip_header := Ip4 (replicate 8 NUL) (replicate 10 NUL) [].

Lemma parse_packet_roundtrip_witness :
  parse_packet 200 (enc_frame (replicate 12 NUL) demo_ip 53 4000 (replicate 4 NUL) (enc_dns demo_message))
    = Ok (Some (message_dns demo_message, 53, 4000)).
Proof.
  apply (parse_packet_roundtrip (replicate 12 NUL) demo_ip 53 4000 (replicate 4 NUL) demo_message 200).
  - reflexivity.
  - split; [reflexivity|]. split; [reflexivity|]. exists 0. split; [lia|reflexivity].
  - reflexivity.
  - lia.
  - lia.
  - left. reflexivity.
  - unfold message_ok. cbn -[Z.pow]. repeat (split; [lia || reflexivity|]).
    split; [repeat constructor|]. repeat constructor.
  - cbv. lia.
Defined.

Example demo_message_answers : m_answers (message_dns demo_message) = ["CNAME:ex" : bytes; "10.0.0.1" : bytes].
Proof. reflexivity. Qed.
