(* ===== verification/NetAttr.v ===== *)
(** Netlink attributes of c/net.c: the flat attribute parser, the connection
    tuple and the TCP state of a conntrack message, their safety on arbitrary
    bytes, and the round trip through an encoder of attributes. *)
From S2P Require Import Prelude CLib.

(** * Constants *)

Definition NLA_F_NESTED_ : Z := 32768.
Definition NLA_F_NET_BYTEORDER_ : Z := 16384.
Definition CTA_TUPLE_ORIG_ : Z := 1.
Definition CTA_PROTOINFO_ : Z := 4.
Definition CTA_TUPLE_IP_ : Z := 1.
Definition CTA_TUPLE_PROTO_ : Z := 2.
Definition CTA_IPV4_SRC_ : Z := 1.
Definition CTA_IPV4_DST_ : Z := 2.
Definition CTA_IPV6_SRC_ : Z := 3.
Definition CTA_IPV6_DST_ : Z := 4.
Definition CTA_PROTO_NUM_ : Z := 1.
Definition CTA_PROTO_SRC_PORT_ : Z := 2.
Definition CTA_PROTO_DST_PORT_ : Z := 3.
Definition CTA_PROTOINFO_TCP_ : Z := 1.
Definition CTA_PROTOINFO_TCP_STATE_ : Z := 1.
Definition NLA_MAX_TYPE : Z := 64.

(** * Attribute sets *)

(** The attributes with [has] set, each with its value and length. *)
Abbreviation nla_set := (gmap Z bytes).

Definition u16_not (v : Z) : Z := u16 (Z.lnot v).

(** [parse_nla(data, n, set)]; a turn consumes four bytes at least. *)
Fixpoint parse_nla_go (fuel : nat) (data : bytes) (set : nla_set) : outcome nla_set :=
  if blen data <? 4 then Ok set
  else
    match fuel with
    | O => Fuel
    | S f =>
        nla_len ← le16 data 0;
        ty ← le16 data 2;
        let nla_type := Z.land (Z.land ty (u16_not NLA_F_NESTED_)) (u16_not NLA_F_NET_BYTEORDER_) in
        if nla_len <? 4 then Ok set
        else if blen data <? nla_len then Ok set
        else
          val ← sub data 4 (nla_len - 4);
          let set := if (nla_type <? NLA_MAX_TYPE) && negb (bool_decide (is_Some (set !! nla_type)))
                     then <[nla_type := val]> set else set in
          let aligned := Z.land (nla_len + 3) (Z.lnot 3) in
          if blen data <? aligned then Ok set
          else parse_nla_go f (drop (Z.to_nat aligned) data) set
    end.
Definition parse_nla (data : bytes) : outcome nla_set := parse_nla_go (S (length data)) data ∅.

(** * Connection tuples *)

(** The addresses are the [src_len] and [dst_len] significant bytes: none
    when unset. *)
Record conn_tuple := ConnTuple {
  src_ip : bytes; dst_ip : bytes; src_port : Z; dst_port : Z; proto : Z;
}.
Definition tuple0 : conn_tuple := ConnTuple [] [] 0 0 0.

(** An attribute of exactly [n] bytes, copied over the default. *)
Definition copy_addr (set : nla_set) (ty n : Z) (old : bytes) : bytes :=
  match set !! ty with Some v => if blen v =? n then v else old | None => old end.
(** A big-endian port, a protocol number. *)
Definition read_port (set : nla_set) (ty : Z) : outcome Z :=
  match set !! ty with Some v => if 2 <=? blen v then be16 v 0 else Ok 0 | None => Ok 0 end.
Definition read_byte (set : nla_set) (ty : Z) : outcome Z :=
  match set !! ty with Some v => if 1 <=? blen v then rd v 0 else Ok 0 | None => Ok 0 end.

Definition tuple_ips (ta : nla_set) : outcome (bytes * bytes) :=
  match ta !! CTA_TUPLE_IP_ with
  | None => Ok ([], [])
  | Some v =>
      ia ← parse_nla v;
      Ok (copy_addr ia CTA_IPV6_SRC_ 16 (copy_addr ia CTA_IPV4_SRC_ 4 []),
          copy_addr ia CTA_IPV6_DST_ 16 (copy_addr ia CTA_IPV4_DST_ 4 []))
  end.
Definition tuple_proto (ta : nla_set) : outcome (Z * Z * Z) :=
  match ta !! CTA_TUPLE_PROTO_ with
  | None => Ok (0, 0, 0)
  | Some v =>
      pa ← parse_nla v;
      num ← read_byte pa CTA_PROTO_NUM_;
      sp ← read_port pa CTA_PROTO_SRC_PORT_;
      dp ← read_port pa CTA_PROTO_DST_PORT_;
      Ok (num, sp, dp)
  end.

Definition parse_tuple (payload : bytes) (tuple_attr : Z) : outcome (option conn_tuple) :=
  top ← parse_nla payload;
  match top !! tuple_attr with
  | None => Ok None
  | Some v =>
      ta ← parse_nla v;
      ips ← tuple_ips ta;
      pr ← tuple_proto ta;
      let '(s, d) := ips in
      let '(num, sp, dp) := pr in
      if (blen s =? 0) || (blen d =? 0) then Ok None
      else Ok (Some (ConnTuple s d sp dp num))
  end.

(** Descending into a nested attribute; absent levels give 0. *)
Definition parse_tcp_state (payload : bytes) : outcome Z :=
  top ← parse_nla payload;
  match top !! CTA_PROTOINFO_ with
  | None => Ok 0
  | Some v =>
      pi ← parse_nla v;
      match pi !! CTA_PROTOINFO_TCP_ with
      | None => Ok 0
      | Some v =>
          tcp ← parse_nla v;
          read_byte tcp CTA_PROTOINFO_TCP_STATE_
      end
  end.

(** * Safety *)

Lemma parse_nla_go_total fuel : forall data set, (length data < fuel)%nat ->
  exists set', parse_nla_go fuel data set = Ok set' /\
    forall ty v, set' !! ty = Some v -> set !! ty = Some v \/ blen v < blen data.
Proof.
  induction fuel as [|f IH]; intros data set Hf; [lia|]. cbn [parse_nla_go].
  destruct (blen data <? 4) eqn:E; zbool; [eauto|].
  destruct (le16_safe data 0) as (len&->&_); [lia..|]. destruct (le16_safe data 2) as (ty&->&_); [lia..|].
  cbn [mbind outcome_bind]. destruct (len <? 4) eqn:E2; zbool; [eauto|].
  destruct (blen data <? len) eqn:E3; zbool; [eauto|]. rewrite sub_ok, ok_bind, align4 by lia.
  set (ty' := Z.land _ _). set (set2 := if (_ && _)%bool then <[ty' := _]> set else set).
  assert (Hset2 : forall t v, set2 !! t = Some v -> set !! t = Some v \/ blen v < blen data).
  { intros t v. unfold set2. case_match; [|by left].
    destruct (decide (ty' = t)) as [<-|]; [|rewrite lookup_insert_ne by done; by left].
    rewrite lookup_insert_eq. intros [= <-]. right. rewrite blen_slice; lia. }
  destruct (blen data <? (len + 3) / 4 * 4) eqn:E4; zbool; [eauto|].
  assert (4 <= (len + 3) / 4 * 4) by (Z.div_mod_to_equations; lia).
  destruct (IH (drop (Z.to_nat ((len + 3) / 4 * 4)) data) set2) as (set'&->&Hset').
  { rewrite length_drop. unfold blen in *. lia. }
  eexists. split; [done|]. intros t v Hv. destruct (Hset' t v Hv) as [?|Hl]; [by apply Hset2|].
  right. rewrite blen_drop in Hl; lia.
Qed.

Lemma parse_nla_total data : exists set, parse_nla data = Ok set /\
  forall ty v, set !! ty = Some v -> blen v < blen data.
Proof.
  destruct (parse_nla_go_total (S (length data)) data ∅) as (set&H&Hset); [lia|].
  exists set. split; [done|]. intros ty v Hv. destruct (Hset ty v Hv) as [He|?]; [|done].
  by rewrite lookup_empty in He.
Qed.

Lemma read_byte_total set ty : exists v, read_byte set ty = Ok v /\ 0 <= v < 256.
Proof.
  unfold read_byte. destruct (set !! ty) as [v|]; [|eauto with lia].
  destruct (1 <=? blen v) eqn:E; zbool; [|eauto with lia]. apply rd_safe. lia.
Qed.

Lemma read_port_total set ty : exists v, read_port set ty = Ok v /\ 0 <= v < 2 ^ 16.
Proof.
  unfold read_port. destruct (set !! ty) as [v|]; [|eauto with lia].
  destruct (2 <=? blen v) eqn:E; zbool; [|eauto with lia]. apply be16_safe; lia.
Qed.

Definition addr_ok (a : bytes) : Prop := blen a = 4 \/ blen a = 16.
(** The fields fit their C types. *)
Definition tuple_ok (t : conn_tuple) : Prop :=
  addr_ok (src_ip t) /\ addr_ok (dst_ip t) /\
  0 <= src_port t < 2 ^ 16 /\ 0 <= dst_port t < 2 ^ 16 /\ 0 <= proto t < 256.

Lemma copy_addr_len set ty n old : 
  copy_addr set ty n old = old \/ blen (copy_addr set ty n old) = n.
Proof. unfold copy_addr. repeat case_match; zbool; auto. Qed.

Lemma tuple_ips_total ta : exists s d, tuple_ips ta = Ok (s, d) /\
  (s = [] \/ addr_ok s) /\ (d = [] \/ addr_ok d).
Proof.
  unfold tuple_ips, addr_ok. destruct (ta !! CTA_TUPLE_IP_) as [v|]; [|eauto 10].
  destruct (parse_nla_total v) as (ia&->&_). cbn [mbind outcome_bind].
  eexists _, _. split; [done|]. split.
  - destruct (copy_addr_len ia CTA_IPV6_SRC_ 16 (copy_addr ia CTA_IPV4_SRC_ 4 [])) as [->|]; [|auto].
    destruct (copy_addr_len ia CTA_IPV4_SRC_ 4 []) as [->|]; auto.
  - destruct (copy_addr_len ia CTA_IPV6_DST_ 16 (copy_addr ia CTA_IPV4_DST_ 4 [])) as [->|]; [|auto].
    destruct (copy_addr_len ia CTA_IPV4_DST_ 4 []) as [->|]; auto.
Qed.

Lemma tuple_proto_total ta : exists num sp dp, tuple_proto ta = Ok (num, sp, dp) /\
  0 <= num < 256 /\ 0 <= sp < 2 ^ 16 /\ 0 <= dp < 2 ^ 16.
Proof.
  unfold tuple_proto. destruct (ta !! CTA_TUPLE_PROTO_) as [v|].
  2: { exists 0, 0, 0. split; [done|]. lia. }
  destruct (parse_nla_total v) as (pa&->&_). cbn [mbind outcome_bind].
  destruct (read_byte_total pa CTA_PROTO_NUM_) as (a&->&?). cbn [mbind outcome_bind].
  destruct (read_port_total pa CTA_PROTO_SRC_PORT_) as (b&->&?). cbn [mbind outcome_bind].
  destruct (read_port_total pa CTA_PROTO_DST_PORT_) as (e&->&?). cbn [mbind outcome_bind].
  eauto 10.
Qed.

Lemma parse_tuple_total payload attr : exists r, parse_tuple payload attr = Ok r /\
  forall t, r = Some t -> tuple_ok t.
Proof.
  unfold parse_tuple. destruct (parse_nla_total payload) as (top&->&_). cbn [mbind outcome_bind].
  destruct (top !! attr) as [v|]; [|by eexists]. destruct (parse_nla_total v) as (ta&->&_).
  cbn [mbind outcome_bind]. destruct (tuple_ips_total ta) as (s&d&->&Hs&Hd). cbn [mbind outcome_bind].
  destruct (tuple_proto_total ta) as (n&sp&dp&->&Hn&Hsp&Hdp). cbn [mbind outcome_bind].
  destruct ((blen s =? 0) || (blen d =? 0)) eqn:E; [by eexists|]. zbool.
  eexists. split; [done|]. intros t [= <-]. unfold tuple_ok. cbn [src_ip dst_ip src_port dst_port proto].
  destruct Hs as [->|Hs]; [done|]. destruct Hd as [->|Hd]; [done|]. done.
Qed.

Lemma parse_tcp_state_total payload : exists v, parse_tcp_state payload = Ok v /\ 0 <= v < 256.
Proof.
  unfold parse_tcp_state. destruct (parse_nla_total payload) as (top&->&_). cbn [mbind outcome_bind].
  destruct (top !! _) as [v|]; [|eauto with lia]. destruct (parse_nla_total v) as (pi&->&_).
  cbn [mbind outcome_bind]. destruct (pi !! _) as [w|]; [|eauto with lia].
  destruct (parse_nla_total w) as (tcp&->&_). cbn [mbind outcome_bind]. apply read_byte_total.
Qed.

(** Memory safety of the attribute parsers: on every payload, whatever
    its bytes, [parse_nla], [parse_tuple] and [parse_tcp_state] terminate and
    read inside of the payload only; the values of the attributes are shorter
    than what contains them, a tuple that is accepted has two addresses of 4 or
    16 bytes, ports of 16 bits and a protocol of 8. *)
Theorem attributes_safe payload attr :
  (exists set, parse_nla payload = Ok set /\ forall ty v, set !! ty = Some v -> blen v < blen payload) /\
  (exists r, parse_tuple payload attr = Ok r /\ forall t, r = Some t -> tuple_ok t) /\
  (exists v, parse_tcp_state payload = Ok v /\ 0 <= v < 256).
Proof.
  split; [apply parse_nla_total|]. split; [apply parse_tuple_total|apply parse_tcp_state_total].
Qed.

(** * Round trip *)

(** An attribute: the two flag bits, the type, the value. *)
Record attr := Attr { a_flags : Z; a_type : Z; a_val : bytes }.
Definition pad4 (n : Z) : bytes := replicate (Z.to_nat ((n + 3) / 4 * 4 - n)) NUL.
Definition enc_attr (a : attr) : bytes :=
  put16 (4 + blen (a_val a)) ++ put16 (a_flags a * 2 ^ 14 + a_type a) ++ a_val a ++ pad4 (4 + blen (a_val a)).
Definition enc_attrs (l : list attr) : bytes := mjoin (enc_attr <$> l).
Definition attr_ok (a : attr) : Prop :=
  0 <= a_flags a < 4 /\ 0 <= a_type a < NLA_MAX_TYPE /\ 4 + blen (a_val a) < 2 ^ 16.
(** The first attribute of each type. *)
Definition attr_map (l : list attr) : nla_set := list_to_map ((fun a => (a_type a, a_val a)) <$> l).

Lemma flags_cleared f t : 0 <= f < 4 -> 0 <= t < 64 ->
  Z.land (Z.land (f * 2 ^ 14 + t) (u16_not NLA_F_NESTED_)) (u16_not NLA_F_NET_BYTEORDER_) = t.
Proof.
  intros Hf Ht. rewrite <- Z.land_assoc.
  change (Z.land (u16_not NLA_F_NESTED_) (u16_not NLA_F_NET_BYTEORDER_)) with (2 ^ 14 - 1).
  rewrite land_mask by lia. rewrite Z.add_comm, Z.mod_add by lia. by rewrite Z.mod_small by lia.
Qed.

Lemma blen_enc_attr a : blen (enc_attr a) = (4 + blen (a_val a) + 3) / 4 * 4.
Proof.
  unfold enc_attr, pad4. rewrite !blen_app, !blen_put16. pose proof (blen_nonneg (a_val a)).
  unfold blen at 2. rewrite length_replicate. Z.div_mod_to_equations. lia.
Qed.

Lemma parse_nla_go_enc l : forall fuel set, Forall attr_ok l -> (length (enc_attrs l) < fuel)%nat ->
  parse_nla_go fuel (enc_attrs l) set = Ok (set ∪ attr_map l).
Proof.
  induction l as [|a l IH]; intros fuel set Hok Hf.
  { destruct fuel; cbn; by rewrite map_union_empty. }
  apply Forall_cons in Hok as [(Hfl&Hty&Hlen) Hok]. unfold NLA_MAX_TYPE in *.
  change (enc_attrs (a :: l)) with (enc_attr a ++ enc_attrs l) in *.
  destruct fuel as [|fuel]; [lia|]. cbn [parse_nla_go].
  pose proof (blen_enc_attr a) as Ha. pose proof (blen_nonneg (enc_attrs l)). pose proof (blen_nonneg (a_val a)).
  set (d := enc_attr a ++ enc_attrs l) in *. set (n := 4 + blen (a_val a)) in *.
  assert (Hn : n <= (n + 3) / 4 * 4) by (Z.div_mod_to_equations; lia).
  assert (Hd : blen d = (n + 3) / 4 * 4 + blen (enc_attrs l)) by (unfold d; rewrite blen_app; lia).
  rewrite (proj2 (Z.ltb_ge _ _)) by lia.
  assert (B0 : le16 d 0 = Ok n)
    by (unfold d, enc_attr; rewrite <- !app_assoc; apply (le16_put16 []); [done|lia]).
  assert (B2 : le16 d 2 = Ok (a_flags a * 2 ^ 14 + a_type a))
    by (unfold d, enc_attr; rewrite <- !app_assoc; apply (le16_put16 (put16 n)); [done|lia]).
  rewrite B0, B2. cbn [mbind outcome_bind]. rewrite flags_cleared by lia.
  rewrite (proj2 (Z.ltb_ge n 4)) by lia. rewrite (proj2 (Z.ltb_ge (blen d) n)) by lia.
  rewrite align4, (proj2 (Z.ltb_ge (blen d) _)) by lia. rewrite (proj2 (Z.ltb_lt (a_type a) _)) by (unfold NLA_MAX_TYPE; lia).
  assert (Hsl : sub d 4 (n - 4) = Ok (a_val a)).
  { unfold d, enc_attr. rewrite <- !app_assoc, (app_assoc (put16 _)). apply sub_prefix; [done|unfold n; lia]. }
  rewrite Hsl, ok_bind. cbn [andb].
  assert (Hdrop : drop (Z.to_nat ((n + 3) / 4 * 4)) d = enc_attrs l).
  { unfold d. rewrite <- Ha. unfold blen. rewrite Nat2Z.id. apply drop_app_length. }
  rewrite Hdrop, IH; [|done|].
  - f_equal. unfold attr_map. rewrite fmap_cons. cbn [list_to_map foldr uncurry].
    apply map_eq. intros t. rewrite !lookup_union.
    case_bool_decide as Hs; cbn [negb].
    + destruct (decide (a_type a = t)) as [<-|]; [|by rewrite lookup_insert_ne].
      destruct Hs as [x ->]. rewrite lookup_insert_eq. by destruct (list_to_map _ !! _).
    + apply eq_None_not_Some in Hs. destruct (decide (a_type a = t)) as [<-|].
      * rewrite !lookup_insert_eq, Hs. by destruct (list_to_map _ !! _).
      * by rewrite !lookup_insert_ne.
  - unfold d in Hf. rewrite length_app in Hf.
    assert (4 <= blen (enc_attr a)) by lia. unfold blen in *. lia.
Qed.

Lemma parse_nla_enc l : Forall attr_ok l -> parse_nla (enc_attrs l) = Ok (attr_map l).
Proof. intros Hok. unfold parse_nla. rewrite parse_nla_go_enc by (done || lia). by rewrite map_empty_union. Qed.

Lemma attr_map_app l a l' ty : a_type a = ty -> ty ∉ (a_type <$> l) -> attr_map (l ++ a :: l') !! ty = Some (a_val a).
Proof.
  intros <- Hn. unfold attr_map. induction l as [|x l IH]; cbn; [by rewrite lookup_insert_eq|].
  rewrite fmap_cons in Hn. rewrite lookup_insert_ne by set_solver. apply IH. set_solver.
Qed.

(** The attributes of a tuple, as the kernel nests them. *)
Definition NESTED : Z := 2.
Definition ip_attrs (t : conn_tuple) : list attr :=
  if blen (src_ip t) =? 4
  then [Attr 0 CTA_IPV4_SRC_ (src_ip t); Attr 0 CTA_IPV4_DST_ (dst_ip t)]
  else [Attr 0 CTA_IPV6_SRC_ (src_ip t); Attr 0 CTA_IPV6_DST_ (dst_ip t)].
(** What else stands in the nests of a tuple: the protocol of a connection may
    have no ports, and attributes of its own (the identifier, type and code of
    ICMP), and the tuple others (a zone). *)
Record nest := Nest { n_ports : bool; n_proto : list attr; n_more : list attr }.
Definition plain_nest : nest := Nest true [] [].
Definition proto_attrs (n : nest) (t : conn_tuple) : list attr :=
  Attr 0 CTA_PROTO_NUM_ [chr (proto t)] ::
  (if n_ports n then [Attr 1 CTA_PROTO_SRC_PORT_ (putbe16 (src_port t)); Attr 1 CTA_PROTO_DST_PORT_ (putbe16 (dst_port t))] else []) ++
  n_proto n.
Definition tuple_attr (n : nest) (t : conn_tuple) : attr :=
  Attr NESTED CTA_TUPLE_ORIG_
    (enc_attrs (Attr NESTED CTA_TUPLE_IP_ (enc_attrs (ip_attrs t)) ::
                Attr NESTED CTA_TUPLE_PROTO_ (enc_attrs (proto_attrs n t)) :: n_more n)).
Definition nest_ok (n : nest) (t : conn_tuple) : Prop :=
  Forall attr_ok (n_proto n) /\ Forall attr_ok (n_more n) /\
  (forall ty, ty ∈ [CTA_PROTO_NUM_; CTA_PROTO_SRC_PORT_; CTA_PROTO_DST_PORT_] -> ty ∉ (a_type <$> n_proto n)) /\
  (n_ports n = false -> src_port t = 0 /\ dst_port t = 0) /\
  blen (enc_attrs (n_proto n)) + blen (enc_attrs (n_more n)) <= 2 ^ 15.
(** The protocol information: the nest of TCP among others, with the state of
    the connection among others (the window scales, the flags). *)
Record pnest := PNest { p_before : list attr; p_after : list attr; p_tcp_before : list attr; p_tcp_after : list attr }.
Definition plain_pnest : pnest := PNest [] [] [] [].
Definition protoinfo_attr (p : pnest) (s : Z) : attr :=
  Attr NESTED CTA_PROTOINFO_
    (enc_attrs (p_before p ++
       Attr NESTED CTA_PROTOINFO_TCP_ (enc_attrs (p_tcp_before p ++ Attr 0 CTA_PROTOINFO_TCP_STATE_ [chr s] :: p_tcp_after p)) ::
       p_after p)).
Definition pnest_ok (p : pnest) : Prop :=
  Forall attr_ok (p_before p) /\ Forall attr_ok (p_after p) /\ Forall attr_ok (p_tcp_before p) /\ Forall attr_ok (p_tcp_after p) /\
  CTA_PROTOINFO_TCP_ ∉ (a_type <$> p_before p) /\ CTA_PROTOINFO_TCP_STATE_ ∉ (a_type <$> p_tcp_before p) /\
  blen (enc_attrs (p_before p)) + blen (enc_attrs (p_after p)) +
    blen (enc_attrs (p_tcp_before p)) + blen (enc_attrs (p_tcp_after p)) <= 2 ^ 15.

(** Both addresses are of one family. *)
Definition tuple_enc_ok (t : conn_tuple) : Prop :=
  tuple_ok t /\ blen (src_ip t) = blen (dst_ip t).

Ltac attrs_ok :=
  repeat (apply Forall_cons; split;
    [split; [by (split; [discriminate|reflexivity])|split; [by (split; [discriminate|reflexivity])|cbn [a_val]; try lia]]|]);
  try apply Forall_nil_2.

Lemma enc_attrs_app l l' : enc_attrs (l ++ l') = enc_attrs l ++ enc_attrs l'.
Proof. unfold enc_attrs. by rewrite fmap_app, join_app. Qed.
Lemma blen_attrs_cons a l : blen (enc_attrs (a :: l)) = (4 + blen (a_val a) + 3) / 4 * 4 + blen (enc_attrs l).
Proof. change (enc_attrs (a :: l)) with (enc_attr a ++ enc_attrs l). by rewrite blen_app, blen_enc_attr. Qed.
Lemma blen_attrs_app l l' : blen (enc_attrs (l ++ l')) = blen (enc_attrs l) + blen (enc_attrs l').
Proof. by rewrite enc_attrs_app, blen_app. Qed.

(** A nested attribute whose attributes take less than 2^15 bytes, and some. *)
Lemma nested_ok ty l : 0 <= ty < NLA_MAX_TYPE -> blen (enc_attrs l) <= 2 ^ 15 + 2 ^ 14 -> attr_ok (Attr NESTED ty (enc_attrs l)).
Proof. intros Hty Hl. split; [by (split; [discriminate|reflexivity])|]. split; [exact Hty|]. cbn [a_val]. lia. Qed.

Lemma ip_attrs_ok t : tuple_enc_ok t -> Forall attr_ok (ip_attrs t) /\ blen (enc_attrs (ip_attrs t)) <= 40.
Proof.
  intros [(Hs&Hd&_) E]. unfold ip_attrs, addr_ok in *.
  destruct Hs as [Hs|Hs]; rewrite Hs in *; cbn [Z.eqb Pos.eqb]; (split; [attrs_ok|]);
    rewrite !blen_attrs_cons; cbn [a_val]; rewrite Hs, <- E; done.
Qed.

Lemma proto_attrs_ok n t : nest_ok n t -> Forall attr_ok (proto_attrs n t) /\
  blen (enc_attrs (proto_attrs n t)) <= 24 + blen (enc_attrs (n_proto n)).
Proof.
  intros (H1&_&_&_&_). unfold proto_attrs. destruct (n_ports n); cbn [app]; (split; [attrs_ok; done|]);
    rewrite !blen_attrs_cons; cbn [a_val]; change (blen (putbe16 _)) with 2; change (blen [_]) with 1; Z.div_mod_to_equations; lia.
Qed.

Lemma tuple_nest_ok n t : tuple_enc_ok t -> nest_ok n t ->
  Forall attr_ok (Attr NESTED CTA_TUPLE_IP_ (enc_attrs (ip_attrs t)) :: Attr NESTED CTA_TUPLE_PROTO_ (enc_attrs (proto_attrs n t)) :: n_more n) /\
  attr_ok (tuple_attr n t).
Proof.
  intros Ht Hn. destruct (ip_attrs_ok t Ht) as [_ Hb]. destruct (proto_attrs_ok n t Hn) as [_ Hp].
  destruct Hn as (_&Hm&_&_&Hl). pose proof (blen_nonneg (enc_attrs (n_proto n))). pose proof (blen_nonneg (enc_attrs (n_more n))).
  split.
  - repeat (apply Forall_cons; split; [apply nested_ok; [by (split; [discriminate|reflexivity])|lia]|]). exact Hm.
  - apply nested_ok; [by (split; [discriminate|reflexivity])|]. rewrite !blen_attrs_cons. cbn [a_val]. Z.div_mod_to_equations. lia.
Qed.

Lemma protoinfo_nest_ok p st : pnest_ok p ->
  Forall attr_ok (p_tcp_before p ++ Attr 0 CTA_PROTOINFO_TCP_STATE_ [chr st] :: p_tcp_after p) /\
  Forall attr_ok (p_before p ++ Attr NESTED CTA_PROTOINFO_TCP_
    (enc_attrs (p_tcp_before p ++ Attr 0 CTA_PROTOINFO_TCP_STATE_ [chr st] :: p_tcp_after p)) :: p_after p) /\
  attr_ok (protoinfo_attr p st).
Proof.
  intros (H1&H2&H3&H4&_&_&Hl).
  pose proof (blen_nonneg (enc_attrs (p_before p))). pose proof (blen_nonneg (enc_attrs (p_after p))).
  pose proof (blen_nonneg (enc_attrs (p_tcp_before p))). pose proof (blen_nonneg (enc_attrs (p_tcp_after p))).
  set (T := enc_attrs (p_tcp_before p ++ _)).
  assert (Ht : blen T = blen (enc_attrs (p_tcp_before p)) + 8 + blen (enc_attrs (p_tcp_after p)))
    by (unfold T; rewrite blen_attrs_app, blen_attrs_cons; cbn [a_val]; change ((4 + blen [_] + 3) / 4 * 4) with 8; lia).
  split_and!.
  - apply Forall_app_2; [done|]. attrs_ok; done.
  - apply Forall_app_2; [done|]. apply Forall_cons. split; [|done]. apply nested_ok; [by (split; [discriminate|reflexivity])|fold T; lia].
  - apply nested_ok; [by (split; [discriminate|reflexivity])|]. rewrite blen_attrs_app, blen_attrs_cons. cbn [a_val]. fold T.
    Z.div_mod_to_equations. lia.
Qed.

Lemma tuple_ips_enc t m : tuple_enc_ok t -> m !! CTA_TUPLE_IP_ = Some (enc_attrs (ip_attrs t)) ->
  tuple_ips m = Ok (src_ip t, dst_ip t).
Proof.
  intros Ht Hm. unfold tuple_ips. rewrite Hm, parse_nla_enc by (by apply ip_attrs_ok). cbn [mbind outcome_bind].
  destruct Ht as [(Hs&_&_) E]. unfold ip_attrs, addr_ok, copy_addr in *.
  destruct Hs as [Hs|Hs]; rewrite Hs in *; cbn [Z.eqb Pos.eqb].
  - change (attr_map [_; _] !! CTA_IPV4_SRC_) with (Some (src_ip t)).
    change (attr_map [_; _] !! CTA_IPV4_DST_) with (Some (dst_ip t)).
    change (attr_map [_; _] !! CTA_IPV6_SRC_) with (@None bytes).
    change (attr_map [_; _] !! CTA_IPV6_DST_) with (@None bytes). cbv beta iota. by rewrite Hs, <- E.
  - change (attr_map [_; _] !! CTA_IPV6_SRC_) with (Some (src_ip t)).
    change (attr_map [_; _] !! CTA_IPV6_DST_) with (Some (dst_ip t)). cbv beta iota. by rewrite Hs, <- E.
Qed.

Lemma be16_putbe16 v : 0 <= v < 2 ^ 16 -> be16 (putbe16 v) 0 = Ok v.
Proof. intros Hv. rewrite <- (app_nil_r (putbe16 v)). by apply (putbe16_be16 []). Qed.

Lemma attr_map_none l ty : ty ∉ (a_type <$> l) -> attr_map l !! ty = None.
Proof.
  intros Hn. unfold attr_map. apply not_elem_of_list_to_map_1. by rewrite <- list_fmap_compose.
Qed.
Lemma attr_map_eq a l ty : a_type a = ty -> attr_map (a :: l) !! ty = Some (a_val a).
Proof. intros H. apply (attr_map_app []); [done|apply not_elem_of_nil]. Qed.
Lemma attr_map_ne a l ty : a_type a <> ty -> attr_map (a :: l) !! ty = attr_map l !! ty.
Proof. intros H. unfold attr_map. cbn. by rewrite lookup_insert_ne. Qed.

Lemma tuple_proto_enc n t m : tuple_ok t -> nest_ok n t -> m !! CTA_TUPLE_PROTO_ = Some (enc_attrs (proto_attrs n t)) ->
  tuple_proto m = Ok (proto t, src_port t, dst_port t).
Proof.
  intros (_&_&Hsp&Hdp&Hn) Hnest Hm. destruct (proto_attrs_ok n t Hnest) as [Hok _]. unfold tuple_proto.
  rewrite Hm, parse_nla_enc by done. cbn [mbind outcome_bind]. destruct Hnest as (_&_&Hty&Hports&_).
  set (A := attr_map (proto_attrs n t)).
  assert (A1 : A !! CTA_PROTO_NUM_ = Some [chr (proto t)]) by (by apply attr_map_eq).
  assert (Hrest : forall ty, ty ∈ [CTA_PROTO_SRC_PORT_; CTA_PROTO_DST_PORT_] ->
    A !! ty = attr_map ((if n_ports n then [Attr 1 CTA_PROTO_SRC_PORT_ (putbe16 (src_port t)); Attr 1 CTA_PROTO_DST_PORT_ (putbe16 (dst_port t))]
                         else []) ++ n_proto n) !! ty).
  { intros ty Hin. unfold A, proto_attrs. apply attr_map_ne. cbn [a_type]. intros <-. unfold CTA_PROTO_NUM_ in Hin. set_solver. }
  unfold read_byte, read_port. rewrite A1, !Hrest by set_solver. change (1 <=? blen [chr (proto t)]) with true. cbv iota.
  rewrite rd_cons_0, u8_chr, Z.mod_small by lia. cbn [mbind outcome_bind].
  destruct (n_ports n); cbn [app].
  - rewrite (attr_map_eq _ _ CTA_PROTO_SRC_PORT_), (attr_map_ne _ _ CTA_PROTO_DST_PORT_), (attr_map_eq _ _ CTA_PROTO_DST_PORT_) by done. cbn [a_val].
    change (2 <=? blen (putbe16 _)) with true. cbv iota. by rewrite !be16_putbe16.
  - rewrite !attr_map_none by (apply Hty; set_solver). cbn [mbind outcome_bind]. by destruct (Hports eq_refl) as [-> ->].
Qed.

(** The tuple and the TCP state, among other attributes. *)
Lemma parse_tuple_enc n t l1 l2 : tuple_enc_ok t -> nest_ok n t -> Forall attr_ok (l1 ++ tuple_attr n t :: l2) ->
  CTA_TUPLE_ORIG_ ∉ (a_type <$> l1) ->
  parse_tuple (enc_attrs (l1 ++ tuple_attr n t :: l2)) CTA_TUPLE_ORIG_ = Ok (Some t).
Proof.
  intros Ht Hn Hall Hn1. destruct (tuple_nest_ok n t Ht Hn) as [Hnest _].
  unfold parse_tuple. rewrite parse_nla_enc by done. cbn [mbind outcome_bind].
  rewrite (attr_map_app l1 (tuple_attr n t) l2) by done. cbn [tuple_attr a_val].
  rewrite parse_nla_enc by done. cbn [mbind outcome_bind].
  rewrite (tuple_ips_enc t); [|done|by apply attr_map_eq]. cbn [mbind outcome_bind].
  rewrite (tuple_proto_enc n t); [|apply Ht|done|].
  2: { rewrite attr_map_ne by done. by apply attr_map_eq. }
  cbn [mbind outcome_bind]. destruct Ht as [(Hs&Hd&_) _]. unfold addr_ok in *.
  rewrite !(proj2 (Z.eqb_neq _ _)) by lia. by destruct t.
Qed.

Lemma parse_tcp_state_enc p st l1 l2 : pnest_ok p -> 0 <= st < 256 -> Forall attr_ok (l1 ++ protoinfo_attr p st :: l2) ->
  CTA_PROTOINFO_ ∉ (a_type <$> l1) ->
  parse_tcp_state (enc_attrs (l1 ++ protoinfo_attr p st :: l2)) = Ok st.
Proof.
  intros Hp Hst Hall Hn. destruct (protoinfo_nest_ok p st Hp) as (Htcp&Hpi&_). destruct Hp as (_&_&_&_&N1&N2&_).
  unfold parse_tcp_state. rewrite parse_nla_enc by done. cbn [mbind outcome_bind].
  rewrite (attr_map_app l1 (protoinfo_attr p st) l2) by done.
  cbn [protoinfo_attr a_val]. rewrite parse_nla_enc by done. cbn [mbind outcome_bind].
  rewrite (attr_map_app (p_before p)) by done. cbn [a_val]. rewrite parse_nla_enc by done. cbn [mbind outcome_bind]. unfold read_byte.
  rewrite (attr_map_app (p_tcp_before p)) by done. cbn [a_val]. change (1 <=? blen [chr st]) with true. cbv iota. by rewrite rd_cons_0, u8_chr, Z.mod_small by lia.
Qed.

Lemma parse_tcp_state_none l : Forall attr_ok l -> CTA_PROTOINFO_ ∉ (a_type <$> l) -> parse_tcp_state (enc_attrs l) = Ok 0.
Proof.
  intros Hl Hn. unfold parse_tcp_state. rewrite parse_nla_enc by done. cbn [mbind outcome_bind]. by rewrite attr_map_none.
Qed.

(** C28. Round trip of a conntrack message: the tuple of any IPv4 or IPv6
    connection, with ports or without, nested in attributes with their flags
    and padding as the kernel writes them, is read back, whatever attributes
    stand before and after it and beside its parts (the numbers of ICMP, a
    zone); and so is the TCP state of its protocol information, among the
    window scales and flags that the kernel puts beside it. *)
Theorem tuple_roundtrip n p t st l1 l2 l3 :
  tuple_enc_ok t -> nest_ok n t -> pnest_ok p -> 0 <= st < 256 -> Forall attr_ok (l1 ++ l2 ++ l3) ->
  CTA_TUPLE_ORIG_ ∉ (a_type <$> l1) -> CTA_PROTOINFO_ ∉ (a_type <$> l1 ++ l2) ->
  parse_tuple (enc_attrs (l1 ++ tuple_attr n t :: l2 ++ protoinfo_attr p st :: l3)) CTA_TUPLE_ORIG_ = Ok (Some t) /\
  parse_tcp_state (enc_attrs (l1 ++ tuple_attr n t :: l2 ++ protoinfo_attr p st :: l3)) = Ok st.
Proof.
  intros Ht Hn Hp Hst Hl Hn1 Hn2.
  assert (Hall : Forall attr_ok (l1 ++ tuple_attr n t :: l2 ++ protoinfo_attr p st :: l3)).
  { rewrite !Forall_app, !Forall_cons, !Forall_app, !Forall_cons in *. destruct Hl as (?&?&?).
    split_and!; [done|by apply tuple_nest_ok|done|by apply protoinfo_nest_ok|done]. }
  split; [by apply parse_tuple_enc|]. revert Hall.
  replace (l1 ++ tuple_attr n t :: l2 ++ protoinfo_attr p st :: l3)
    with ((l1 ++ tuple_attr n t :: l2) ++ protoinfo_attr p st :: l3) by (by rewrite <- app_assoc).
  intros Hall. apply parse_tcp_state_enc; [done..|]. rewrite !fmap_app, fmap_cons in *. cbn [tuple_attr a_type].
  rewrite !not_elem_of_app, not_elem_of_cons in *. by destruct Hn2.
Qed.

Definition demo_tuple : conn_tuple :=
  ConnTuple [chr 10; chr 0; chr 0; chr 2] [chr 1; chr 1; chr 1; chr 1] 51000 443 6.

(** What the kernel puts beside the state of a TCP connection. *)
Definition demo_pnest : pnest :=
  PNest [] [] [] [Attr 0 2 [chr 7]; Attr 0 3 [chr 7]; Attr 0 4 [chr 3; chr 0]; Attr 0 5 [chr 3; chr 0]].
(** An echo request, which has no ports. *)
Definition demo_icmp : conn_tuple := ConnTuple [chr 10; chr 0; chr 0; chr 2] [chr 1; chr 1; chr 1; chr 1] 0 0 1.
Definition demo_icmp_nest : nest := Nest false [Attr 1 4 [chr 0; chr 9]; Attr 0 5 [chr 8]; Attr 0 6 [chr 0]] [Attr 1 3 [chr 0; chr 1]].

Lemma demo_tuple_ok : tuple_enc_ok demo_tuple.
Proof.
  split; [|reflexivity]. split; [left; reflexivity|]. split; [left; reflexivity|].
  unfold demo_tuple. cbn [src_port dst_port proto]. lia.
Qed.
Lemma demo_icmp_ok : tuple_enc_ok demo_icmp.
Proof.
  split; [|reflexivity]. split; [left; reflexivity|]. split; [left; reflexivity|].
  unfold demo_icmp. cbn [src_port dst_port proto]. lia.
Qed.
Lemma plain_nest_ok t : nest_ok plain_nest t.
Proof. split; [constructor|]. split; [constructor|]. split; [intros; apply not_elem_of_nil|]. split; [done|]. vm_compute. discriminate. Qed.
Lemma demo_icmp_nest_ok : nest_ok demo_icmp_nest demo_icmp.
Proof.
  split; [repeat constructor; done|]. split; [repeat constructor; done|]. split.
  { intros ty Hty. apply (bool_decide_unpack _). rewrite !elem_of_cons, elem_of_nil in Hty. by destruct Hty as [->|[->|[->|[]]]]. }
  split; [done|]. vm_compute. discriminate.
Qed.
Lemma demo_pnest_ok : pnest_ok demo_pnest.
Proof.
  split; [constructor|]. split; [constructor|]. split; [constructor|]. split; [repeat constructor; done|].
  split; [apply not_elem_of_nil|]. split; [apply not_elem_of_nil|]. vm_compute. discriminate.
Qed.

Lemma tuple_roundtrip_witness :
  parse_tuple (enc_attrs ([] ++ tuple_attr demo_icmp_nest demo_icmp :: [Attr 0 3 (replicate 5 NUL)] ++ protoinfo_attr demo_pnest 3 :: []))
    CTA_TUPLE_ORIG_ = Ok (Some demo_icmp) /\
  parse_tcp_state (enc_attrs ([] ++ tuple_attr demo_icmp_nest demo_icmp :: [Attr 0 3 (replicate 5 NUL)] ++ protoinfo_attr demo_pnest 3 :: []))
    = Ok 3.
Proof.
  apply (tuple_roundtrip demo_icmp_nest demo_pnest demo_icmp 3 [] [Attr 0 3 (replicate 5 NUL)] []).
  - exact demo_icmp_ok.
  - exact demo_icmp_nest_ok.
  - exact demo_pnest_ok.
  - lia.
  - apply Forall_cons. split; [|apply Forall_nil_2]. unfold attr_ok. cbv. intuition discriminate.
  - cbv. intros H. inversion H.
  - cbv. intros H. inversion H as [|? ? ? H2]. inversion H2.
Defined.
