(* ===== verification/NetLinux.v ===== *)
(** The Linux connection tracer of c/net.c (its Linux half): the connection
    table, the local addresses, the reverse-DNS cache, the attribution of a
    connection to a process through /proc, the event handlers and the walk
    over the conntrack messages. *)
From S2P Require Import Prelude CLib Inet Common Os ChainTable NetAttr.

(** * Names *)

Definition tcp_state_names : list bytes :=
  ["NONE" : bytes; "SYN_SENT" : bytes; "SYN_RECV" : bytes; "ESTABLISHED" : bytes; "FIN_WAIT" : bytes;
   "CLOSE_WAIT" : bytes; "LAST_ACK" : bytes; "TIME_WAIT" : bytes; "CLOSE" : bytes; "LISTEN" : bytes;
   "MAX" : bytes; "IGNORE" : bytes].
Definition tcp_state_name (s : Z) : bytes :=
  if s <? 12 then default [] (tcp_state_names !! Z.to_nat s) else trunc 16 ("STATE" ++ fmt_u s).

Definition tuple_key (t : conn_tuple) : bytes :=
  trunc 160 (ip_str (src_ip t) ++ ":" ++ fmt_d (src_port t) ++ "|" ++
             ip_str (dst_ip t) ++ ":" ++ fmt_d (dst_port t) ++ "|" ++ fmt_d (proto t)).

Definition proto_str (p : Z) : bytes :=
  if p =? 6 then "TCP" else if p =? 17 then "UDP" else if p =? 1 then "ICMP" else trunc 16 ("IP" ++ fmt_u p).

Inductive direction := DIR_UNKNOWN | DIR_OUTBOUND | DIR_INBOUND.
#[export] Instance direction_eq_dec : EqDecision direction.
Proof. solve_decision. Defined.

Definition dir_arrow (d : direction) : bytes :=
  match d with
  | DIR_OUTBOUND => [chr 226; chr 134; chr 146]
  | DIR_INBOUND => [chr 226; chr 134; chr 144]
  | DIR_UNKNOWN => [chr 226; chr 134; chr 148]
  end.

(** * The connection table *)

Record conn_entry := ConnEntry {
  ce_key : bytes; ce_tuple : conn_tuple; ce_pid : Z; ce_comm : bytes;
  ce_dir : direction; ce_start_at : spec_float; ce_tcp_state : Z;
}.

(** FNV-1a in 32 bits. *)
Definition str_hash (s : bytes) : Z :=
  foldl (fun h c => u32 (Z.lxor h (u8 c) * 16777619)) 2166136261 s.
Definition CONNDB_BUCKETS : Z := 1024.
Definition conn_home (key : bytes) : Z := str_hash key mod CONNDB_BUCKETS.

Abbreviation conndb := (gmap Z (list conn_entry)).
Definition db_get (db : conndb) (key : bytes) : option conn_entry := ct_find ce_key conn_home db key.
(** The entry for the key, a zeroed one when it is new.  [calloc] does not
    fail. *)
Definition db_put (db : conndb) (key : bytes) : conn_entry * conndb :=
  match ct_find ce_key conn_home db key with
  | Some e => (e, db)
  | None =>
      let e := ConnEntry (trunc 160 key) tuple0 0 [] DIR_UNKNOWN (S754_zero false) 0 in
      (e, <[conn_home key := e :: ct_bucket db (conn_home key)]> db)
  end.
(** Writing the fields of an entry that is in the table. *)
Definition db_store (db : conndb) (e : conn_entry) : conndb := ct_store ce_key conn_home db e.
Definition db_delete (db : conndb) (key : bytes) : conndb := ct_delete ce_key conn_home db key.

(** * Local addresses *)

(** An interface address: none, IPv4, IPv6, another family. *)
Inductive ifaddr := IfNone | If4 (a : bytes) | If6 (a : bytes) | IfOther.
Definition MAX_LOCAL_IPS : nat := 256.
Definition ifaddr_text (i : ifaddr) : option bytes :=
  match i with
  | IfNone | IfOther => None
  | If4 a => Some (inet_ntop4 (u8 <$> a))
  | If6 a => let s := inet_ntop6 (u8 <$> a) in
             Some (match strchr s "%" with Some i => take i s | None => s end)
  end.
Fixpoint init_local_ips (l : list ifaddr) (ips : list bytes) : list bytes :=
  match l with
  | [] => ips
  | i :: l' =>
      match ifaddr_text i with
      | None => init_local_ips l' ips
      | Some s => if (MAX_LOCAL_IPS <=? length ips)%nat then ips
                  else init_local_ips l' (if bool_decide (s ∈ ips) then ips else ips ++ [s])
      end
  end.

(** The machine: the system's answers, the interfaces ([None]: [getifaddrs]
    fails), and the host name [getnameinfo] gives for the text of an address. *)
Record host := Host {
  h_os : os;
  h_ifaddrs : option (list ifaddr);
  h_resolve : bytes -> option bytes;
}.
Definition local_ips (h : host) : list bytes :=
  match h_ifaddrs h with Some l => init_local_ips l [] | None => [] end.
(** [pthread_once]: the addresses are asked for at the first use, [once] is
    [None] before it, and kept. *)
Definition local_once (h : host) (once : option (list bytes)) : list bytes := default (local_ips h) once.
Definition is_local_ip (ips : list bytes) (ip : bytes) : bool := bool_decide (ip_str ip ∈ ips).

(** * The reverse-DNS cache *)

Record dns_ent := DnsEnt { de_ip : bytes; de_name : bytes; de_launched : bool }.
Definition DNS_BUCKETS : Z := 256.
Definition dns_home (ip : bytes) : Z := str_hash ip mod DNS_BUCKETS.
Abbreviation dns_cache := (gmap Z (list dns_ent)).
Definition dns_find (c : dns_cache) (ip : bytes) : option dns_ent := ct_find de_ip dns_home c ip.
Definition dns_get_or_create (c : dns_cache) (ip : bytes) : dns_ent * dns_cache :=
  match dns_find c ip with
  | Some e => (e, c)
  | None => let e := DnsEnt (trunc 46 ip) [] false in
            (e, <[dns_home ip := e :: ct_bucket c (dns_home ip)]> c)
  end.
Definition dns_store (c : dns_cache) (e : dns_ent) : dns_cache := ct_store de_ip dns_home c e.

(** The thread that resolves one address. *)
Definition dns_worker (h : host) (ip : bytes) (c : dns_cache) : dns_cache :=
  let hostname := match h_resolve h ip with
                  | Some nb => trunc 256 (rtrim (fun x => eqc x ".") (trunc 256 nb))
                  | None => []
                  end in
  let '(e, c) := dns_get_or_create c ip in
  dns_store c (DnsEnt (de_ip e) (trunc 256 hostname) (de_launched e)).

(** The cached name ([] if none), the cache, whether a thread is started. *)
Definition async_reverse_lookup (ip : bytes) (c : dns_cache) : bytes * dns_cache * bool :=
  let found := dns_find c ip in
  let launched := match found with Some e => de_launched e | None => false end in
  let out := match found with Some e => trunc 256 (de_name e) | None => [] end in
  if launched then (out, c, false)
  else let '(e, c) := dns_get_or_create c ip in
       (out, dns_store c (DnsEnt (de_ip e) (de_name e) true), true).

(** * Options *)

Record ncfg := NCfg {
  watch_pids : list Z; show_close : bool; show_update : bool; n_show_user : bool; show_reverse : bool;
  ipv4_only : bool; ipv6_only : bool; outbound_only : bool; color_mode : bool;
}.

(** * Sockets in /proc *)

Record proc_entry := ProcEntry {
  local_ip : bytes; local_port : Z; remote_ip : bytes; remote_port : Z; inode : Z;
}.

(** The bytes of a word, least significant first. *)
Definition word_bytes (v : Z) : bytes :=
  [chr v; chr (Z.shiftr v 8); chr (Z.shiftr v 16); chr (Z.shiftr v 24)].
Definition parse_hex_ipv4 (s : bytes) : option bytes :=
  if (length s =? 8)%nat then
    let r := strtoul 16 s in
    match st_rest r with [] => Some (word_bytes (st_val r)) | _ => None end
  else None.
Fixpoint parse_hex_words (n : nat) (s : bytes) : option bytes :=
  match n with
  | O => Some []
  | S n' => let r := strtoul 16 (take 8 s) in
            match st_rest r with
            | [] => rest ← parse_hex_words n' (drop 8 s); Some (word_bytes (st_val r) ++ rest)
            | _ => None
            end
  end.
Definition parse_hex_ipv6 (s : bytes) : option bytes :=
  if (length s =? 32)%nat then parse_hex_words 4 s else None.
Definition parse_hex_port (s : bytes) : Z := Z.land (st_val (strtoul 16 s)) 65535.

Definition ips_eq (a b : bytes) : bool := (blen a =? blen b) && eqs a b.

Definition is_field_sep (c : byte) : bool := eqc c " " || eqc c "009" || eqc c "010".
Definition MAX_PROC_ENTRIES : nat := Z.to_nat 65536.

(** A line of /proc/net/tcp: [None] when it is skipped. *)
Definition proc_net_line (line : bytes) : option proc_entry :=
  let fields := take 16 (strtok is_field_sep (cstr line)) in
  if (length fields <? 10)%nat then None
  else
    la ← fields !! 1%nat;
    ra ← fields !! 2%nat;
    ino ← fields !! 9%nat;
    lc ← strchr la ":";
    rc ← strchr ra ":";
    let lh := take lc la in
    let rh := take rc ra in
    let mk a b := ProcEntry a (parse_hex_port (drop (S lc) la)) b (parse_hex_port (drop (S rc) ra))
                            (st_val (strtoul 10 ino)) in
    if (length lh =? 8)%nat then a ← parse_hex_ipv4 lh; b ← parse_hex_ipv4 rh; Some (mk a b)
    else if (length lh =? 32)%nat then a ← parse_hex_ipv6 lh; b ← parse_hex_ipv6 rh; Some (mk a b)
    else None.

Definition read_proc_net_file (o : os) (filename : bytes) : list proc_entry :=
  match os_read o filename with
  | None => []
  | Some s => take MAX_PROC_ENTRIES (omap proc_net_line (tail (fgets_all 1024 s)))
  end.

Definition is_outbound (t : conn_tuple) (e : proc_entry) : bool :=
  ips_eq (local_ip e) (src_ip t) && (local_port e =? src_port t) &&
  ips_eq (remote_ip e) (dst_ip t) && (remote_port e =? dst_port t).
Definition is_inbound (t : conn_tuple) (e : proc_entry) : bool :=
  ips_eq (local_ip e) (dst_ip t) && (local_port e =? dst_port t) &&
  ips_eq (remote_ip e) (src_ip t) && (remote_port e =? src_port t).
Definition is_local_src (t : conn_tuple) (e : proc_entry) : bool :=
  ips_eq (local_ip e) (src_ip t) && (local_port e =? src_port t).

Fixpoint scan_full (t : conn_tuple) (l : list proc_entry) : option (Z * direction) :=
  match l with
  | [] => None
  | e :: l' => if inode e =? 0 then scan_full t l'
               else if is_outbound t e then Some (inode e, DIR_OUTBOUND)
               else if is_inbound t e then Some (inode e, DIR_INBOUND)
               else scan_full t l'
  end.
Fixpoint scan_local (t : conn_tuple) (l : list proc_entry) : option (Z * direction) :=
  match l with
  | [] => None
  | e :: l' => if inode e =? 0 then scan_local t l'
               else if is_local_src t e then Some (inode e, DIR_OUTBOUND)
               else scan_local t l'
  end.
Fixpoint scan_files (o : os) (t : conn_tuple) (files : list bytes) : Z * direction :=
  match files with
  | [] => (0, DIR_UNKNOWN)
  | f :: files' =>
      let l := read_proc_net_file o f in
      match scan_full t l with
      | Some r => r
      | None => match (if proto t =? 17 then scan_local t l else None) with
                | Some r => r
                | None => scan_files o t files'
                end
      end
  end.
Definition find_inode_with_dir (o : os) (t : conn_tuple) : Z * direction :=
  if proto t =? 6 then scan_files o t ["/proc/net/tcp" : bytes; "/proc/net/tcp6" : bytes]
  else if proto t =? 17 then scan_files o t ["/proc/net/udp" : bytes; "/proc/net/udp6" : bytes]
  else (0, DIR_UNKNOWN).

(** [fgets] into [comm], the newlines at the end cut. *)
Definition read_comm_line (o : os) (cap : nat) (path : bytes) : bytes :=
  match os_read o path with
  | None => []
  | Some s => match fgets_all cap s with
              | [] => []
              | l :: _ => rtrim (fun c => eqc c "010") (cstr l)
              end
  end.

(** Whether the process has a descriptor open on the socket. *)
Fixpoint has_socket (o : os) (fddir target : bytes) (names : list bytes) : bool :=
  match names with
  | [] => false
  | n :: names' =>
      match n with
      | "."%char :: _ => has_socket o fddir target names'
      | _ => match readlink o 80 (trunc 320 (fddir ++ "/" ++ n)) with
             | Target b => if eqs (cstr b) target then true else has_socket o fddir target names'
             | _ => has_socket o fddir target names'
             end
      end
  end.
Fixpoint scan_procs (o : os) (target : bytes) (names : list bytes) : Z * bytes :=
  match names with
  | [] => (0, [])
  | n :: names' =>
      let r := strtol n in
      if negb (eqs (st_rest r) []) || (st_val r <=? 0) then scan_procs o target names'
      else
        let fddir := trunc 64 ("/proc/" ++ fmt_d (st_val r) ++ "/fd") in
        match os_dir o fddir with
        | None => scan_procs o target names'
        | Some fds =>
            if has_socket o fddir target fds
            then (i32 (st_val r), read_comm_line o 64 (trunc 64 (proc_path (st_val r) "comm")))
            else scan_procs o target names'
        end
  end.
Definition inode_to_pid (o : os) (ino : Z) : Z * bytes :=
  match os_dir o "/proc" with
  | None => (0, [])
  | Some names => scan_procs o (trunc 64 ("socket:[" ++ fmt_u ino ++ "]")) names
  end.

(** The process, its name and the direction, and the local addresses when they
    have been asked for. *)
Definition find_pid_and_dir (h : host) (once : option (list bytes)) (t : conn_tuple)
  : Z * bytes * direction * option (list bytes) :=
  let '(ino, dir) := find_inode_with_dir (h_os h) t in
  if ino =? 0 then
    let ips := local_once h once in
    (0, [], if is_local_ip ips (dst_ip t) then DIR_INBOUND
            else if is_local_ip ips (src_ip t) then DIR_OUTBOUND else dir, Some ips)
  else let '(pid, comm) := inode_to_pid (h_os h) ino in (pid, comm, dir, once).

(** * Ancestry *)

Definition stat_ppid (o : os) (pid : Z) : Z :=
  match os_read o (trunc 64 (proc_path pid "stat")) with
  | None => -1
  | Some s =>
      let data := take 8191 s in
      match strrchr data ")" with
      | None => -1
      | Some i =>
          match strtok is_field_sep (ltrim (fun c => eqc c " ") (cstr (drop (S i) data))) with
          | _ :: f1 :: _ => let r := strtol f1 in if st_conv r then i32 (st_val r) else -1
          | _ => -1
          end
      end
  end.

(** The loop of [is_descendant]: [seen] the processes visited, [room] the free
    places of the array [seen]. *)
Fixpoint descends (c : ncfg) (o : os) (room : nat) (p : Z) (seen : list Z) : bool :=
  if 1 <? p then
    if bool_decide (p ∈ seen) then false
    else
      match room with
      | O => false
      | S room' =>
          let ppid := stat_ppid o p in
          if ppid <=? 0 then false
          else if bool_decide (ppid ∈ watch_pids c) then true
          else descends c o room' ppid (p :: seen)
      end
  else false.
Definition is_descendant (c : ncfg) (o : os) (pid : Z) : bool := descends c o 256 pid [].

Definition is_watched (c : ncfg) (o : os) (pid : Z) : bool :=
  if pid <=? 0 then false
  else if bool_decide (pid ∈ watch_pids c) then true
  else is_descendant c o pid.
