(* ===== verification/NetEvents.v ===== *)
(** The handlers of c/net.c on Linux: the printed line, the reactions to new,
    updated and destroyed connections, and the walk over the messages of a
    receive buffer. *)
From S2P Require Import Prelude CLib Inet Common Os ChainTable NetAttr NetLinux.

(** * State *)

(** A printed line: what it is about and its text. *)
Inductive kind := New | Update | Closed.
#[export] Instance kind_eq_dec : EqDecision kind.
Proof. solve_decision. Defined.

Record line := Line {
  ln_tuple : conn_tuple; ln_pid : Z; ln_dir : direction; ln_kind : kind; ln_text : bytes;
}.

(** The connection table, the local addresses once they are known, the
    reverse-DNS cache, the resolver threads started so far, the printed
    lines. *)
Record nstate := NState {
  ns_conns : conndb; ns_local : option (list bytes); ns_dns : dns_cache; ns_threads : list bytes; ns_lines : list line;
}.

Section Handlers.
Context (c : ncfg) (h : host).

(** * Output *)

Definition fld (code s : bytes) : bytes := clr_text (color_mode c) code s.
Definition endpoint (ip : bytes) (port : Z) : bytes :=
  trunc 80 (pad_right 24 (trunc 64 (ip_str ip ++ ":" ++ fmt_d port))).
Definition marker (k : kind) (dir : direction) : bytes :=
  match k with
  | Closed => fld "31" [chr 195; chr 151]
  | Update => fld "35" [chr 226; chr 135; chr 146]
  | New => fld "36" (dir_arrow dir)
  end.
Definition event_text (t : conn_tuple) (pid : Z) (comm : bytes) (dir : direction) (k : kind)
    (hostname extra : bytes) : bytes :=
  (if 0 <? pid then fld "33" (trunc 16 (pad_left " " 5 (fmt_d pid))) else fld "2" "    ?") ++ " " ++
  (match comm with
   | [] => fld "2" (trunc 64 (pad_right 12 "?"))
   | _ => fld "96" (trunc 64 (pad_right 12 comm))
   end) ++
  (if n_show_user c && (0 <? pid)
   then let uname := procUser (h_os h) pid in
        fld (if eqs uname "root" then "91" else "92") (trunc 280 (" <" ++ uname ++ ">"))
   else []) ++ " " ++
  fld "2" (trunc 16 (pad_right 4 (proto_str (proto t)))) ++ " " ++
  fld "32" (endpoint (src_ip t) (src_port t)) ++ " " ++
  marker k dir ++ " " ++
  fld "33" (endpoint (dst_ip t) (dst_port t)) ++
  (match hostname with [] => [] | _ => fld "2" (trunc 300 (" [" ++ hostname ++ "]")) end) ++
  (match extra with [] => [] | _ => " " ++ fld "36" extra end) ++ ["010"%char].

Definition print_event (t : conn_tuple) (pid : Z) (comm : bytes) (dir : direction) (k : kind)
    (extra : bytes) (s : nstate) : nstate :=
  let ip := ip_str (if decide (dir = DIR_INBOUND) then src_ip t else dst_ip t) in
  if show_reverse c then
    let '(hostname, dns, started) := async_reverse_lookup ip (ns_dns s) in
    NState (ns_conns s) (ns_local s) dns (if started then ns_threads s ++ [ip] else ns_threads s)
           (ns_lines s ++ [Line t pid dir k (event_text t pid comm dir k hostname extra)])
  else NState (ns_conns s) (ns_local s) (ns_dns s) (ns_threads s)
              (ns_lines s ++ [Line t pid dir k (event_text t pid comm dir k [] extra)]).

(** A resolver thread stores what it has found. *)
Definition thread_done (ip : bytes) (s : nstate) : nstate :=
  NState (ns_conns s) (ns_local s) (dns_worker h ip (ns_dns s)) (ns_threads s) (ns_lines s).

(** * Handlers *)

Definition unwatched (pid : Z) : bool :=
  negb (bool_decide (watch_pids c = [])) && negb (is_watched c (h_os h) pid).
Definition hidden (dir : direction) : bool := outbound_only c && bool_decide (dir = DIR_INBOUND).

Definition set_conns (s : nstate) (db : conndb) : nstate :=
  NState db (ns_local s) (ns_dns s) (ns_threads s) (ns_lines s).

Definition set_local (s : nstate) (once : option (list bytes)) : nstate :=
  NState (ns_conns s) once (ns_dns s) (ns_threads s) (ns_lines s).

Definition handle_new (now : spec_float) (key : bytes) (orig : conn_tuple) (payload : bytes) (s : nstate)
  : outcome nstate :=
  let '(pid, comm, dir, once) := find_pid_and_dir h (ns_local s) orig in
  let s := set_local s once in
  if unwatched pid then Ok s
  else if hidden dir then Ok s
  else
    tcp_state ← (if proto orig =? 6 then parse_tcp_state payload else Ok 0);
    let '(e, db) := db_put (ns_conns s) key in
    let db := db_store db (ConnEntry (ce_key e) orig pid (trunc 64 comm) dir now tcp_state) in
    Ok (print_event orig pid comm dir New [] (set_conns s db)).

(** The process, name and direction recorded for a connection. *)
Definition recorded (ent : option conn_entry) : Z * bytes * direction :=
  match ent with
  | Some e => (ce_pid e, trunc 64 (ce_comm e), ce_dir e)
  | None => (0, [], DIR_UNKNOWN)
  end.

Definition set_tcp_state (e : conn_entry) (st : Z) : conn_entry :=
  ConnEntry (ce_key e) (ce_tuple e) (ce_pid e) (ce_comm e) (ce_dir e) (ce_start_at e) st.

(** [e2 = db_get(key); if (e2) e2->tcp_state = s]. *)
Definition refetch_state (db : conndb) (key : bytes) (st : Z) : conndb :=
  match db_get db key with Some e2 => db_store db (set_tcp_state e2 st) | None => db end.

Definition handle_update (key : bytes) (orig : conn_tuple) (payload : bytes) (s : nstate)
  : outcome nstate :=
  let '(pid, comm, dir) := recorded (db_get (ns_conns s) key) in
  if unwatched pid then Ok s
  else if hidden dir then Ok s
  else if proto orig =? 6 then
    st ← parse_tcp_state payload;
    Ok (print_event orig pid comm dir Update (trunc 16 (tcp_state_name st))
          (set_conns s (refetch_state (ns_conns s) key st)))
  else Ok (print_event orig pid comm dir Update [] s).

Definition handle_destroy (now : spec_float) (key : bytes) (orig : conn_tuple) (s : nstate) : nstate :=
  let ent := db_get (ns_conns s) key in
  let '(pid, comm, dir) := recorded ent in
  let s := set_conns s (db_delete (ns_conns s) key) in
  match ent with
  | None => s
  | Some e =>
      if unwatched pid then s
      else print_event orig pid comm dir Closed
             (trunc 32 (fmt_f 3 (f64_sub now (ce_start_at e)) ++ "s")) s
  end.

(** * Messages *)

Definition MSG_CT_NEW : Z := 256.
Definition MSG_CT_DELETE : Z := 258.
Definition NLM_F_CREATE_ : Z := 1024.
Definition NFGEN_MSG_SIZE : Z := 4.
Definition NLMSG_HDRLEN : Z := 16.

(** The families and protocols the options leave out. *)
Definition skipped (t : conn_tuple) : bool :=
  let is4 := blen (src_ip t) =? 4 in
  (ipv4_only c && negb is4) || (ipv6_only c && is4) || (negb (proto t =? 6) && negb (proto t =? 17)).

(** The dispatch on the type and the flags of a message. *)
Definition handle_msg (now : spec_float) (t flags : Z) (payload : bytes) (s : nstate) : outcome nstate :=
  tup ← parse_tuple payload CTA_TUPLE_ORIG_;
  match tup with
  | None => Ok s
  | Some orig =>
      if skipped orig then Ok s
      else
        let key := tuple_key orig in
        let is_new := t =? MSG_CT_NEW in
        let is_create := negb (Z.land flags NLM_F_CREATE_ =? 0) in
        if is_new && is_create then handle_new now key orig payload s
        else if is_new && negb is_create && show_update c then handle_update key orig payload s
        else if negb is_new && show_close c then Ok (handle_destroy now key orig s)
        else if negb is_new then Ok (set_conns s (db_delete (ns_conns s) key))
        else Ok s
  end.

(** [NLMSG_ALIGN] on [unsigned]. *)
Definition align_u32 (len : Z) : Z := Z.land (u32 (len + 3)) (u32 (Z.lnot 3)).

(** One message at [off], of which [mlen] bytes are announced. *)
Definition process_msg (now : spec_float) (data : bytes) (off mlen : Z) (s : nstate) : outcome nstate :=
  t ← le16 data (off + 4);
  flags ← le16 data (off + 6);
  if (t =? MSG_CT_NEW) || (t =? MSG_CT_DELETE) then
    let data_len := i32 mlen - NLMSG_HDRLEN in
    if data_len <? - 2 ^ 31 then Ub
    else if NFGEN_MSG_SIZE <=? data_len
    then payload ← sub data (off + NLMSG_HDRLEN + NFGEN_MSG_SIZE) (data_len - NFGEN_MSG_SIZE);
         handle_msg now t flags payload s
    else Ok s
  else Ok s.

(** [process_nl_msgs(data, len)]: [off] is the pointer, [len] the [int] that
    counts what is left.  Moving the pointer past the end of the buffer is
    undefined, and so is the overflow of [len].  [now off] is the clock when
    the message at [off] is handled. *)
Fixpoint nl_go (turns : nat) (now : Z -> spec_float) (data : bytes) (off len : Z) (s : nstate) : outcome nstate :=
  if len <? NLMSG_HDRLEN then Ok s
  else
    match turns with
    | O => Fuel
    | S turns' =>
        mlen ← le32 data off;
        if (mlen <? NLMSG_HDRLEN) || (len <? i32 mlen) then Ok s
        else
          s' ← process_msg (now off) data off mlen s;
          let aligned := align_u32 mlen in
          if len <=? i32 aligned then Ok s'
          else if blen data <? off + aligned then Ub
          else if 2 ^ 31 <=? len - i32 aligned then Ub
          else nl_go turns' now data (off + aligned) (len - i32 aligned) s'
    end.
Definition process_nl_msgs (now : Z -> spec_float) (data : bytes) (s : nstate) : outcome nstate :=
  nl_go (S (Z.to_nat (blen data / 16))) now data 0 (blen data) s.
End Handlers.
