(* ===== verification/NetProofs.v ===== *)
(** Properties of the Linux connection tracer: the message walk is safe on
    well framed buffers, and a length of 2^31 passes its test. *)
From S2P Require Import Prelude CLib Inet Common Os ChainTable NetAttr NetLinux NetEvents.

(** * The walk over messages *)

Section Walk.
Context (c : ncfg) (h : host).

Lemma handle_new_total now key orig payload s : exists s', handle_new c h now key orig payload s = Ok s'.
Proof.
  unfold handle_new. destruct (find_pid_and_dir h (ns_local s) orig) as [[[pid comm] dir] once].
  destruct (unwatched _ _ _); [eauto|]. destruct (hidden _ _); [eauto|].
  destruct (parse_tcp_state_total payload) as (st&Hst&_).
  destruct (proto orig =? 6); [rewrite Hst|]; cbn [mbind outcome_bind]; destruct (db_put _ _); eauto.
Qed.

Lemma handle_update_total key orig payload s : exists s', handle_update c h key orig payload s = Ok s'.
Proof.
  unfold handle_update. destruct (recorded _) as [[pid comm] dir].
  destruct (unwatched _ _ _); [eauto|]. destruct (hidden _ _); [eauto|].
  destruct (parse_tcp_state_total payload) as (st&Hst&_).
  destruct (proto orig =? 6); [rewrite Hst|]; cbn [mbind outcome_bind]; eauto.
Qed.

Lemma handle_msg_total now t flags payload s : exists s', handle_msg c h now t flags payload s = Ok s'.
Proof.
  unfold handle_msg. destruct (parse_tuple_total payload CTA_TUPLE_ORIG_) as (r&->&_).
  cbn [mbind outcome_bind]. destruct r as [orig|]; [|eauto]. destruct (skipped c orig); [eauto|].
  repeat match goal with |- context [if ?b then _ else _] => destruct b end;
    eauto using handle_new_total, handle_update_total.
Qed.

(** [framed data off]: the messages from [off] on announce lengths below
    [2^31], up to the end or to one that is too short or too long. *)
Inductive framed (data : bytes) : Z -> Prop :=
  | FramedEnd off : blen data - off < 16 -> framed data off
  | FramedStop off mlen : le32 data off = Ok mlen -> mlen < 2 ^ 31 ->
      mlen < 16 \/ blen data - off < mlen -> framed data off
  | FramedLast off mlen : le32 data off = Ok mlen -> mlen < 2 ^ 31 -> 16 <= mlen <= blen data - off ->
      blen data - off <= align_u32 mlen -> framed data off
  | FramedNext off mlen : le32 data off = Ok mlen -> mlen < 2 ^ 31 -> 16 <= mlen <= blen data - off ->
      framed data (off + align_u32 mlen) -> framed data off.

Lemma align_u32_small n : 0 <= n < 2 ^ 31 -> align_u32 n = (n + 3) / 4 * 4.
Proof.
  intros Hn. unfold align_u32. rewrite (wrap_small 32) by lia.
  change (u32 (Z.lnot 3)) with (Z.land (Z.lnot 3) (Z.ones 32)).
  rewrite Z.land_assoc, align4, Z.land_ones by lia. apply Z.mod_small. Z.div_mod_to_equations. lia.
Qed.

Lemma i32_small n : 0 <= n < 2 ^ 31 -> i32 n = n.
Proof. intros. apply (swrap_small 32); lia. Qed.

Lemma process_msg_total now data off mlen s : 0 <= off -> 16 <= blen data - off -> 0 <= mlen < 2 ^ 31 -> mlen <= blen data - off ->
  exists s', process_msg c h now data off mlen s = Ok s'.
Proof.
  intros Hoff Hlen Hm Hin. unfold process_msg.
  destruct (le16_safe data (off + 4)) as (t&->&_); [lia..|].
  destruct (le16_safe data (off + 6)) as (fl&->&_); [lia..|]. cbn [mbind outcome_bind].
  rewrite i32_small by lia. unfold NLMSG_HDRLEN. rewrite (proj2 (Z.ltb_ge (mlen - 16) _)) by lia.
  destruct (_ || _); [|eauto]. destruct (NFGEN_MSG_SIZE <=? _) eqn:E; [|eauto]. zbool. unfold NFGEN_MSG_SIZE in *.
  rewrite sub_ok, ok_bind by lia. apply handle_msg_total.
Qed.

Lemma nl_go_total turns now data off s : 0 <= off <= blen data -> blen data < 2 ^ 31 - 3 -> framed data off ->
  blen data - off < 16 * Z.of_nat turns ->
  exists s', nl_go c h turns now data off (blen data - off) s = Ok s'.
Proof.
  revert off s. induction turns as [|turns IH]; intros off s Hoff Hmax Hfr Ht; [lia|].
  cbn [nl_go]. unfold NLMSG_HDRLEN. destruct (blen data - off <? 16) eqn:E; zbool; [eauto|].
  destruct (le32_safe data off) as (mlen&Hrd&Hr); [lia..|]. rewrite Hrd. cbn [mbind outcome_bind].
  assert (Hm : mlen < 2 ^ 31) by (inversion Hfr; [lia|congruence..]).
  rewrite (i32_small mlen) by lia. destruct ((mlen <? 16) || _) eqn:E2; [eauto|]. zbool.
  destruct (process_msg_total (now off) data off mlen s) as (s1&->); [lia..|]. cbn [mbind outcome_bind].
  pose proof (align_u32_small mlen ltac:(lia)) as Ha.
  assert (mlen <= align_u32 mlen < mlen + 4) by (rewrite Ha; Z.div_mod_to_equations; lia).
  destruct (decide (align_u32 mlen < 2 ^ 31)).
  - rewrite (i32_small (align_u32 mlen)) by lia. destruct (_ <=? align_u32 mlen) eqn:E3; zbool; [eauto|].
    rewrite (proj2 (Z.ltb_ge (blen data) _)) by lia.
    rewrite (proj2 (Z.leb_gt (2 ^ 31) _)) by lia.
    replace (blen data - off - align_u32 mlen) with (blen data - (off + align_u32 mlen)) by lia.
    apply IH; [lia|done| |lia]. inversion Hfr; [lia|..].
    + assert (mlen0 = mlen) by congruence. subst. lia.
    + assert (mlen0 = mlen) by congruence. subst. lia.
    + assert (mlen0 = mlen) by congruence. by subst.
  - exfalso. lia.
Qed.
End Walk.

(** C18. Safety of the conntrack loop: on every receive buffer whose message
    headers announce lengths below [2^31] (up to the message the loop stops
    at), [process_nl_msgs] terminates, with a turn per sixteen bytes, and
    neither reads nor points outside of the buffer, whatever the payloads; each
    payload and each attribute that it takes lies inside of the buffer, or of
    the attribute around it (else it would be [Ub]). *)
Theorem process_nl_msgs_safe c h now data s :
  blen data < 2 ^ 31 - 3 -> framed data 0 -> exists s', process_nl_msgs c h now data s = Ok s'.
Proof.
  intros Hmax Hfr. pose proof (blen_nonneg data).
  pose proof (Z.mul_succ_div_gt (blen data) 16 ltac:(lia)).
  assert (0 <= blen data / 16) by (apply Z.div_pos; lia).
  pose proof (nl_go_total c h (S (Z.to_nat (blen data / 16))) now data 0 s) as Hgo.
  rewrite Z.sub_0_r in Hgo. apply Hgo; [lia|done|done|lia].
Qed.

(** A machine without interfaces or files, and the default options. *)
Definition demo_host : host := Host (Os (fun _ => None) (fun _ => LinkFails) (fun _ => None) (fun _ => None) (fun _ => None)) None (fun _ => None).
Definition demo_ncfg : ncfg := NCfg [] false false false false false false false false.
Definition demo_time : Z -> spec_float := fun _ => S754_zero false.
Definition nstate0 : nstate := NState ∅ None ∅ [] [].

(** A message of conntrack: header, family, attributes. *)
Definition enc_nl_msg (t flags : Z) (attrs : bytes) : bytes :=
  put32 (20 + blen attrs) ++ put16 t ++ put16 flags ++ put32 0 ++ put32 0 ++ replicate 4 NUL ++ attrs.
Definition demo_new : bytes := enc_nl_msg 256 1536 (enc_attrs [tuple_attr plain_nest demo_tuple]).

Lemma process_nl_msgs_safe_witness : exists s', process_nl_msgs demo_ncfg demo_host demo_time demo_new nstate0 = Ok s'.
Proof.
  apply (process_nl_msgs_safe demo_ncfg demo_host demo_time demo_new nstate0).
  - vm_compute. reflexivity.
  - apply (FramedLast demo_new 0 72); [vm_compute; reflexivity|lia| |]; vm_compute; intuition discriminate.
Defined.

Example demo_new_line :
  match process_nl_msgs demo_ncfg demo_host demo_time demo_new nstate0 with
  | Ok s => map ln_text (ns_lines s)
  | _ => []
  end = [bs "    ? ?            TCP  10.0.0.2:51000           " ++ [chr 226; chr 134; chr 148] ++
         bs " 1.1.1.1:443             " ++ ["010"%char]].
Proof. vm_compute. reflexivity. Qed.

(** C37. The lengths are compared as [int]: one sixteen-byte message that
    announces [2^32 - 16] bytes passes the checks and moves the pointer out of
    the buffer, and one that announces [2^32 - 2] bytes is walked for ever. *)
Theorem process_nl_msgs_length_bug c h now s turns :
  process_nl_msgs c h now (put32 (2 ^ 32 - 16) ++ replicate 12 NUL) s = Ub /\
  nl_go c h turns now (put32 (2 ^ 32 - 2) ++ replicate 12 NUL) 0 16 s = Fuel.
Proof.
  split; [reflexivity|]. induction turns as [|turns IH]; [reflexivity|]. exact IH.
Qed.
