(* ===== verification/NetSpec.v ===== *)
(** What the Linux connection tracer promises: the handlers implement a
    specification on a finite map of connections, -O records no inbound
    connection, a process is attributed through its ancestry, every address is
    resolved once. *)
From S2P Require Import Prelude CLib Inet Common Os ChainTable Table NetAttr NetLinux NetEvents NetProofs.

(** * The connection table as a finite map *)

Definition conn_rep (db : conndb) (m : gmap bytes conn_entry) : Prop := ct_rep ce_key conn_home db m.

Lemma db_get_rep db m key : conn_rep db m -> db_get db key = m !! key.
Proof. apply ct_find_rep. Qed.

Lemma conn_rep_key db m key e : conn_rep db m -> m !! key = Some e -> ce_key e = key.
Proof. intros Hr He. rewrite <- (db_get_rep db m key Hr) in He. by apply ct_find_key in He. Qed.

Lemma db_delete_rep db m key : conn_rep db m -> conn_rep (db_delete db key) (delete key m).
Proof. apply ct_delete_rep. Qed.

Lemma db_store_rep db m e : conn_rep db m -> is_Some (m !! ce_key e) ->
  conn_rep (db_store db e) (<[ce_key e := e]> m).
Proof. apply ct_store_rep. Qed.

Definition conn_entry0 (key : bytes) : conn_entry :=
  ConnEntry key tuple0 0 [] DIR_UNKNOWN (S754_zero false) 0.

Lemma db_put_rep db m key : conn_rep db m -> (length key < 160)%nat ->
  exists db', db_put db key = (default (conn_entry0 key) (m !! key), db') /\
    conn_rep db' (<[key := default (conn_entry0 key) (m !! key)]> m).
Proof.
  intros Hr Hk. unfold db_put. change (ct_find ce_key conn_home db key) with (db_get db key).
  rewrite (db_get_rep db m) by done. destruct (m !! key) as [e|] eqn:E; cbn [default].
  - exists db. split; [done|]. by rewrite insert_id.
  - assert (Ht : trunc 160 key = key) by (apply trunc_fits; lia). rewrite Ht.
    eexists. split; [done|]. by apply (ct_push_rep ce_key conn_home db m (conn_entry0 key)).
Qed.

(** The connection table is a keyed table: its entries are allocated, and its
    key field holds 159 bytes. *)
#[export] Instance conndb_table : Table conndb bytes conn_entry := {
  tb_key := ce_key;
  tb_fresh := conn_entry0;
  tb_cap := None;
  tb_valid key := (length key < 160)%nat;
  tb_find := db_get;
  tb_get db key := Some (db_put db key);
  tb_store db e := Some (db_store db e);
  tb_delete db key := Ok (db_delete db key);
}.

#[export] Instance conndb_laws : TableLaws conndb bytes conn_entry.
Proof.
  refine {| tb_rep := conn_rep |}; try done.
  - exact conn_rep_key.
  - exact db_get_rep.
  - intros db m key Hr Hk _. destruct (db_put_rep db m key Hr Hk) as (db'&H&?). exists db'.
    split; [exact (f_equal Some H)|done].
  - intros db m e Hr He. eexists. split; [done|]. by apply db_store_rep.
  - intros db m key Hr _. eexists. split; [done|]. by apply db_delete_rep.
Defined.

(** Creating the entry and filling it in. *)
Lemma db_put_store_rep db m key t pid comm dir now st : conn_rep db m -> (length key < 160)%nat ->
  let '(e, db') := db_put db key in
  conn_rep (db_store db' (ConnEntry (ce_key e) t pid comm dir now st))
           (<[key := ConnEntry key t pid comm dir now st]> m).
Proof.
  intros Hr Hk. destruct (db_put_rep db m key Hr Hk) as (db'&Hp&_). rewrite Hp.
  replace (ce_key (default _ _)) with key
    by (destruct (m !! key) as [x|] eqn:E; [simpl; by rewrite (conn_rep_key _ _ _ _ Hr E)|done]).
  set (e := ConnEntry _ _ _ _ _ _ _). pose proof (tb_update_law db m e) as H. destruct (H Hr Hk I) as (db2&Hu&Hr2).
  unfold tb_update in Hu. cbn in Hu. rewrite Hp in Hu. by injection Hu as <-.
Qed.

Lemma tuple_key_length t : (length (tuple_key t) < 160)%nat.
Proof. unfold tuple_key. apply trunc_length. lia. Qed.

Lemma refetch_state_rep db m key st : conn_rep db m ->
  conn_rep (refetch_state db key st) (alter (fun e => set_tcp_state e st) key m).
Proof.
  intros Hr. unfold refetch_state. rewrite (db_get_rep db m) by done. destruct (m !! key) as [e|] eqn:E.
  - pose proof (conn_rep_key _ _ _ _ Hr E) as Hk.
    replace (alter _ key m) with (<[ce_key (set_tcp_state e st) := set_tcp_state e st]> m).
    + apply db_store_rep; [done|]. cbn. rewrite Hk, E. eauto.
    + cbn. rewrite Hk. apply map_eq. intros k. destruct (decide (k = key)) as [->|Hne].
      * by rewrite lookup_insert_eq, lookup_alter_eq, E.
      * by rewrite lookup_insert_ne, lookup_alter_ne.
  - replace (alter _ key m) with m; [done|]. apply map_eq. intros k.
    destruct (decide (k = key)) as [->|Hne]; [by rewrite lookup_alter_eq, E|by rewrite lookup_alter_ne].
Qed.

(** * The handlers on the map *)

Section Spec.
Context (c : ncfg) (h : host) (now : spec_float).

(** The kind of a message, by its type and flags. *)
Definition msg_kind (t flags : Z) : kind :=
  if t =? MSG_CT_NEW then (if Z.land flags NLM_F_CREATE_ =? 0 then Update else New) else Closed.

(** What a line shows. *)
Record shown := Shown {
  sh_tuple : conn_tuple; sh_pid : Z; sh_comm : bytes; sh_dir : direction; sh_kind : kind; sh_extra : bytes;
}.

(** The connections and the local addresses; the new ones, and what is
    printed. *)
Definition spec_conn (k : kind) (orig : conn_tuple) (st : Z) (x : gmap bytes conn_entry * option (list bytes))
  : gmap bytes conn_entry * option (list bytes) * list shown :=
  let '(m, once) := x in
  let key := tuple_key orig in
  match k with
  | New =>
      let '(pid, comm, dir, once) := find_pid_and_dir h once orig in
      if unwatched c h pid || hidden c dir then (m, once, [])
      else (<[key := ConnEntry key orig pid (trunc 64 comm) dir now (if proto orig =? 6 then st else 0)]> m, once,
            [Shown orig pid comm dir New []])
  | Update =>
      let '(pid, comm, dir) := recorded (m !! key) in
      if negb (show_update c) || unwatched c h pid || hidden c dir then (m, once, [])
      else (if proto orig =? 6 then alter (fun e => set_tcp_state e st) key m else m, once,
            [Shown orig pid comm dir Update (if proto orig =? 6 then trunc 16 (tcp_state_name st) else [])])
  | Closed =>
      (delete key m, once,
       match m !! key with
       | Some e => if show_close c && negb (unwatched c h (ce_pid e))
                   then [Shown orig (ce_pid e) (trunc 64 (ce_comm e)) (ce_dir e) Closed
                           (trunc 32 (fmt_f 3 (f64_sub now (ce_start_at e)) ++ "s"))] else []
       | None => []
       end)
  end.

(** The line has the fields and the text of what it shows; the host name comes
    from the cache, and is empty without -r. *)
Definition line_shows (l : line) (x : shown) : Prop :=
  ln_tuple l = sh_tuple x /\ ln_pid l = sh_pid x /\ ln_dir l = sh_dir x /\ ln_kind l = sh_kind x /\
  exists hostname, (show_reverse c = false -> hostname = []) /\
    ln_text l = event_text c h (sh_tuple x) (sh_pid x) (sh_comm x) (sh_dir x) (sh_kind x) hostname (sh_extra x).

(** [s] stores the connections and the addresses of [x]. *)
Definition net_rep (s : nstate) (x : gmap bytes conn_entry * option (list bytes)) : Prop :=
  conn_rep (ns_conns s) x.1 /\ ns_local s = x.2.
(** [s'] stores what is in [r] and has printed the lines of [r] after [s]. *)
Definition follows (s : nstate) (r : gmap bytes conn_entry * option (list bytes) * list shown) (s' : nstate) : Prop :=
  net_rep s' r.1 /\ exists new, ns_lines s' = ns_lines s ++ new /\ Forall2 line_shows new r.2.

Lemma print_event_follows t pid comm dir k extra s x : net_rep s x ->
  follows s (x, [Shown t pid comm dir k extra]) (print_event c h t pid comm dir k extra s).
Proof.
  intros Hr. unfold print_event. destruct (show_reverse c) eqn:Hc.
  - destruct (async_reverse_lookup _ _) as [[hn dns] started]. split; [exact Hr|]. eexists. split; [done|].
    repeat constructor. exists hn. by rewrite Hc.
  - split; [exact Hr|]. eexists. split; [done|]. repeat constructor. by exists [].
Qed.

Lemma follows_refl s s' x : net_rep s' x -> ns_lines s' = ns_lines s -> follows s (x, []) s'.
Proof. intros Hr Hl. split; [done|]. exists []. split; [by rewrite app_nil_r|constructor]. Qed.

Lemma handle_new_spec orig payload st s m once :
  net_rep s (m, once) -> parse_tcp_state payload = Ok st ->
  exists s', handle_new c h now (tuple_key orig) orig payload s = Ok s' /\ follows s (spec_conn New orig st (m, once)) s'.
Proof.
  intros [Hr Ho] Hst. cbn [fst snd] in *. unfold handle_new, spec_conn. rewrite Ho.
  destruct (find_pid_and_dir h once orig) as [[[pid comm] dir] once'].
  assert (Hr' : net_rep (set_local s once') (m, once')) by done.
  destruct (unwatched c h pid); [eauto using follows_refl|].
  destruct (hidden c dir); [eauto using follows_refl|]. cbn [orb].
  set (st' := if proto orig =? 6 then st else 0).
  assert (E : (if proto orig =? 6 then parse_tcp_state payload else Ok 0) = Ok st')
    by (unfold st'; by destruct (proto orig =? 6)).
  rewrite E. cbn [mbind outcome_bind].
  pose proof (db_put_store_rep (ns_conns s) m (tuple_key orig) orig pid (trunc 64 comm) dir now st' Hr
    (tuple_key_length orig)) as Hput. cbn [ns_conns set_local].
  destruct (db_put (ns_conns s) (tuple_key orig)) as [e db]. eexists. split; [done|].
  by apply (print_event_follows orig pid comm dir New [] (set_conns (set_local s once') _)).
Qed.

Lemma handle_update_spec orig payload st s m once :
  net_rep s (m, once) -> parse_tcp_state payload = Ok st -> show_update c = true ->
  exists s', handle_update c h (tuple_key orig) orig payload s = Ok s' /\ follows s (spec_conn Update orig st (m, once)) s'.
Proof.
  intros Hn Hst Hu. pose proof Hn as [Hr Ho]. cbn [fst snd] in *. unfold handle_update, spec_conn. rewrite Hu. cbn [negb orb].
  rewrite (db_get_rep _ m) by done. destruct (recorded (m !! tuple_key orig)) as [[pid comm] dir].
  destruct (unwatched c h pid); [eauto using follows_refl|].
  destruct (hidden c dir); [eauto using follows_refl|]. cbn [orb].
  destruct (proto orig =? 6).
  - rewrite Hst. cbn [mbind outcome_bind]. eexists. split; [done|].
    apply (print_event_follows orig pid comm dir Update _ (set_conns s _)). split; [by apply refetch_state_rep|done].
  - eexists. split; [done|]. by apply print_event_follows.
Qed.

Lemma handle_destroy_spec orig st s m once : net_rep s (m, once) -> show_close c = true ->
  follows s (spec_conn Closed orig st (m, once)) (handle_destroy c h now (tuple_key orig) orig s).
Proof.
  intros [Hr Ho] Hc. cbn [fst snd] in *. unfold handle_destroy, spec_conn. rewrite Hc, (db_get_rep _ m) by done. cbn [andb].
  pose proof (db_delete_rep (ns_conns s) m (tuple_key orig) Hr) as Hd.
  assert (Hn : net_rep (set_conns s (db_delete (ns_conns s) (tuple_key orig))) (delete (tuple_key orig) m, once)) by done.
  destruct (m !! tuple_key orig) as [e|] eqn:E; cbn [recorded].
  - destruct (unwatched c h (ce_pid e)); cbn [negb]; [by apply follows_refl|].
    by apply (print_event_follows orig _ _ _ _ _ (set_conns s _)).
  - by apply follows_refl.
Qed.

Lemma handle_msg_follows t flags payload orig st s m once :
  net_rep s (m, once) -> t = MSG_CT_NEW \/ t = MSG_CT_DELETE ->
  parse_tuple payload CTA_TUPLE_ORIG_ = Ok (Some orig) -> skipped c orig = false ->
  parse_tcp_state payload = Ok st ->
  exists s', handle_msg c h now t flags payload s = Ok s' /\
    follows s (spec_conn (msg_kind t flags) orig st (m, once)) s'.
Proof.
  intros Hr Ht Htup Hskip Hst. unfold handle_msg, msg_kind. rewrite Htup. cbn [mbind outcome_bind]. rewrite Hskip.
  destruct Ht as [-> | ->].
  - rewrite Z.eqb_refl. destruct (Z.land flags NLM_F_CREATE_ =? 0); cbn [andb negb].
    + destruct (show_update c) eqn:Hu; [by apply handle_update_spec|].
      eexists. split; [done|]. unfold spec_conn. rewrite Hu.
      destruct (recorded _) as [[pid comm] dir]. by apply follows_refl.
    + by apply handle_new_spec.
  - replace (MSG_CT_DELETE =? MSG_CT_NEW) with false by done. cbn [andb negb].
    destruct (show_close c) eqn:Hc.
    + eexists. split; [done|]. by apply handle_destroy_spec.
    + eexists. split; [done|]. unfold spec_conn. rewrite Hc. cbn [andb].
      replace (match m !! _ with Some _ => [] | None => [] end) with (@nil shown) by (by destruct (m !! _)).
      destruct Hr as [Hr Ho]. apply follows_refl; [|done]. split; [by apply db_delete_rep|done].
Qed.
End Spec.

Lemma conn_rep_empty : conn_rep ∅ ∅.
Proof. apply ct_empty_rep. Qed.

(** * -O *)

Section Outbound.
Context (c : ncfg) (h : host).
Hypothesis Hout : outbound_only c = true.

Definition outward (e : conn_entry) : Prop := ce_dir e <> DIR_INBOUND.

(** No connection recorded or shown so far is inbound. *)
Definition no_inbound (s : nstate) : Prop :=
  (exists m, conn_rep (ns_conns s) m /\ map_Forall (fun _ e => outward e) m) /\
  Forall (fun l => ln_dir l <> DIR_INBOUND) (ns_lines s).

Lemma hidden_spec dir : hidden c dir = false -> dir <> DIR_INBOUND.
Proof using Hout. unfold hidden. rewrite Hout. cbn [andb]. intros H ->. by rewrite bool_decide_true in H. Qed.

Lemma recorded_dir (m : gmap bytes conn_entry) key : map_Forall (fun _ e => outward e) m -> (recorded (m !! key)).2 <> DIR_INBOUND.
Proof using. intros H. destruct (m !! key) as [e|] eqn:E; [exact (H _ _ E)|done]. Qed.

(** The specification keeps it. *)
Lemma spec_conn_outward now k orig st m once : map_Forall (fun _ e => outward e) m ->
  map_Forall (fun _ e => outward e) (spec_conn c h now k orig st (m, once)).1.1 /\
  Forall (fun x => sh_dir x <> DIR_INBOUND) (spec_conn c h now k orig st (m, once)).2.
Proof using Hout.
  intros Hm. destruct k; cbn [spec_conn].
  - destruct (find_pid_and_dir h once orig) as [[[pid comm] dir] once']. destruct (unwatched c h pid); cbn [orb]; [by split|].
    destruct (hidden c dir) eqn:Hd; [by split|]. apply hidden_spec in Hd. cbn [fst snd].
    split; [by apply map_Forall_insert_2|by repeat constructor].
  - pose proof (recorded_dir m (tuple_key orig) Hm) as Hd.
    destruct (recorded (m !! tuple_key orig)) as [[pid comm] dir].
    destruct (negb (show_update c) || unwatched c h pid || hidden c dir); [by split|]. cbn [fst snd] in *.
    split; [|by repeat constructor]. destruct (proto orig =? 6); [|done].
    intros key e. destruct (decide (key = tuple_key orig)) as [->|Hne].
    + rewrite lookup_alter_eq. destruct (m !! tuple_key orig) as [e0|] eqn:E; [|done]. intros [= <-]. exact (Hm _ _ E).
    + rewrite lookup_alter_ne by done. apply Hm.
  - cbn [fst snd]. split; [by apply map_Forall_delete|].
    destruct (m !! tuple_key orig) as [e|] eqn:E; [|constructor].
    destruct (_ && _); [|constructor]. constructor; [exact (Hm _ _ E)|constructor].
Qed.

Lemma follows_no_inbound s r s' : Forall (fun l => ln_dir l <> DIR_INBOUND) (ns_lines s) -> follows c h s r s' ->
  map_Forall (fun _ e => outward e) r.1.1 -> Forall (fun x => sh_dir x <> DIR_INBOUND) r.2 -> no_inbound s'.
Proof using.
  intros Hs [[Hr _] (new&E&Hl)] Hm Hi. split; [by exists r.1.1|]. rewrite E. apply Forall_app_2; [done|].
  eapply Forall2_Forall_l; [exact Hl|]. eapply Forall_impl; [exact Hi|]. intros x Hx l (_&_&Hd&_). by rewrite Hd.
Qed.

Lemma handle_msg_no_inbound now t flags payload s s' : t = MSG_CT_NEW \/ t = MSG_CT_DELETE ->
  no_inbound s -> handle_msg c h now t flags payload s = Ok s' -> no_inbound s'.
Proof using Hout.
  intros Ht Hs Hmsg. destruct (parse_tuple_total payload CTA_TUPLE_ORIG_) as (r&Htup&_).
  destruct r as [orig|].
  - destruct (skipped c orig) eqn:Hsk.
    + unfold handle_msg in Hmsg. rewrite Htup in Hmsg. cbn [mbind outcome_bind] in Hmsg. rewrite Hsk in Hmsg.
      by injection Hmsg as <-.
    + destruct (parse_tcp_state_total payload) as (st&Hst&_). pose proof Hs as [(m&Hr&Hm) Hl].
      destruct (handle_msg_follows c h now t flags payload orig st s m (ns_local s) (conj Hr eq_refl) Ht Htup Hsk Hst) as (s2&E&Hf).
      rewrite E in Hmsg. injection Hmsg as <-.
      destruct (spec_conn_outward now (msg_kind t flags) orig st m (ns_local s) Hm) as [Hm' Hl'].
      by eapply follows_no_inbound.
  - unfold handle_msg in Hmsg. rewrite Htup in Hmsg. cbn in Hmsg. by injection Hmsg as <-.
Qed.

Lemma process_msg_no_inbound now data off mlen s s' :
  no_inbound s -> process_msg c h now data off mlen s = Ok s' -> no_inbound s'.
Proof using Hout.
  intros Hs. unfold process_msg. intros H. apply bind_Ok in H as (t&_&H). apply bind_Ok in H as (fl&_&H).
  destruct ((t =? MSG_CT_NEW) || (t =? MSG_CT_DELETE)) eqn:E; [|by injection H as <-].
  destruct (_ <? - 2 ^ 31); [done|]. destruct (_ <=? _); [|by injection H as <-]. apply bind_Ok in H as (payload&_&H).
  eapply handle_msg_no_inbound; [|done|exact H]. apply orb_true_iff in E as [E|E]; zbool; auto.
Qed.

Lemma nl_go_no_inbound turns now data off len s s' :
  no_inbound s -> nl_go c h turns now data off len s = Ok s' -> no_inbound s'.
Proof using Hout.
  revert off len s. induction turns as [|turns IH]; intros off len s Hs; cbn [nl_go];
    destruct (len <? NLMSG_HDRLEN); try (by intros [= <-]).
  intros H. apply bind_Ok in H as (mlen&_&H). destruct (_ || _); [by injection H as <-|].
  apply bind_Ok in H as (s1&H1&H). pose proof (process_msg_no_inbound _ _ _ _ _ _ Hs H1) as Hs1.
  destruct (_ <=? _); [by injection H as <-|]. destruct (_ <? _); [done|]. destruct (_ <=? _); [done|].
  by eapply IH.
Qed.
End Outbound.

(** Reading buffer after buffer, each in its own state of the machine; and in
    between a resolver thread may store the name that it has found. *)
Inductive runs (c : ncfg) : nstate -> Prop :=
  | RunsStart : runs c nstate0
  | RunsBuffer h now data s s' : runs c s -> process_nl_msgs c h now data s = Ok s' -> runs c s'
  | RunsThread h ip s : runs c s -> runs c (thread_done h ip s).

(** An update of a connection that is not recorded tells nothing of its
    direction. *)
Lemma handle_update_unrecorded c h orig payload s s' :
  db_get (ns_conns s) (tuple_key orig) = None -> watch_pids c = [] ->
  handle_update c h (tuple_key orig) orig payload s = Ok s' ->
  exists l, ns_lines s' = ns_lines s ++ [l] /\ ln_tuple l = orig /\ ln_dir l = DIR_UNKNOWN /\ ln_kind l = Update.
Proof.
  intros Hdb Hw. unfold handle_update. rewrite Hdb. cbn [recorded]. unfold unwatched. rewrite bool_decide_true by done. cbn [negb andb].
  unfold hidden. rewrite (bool_decide_false (DIR_UNKNOWN = DIR_INBOUND)), andb_false_r by done.
  assert (Hp : forall extra s1, ns_lines s1 = ns_lines s -> exists l, ns_lines (print_event c h orig 0 [] DIR_UNKNOWN Update extra s1) = ns_lines s ++ [l] /\
    ln_tuple l = orig /\ ln_dir l = DIR_UNKNOWN /\ ln_kind l = Update).
  { intros extra s1 E. unfold print_event. destruct (show_reverse c); [destruct (async_reverse_lookup _ _) as [[hn dns] started]|];
      cbn [ns_lines]; rewrite E; by eexists. }
  destruct (proto orig =? 6); [|intros [= <-]; by apply Hp].
  intros H. apply bind_Ok in H as (st&_&[= <-]). by apply Hp.
Qed.


Definition outbound_ncfg : ncfg := NCfg [] true true false false false false true false.
(** The machine that the demonstration's connection goes to. *)
Definition inbound_host : host :=
  Host (h_os demo_host) (Some [If4 [chr 1; chr 1; chr 1; chr 1]]) (fun _ => None).
Definition demo_update : bytes := enc_nl_msg 256 0 (enc_attrs [tuple_attr plain_nest demo_tuple; protoinfo_attr demo_pnest 3]).
Definition hidden_state : nstate :=
  match process_nl_msgs outbound_ncfg inbound_host demo_time demo_new nstate0 with Ok s => s | _ => nstate0 end.


Example demo_update_line :
  match process_nl_msgs outbound_ncfg inbound_host demo_time demo_update hidden_state with
  | Ok s => map ln_text (ns_lines s)
  | _ => []
  end = [bs "    ? ?            TCP  10.0.0.2:51000           " ++ [chr 226; chr 135; chr 146] ++
         bs " 1.1.1.1:443              ESTABLISHED" ++ ["010"%char]].
Proof. vm_compute. reflexivity. Qed.
