(* ===== verification/Tables.v ===== *)
(** The keyed tables of the program against their interface: a run of the
    operations of each answers as the run of the same operations on a finite
    map. *)
From S2P Require Import Prelude CLib Inet Common Os ProbeTable ChainTable Table.
From S2P Require Import ExecLinux ExecProofs ExecMac ExecMacProofs NetAttr NetLinux NetEvents NetProofs NetSpec.

(** What a run of operations from the empty table does. *)
Definition runs_as_map {T K E} `{TableLaws T K E} (empty : T) (ops : list (tb_op K E)) : Prop :=
  exists t', tb_run empty ops = Ok ((map_run ∅ ops).1, t') /\ tb_rep t' (map_run ∅ ops).2.

Lemma empty_runs {T K E} `{TableLaws T K E} (empty : T) (ops : list (tb_op K E)) :
  tb_rep empty ∅ -> Forall op_valid ops -> has_room (pred (length ops)) -> runs_as_map empty ops.
Proof. intros Hr Hv Hs. apply tb_run_law; [done|done|]. by rewrite map_size_empty. Qed.

Lemma pred_room c n : 0 < c -> Z.of_nat n <= c -> Z.of_nat (pred n) < c.
Proof. lia. Qed.

(** C2. The three tables of the tracers implement finite maps.  However long a
    program creates and fills, looks up and removes entries, from the empty
    table, every look-up in the process database of the Linux tracer, in the one
    of the macOS tracer and in the connection table returns what the finite
    map with the same history holds; no operation fails.  For the two tables
    of fixed size, while the operations are no more than the slots; for the
    connection table, with keys its key field has room for. *)
Theorem tables_implement_maps (pids : list (tb_op Z pidEntry)) (macs : list (tb_op Z macEntry))
    (conns : list (tb_op bytes conn_entry)) :
  blen pids <= PIDDB_CAP -> blen macs <= MACDB_CAP ->
  Forall (fun op => match op with TUpdate e => (length (ce_key e) < 160)%nat | _ => True end) conns ->
  runs_as_map (pt_empty : piddb) pids /\ runs_as_map (pt_empty : macdb) macs /\ runs_as_map (∅ : conndb) conns.
Proof.
  intros Hp Hm Hc. unfold blen in *. split_and!; apply empty_runs.
  - split; [exact (pt_empty_wf _ _ _)|exact (pt_empty_abs _)].
  - apply Forall_forall. intros [] _; done.
  - apply (pred_room PIDDB_CAP); done.
  - split; [exact (pt_empty_wf _ _ _)|exact (pt_empty_abs _)].
  - apply Forall_forall. intros [] _; done.
  - apply (pred_room MACDB_CAP); done.
  - exact conn_rep_empty.
  - exact Hc.
  - exact I.
Qed.

Lemma tables_implement_maps_witness :
  runs_as_map (pt_empty : piddb) [TUpdate (PidEntry 30 1 0 None); TFind 30; TDelete 30; TFind 30] /\
  runs_as_map (pt_empty : macdb) [TUpdate (MacEntry 30 1 0 0 0 None 2); TFind 30] /\
  runs_as_map (∅ : conndb) [TUpdate (conn_entry0 "t:1"); TFind (bs "t:1"); TDelete (bs "t:2")].
Proof.
  apply tables_implement_maps; [vm_compute; discriminate..|].
  repeat (apply Forall_cons; split; [vm_compute; lia || exact I|]). apply Forall_nil_2.
Defined.
