(* ===== verification/NetText.v ===== *)
(** The text formats of the Linux connection tracer: the hexadecimal addresses
    and ports of /proc/net, its lines, and the keys of the connection table. *)
From S2P Require Import Prelude CLib Inet Common Os ChainTable NetAttr NetLinux.

(** * Hexadecimal *)

Definition is_hex (c : byte) : Prop := digit_val c < 16.
Definition hex_val (s : bytes) (acc : Z) : Z := foldl (fun a c => a * 16 + digit_val c) acc s.

Lemma read_digits_hex s : forall acc n, Forall is_hex s ->
  read_digits 16 s acc n = (hex_val s acc, (n + length s)%nat, []).
Proof.
  induction s as [|c s IH]; intros acc n Hs; cbn [read_digits length hex_val foldl]; [by rewrite Nat.add_0_r|].
  inv Hs. rewrite (proj2 (Z.ltb_lt _ _)) by done. rewrite IH by done. by rewrite Nat.add_succ_comm.
Qed.

Lemma hex_not_special c : is_hex c ->
  is_space c = false /\ c <> "-"%char /\ c <> "+"%char /\ c <> "x"%char /\ c <> "X"%char /\
  c <> ":"%char /\ is_field_sep c = false /\ c <> NUL.
Proof.
  intros Hc. unfold is_hex in Hc.
  assert (H : forallb (fun c => negb (digit_val c <? 16) ||
     (negb (is_space c) && negb (eqc c "-") && negb (eqc c "+") && negb (eqc c "x") && negb (eqc c "X") &&
      negb (eqc c ":") && negb (is_field_sep c) && negb (eqc c NUL))) (chr <$> seqZ 0 256) = true)
    by (vm_compute; reflexivity).
  rewrite forallb_forall in H.
  assert (Hin : In c (chr <$> seqZ 0 256)).
  { apply list_elem_of_In. rewrite <- (chr_u8 c). apply list_elem_of_fmap_2. apply elem_of_seqZ.
    pose proof (u8_range c). lia. }
  specialize (H c Hin). rewrite (proj2 (Z.ltb_lt _ _)) in H by done. cbn [negb orb] in H.
  repeat match goal with H : _ && _ = true |- _ => apply andb_true_iff in H; destruct H end.
  repeat match goal with H : negb _ = true |- _ => apply negb_true_iff in H end.
  repeat match goal with H : eqc _ _ = false |- _ => apply eqc_false in H end. done.
Qed.

Lemma strtoul_hex s : s <> [] -> Forall is_hex s -> hex_val s 0 < 2 ^ 64 ->
  strtoul 16 s = Strto (hex_val s 0) [] true false.
Proof.
  intros Hne Hs Hv. unfold strtoul. destruct s as [|c s]; [done|].
  pose proof (proj1 (Forall_cons _ _ _) Hs) as [Hc Hs'].
  destruct (hex_not_special c Hc) as (H1&H2&H3&_).
  cbn [ltrim]. rewrite H1. cbn [read_sign]. rewrite (proj2 (eqc_false c "-")), (proj2 (eqc_false c "+")) by done.
  change (16 =? 16) with true. cbv iota.
  assert (Hskip : skip_0x (c :: s) = c :: s).
  { unfold skip_0x. destruct s as [|x [|d r]]; [done|done|]. pose proof (proj1 (Forall_cons _ _ _) Hs') as [Hx _].
    destruct (hex_not_special x Hx) as (_&_&_&Hx1&Hx2&_).
    rewrite (proj2 (eqc_false x "x")), (proj2 (eqc_false x "X")) by done. by rewrite andb_false_r. }
  rewrite Hskip, read_digits_hex by done. cbn [Nat.add length].
  rewrite Z.gtb_ltb, (proj2 (Z.ltb_ge _ _)) by lia. done.
Qed.

(** ** What [%0wX] prints *)

Lemma hex_val_app a b acc : hex_val (a ++ b) acc = hex_val b (hex_val a acc).
Proof. apply foldl_app. Qed.

Lemma toupper_hex d : 0 <= d < 16 -> digit_val (toupper (digit_chr d)) = d.
Proof.
  intros Hd. assert (H : Forall (fun d => digit_val (toupper (digit_chr d)) = d) (seqZ 0 16))
    by (repeat constructor).
  rewrite Forall_forall in H. apply H, elem_of_seqZ. lia.
Qed.

Lemma fmt_x_hex v : 0 <= v -> Forall (fun c => exists d, 0 <= d < 16 /\ c = digit_chr d) (fmt_x v).
Proof. intros Hv. apply fmt_base_forall; [lia|done|]. eauto. Qed.

Lemma hex_val_toupper s : Forall (fun c => exists d, 0 <= d < 16 /\ c = digit_chr d) s ->
  forall acc, hex_val (toupper <$> s) acc = hex_val s acc.
Proof.
  induction 1 as [|c s (d&Hd&->) _ IH]; intros acc; [done|]. cbn [fmap list_fmap hex_val foldl].
  rewrite toupper_hex, digit_val_chr by done. apply IH.
Qed.

Lemma hex_val_zeros n s : hex_val (replicate n "0"%char ++ s) 0 = hex_val s 0.
Proof. induction n as [|n IH]; [done|]. exact IH. Qed.

Lemma fmt_x_val v : 0 <= v -> hex_val (fmt_x v) 0 = v.
Proof.
  intros Hv. destruct (read_digits_fmt 16 v [] ltac:(lia) Hv) as [k Hk]; [done|].
  rewrite app_nil_r in Hk. change (fmt_base 16 v) with (fmt_x v) in Hk. rewrite read_digits_hex in Hk.
  - congruence.
  - eapply Forall_impl; [by apply fmt_x_hex|]. intros c (d&Hd&->). unfold is_hex. rewrite digit_val_chr by lia. lia.
Qed.

Lemma fmt_0X_app w v : fmt_0X w v = replicate (w - length (fmt_x v)) "0"%char ++ (toupper <$> fmt_x v).
Proof.
  unfold fmt_0X, fmt_0x, pad_left. rewrite fmap_app, fmap_replicate. done.
Qed.

Lemma fmt_0X_hex w v : 0 <= v -> Forall is_hex (fmt_0X w v).
Proof.
  intros Hv. rewrite fmt_0X_app. apply Forall_app_2; [by apply Forall_replicate|]. rewrite Forall_fmap.
  eapply Forall_impl; [by apply fmt_x_hex|]. intros c (d&Hd&->). cbn. unfold is_hex. rewrite toupper_hex by done. lia.
Qed.

Lemma fmt_0X_val w v : 0 <= v -> hex_val (fmt_0X w v) 0 = v.
Proof.
  intros Hv. rewrite fmt_0X_app, hex_val_zeros, hex_val_toupper by (by apply fmt_x_hex). by apply fmt_x_val.
Qed.

Lemma fmt_0X_length w v : (0 < w)%nat -> 0 <= v < 16 ^ Z.of_nat w -> length (fmt_0X w v) = w.
Proof.
  intros Hw Hv. rewrite fmt_0X_app, length_app, length_replicate, length_fmap.
  pose proof (fmt_go_length 16 (S (Z.to_nat (Z.log2 v))) w v [] ltac:(lia) Hv Hw) as H. cbn [length] in H.
  unfold fmt_x, fmt_base. lia.
Qed.

Lemma strtoul_0X w v : (0 < w <= 16)%nat -> 0 <= v < 16 ^ Z.of_nat w ->
  strtoul 16 (fmt_0X w v) = Strto v [] true false.
Proof.
  intros Hw Hv. pose proof (fmt_0X_length w v ltac:(lia) Hv) as Hl.
  assert (16 ^ Z.of_nat w <= 16 ^ 16) by (apply Z.pow_le_mono_r; lia).
  rewrite strtoul_hex; [by rewrite fmt_0X_val by lia|..].
  - intros E. rewrite E in Hl. cbn in Hl. lia.
  - apply fmt_0X_hex. lia.
  - rewrite fmt_0X_val by lia. change (2 ^ 64) with (16 ^ 16). lia.
Qed.

(** ** Addresses and ports *)

(** The word the kernel prints for four bytes of an address, as a
    little-endian machine loads it. *)
Definition le_word (b : bytes) : Z := foldr (fun c acc => u8 c + 256 * acc) 0 b.
Fixpoint hex_words (n : nat) (b : bytes) : bytes :=
  match n with O => [] | S n' => fmt_0X 8 (le_word (take 4 b)) ++ hex_words n' (drop 4 b) end.
(** /proc/net/tcp prints one word, tcp6 four. *)
Definition hex_addr (b : bytes) : bytes := hex_words (length b / 4) b.

Lemma word_bytes_le b : length b = 4%nat -> word_bytes (le_word b) = b.
Proof.
  destruct b as [|a [|b [|c [|e []]]]]; try done. intros _. cbn [le_word foldr]. unfold word_bytes.
  pose proof (u8_range a). pose proof (u8_range b). pose proof (u8_range c). pose proof (u8_range e).
  rewrite !Z.shiftr_div_pow2 by lia. change (2 ^ 8) with 256. change (2 ^ 16) with 65536. change (2 ^ 24) with 16777216.
  set (v := u8 a + _). assert (Hv : v = u8 a + 256 * u8 b + 65536 * u8 c + 16777216 * u8 e) by (unfold v; lia).
  assert (E : forall x y, u8 y = x mod 256 -> chr x = y).
  { intros x y Hxy. rewrite <- (chr_u8 y), Hxy. unfold chr. by rewrite Z.mod_mod. }
  rewrite Hv. f_equal; [|f_equal; [|f_equal; [|f_equal]]]; apply E; Z.div_mod_to_equations; lia.
Qed.

Lemma le_word_range b : length b = 4%nat -> 0 <= le_word b < 16 ^ Z.of_nat 8.
Proof.
  destruct b as [|a [|b [|c [|e []]]]]; try done. intros _. cbn [le_word foldr].
  pose proof (u8_range a). pose proof (u8_range b). pose proof (u8_range c). pose proof (u8_range e).
  change (16 ^ Z.of_nat 8) with 4294967296. lia.
Qed.

Lemma parse_hex_words_enc n : forall b, length b = (4 * n)%nat ->
  length (hex_words n b) = (8 * n)%nat /\ parse_hex_words n (hex_words n b) = Some b.
Proof.
  induction n as [|n IH]; intros b Hb; cbn [hex_words parse_hex_words].
  - destruct b; [done|cbn in Hb; lia].
  - assert (Ht : length (take 4 b) = 4%nat) by (rewrite length_take; lia).
    destruct (IH (drop 4 b)) as [Hl Hp]; [rewrite length_drop; lia|].
    assert (H8 : length (fmt_0X 8 (le_word (take 4 b))) = 8%nat) by (apply fmt_0X_length; [lia|by apply le_word_range]).
    rewrite length_app, H8, Hl. split; [lia|].
    rewrite take_app_length' by done. rewrite drop_app_length' by done.
    rewrite strtoul_0X by (lia || by apply le_word_range). cbn [st_rest st_val].
    rewrite Hp. change (Some (word_bytes (le_word (take 4 b)) ++ drop 4 b) = Some b).
    by rewrite word_bytes_le, take_drop.
Qed.

Lemma parse_hex_ipv4_enc b : length b = 4%nat -> length (hex_addr b) = 8%nat /\ parse_hex_ipv4 (hex_addr b) = Some b.
Proof.
  intros Hb. unfold hex_addr. rewrite Hb. destruct (parse_hex_words_enc 1 b Hb) as [Hl Hp].
  change (4 / 4)%nat with 1%nat. split; [done|]. unfold parse_hex_ipv4. rewrite Hl. cbn [Nat.eqb Nat.mul].
  cbn [hex_words parse_hex_words] in *. rewrite app_nil_r in *. rewrite take_ge in Hp by lia.
  destruct (st_rest _); [exact Hp|done].
Qed.

Lemma parse_hex_ipv6_enc b : length b = 16%nat -> length (hex_addr b) = 32%nat /\ parse_hex_ipv6 (hex_addr b) = Some b.
Proof.
  intros Hb. unfold hex_addr. rewrite Hb. destruct (parse_hex_words_enc 4 b Hb) as [Hl Hp].
  change (16 / 4)%nat with 4%nat. split; [done|]. unfold parse_hex_ipv6. by rewrite Hl.
Qed.

Lemma parse_hex_port_enc p : 0 <= p < 2 ^ 16 -> parse_hex_port (fmt_0X 4 p) = p.
Proof.
  intros Hp. unfold parse_hex_port. rewrite strtoul_0X by (lia || done). cbn [st_val].
  change 65535 with (2 ^ 16 - 1). rewrite (land_mask p 16) by lia. by apply Z.mod_small.
Qed.

(** * Lines of /proc/net *)

Definition fields_line (l : list bytes) : bytes := mjoin ((fun f => " "%char :: f) <$> l) ++ ["010"%char].
Definition field_ok (f : bytes) : Prop := f <> [] /\ Forall (fun c => is_field_sep c = false /\ c <> NUL) f.

Lemma strtok_go_fields l : Forall field_ok l -> forall cur,
  strtok_go is_field_sep (fields_line l) (reverse cur) = (match cur with [] => [] | _ => [cur] end) ++ l.
Proof.
  unfold fields_line. induction 1 as [|f l [Hne Hf] _ IH]; intros cur.
  - cbn [fmap list_fmap mjoin list_join app strtok_go]. destruct cur as [|c cur]; [done|].
    rewrite reverse_cons. change (is_field_sep "010") with true. cbv iota.
    destruct (reverse cur ++ [c]) eqn:E; [by destruct (reverse cur)|]. rewrite <- E.
    by rewrite reverse_app, reverse_involutive.
  - rewrite fmap_cons. change (mjoin (?x :: ?y)) with (x ++ mjoin y). rewrite <- app_assoc. cbn [app strtok_go].
    change (is_field_sep " ") with true. cbv iota.
    assert (Hgo : strtok_go is_field_sep (f ++ mjoin ((fun f0 => " "%char :: f0) <$> l) ++ ["010"%char]) [] = f :: l).
    { rewrite strtok_go_run, app_nil_r by (eapply Forall_impl; [exact Hf|]; by intros ? []). rewrite IH. by destruct f. }
    rewrite Hgo. destruct cur as [|c cur]; [done|]. rewrite reverse_cons.
    destruct (reverse cur ++ [c]) eqn:E; [by destruct (reverse cur)|]. rewrite <- E.
    by rewrite reverse_app, reverse_involutive.
Qed.

Lemma strtok_fields l : Forall field_ok l -> strtok is_field_sep (cstr (fields_line l)) = l.
Proof.
  intros Hl. rewrite cstr_id; [exact (strtok_go_fields l Hl [])|].
  unfold fields_line. intros Hin. apply elem_of_app in Hin as [Hin|Hin]; [|set_solver].
  apply list_elem_of_join in Hin as (x&Hin&Hx). apply list_elem_of_fmap in Hx as (f&->&Hf).
  apply elem_of_cons in Hin as [?|Hin]; [done|].
  rewrite Forall_forall in Hl. destruct (Hl f Hf) as [_ Hc]. rewrite Forall_forall in Hc. by destruct (Hc NUL Hin).
Qed.

Lemma strtoul_fmt_u n : 0 <= n < 2 ^ 64 -> strtoul 10 (fmt_u n) = Strto n [] true false.
Proof.
  intros Hn. unfold strtoul. pose proof (fmt_u_digits n ltac:(lia)) as Hd.
  destruct (fmt_base_cons 10 n) as (c&r&E); [lia|lia|]. change (fmt_base 10 n) with (fmt_u n) in E.
  rewrite E in *. apply Forall_cons in Hd as [Hc _].
  assert (Hs : is_space c = false) by (by apply is_digit_not_space).
  cbn [ltrim]. rewrite Hs. cbn [read_sign].
  rewrite (proj2 (eqc_false c "-")), (proj2 (eqc_false c "+")) by (intros ->; done).
  change (10 =? 16) with false. cbv iota. rewrite <- E.
  destruct (read_digits_fmt 10 n [] ltac:(lia) ltac:(lia)) as [k Hk]; [done|]. rewrite app_nil_r in Hk.
  change (fmt_base 10 n) with (fmt_u n) in Hk. rewrite Hk.
  rewrite Z.gtb_ltb, (proj2 (Z.ltb_ge _ _)) by lia. done.
Qed.

Definition enc_end (ip : bytes) (port : Z) : bytes := hex_addr ip ++ ":" ++ fmt_0X 4 port.

(** A socket of /proc/net: the entry, and the fields that are not looked at:
    the number of the line, six fields, those after the inode. *)
Record sock := Sock { sk_sl : bytes; sk_mid : list bytes; sk_rest : list bytes; sk_entry : proc_entry }.
Definition sock_fields (s : sock) : list bytes :=
  let e := sk_entry s in
  sk_sl s :: enc_end (local_ip e) (local_port e) :: enc_end (remote_ip e) (remote_port e) ::
  sk_mid s ++ fmt_u (inode e) :: sk_rest s.
Definition enc_sock (s : sock) : bytes := fields_line (sock_fields s).
Definition sock_ok (s : sock) : Prop :=
  let e := sk_entry s in
  field_ok (sk_sl s) /\ length (sk_mid s) = 6%nat /\ Forall field_ok (sk_mid s) /\ Forall field_ok (sk_rest s) /\
  length (local_ip e) = length (remote_ip e) /\ (length (local_ip e) = 4%nat \/ length (local_ip e) = 16%nat) /\
  0 <= local_port e < 2 ^ 16 /\ 0 <= remote_port e < 2 ^ 16 /\ 0 <= inode e < 2 ^ 64.

Lemma hex_words_hex n : forall b, Forall is_hex (hex_words n b).
Proof.
  induction n as [|n IH]; intros b; cbn [hex_words]; [constructor|].
  apply Forall_app_2; [|apply IH]. apply fmt_0X_hex. clear. induction (take 4 b) as [|c l IH]; cbn [le_word foldr]; [lia|].
  pose proof (u8_range c). unfold le_word in IH. lia.
Qed.

Lemma enc_end_field ip port : 0 <= port -> field_ok (enc_end ip port).
Proof.
  intros Hp. unfold enc_end, field_ok. split; [by destruct (hex_addr ip)|].
  apply Forall_app_2; [|constructor; [done|]].
  - eapply Forall_impl; [apply hex_words_hex|]. intros c Hc. destruct (hex_not_special c Hc) as (_&_&_&_&_&_&?&?). done.
  - eapply Forall_impl; [by apply fmt_0X_hex|]. intros c Hc. destruct (hex_not_special c Hc) as (_&_&_&_&_&_&?&?). done.
Qed.

Lemma fmt_u_field n : 0 <= n -> field_ok (fmt_u n).
Proof.
  intros Hn. split.
  - destruct (fmt_base_cons 10 n) as (c&r&E); [lia|lia|]. unfold fmt_u. by rewrite E.
  - eapply Forall_impl; [by apply fmt_u_digits|]. intros c Hc.
    assert (Hx : is_hex c) by (unfold is_hex, digit_val; rewrite Hc; unfold is_digit in Hc; zbool; lia).
    destruct (hex_not_special c Hx) as (_&_&_&_&_&_&?&?). done.
Qed.

Lemma enc_end_split ip port : strchr (enc_end ip port) ":" = Some (length (hex_addr ip)) /\
  take (length (hex_addr ip)) (enc_end ip port) = hex_addr ip /\
  drop (S (length (hex_addr ip))) (enc_end ip port) = fmt_0X 4 port.
Proof.
  assert (Hn : ":"%char ∉ hex_addr ip).
  { intros Hin. pose proof (hex_words_hex (length ip / 4) ip) as H. rewrite Forall_forall in H.
    destruct (hex_not_special _ (H _ Hin)) as (_&_&_&_&_&?&_). done. }
  unfold enc_end. change (bs ":") with [":"%char]. cbn [app]. split; [by apply strchr_app|]. split.
  - by rewrite take_app_length.
  - rewrite <- Nat.add_1_r, drop_app_add'; done.
Qed.

Lemma proc_net_line_enc s : sock_ok s -> proc_net_line (enc_sock s) = Some (sk_entry s).
Proof.
  intros (Hsl&Hmid&Hfm&Hfr&Hlen&Hip&Hlp&Hrp&Hino). destruct s as [sl mid rest [lip lport rip rport ino]].
  cbn [sk_sl sk_mid sk_rest sk_entry local_ip local_port remote_ip remote_port inode] in *.
  unfold proc_net_line, enc_sock. rewrite strtok_fields.
  2: { unfold sock_fields. cbn [sk_sl sk_mid sk_rest sk_entry local_ip local_port remote_ip remote_port inode].
       repeat (constructor; [first [done|apply enc_end_field; lia]|]).
       apply Forall_app_2; [done|]. constructor; [apply fmt_u_field; lia|done]. }
  unfold sock_fields. cbn [sk_sl sk_mid sk_rest sk_entry local_ip local_port remote_ip remote_port inode].
  destruct mid as [|m1 [|m2 [|m3 [|m4 [|m5 [|m6 []]]]]]]; try done. cbn [app take length].
  rewrite (proj2 (Nat.ltb_ge _ _)) by lia.
  destruct (enc_end_split lip lport) as (L1&L2&L3). destruct (enc_end_split rip rport) as (R1&R2&R3).
  cbn [lookup list_lookup mbind option_bind]. rewrite L1, R1. cbn [mbind option_bind].
  rewrite L2, R2, L3, R3, !parse_hex_port_enc, strtoul_fmt_u by lia. cbn [st_val].
  destruct Hip as [Hip|Hip].
  - destruct (parse_hex_ipv4_enc lip Hip) as [Hl8 ->]. rewrite Hl8. cbn [Nat.eqb mbind option_bind].
    destruct (parse_hex_ipv4_enc rip ltac:(lia)) as [_ ->]. done.
  - destruct (parse_hex_ipv6_enc lip Hip) as [Hl8 ->]. rewrite Hl8. cbn [Nat.eqb mbind option_bind].
    destruct (parse_hex_ipv6_enc rip ltac:(lia)) as [_ ->]. done.
Qed.

Lemma sock_line_body s : sock_ok s -> exists l, enc_sock s = l ++ ["010"%char] /\ "010"%char ∉ l.
Proof.
  intros Hs. unfold enc_sock, fields_line. eexists. split; [done|].
  intros Hin. apply list_elem_of_join in Hin as (x&Hin&Hx). apply list_elem_of_fmap in Hx as (f&->&Hf).
  apply elem_of_cons in Hin as [?|Hin]; [done|].
  assert (Hok : field_ok f).
  { destruct Hs as (Hsl&_&Hfm&Hfr&_&_&Hlp&Hrp&Hino). unfold sock_fields in Hf. rewrite Forall_forall in Hfm, Hfr.
    rewrite !elem_of_cons, elem_of_app, elem_of_cons in Hf.
    destruct Hf as [->|[->|[->|[Hf|[->|Hf]]]]]; auto; [apply enc_end_field; lia|apply enc_end_field; lia|apply fmt_u_field; lia]. }
  destruct Hok as [_ Hc]. rewrite Forall_forall in Hc. by destruct (Hc _ Hin) as [Hsep _].
Qed.

(** Round trip of the socket tables: whatever the kernel lists (IPv4 or
    IPv6 addresses as little-endian words, hexadecimal ports, inodes, with any
    other columns), [read_proc_net_file] reads back, in order and without loss,
    up to 65536 sockets. *)
Theorem read_proc_net_file_roundtrip o f header socks :
  os_read o f = Some (header ++ ["010"%char] ++ mjoin (enc_sock <$> socks)) ->
  "010"%char ∉ header -> (S (length header) < 1024)%nat ->
  Forall (fun s => sock_ok s /\ (length (enc_sock s) < 1024)%nat) socks ->
  blen socks <= 65536 ->
  read_proc_net_file o f = sk_entry <$> socks.
Proof.
  intros Hf Hh Hhl Hs Hn. unfold read_proc_net_file. rewrite Hf.
  assert (Hls : exists ls, enc_sock <$> socks = (fun l => l ++ ["010"%char]) <$> ls /\
    Forall (fun l => "010"%char ∉ l /\ (S (length l) < 1024)%nat) ls).
  { clear Hf Hn. induction Hs as [|s socks [Hok Hl] _ (ls&E&Hls)]; [by exists []|].
    destruct (sock_line_body s Hok) as (l&El&Hnl). exists (l :: ls). rewrite !fmap_cons, El, E. split; [done|].
    constructor; [|done]. split; [done|]. rewrite El, length_app in Hl. cbn in Hl. lia. }
  destruct Hls as (ls&E&Hls).
  assert (Hall : fgets_all 1024 (header ++ ["010"%char] ++ mjoin (enc_sock <$> socks))
            = (header ++ ["010"%char]) :: (enc_sock <$> socks)).
  { rewrite E. rewrite app_assoc.
    exact (fgets_all_lines 1024 (header :: ls) ltac:(constructor; done)). }
  rewrite Hall. cbn [tail]. rewrite take_ge.
  - clear -Hs. induction Hs as [|s socks [Hok _] _ IH]; [done|]. rewrite !fmap_cons. cbn [omap list_omap].
    rewrite proc_net_line_enc by done. by f_equal.
  - assert (Ho : (length (omap proc_net_line (enc_sock <$> socks)) <= length (enc_sock <$> socks))%nat).
    { clear. induction (enc_sock <$> socks) as [|x l IH]; [done|]. cbn [omap list_omap]. destruct (proc_net_line x); cbn; lia. }
    rewrite length_fmap in Ho. unfold MAX_PROC_ENTRIES, blen in *. lia.
Qed.

Definition demo_sock : sock :=
  Sock "0:" ["0A" : bytes; "00000000:00000000" : bytes; "00:00000000" : bytes; "00000000" : bytes; "1000" : bytes; "0" : bytes]
       ["1" : bytes] (ProcEntry [chr 127; chr 0; chr 0; chr 1] 8080 [chr 0; chr 0; chr 0; chr 0] 0 12345).
Definition demo_proc : os :=
  Os (fun p => if eqs p "/proc/net/tcp" then Some (bs "  sl  local_address" ++ ["010"%char] ++ mjoin (enc_sock <$> [demo_sock])) else None)
     (fun _ => LinkFails) (fun _ => None) (fun _ => None) (fun _ => None).

Lemma field_ok_dec f : bool_decide (f <> []) && forallb (fun c => negb (is_field_sep c) && negb (eqc c NUL)) f = true ->
  field_ok f.
Proof.
  intros [Hne Hc]%andb_true_iff. apply bool_decide_eq_true in Hne. split; [done|].
  rewrite forallb_forall in Hc. apply Forall_forall. intros c Hin. apply list_elem_of_In, Hc in Hin.
  apply andb_true_iff in Hin as [H1 H2]. zbool. split; [done|]. by apply eqc_false in H2.
Qed.

Lemma read_proc_net_file_roundtrip_witness :
  read_proc_net_file demo_proc "/proc/net/tcp" = sk_entry <$> [demo_sock].
Proof.
  apply (read_proc_net_file_roundtrip demo_proc "/proc/net/tcp" "  sl  local_address" [demo_sock]).
  - reflexivity.
  - apply strchr_None. reflexivity.
  - vm_compute. lia.
  - apply Forall_cons. split; [|apply Forall_nil_2]. split.
    + split; [by apply field_ok_dec|]. split; [reflexivity|]. split; [repeat (constructor; [by apply field_ok_dec|]); constructor|].
      split; [repeat (constructor; [by apply field_ok_dec|]); constructor|]. split; [reflexivity|].
      split; [left; reflexivity|]. cbn [demo_sock sk_entry local_port remote_port inode]. lia.
    + vm_compute. lia.
  - vm_compute. discriminate.
Defined.

(** * Keys *)

Lemma fmt_u_short k n : (0 < k)%nat -> 0 <= n < 10 ^ Z.of_nat k -> (length (fmt_u n) <= k)%nat.
Proof. intros Hk Hn. pose proof (fmt_go_length 10 (S (Z.to_nat (Z.log2 n))) k n [] ltac:(lia) Hn Hk). cbn [length] in *. unfold fmt_u, fmt_base. lia. Qed.

Lemma inet_ntop4_short a : length a = 4%nat -> (length (inet_ntop4 (u8 <$> a)) <= 15)%nat.
Proof.
  intros Ha. destruct a as [|a0 [|a1 [|a2 [|a3 []]]]]; try done. cbn [fmap list_fmap inet_ntop4].
  change (bs ".") with ["."%char]. rewrite !length_app. cbn [length].
  assert (Hr : forall x, (length (fmt_u (u8 x)) <= 3)%nat).
  { intros x. apply fmt_u_short; [lia|]. pose proof (u8_range x). change (10 ^ Z.of_nat 3) with 1000. lia. }
  pose proof (Hr a0). pose proof (Hr a1). pose proof (Hr a2). pose proof (Hr a3). lia.
Qed.

Definition key_text (t : conn_tuple) : bytes :=
  ip_str (src_ip t) ++ ":" ++ fmt_d (src_port t) ++ "|" ++
  ip_str (dst_ip t) ++ ":" ++ fmt_d (dst_port t) ++ "|" ++ fmt_d (proto t).

Definition tuple4 (t : conn_tuple) : Prop :=
  length (src_ip t) = 4%nat /\ length (dst_ip t) = 4%nat /\
  0 <= src_port t < 2 ^ 16 /\ 0 <= dst_port t < 2 ^ 16 /\ 0 <= proto t < 256.

Lemma ip_str4 a : length a = 4%nat -> ip_str a = inet_ntop4 (u8 <$> a).
Proof. intros Ha. unfold ip_str, blen. by rewrite Ha. Qed.

Lemma fmt_d_u n : 0 <= n -> fmt_d n = fmt_u n.
Proof. intros Hn. unfold fmt_d. by rewrite (proj2 (Z.ltb_ge _ _)). Qed.

Lemma tuple_key4 t : tuple4 t -> tuple_key t = key_text t.
Proof.
  intros (Hs&Hd&Hsp&Hdp&Hp). unfold tuple_key. apply trunc_fits. fold (key_text t). unfold key_text.
  change (bs ":") with [":"%char]. change (bs "|") with ["|"%char]. rewrite !length_app. cbn [length].
  rewrite !ip_str4, !fmt_d_u by (done || lia).
  pose proof (inet_ntop4_short _ Hs). pose proof (inet_ntop4_short _ Hd).
  pose proof (fmt_u_short 5 (src_port t) ltac:(lia) ltac:(lia)). pose proof (fmt_u_short 5 (dst_port t) ltac:(lia) ltac:(lia)).
  pose proof (fmt_u_short 3 (proto t) ltac:(lia) ltac:(lia)). lia.
Qed.

(** The table tells IPv4 connections apart: two tuples with the same key
    are the same tuple; the key is never cut by its buffer. *)
Theorem tuple_key_injective t1 t2 : tuple4 t1 -> tuple4 t2 -> tuple_key t1 = tuple_key t2 -> t1 = t2.
Proof.
  intros H1 H2. rewrite !tuple_key4 by done. unfold key_text.
  destruct H1 as (Hs1&Hd1&Hsp1&Hdp1&Hp1), H2 as (Hs2&Hd2&Hsp2&Hdp2&Hp2).
  rewrite !ip_str4, !fmt_d_u by (done || lia). change (bs ":") with [":"%char]. change (bs "|") with ["|"%char]. cbn [app].
  intros E. apply sep_inj in E as [Es E]; [|by apply inet_ntop4_no_colon..].
  apply sep_inj in E as [Esp E]; [|by (apply fmt_u_not_in; [lia|done])..].
  apply sep_inj in E as [Ed E]; [|by apply inet_ntop4_no_colon..].
  apply sep_inj in E as [Edp Ep]; [|by (apply fmt_u_not_in; [lia|done])..].
  apply inet_ntop4_inj in Es, Ed; try done. apply fmt_u_inj in Esp, Edp, Ep; try lia.
  destruct t1, t2; cbn in *; congruence.
Qed.

Lemma tuple_key_injective_witness : demo_tuple = demo_tuple.
Proof.
  apply (tuple_key_injective demo_tuple demo_tuple); [| |reflexivity];
    (split; [reflexivity|]; split; [reflexivity|]; unfold demo_tuple; cbn [src_port dst_port proto]; lia).
Defined.
