(* ===== verification/NetArgs.v ===== *)
(** The command line of c/net.c: the scan of the flags on Linux, where the
    argument of a flag ends its cluster, and on macOS, where it does not. *)
From S2P Require Import Prelude CLib Common NetLinux.

(** How a scan ends, for the options [T]. *)
Inductive nres (T : Type) := NRun (o : T) (cmd : list bytes) | NUsage | NDie (msg : bytes).
Arguments NRun {T}. Arguments NUsage {T}. Arguments NDie {T}.

Definition blank (c : byte) : bool := eqc c " " || eqc c "009".
Definition word (a : bytes) : bool := (length a <? 2)%nat || negb (has_prefix "-" a).

(** The end of one cluster: the options and the remaining arguments. *)
Inductive clres (T : Type) := ClNext (o : T) (rest : list bytes) | ClUsage | ClDie (msg : bytes).
Arguments ClNext {T}. Arguments ClUsage {T}. Arguments ClDie {T}.

Section Scan.
Context {T : Type} (cluster : bytes -> list bytes -> T -> clres T).

(** The loop over the arguments. *)
Fixpoint scan_words (fuel : nat) (args : list bytes) (o : T) : outcome (nres T) :=
  match args with
  | [] => Ok (NRun o [])
  | a :: rest =>
      if word a then Ok (NRun o args)
      else match fuel with
           | O => Fuel
           | S f => match cluster (drop 1 a) rest o with
                    | ClNext o' rest' => scan_words f rest' o'
                    | ClUsage => Ok NUsage
                    | ClDie m => Ok (NDie m)
                    end
           end
  end.

(** A cluster consumes arguments and gives none back, so that their number is
    enough fuel. *)
Hypothesis cluster_length : forall s rest o o' rest', cluster s rest o = ClNext o' rest' -> (length rest' <= length rest)%nat.

Lemma scan_words_total fuel : forall args o, (length args <= fuel)%nat -> exists r, scan_words fuel args o = Ok r.
Proof using cluster_length.
  induction fuel as [|f IH]; intros [|a rest] o Hl; cbn [scan_words length] in *; eauto; try lia.
  destruct (word a); [eauto|]. destruct (cluster (drop 1 a) rest o) as [o' rest'| |] eqn:E; [|eauto..].
  apply IH. apply cluster_length in E. lia.
Qed.

Lemma scan_words_more fuel : forall args o k, (length args <= fuel)%nat ->
  scan_words (fuel + k) args o = scan_words fuel args o.
Proof using cluster_length.
  induction fuel as [|f IH]; intros [|a rest] o k Hl; cbn [length] in Hl; try lia; try (destruct k; reflexivity).
  cbn [scan_words Nat.add]. destruct (word a); [done|].
  destruct (cluster (drop 1 a) rest o) as [o' rest'| |] eqn:E; [|done..].
  apply IH. apply cluster_length in E. lia.
Qed.
End Scan.

(** One entry of [-p], cut at blanks by [trim]; [inr] is the message of
    [fatalf]. *)
Section Watch.
Context (alive : Z -> bool) (trim : bytes -> bytes) (checked : bool).
Definition MAX_PIDS : nat := 256.
Definition net_watch_add (w : list Z) (tok : bytes) : list Z + bytes :=
  match trim tok with
  | [] => inl w
  | s =>
      let r := strtol s in
      let pid := i32 (st_val r) in
      if negb (eqs (st_rest r) []) || (st_val r <=? 0) || (checked && (negb (st_conv r) || st_erange r))
      then inr ("-p: invalid PID: " ++ s)
      else if negb (alive pid)
      then inr ("-p " ++ fmt_d (if checked then pid else st_val r) ++ ": no such process")
      else inl (if (length w <? MAX_PIDS)%nat then w ++ [pid] else w)
  end.
Fixpoint net_watch_all (w : list Z) (toks : list bytes) : list Z + bytes :=
  match toks with
  | [] => inl w
  | t :: toks' => match net_watch_add w t with inl w' => net_watch_all w' toks' | inr m => inr m end
  end.
End Watch.

(** * Linux *)

Record lopts := LOpts {
  l_color : bool; l_errors : bool; l_out : option bytes; l_cfg : ncfg;
}.
Definition lopts0 : lopts := LOpts false true None (NCfg [] false false false false false false false false).

Definition l_switch (o : lopts) (ch : byte) : option lopts :=
  let '(LOpts co er out (NCfg w cl up us re v4 v6 ob cm)) := o in
  if eqc ch "c" then Some (LOpts true er out (NCfg w cl up us re v4 v6 ob cm))
  else if eqc ch "t" then Some (LOpts co er out (NCfg w true up us re v4 v6 ob cm))
  else if eqc ch "U" then Some (LOpts co er out (NCfg w cl true us re v4 v6 ob cm))
  else if eqc ch "u" then Some (LOpts co er out (NCfg w cl up true re v4 v6 ob cm))
  else if eqc ch "r" then Some (LOpts co er out (NCfg w cl up us true v4 v6 ob cm))
  else if eqc ch "4" then Some (LOpts co er out (NCfg w cl up us re true v6 ob cm))
  else if eqc ch "6" then Some (LOpts co er out (NCfg w cl up us re v4 true ob cm))
  else if eqc ch "O" then Some (LOpts co er out (NCfg w cl up us re v4 v6 true cm))
  else if eqc ch "Q" then Some (LOpts co false out (NCfg w cl up us re v4 v6 ob cm))
  else None.
Definition l_with_watch (o : lopts) (w : list Z) : lopts :=
  let '(LOpts co er out (NCfg _ cl up us re v4 v6 ob cm)) := o in LOpts co er out (NCfg w cl up us re v4 v6 ob cm).
Definition l_with_out (o : lopts) (f : bytes) : lopts := LOpts (l_color o) (l_errors o) (Some f) (l_cfg o).

(** The argument of [-p] or [-o] ends the cluster: the letters after it are
    skipped. *)
Fixpoint l_cluster (alive : Z -> bool) (s : bytes) (rest : list bytes) (o : lopts) : clres lopts :=
  match s with
  | [] => ClNext o rest
  | ch :: s' =>
      match l_switch o ch with
      | Some o' => l_cluster alive s' rest o'
      | None =>
          if eqc ch "p" then
            match rest with
            | [] => ClDie "flag -p requires an argument"
            | v :: rest' =>
                match net_watch_all alive (fun t => rtrim blank (ltrim blank t)) false
                        (watch_pids (l_cfg o)) (strtok is_comma v) with
                | inl w => ClNext (l_with_watch o w) rest'
                | inr m => ClDie m
                end
            end
          else if eqc ch "o" then
            match rest with [] => ClDie "flag -o requires an argument" | v :: rest' => ClNext (l_with_out o v) rest' end
          else if eqc ch "h" then ClUsage
          else ClDie ("unknown flag -" ++ [ch])
      end
  end.
Definition l_parse_args (alive : Z -> bool) (args : list bytes) : outcome (nres lopts) :=
  scan_words (l_cluster alive) (length args) args lopts0.

(** The configuration of the tracer; [child] is the process of the command. *)
Definition l_config (no_color : option bytes) (out : stream) (child : option Z) (o : lopts) : ncfg :=
  let '(NCfg w cl up us re v4 v6 ob _) := l_cfg o in
  let color := if l_color o then true else match no_color with None => is_terminal out | Some _ => false end in
  let w := match child with
           | Some p => if (length w <? MAX_PIDS)%nat then w ++ [i32 p] else w
           | None => w
           end in
  NCfg w cl up us re v4 v6 ob color.
(** The multicast groups of the subscription. *)
Definition l_groups (c : ncfg) : Z := Z.lor (Z.lor 1 4) (if show_update c then 2 else 0).

(** * macOS *)

Record mopts := MOpts {
  mo_color : bool; mo_user : bool; mo_errors : bool; mo_watch : list Z; mo_out : option bytes; mo_interval : Z;
}.
Definition mopts0 : mopts := MOpts false false true [] None 1000.

Fixpoint m_cluster (alive : Z -> bool) (s : bytes) (rest : list bytes) (o : mopts) : clres mopts :=
  match s with
  | [] => ClNext o rest
  | ch :: s' =>
      let '(MOpts co us er w out iv) := o in
      if eqc ch "c" then m_cluster alive s' rest (MOpts true us er w out iv)
      else if eqc ch "u" then m_cluster alive s' rest (MOpts co true er w out iv)
      else if eqc ch "Q" then m_cluster alive s' rest (MOpts co us false w out iv)
      else if existsb (eqc ch) ("tUr46O" : bytes) then m_cluster alive s' rest o
      else if eqc ch "p" then
        match rest with
        | [] => ClDie "flag -p requires an argument"
        | v :: rest' =>
            match net_watch_all alive (ltrim blank) true w (strtok is_comma v) with
            | inl w' => m_cluster alive s' rest' (MOpts co us er w' out iv)
            | inr m => ClDie m
            end
        end
      else if eqc ch "o" then
        match rest with
        | [] => ClDie "flag -o requires an argument"
        | v :: rest' => m_cluster alive s' rest' (MOpts co us er w (Some v) iv)
        end
      else if eqc ch "i" then
        match rest with
        | [] => ClDie "flag -i requires an argument (poll interval ms)"
        | v :: rest' =>
            let n := st_val (strtol v) in
            if n <=? 0 then ClDie ("-i: invalid interval: " ++ v)
            else m_cluster alive s' rest' (MOpts co us er w out (i32 n))
        end
      else if eqc ch "h" then ClUsage
      else ClDie ("unknown flag -" ++ [ch])
  end.
Definition m_parse_args (alive : Z -> bool) (args : list bytes) : outcome (nres mopts) :=
  scan_words (m_cluster alive) (length args) args mopts0.

(** * Both scans end *)

Lemma l_cluster_length alive s : forall rest o o' rest',
  l_cluster alive s rest o = ClNext o' rest' -> (length rest' <= length rest)%nat.
Proof.
  induction s as [|ch s IH]; intros rest o o' rest' H; cbn [l_cluster] in H; [by injection H as _ <-|].
  destruct (l_switch o ch); [by eapply IH|].
  repeat match type of H with
    | (if ?b then _ else _) = _ => destruct b
    | match ?r with _ => _ end = _ => destruct r
    end; try discriminate; injection H as _ <-; cbn [length]; lia.
Qed.

Lemma m_cluster_length alive s : forall rest o o' rest',
  m_cluster alive s rest o = ClNext o' rest' -> (length rest' <= length rest)%nat.
Proof.
  induction s as [|ch s IH]; intros rest o o' rest' H; cbn [m_cluster] in H; [by injection H as _ <-|].
  destruct o as [co us er w out iv].
  repeat match type of H with
    | (if ?b then _ else _) = _ => destruct b
    | match ?r with _ => _ end = _ => destruct r
    end; try discriminate; apply IH in H; cbn [length]; lia.
Qed.

(** On Linux the argument of a flag ends its cluster: a cluster of
    switches that ends in [-p] or [-o] sets the switches and takes the next
    word, and the letters written after that flag, whatever they are, have no
    effect; the switches themselves add up. *)
Theorem l_cluster_ends alive sw junk f rest o :
  Forall (fun c => c ∈ ("ctUur46OQ" : bytes)) sw ->
  l_cluster alive (sw ++ "o"%char :: junk) (f :: rest) o
  = ClNext (l_with_out (foldl (fun o ch => default o (l_switch o ch)) o sw) f) rest.
Proof.
  intros Hsw. revert o. induction Hsw as [|ch sw Hc _ IH]; intros o.
  - cbn [app l_cluster foldl]. destruct o as [co er out [w cl up us re v4 v6 ob cm]]. reflexivity.
  - cbn [app l_cluster foldl]. assert (Hs : exists o', l_switch o ch = Some o').
    { destruct o as [co er out [w cl up us re v4 v6 ob cm]]. cbn [bs String.list_ascii_of_string] in Hc.
      repeat (apply elem_of_cons in Hc as [->|Hc]; [eexists; reflexivity|]). by apply elem_of_nil in Hc. }
    destruct Hs as [o' ->]. by rewrite IH.
Qed.

Lemma l_cluster_ends_witness :
  l_cluster (fun _ => true) ("tO" ++ "o"%char :: "xyz") [bs "log"; bs "ls"] lopts0
  = ClNext (l_with_out (foldl (fun o ch => default o (l_switch o ch)) lopts0 ("tO" : bytes)) "log") [bs "ls"].
Proof.
  apply (l_cluster_ends (fun _ => true) "tO" "xyz" "log" [bs "ls"] lopts0).
  repeat (apply Forall_cons; split; [cbn; repeat (apply elem_of_cons; first [left; reflexivity|right])|]). apply Forall_nil_2.
Defined.

(** The scans return a result. *)
Lemma l_parse_args_total alive args : exists r, l_parse_args alive args = Ok r.
Proof. apply scan_words_total; [|done]. apply l_cluster_length. Qed.
Lemma m_parse_args_total alive args : exists r, m_parse_args alive args = Ok r.
Proof. apply scan_words_total; [|done]. apply m_cluster_length. Qed.
