(* ===== verification/NetMac.v ===== *)
(** c/net.c on macOS: the set of the connections seen so far, the addresses as
    lsof prints them, the scan of its output and the printed lines. *)
From S2P Require Import Prelude CLib Inet Common ProbeTable.

(** * Connections seen *)

(** The identity of a connection: its process, its protocol, its ends. *)
Record conn := Conn {
  cn_pid : Z; cn_proto : bytes; cn_src : bytes; cn_sport : Z; cn_dst : bytes; cn_dport : Z;
}.

(** FNV-64, of which the low 32 bits are kept. *)
Definition fnv_step (h v : Z) : Z := u64 (Z.lxor h v * 1099511628211).
Definition fnv_str (h : Z) (s : bytes) : Z := foldl (fun h c => fnv_step h (u8 c)) h s.
Definition net_hash (k : conn) : Z :=
  let h := fnv_str 1469598103934665603 (cn_proto k) in
  let h := fnv_step h (u32 (cn_pid k)) in
  let h := fnv_str h (cn_src k) in
  let h := fnv_step h (u32 (cn_sport k)) in
  let h := fnv_str h (cn_dst k) in
  u32 (fnv_step h (u32 (cn_dport k))).

(** An entry: the hash and the connection; what the search compares. *)
Definition seen_key : Type := Z * (Z * bytes * bytes * Z * bytes * Z).
Definition key_of (hash : Z) (k : conn) : seen_key :=
  (hash, (cn_pid k, cn_proto k, cn_src k, cn_sport k, cn_dst k, cn_dport k)).
(** What an entry stores of the strings. *)
Definition stored (hash : Z) (k : conn) : seen_key :=
  key_of hash (Conn (cn_pid k) (trunc 8 (cn_proto k)) (trunc 64 (cn_src k)) (cn_sport k) (trunc 64 (cn_dst k)) (cn_dport k)).

Definition NETSEEN_BITS : Z := 14.  (* NETSEEN_CAP = 16384 *)
Definition seen_home (k : seen_key) : Z := Z.land k.1 (2 ^ NETSEEN_BITS - 1).
Abbreviation seen_table := (@ptable seen_key).

Definition seen_id (e : seen_key) : seen_key := e.

(** True when the connection was seen before, or the table is full; otherwise
    it is inserted. *)
Definition net_seen_check_insert (hash : Z) (k : conn) (t : seen_table) : bool * seen_table :=
  match probe seen_id seen_home NETSEEN_BITS (pt_slots t) (key_of hash k) with
  | Hit _ => (true, t)
  | Full => (true, t)
  | Hole j => (false, PTable (<[j := stored hash k]> (pt_slots t)) (pt_len t + 1))
  end.

(** * Addresses *)

(** ["src->dst"]; a socket that listens has no arrow. *)
Definition split_conn (body : bytes) : bytes * bytes :=
  match strstr body "->" with
  | Some i => (trunc 64 (take i body), trunc 64 (drop (i + 2) body))
  | None => (trunc 64 body, [])
  end.

Definition split_host_port (s : bytes) : bytes * Z :=
  match s with
  | [] => ([], 0)
  | c :: _ =>
      if eqs s "*:*" then ([], 0)
      else if eqc c "[" then
        match strstr s "]:" with
        | None => ([], 0)
        | Some i => (trunc 64 (take (i - 1) (drop 1 s)), atoi (drop (i + 2) s))
        end
      else
        match strrchr s ":" with
        | None => (trunc 64 s, 0)
        | Some i =>
            let ip := trunc 64 (take i s) in
            (if eqs ip "*" then [] else ip,
             match drop (S i) s with "*"%char :: _ => 0 | p => atoi p end)
        end
  end.

Definition join_host_port (ip : bytes) (port : Z) (cap : nat) : bytes :=
  trunc cap
    (match ip with
     | [] => "*:" ++ fmt_d port
     | _ => match strchr ip ":" with
            | Some _ => "[" ++ ip ++ "]:" ++ fmt_d port
            | None => ip ++ ":" ++ fmt_d port
            end
     end).

(** * The command of a scan *)

(** The list of processes, written into [pidlist] after [w] bytes; [Ub] when
    the terminator is written past its end. *)
Fixpoint pidlist_go (first : bool) (pids : list Z) (w : Z) : outcome bytes :=
  match pids with
  | [] => if 2048 <=? w then Ub else Ok []
  | p :: pids' =>
      let sep : bytes := if first then [] else "," in
      let w := w + blen sep in
      if 2048 <=? w + blen (fmt_d p) then
        if 2048 <=? w then Ub
        else Ok sep
      else r ← pidlist_go false pids' (w + blen (fmt_d p)); Ok (sep ++ fmt_d p ++ r)
  end.
Definition lsof_argv (pids : list Z) : outcome (list bytes) :=
  let base := [bs "/usr/sbin/lsof"; bs "-nP"; bs "-i"; bs "-F"; bs "pcLPnu"] in
  match pids with
  | [] => Ok base
  | _ => l ← pidlist_go true pids 0; Ok (base ++ [bs "-a"; bs "-p"; l])
  end.

(** * Output *)

Record mcfg := MCfg { mc_color : bool; mc_showUser : bool; mc_pwname : Z -> option bytes }.

Definition net_user_of (c : mcfg) (uid : Z) : bytes :=
  match mc_pwname c uid with Some n => trunc 64 n | None => trunc 64 (fmt_u uid) end.

Definition ellipsis : bytes := [chr 226; chr 128; chr 166].

Definition net_emit (c : mcfg) (comm : bytes) (uid : Z) (k : conn) : bytes :=
  let cm := match comm with [] => bs "?" | _ => comm end in
  let trimmed := if (12 <? length cm)%nat then trunc 32 (take 11 cm ++ ellipsis) else trunc 32 (pad_right 12 cm) in
  let nc := clr_text (mc_color c) in
  pad_left " " 7 (fmt_d (cn_pid k)) ++ " " ++ nc "96" trimmed ++
  (if mc_showUser c
   then let u := net_user_of c uid in nc (if eqs u "root" then "91" else "92") (trunc 80 (" <" ++ u ++ ">"))
   else []) ++ " " ++
  nc "2" (pad_right 4 (cn_proto k)) ++ " " ++
  nc "32" (trunc 96 (pad_right 30 (join_host_port (cn_src k) (cn_sport k) 80))) ++ " " ++
  (if bool_decide (cn_dst k = []) && (cn_dport k =? 0)
   then nc "2" [chr 226; chr 128; chr 162] else nc "36" [chr 226; chr 134; chr 146]) ++ " " ++
  nc "33" (trunc 96 (pad_right 30 (join_host_port (cn_dst k) (cn_dport k) 80))) ++ ["010"%char].

(** * The scan *)

(** The variables of the loop, the table, the connections printed. *)
Record scan_st := ScanSt {
  sc_pid : Z; sc_uid : Z; sc_comm : bytes; sc_proto : bytes; sc_seen : seen_table; sc_out : list (bytes * Z * conn);
}.

(** The connection of an [n] line. *)
Definition line_conn (pid : Z) (proto body : bytes) : conn :=
  let '(src, dst) := split_conn body in
  let '(sip, sport) := split_host_port src in
  let '(dip, dport) := split_host_port dst in
  Conn pid proto sip sport dip dport.

Definition name_line (seedOnly : bool) (body : bytes) (s : scan_st) : scan_st :=
  match body with
  | [] => s
  | b :: _ =>
      if eqc b "/" || eqs (sc_proto s) [] then s
      else
        let k := line_conn (sc_pid s) (sc_proto s) body in
        if (cn_sport k =? 0) && (cn_dport k =? 0) then s
        else
          let '(already, seen) := net_seen_check_insert (net_hash k) k (sc_seen s) in
          ScanSt (sc_pid s) (sc_uid s) (sc_comm s) (sc_proto s) seen
            (if already || seedOnly then sc_out s else sc_out s ++ [(sc_comm s, sc_uid s, k)])
  end.

Definition scan_line (seedOnly : bool) (s : scan_st) (raw : bytes) : scan_st :=
  match rtrim is_eol (cstr raw) with
  | [] | [_] => s
  | tag :: val =>
      if eqc tag "p" then ScanSt (atoi val) 0 (sc_comm s) [] (sc_seen s) (sc_out s)
      else if eqc tag "c" then ScanSt (sc_pid s) (sc_uid s) (trunc 64 val) (sc_proto s) (sc_seen s) (sc_out s)
      else if eqc tag "u" then ScanSt (sc_pid s) (u32 (st_val (strtoul 10 val))) (sc_comm s) (sc_proto s) (sc_seen s) (sc_out s)
      else if eqc tag "f" then ScanSt (sc_pid s) (sc_uid s) (sc_comm s) [] (sc_seen s) (sc_out s)
      else if eqc tag "P" then ScanSt (sc_pid s) (sc_uid s) (sc_comm s) (trunc 8 val) (sc_seen s) (sc_out s)
      else if eqc tag "n" then name_line seedOnly val s
      else s
  end.

(** [net_scan] on the output of lsof: the new table and the printed text.
    [None]: the pipe or the process cannot be created. *)
Definition net_scan (c : mcfg) (seedOnly : bool) (lsof : option bytes) (seen : seen_table) : seen_table * bytes :=
  match lsof with
  | None => (seen, [])
  | Some text =>
      let s := foldl (scan_line seedOnly) (ScanSt 0 0 "?" [] seen []) (fgets_all 4096 text) in
      (sc_seen s, mjoin ((fun x => net_emit c x.1.1 x.1.2 x.2) <$> sc_out s))
  end.
