(* ===== verification/NetMacProofs.v ===== *)
(** The macOS connection tracer of c/net.c: the addresses of a line of lsof
    are read back as they were written, and a scan prints exactly the
    connections not seen before, once each. *)
From S2P Require Import Prelude CLib Inet Common ProbeTable NetMac.

(** * Addresses *)

(** An address and a port as lsof writes them. *)
Definition end_ok (ip : bytes) (port : Z) : Prop :=
  Forall (fun c => c ∉ ("[]*-" : bytes)) ip /\ (length ip <= 50)%nat /\ 0 <= port < 65536.

Lemma atoi_fmt_d v : - 2 ^ 31 <= v < 2 ^ 31 -> atoi (fmt_d v) = v.
Proof.
  intros Hv. unfold atoi. rewrite <- (app_nil_r (fmt_d v)), strtol_fmt_d by (done || unfold LONG_MIN, LONG_MAX; lia).
  by apply (swrap_small 32).
Qed.

Lemma join_length ip port : end_ok ip port -> (length (join_host_port ip port 80) < 64)%nat.
Proof.
  intros (_&Hl&Hp). pose proof (fmt_d_length 5 port ltac:(lia) ltac:(lia)) as Hd.
  unfold join_host_port, trunc. rewrite length_take.
  destruct ip as [|c ip]; [|destruct (strchr (c :: ip) ":")]; rewrite ?length_app in *; cbn [length bs String.list_ascii_of_string] in *; lia.
Qed.

Lemma join_untrunc ip port : end_ok ip port -> join_host_port ip port 80 =
  match ip with
  | [] => "*:" ++ fmt_d port
  | _ => match strchr ip ":" with
         | Some _ => "[" ++ ip ++ "]:" ++ fmt_d port
         | None => ip ++ ":" ++ fmt_d port
         end
  end.
Proof.
  intros (_&Hl&Hp). pose proof (fmt_d_length 5 port ltac:(lia) ltac:(lia)) as Hd.
  unfold join_host_port. apply trunc_fits.
  destruct ip as [|c ip]; [|destruct (strchr (c :: ip) ":")]; rewrite ?length_app in *; cbn [length bs String.list_ascii_of_string] in *; lia.
Qed.

Lemma fmt_port port : 0 <= port -> exists c r, fmt_d port = c :: r /\ is_digit c = true /\ Forall (fun c => is_digit c = true) (fmt_d port).
Proof.
  intros Hp. assert (Hf : fmt_d port = fmt_u port) by (unfold fmt_d; by rewrite (proj2 (Z.ltb_ge _ _)) by lia).
  pose proof (fmt_u_digits port Hp) as Hd. rewrite Hf. destruct (fmt_base_cons 10 port ltac:(lia) Hp) as (c&r&E).
  exists c, r. unfold fmt_u in *. rewrite E in *. split; [done|]. split; [|done]. by apply Forall_cons in Hd as [? _].
Qed.

Lemma port_after port : 0 <= port < 65536 -> match fmt_d port with "*"%char :: _ => 0 | p => atoi p end = port.
Proof.
  intros Hp. destruct (fmt_port port ltac:(lia)) as (c&r&E&Hc&_). pose proof (atoi_fmt_d port ltac:(lia)) as Ha.
  rewrite E in *. destruct (ascii_dec c "*") as [->|Hne]; [discriminate|].
  by destruct c as [[] [] [] [] [] [] [] []].
Qed.

Lemma colon_not_in_port port : 0 <= port -> ":"%char ∉ fmt_d port.
Proof. intros _. by apply fmt_d_not_in. Qed.

(** An address without brackets: the port follows the last colon. *)
Lemma plain_end c ip port : 0 <= port < 65536 -> (S (length ip) <= 50)%nat -> c <> "["%char ->
  split_host_port ((c :: ip) ++ ":" ++ fmt_d port) = (if eqs (c :: ip) "*" then [] else c :: ip, port).
Proof.
  intros Hp Hl Hc. change (bs ":") with [":"%char]. set (s := (c :: ip) ++ [":"%char] ++ fmt_d port).
  destruct (fmt_port port ltac:(lia)) as (d&r&E&Hd&_).
  assert (Hns : eqs s "*:*" = false).
  { apply eqs_false. intros H. assert (Hin : d ∈ bs "*:*") by (rewrite <- H; unfold s; rewrite E; set_solver).
    cbn in Hin. repeat (apply elem_of_cons in Hin as [->|Hin]; [discriminate|]). by apply elem_of_nil in Hin. }
  assert (Hr : strrchr s ":" = Some (S (length ip))).
  { unfold s. cbn [app]. change (c :: ip ++ ":"%char :: fmt_d port) with ((c :: ip) ++ ":"%char :: fmt_d port).
    rewrite strrchr_app by (by apply fmt_d_not_in). done. }
  assert (Ht : take (S (length ip)) s = c :: ip) by (unfold s; cbn [app take]; by rewrite take_app_length).
  assert (Hdr : drop (S (S (length ip))) s = fmt_d port) by (unfold s; exact (drop_snoc_eq (c :: ip) ":"%char (fmt_d port))).
  assert (Hsplit : split_host_port s = (if eqs s "*:*" then ([], 0) else if eqc c "[" then
     match strstr s "]:" with None => ([], 0) | Some i => (trunc 64 (take (i - 1) (drop 1 s)), atoi (drop (i + 2) s)) end
     else match strrchr s ":" with None => (trunc 64 s, 0) | Some i =>
       (if eqs (trunc 64 (take i s)) "*" then [] else trunc 64 (take i s), match drop (S i) s with "*"%char :: _ => 0 | p => atoi p end) end))
    by reflexivity.
  rewrite Hsplit, Hns, (proj2 (eqc_false c "[")), Hr, Ht, Hdr, port_after by done.
  by rewrite trunc_fits by (cbn [length]; lia).
Qed.

(** An address in brackets. *)
Lemma bracket_end ip port : 0 <= port < 65536 -> (length ip <= 50)%nat -> "]"%char ∉ ip ->
  split_host_port ("[" ++ ip ++ "]:" ++ fmt_d port) = (ip, port).
Proof.
  intros Hp Hl Hn. change (bs "[") with ["["%char]. cbn [app]. unfold split_host_port.
  rewrite (proj2 (eqs_false _ _)) by discriminate. change (eqc "[" "[") with true. cbv iota.
  change ("["%char :: ip ++ "]:" ++ fmt_d port) with (("["%char :: ip) ++ "]:" ++ fmt_d port).
  rewrite strstr_first by (cbn; set_solver). cbn [length].
  replace (S (length ip) - 1)%nat with (length ip) by lia. cbn [app drop]. rewrite drop_0, take_app_length, trunc_fits by lia.
  f_equal. replace (S (length ip) + 2)%nat with (S (S (S (length ip)))) by lia. cbn [drop].
  change (bs "]:" ++ fmt_d port) with ("]"%char :: ":"%char :: fmt_d port).
  replace (ip ++ "]"%char :: ":"%char :: fmt_d port) with ((ip ++ ["]"%char]) ++ ":"%char :: fmt_d port)
    by (by rewrite <- app_assoc).
  replace (S (S (length ip))) with (S (length (ip ++ ["]"%char]))) by (rewrite length_app; cbn; lia).
  rewrite drop_snoc_eq. apply atoi_fmt_d. lia.
Qed.

Lemma split_join ip port : end_ok ip port -> split_host_port (join_host_port ip port 80) = (ip, port).
Proof.
  intros Hok. pose proof Hok as (Hc&Hl&Hp). rewrite join_untrunc by done. destruct ip as [|c ip].
  - exact (plain_end "*" [] port Hp ltac:(cbn; lia) ltac:(discriminate)).
  - apply Forall_cons in Hc as [Hc Hall]. destruct (strchr (c :: ip) ":").
    + apply bracket_end; [done|done|]. rewrite not_elem_of_cons. split; [set_solver|].
      intros Hin. rewrite Forall_forall in Hall. apply (Hall _ Hin). set_solver.
    + rewrite plain_end; [|done|cbn in Hl; lia|set_solver]. rewrite (proj2 (eqs_false _ _)); [done|].
      intros [= -> _]. set_solver.
Qed.

Lemma join_no_arrow ip port : end_ok ip port -> "-"%char ∉ join_host_port ip port 80.
Proof.
  intros Hok. pose proof Hok as (Hc&Hl&Hp). rewrite join_untrunc by done.
  assert (Hd : "-"%char ∉ fmt_d port).
  { destruct (fmt_port port ltac:(lia)) as (_&_&_&_&H). rewrite Forall_forall in H. intros Hin. by apply H in Hin. }
  assert (Hi : "-"%char ∉ ip).
  { rewrite Forall_forall in Hc. intros Hin. apply (Hc _ Hin). cbn. set_solver. }
  destruct ip as [|c ip]; [|destruct (strchr (c :: ip) ":")]; cbn [bs String.list_ascii_of_string]; set_solver.
Qed.

(** The addresses of a connection are read back from its line: for any
    two ends, each an IPv4 or IPv6 address or the wildcard with a port, the
    text "source->destination" that [join_host_port] and lsof print is split
    by [split_conn] and [split_host_port] into the same addresses and ports. *)
Theorem conn_text_roundtrip pid proto src sport dst dport :
  end_ok src sport -> end_ok dst dport ->
  line_conn pid proto (join_host_port src sport 80 ++ "->" ++ join_host_port dst dport 80)
  = Conn pid proto src sport dst dport.
Proof.
  intros Hs Hd. unfold line_conn, split_conn. rewrite strstr_first by (cbn; by apply join_no_arrow).
  rewrite take_app_length, (app_assoc _ (bs "->")), drop_app_length' by (rewrite length_app; reflexivity).
  rewrite !trunc_fits by (by apply join_length). by rewrite !split_join.
Qed.

Lemma conn_text_roundtrip_witness :
  line_conn 42 "TCP" (join_host_port "fe80::1" 50000 80 ++ "->" ++ join_host_port "93.184.216.34" 443 80)
  = Conn 42 "TCP" "fe80::1" 50000 "93.184.216.34" 443.
Proof.
  apply (conn_text_roundtrip 42 "TCP" "fe80::1" 50000 "93.184.216.34" 443);
    (split; [|split; [cbn; lia|lia]]); apply Forall_forall; intros c Hc; cbn in Hc;
    repeat (apply elem_of_cons in Hc as [->|Hc]; [apply strchr_None; reflexivity|]); by apply elem_of_nil in Hc.
Defined.

(** * The set of connections seen *)

Definition seen_wf (t : seen_table) : Prop := pt_wf seen_id seen_home NETSEEN_BITS t.
Definition seen_set (t : seen_table) : gset seen_key := dom (pt_abs seen_id t).
Definition NETSEEN_CAP : Z := cap NETSEEN_BITS.
Definition conn_key (k : conn) : seen_key := key_of (net_hash k) k.

(** The strings of a connection fit in an entry. *)
Definition fits (k : conn) : Prop :=
  (length (cn_proto k) < 8)%nat /\ (length (cn_src k) < 64)%nat /\ (length (cn_dst k) < 64)%nat.

Lemma stored_fits h k : fits k -> stored h k = key_of h k.
Proof. intros (Hp&Hs&Hd). unfold stored. rewrite !trunc_fits by done. reflexivity. Qed.

Lemma key_conn k : key_of (net_hash k) k = conn_key k.
Proof. reflexivity. Qed.

Lemma conn_key_inj a b : conn_key a = conn_key b -> a = b.
Proof. destruct a, b. unfold conn_key, key_of. cbn. intros [= _ -> -> -> -> -> ->]. done. Qed.

(** What the set does of a connection: one that is in it, or finds it full, is
    taken for known. *)
Definition admits (seen : gset seen_key) (k : conn) : bool :=
  negb (bool_decide (conn_key k ∈ seen)) && (Z.of_nat (size seen) <? NETSEEN_CAP).
Definition note (seen : gset seen_key) (k : conn) : gset seen_key := if admits seen k then {[conn_key k]} ∪ seen else seen.

Lemma check_insert_spec k t : seen_wf t -> fits k ->
  exists t', net_seen_check_insert (net_hash k) k t = (negb (admits (seen_set t) k), t') /\ seen_wf t' /\
    seen_set t' = note (seen_set t) k.
Proof.
  intros Hw Hf. unfold net_seen_check_insert. rewrite stored_fits, key_conn by done.
  pose proof (pt_search_spec seen_id seen_home NETSEEN_BITS ltac:(done) t (conn_key k) Hw) as Hp.
  assert (Hsz : size (seen_set t) = size (pt_slots t)).
  { unfold seen_set. rewrite size_dom. by apply pt_abs_size with (home := seen_home) (bits := NETSEEN_BITS). }
  assert (Hno : pt_abs seen_id t !! conn_key k = None -> bool_decide (conn_key k ∈ dom (pt_abs seen_id t)) = false)
    by (intros Hm; by apply bool_decide_eq_false, not_elem_of_dom).
  unfold note, admits. rewrite Hsz. unfold seen_set, NETSEEN_CAP.
  destruct (probe seen_id seen_home NETSEEN_BITS (pt_slots t) (conn_key k)) as [j|j|].
  - exists t. rewrite bool_decide_true by (by apply elem_of_dom). done.
  - destruct Hp as (Hn&Hr&Hput). destruct (Hput (conn_key k)) as [Hw' Ha']; [done|].
    rewrite Hno, (proj2 (Z.ltb_lt _ _) Hr) by done. eexists. split; [done|]. split; [exact Hw'|]. by rewrite Ha', dom_insert_L.
  - destruct Hp as [Hn Hr]. rewrite Hno, (proj2 (Z.ltb_ge _ _) Hr) by done. by exists t.
Qed.

(** * A scan without a table *)

(** What a line leaves of the process, and the connection it names. *)
Record ctx := Ctx { cx_pid : Z; cx_uid : Z; cx_comm : bytes; cx_proto : bytes }.
Definition ctx0 : ctx := Ctx 0 0 "?" [].

Definition named (x : ctx) (body : bytes) : option conn :=
  let k := line_conn (cx_pid x) (cx_proto x) body in
  if has_prefix "/" body || eqs (cx_proto x) [] || ((cn_sport k =? 0) && (cn_dport k =? 0)) then None else Some k.

Definition read_line (x : ctx) (raw : bytes) : ctx * option conn :=
  match rtrim is_eol (cstr raw) with
  | [] | [_] => (x, None)
  | tag :: val =>
      if eqc tag "p" then (Ctx (atoi val) 0 (cx_comm x) [], None)
      else if eqc tag "c" then (Ctx (cx_pid x) (cx_uid x) (trunc 64 val) (cx_proto x), None)
      else if eqc tag "u" then (Ctx (cx_pid x) (u32 (st_val (strtoul 10 val))) (cx_comm x) (cx_proto x), None)
      else if eqc tag "f" then (Ctx (cx_pid x) (cx_uid x) (cx_comm x) [], None)
      else if eqc tag "P" then (Ctx (cx_pid x) (cx_uid x) (cx_comm x) (trunc 8 val), None)
      else if eqc tag "n" then (x, named x val)
      else (x, None)
  end.

(** The connections that the lines name, in order, each with the command and
    the user of its process. *)
Fixpoint observed (x : ctx) (lines : list bytes) : list (bytes * Z * conn) :=
  match lines with
  | [] => []
  | l :: lines' =>
      let '(x', k) := read_line x l in
      match k with Some k => [(cx_comm x', cx_uid x', k)] | None => [] end ++ observed x' lines'
  end.

(** What the set becomes, and those that it admits. *)
Definition noted (seen : gset seen_key) (l : list (bytes * Z * conn)) : gset seen_key := foldl note seen l.*2.
Fixpoint news (seen : gset seen_key) (l : list (bytes * Z * conn)) : list (bytes * Z * conn) :=
  match l with
  | [] => []
  | (cm, u, k) :: l' => (if admits seen k then [(cm, u, k)] else []) ++ news (note seen k) l'
  end.
Definition keys (l : list (bytes * Z * conn)) : gset seen_key := list_to_set (conn_key <$> l.*2).
Lemma keys_cons cm u k l : keys ((cm, u, k) :: l) = {[conn_key k]} ∪ keys l.
Proof. done. Qed.

Lemma admits_not_in seen k : admits seen k = true -> conn_key k ∉ seen.
Proof. unfold admits. intros [H _]%andb_true_iff. by apply negb_true_iff, bool_decide_eq_false in H. Qed.
Lemma note_sub seen k : seen ⊆ note seen k.
Proof. unfold note. destruct (admits seen k); set_solver. Qed.
(** With room for its key, a connection that is not in the set is admitted. *)
Lemma admits_room seen k U : {[conn_key k]} ∪ seen ⊆ U -> Z.of_nat (size U) <= NETSEEN_CAP ->
  admits seen k = negb (bool_decide (conn_key k ∈ seen)).
Proof.
  intros Hs Hu. unfold admits. destruct (decide (conn_key k ∈ seen)) as [Hin|Hn]; [by rewrite bool_decide_true|].
  rewrite bool_decide_false by done. apply subseteq_size in Hs. rewrite size_union, size_singleton in Hs by set_solver.
  cbn [negb andb]. apply Z.ltb_lt. lia.
Qed.
Lemma note_room seen k U : {[conn_key k]} ∪ seen ⊆ U -> Z.of_nat (size U) <= NETSEEN_CAP -> note seen k = {[conn_key k]} ∪ seen.
Proof.
  intros Hs Hu. unfold note. rewrite (admits_room seen k U) by done. destruct (decide (conn_key k ∈ seen)) as [Hin|Hn].
  - rewrite bool_decide_true by done. cbn [negb]. set_solver.
  - by rewrite bool_decide_false.
Qed.

(** The connections admitted are distinct, and were not in the set. *)
Lemma news_sound l : forall seen, NoDup (conn_key <$> (news seen l).*2) /\
  forall k, k ∈ (news seen l).*2 -> k ∈ l.*2 /\ conn_key k ∉ seen.
Proof.
  induction l as [|[[cm u] k0] l IH]; intros seen; [split; [constructor|set_solver]|]. cbn [news].
  destruct (IH (note seen k0)) as [Hnd Hm]. pose proof (note_sub seen k0) as Hsub.
  destruct (admits seen k0) eqn:Ha; cbn [app]; rewrite ?fmap_cons; cbn [snd].
  - apply admits_not_in in Ha as Hn. assert (Hk0 : conn_key k0 ∈ note seen k0) by (unfold note; rewrite Ha; set_solver). split.
    + apply NoDup_cons. split; [|done]. intros (k&Hk&Hin)%list_elem_of_fmap. apply Hm in Hin as [_ Hin]. congruence.
    + intros k [->|Hk]%elem_of_cons; [by split; [left|]|]. apply Hm in Hk as [??]. split; [by right|set_solver].
  - split; [done|]. intros k Hk. apply Hm in Hk as [??]. split; [by right|set_solver].
Qed.
(** While all of them fit, none is lost. *)
Lemma news_complete U l : Z.of_nat (size U) <= NETSEEN_CAP -> forall seen, seen ∪ keys l ⊆ U ->
  noted seen l = seen ∪ keys l /\ forall k, k ∈ l.*2 -> conn_key k ∉ seen -> k ∈ (news seen l).*2.
Proof.
  intros Hu. induction l as [|[[cm u] k0] l IH]; intros seen Hs; [split; [by unfold keys; cbn; rewrite union_empty_r_L|set_solver]|].
  cbn [news]. rewrite keys_cons in *. unfold noted in *. cbn [fmap list_fmap snd foldl].
  assert (H0 : {[conn_key k0]} ∪ seen ⊆ U) by set_solver. rewrite (note_room seen k0 U), (admits_room seen k0 U) by done.
  destruct (IH ({[conn_key k0]} ∪ seen)) as [IHn IHm]; [set_solver|]. split; [rewrite IHn; set_solver|].
  intros k [->|Hk]%elem_of_cons Hns; rewrite fmap_app, elem_of_app.
  - left. rewrite bool_decide_false by done. by left.
  - destruct (decide (conn_key k = conn_key k0)) as [E|Hne]; [|right; apply IHm; [done|set_solver]].
    apply conn_key_inj in E as ->. left. rewrite bool_decide_false by done. by left.
Qed.

Lemma split_host_fits s : (length (split_host_port s).1 < 64)%nat.
Proof.
  unfold split_host_port. repeat case_match; cbn [fst length]; try lia; apply trunc_length; lia.
Qed.

Lemma line_conn_fits pid proto body : (length proto < 8)%nat -> fits (line_conn pid proto body).
Proof.
  intros Hp. unfold line_conn. destruct (split_conn body) as [a b].
  pose proof (split_host_fits a) as Ha. pose proof (split_host_fits b) as Hb.
  destruct (split_host_port a), (split_host_port b). by split_and!.
Qed.

(** The context of a scan state. *)
Definition ctx_of (s : scan_st) : ctx := Ctx (sc_pid s) (sc_uid s) (sc_comm s) (sc_proto s).

(** One line: the context is read, and a connection is looked up. *)
Lemma scan_line_spec seedOnly s raw : (length (sc_proto s) < 8)%nat ->
  let r := read_line (ctx_of s) raw in
  ctx_of (scan_line seedOnly s raw) = r.1 /\ (length (cx_proto r.1) < 8)%nat /\
  match r.2 with
  | None => sc_seen (scan_line seedOnly s raw) = sc_seen s /\ sc_out (scan_line seedOnly s raw) = sc_out s
  | Some k => fits k /\ let '(already, seen) := net_seen_check_insert (net_hash k) k (sc_seen s) in
      sc_seen (scan_line seedOnly s raw) = seen /\
      sc_out (scan_line seedOnly s raw) =
        if already || seedOnly then sc_out s else sc_out s ++ [(cx_comm r.1, cx_uid r.1, k)]
  end.
Proof.
  intros Hp. cbv zeta. unfold scan_line, read_line. destruct (rtrim is_eol (cstr raw)) as [|tag [|b val]]; [done..|].
  destruct (eqc tag "p"); [split; [done|]; split; [cbn; lia|done]|].
  destruct (eqc tag "c"); [done|]. destruct (eqc tag "u"); [done|].
  destruct (eqc tag "f"); [split; [done|]; split; [cbn; lia|done]|].
  destruct (eqc tag "P"); [split; [done|]; split; [apply trunc_length; lia|done]|].
  destruct (eqc tag "n"); [|done]. unfold named, name_line. cbn [has_prefix bs String.list_ascii_of_string ctx_of cx_pid cx_proto].
  replace (eqc "/" b && true) with (eqc b "/") by (rewrite andb_true_r; by apply bool_decide_ext).
  destruct (eqc b "/" || eqs (sc_proto s) []); [done|].
  set (k := line_conn (sc_pid s) (sc_proto s) (b :: val)).
  assert (Hf : fits k) by (by apply line_conn_fits).
  destruct ((cn_sport k =? 0) && (cn_dport k =? 0)); [done|]. cbn [orb snd fst cx_comm cx_uid].
  destruct (net_seen_check_insert (net_hash k) k (sc_seen s)) as [already seen']. done.
Qed.

Lemma scan_spec seedOnly lines : forall s, seen_wf (sc_seen s) -> (length (sc_proto s) < 8)%nat ->
  let r := foldl (scan_line seedOnly) s lines in
  let l := observed (ctx_of s) lines in
  seen_wf (sc_seen r) /\ seen_set (sc_seen r) = noted (seen_set (sc_seen s)) l /\
  sc_out r = sc_out s ++ if seedOnly then [] else news (seen_set (sc_seen s)) l.
Proof.
  induction lines as [|raw lines IH]; intros s Hw Hp; cbn [foldl observed].
  { cbn. split_and!; [done..|]. destruct seedOnly; by rewrite app_nil_r. }
  destruct (scan_line_spec seedOnly s raw Hp) as (Hc&Hp1&Hk). cbv zeta in Hc, Hp1, Hk.
  destruct (read_line (ctx_of s) raw) as [x [k|]]; cbn [fst snd] in *.
  - destruct Hk as [Hf Hk]. destruct (check_insert_spec k (sc_seen s) Hw Hf) as (t'&Hins&Hw'&Hset).
    rewrite Hins in Hk. destruct Hk as [Hseen Hout]. set (s1 := scan_line seedOnly s raw) in *.
    destruct (IH s1) as (H1&H2&H3); [by rewrite Hseen|by rewrite <- Hc in Hp1|].
    rewrite Hc in *. split; [exact H1|]. cbn [app]. unfold noted in *. rewrite fmap_cons. cbn [snd foldl].
    rewrite <- Hset, <- Hseen. split; [exact H2|]. rewrite H3, Hout. cbn [news]. rewrite <- Hset, <- Hseen.
    destruct (admits (seen_set (sc_seen s)) k), seedOnly; cbn [negb orb app]; by rewrite <- ?app_assoc.
  - destruct Hk as [Hseen Hout]. set (s1 := scan_line seedOnly s raw) in *.
    destruct (IH s1) as (H1&H2&H3); [by rewrite Hseen|by rewrite <- Hc in Hp1|].
    rewrite Hc in *. cbn [app]. rewrite H2, H3, Hseen, Hout. done.
Qed.

(** Each connection is printed once: whatever lsof prints, a scan keeps the
    table well formed and prints, in order, the connections that the set
    admits, which are distinct and not in it; while all fit in the table, they
    are all of those that no earlier scan has recorded. The initial scan
    records and prints nothing. *)
Theorem net_scan_prints_new c seedOnly text seen : seen_wf seen ->
  let l := observed ctx0 (fgets_all 4096 text) in
  let '(seen', printed) := net_scan c seedOnly (Some text) seen in
  let new := if seedOnly then [] else news (seen_set seen) l in
  seen_wf seen' /\ seen_set seen' = noted (seen_set seen) l /\
  printed = mjoin ((fun x => net_emit c x.1.1 x.1.2 x.2) <$> new) /\
  NoDup (conn_key <$> new.*2) /\ (forall k, k ∈ new.*2 -> k ∈ l.*2 /\ conn_key k ∉ seen_set seen) /\
  (Z.of_nat (size (seen_set seen ∪ keys l)) <= NETSEEN_CAP -> seedOnly = false ->
   forall k, k ∈ l.*2 -> conn_key k ∉ seen_set seen -> k ∈ new.*2).
Proof.
  intros Hw l. unfold net_scan. set (s0 := ScanSt 0 0 "?" [] seen []).
  destruct (scan_spec seedOnly (fgets_all 4096 text) s0) as (H1&H2&H3); [done|cbn; lia|].
  change (ctx_of s0) with ctx0 in *. change (sc_out s0) with (@nil (bytes * Z * conn)) in H3. cbn [app] in H3.
  change (sc_seen s0) with seen in *. fold l in H2, H3. cbv zeta. destruct (news_sound l (seen_set seen)) as [Hnd Hm].
  split; [exact H1|]. split; [exact H2|]. split; [by rewrite H3|]. destruct seedOnly.
  - split; [constructor|]. split; [set_solver|done].
  - split; [done|]. split; [done|]. intros Hs _. by eapply news_complete.
Qed.

Definition demo_lsof : bytes :=
  mjoin ((fun l => l ++ ["010"%char]) <$> [bs "p42"; bs "ccurl"; bs "u501"; bs "f5"; bs "PTCP"; bs "n10.0.0.1:50000->1.1.1.1:443";
    bs "f6"; bs "PTCP"; bs "n10.0.0.1:50000->1.1.1.1:443"; bs "f7"; bs "n/dev/null"]).
Definition demo_mcfg : mcfg := MCfg false true (fun _ => Some (bs "root")).

(** The second, identical socket is not printed. *)
Example demo_scan : length (observed ctx0 (fgets_all 4096 demo_lsof)) = 2%nat /\
  length (fgets_all 4096 (net_scan demo_mcfg false (Some demo_lsof) pt_empty).2) = 1%nat.
Proof. vm_compute. split; reflexivity. Qed.
