(* ===== verification/NetMain.v ===== *)
(** The run of c/net.c, in its Linux and in its macOS version: the set-up of
    [net_main], the loops, and the end with the command. Over a whole run on
    macOS each connection is printed once. *)
From S2P Require Import Prelude CLib Os Sys Loop Start Common ProbeTable NetAttr NetLinux NetEvents NetProofs NetSpec NetArgs NetMac NetMacProofs.

(** * The set-up *)

Record net_start := NetStart { ns_fd : Z; ns_cfg : ncfg; ns_errors : bool; ns_child : option Z }.
Record mac_start := MacStart { mst_cfg : mcfg; mst_watch : list Z; mst_interval : Z; mst_child : option Z }.

Section Start.
Context (getpid : Z) (alive : Z -> bool) (no_color : option bytes) (term : option bytes -> stream) (strerror : Z -> bytes)
  (pwname : Z -> option bytes).

Definition nprog : bytes := "proc-trace-net: ".
Definition net_failed (cmd : list bytes) (err : Z) : bytes := exec_failed strerror cmd err.

(** The subscription to the events of conntrack. *)
Definition net_subscribe (groups : Z) (k : Z -> callM (started net_start)) : callM (started net_start) :=
  fd ← sys (Socket 16 3 12);
  on_error nprog (fd <? 0) ("socket: " ++ strerror (- fd) ++ NL ++ "hint: requires CAP_NET_ADMIN (run as root)")
    (b ← sys (Bind fd groups (u32 getpid));
     on_error nprog (negb (b =? 0))
       ("bind: " ++ strerror (- b) ++ NL ++ "hint: is nf_conntrack loaded? try: modprobe nf_conntrack") (k fd)).

(** On Linux a thread waits for the command; it is not joined. *)
Definition net_main (args : list bytes) : outcome (callM (started net_start)) :=
  r ← l_parse_args alive args;
  Ok match r with
     | NUsage => mret (UsageEnd 1)
     | NDie m => mret (fatalf nprog m)
     | NRun o cmd =>
         let run fd child := mret (ToLoop (NetStart fd (l_config no_color (term (l_out o)) child o) (l_errors o) child)) in
         let start :=
           net_subscribe (l_groups (l_cfg o)) (fun fd =>
             match cmd with
             | [] => run fd None
             | _ => fork_command nprog 127 (fun err => nprog ++ net_failed cmd err ++ NL) (net_failed cmd) cmd
                      (fun pid => sys WaiterThread;; run fd (Some pid))
             end) in
         match l_out o with
         | Some f => r ← sys (OpenLog f); on_error nprog (r <? 0) ("open " ++ f ++ ": " ++ strerror (- r)) start
         | None => start
         end
     end.

(** [child_waiter]: the turns of its loop are the interrupted waits. *)
Fixpoint child_waiter (turns : nat) (pid : Z) : callM (outcome unit) :=
  match turns with
  | O => mret Fuel
  | S t =>
      r ← sys (Waitpid pid);
      if r =? -4 then child_waiter t pid
      else sys (Nanosleep 300000000);; sys (ExitNow 0);; mret (Ok ())
  end.

(** On macOS the handler of SIGCHLD is installed after the fork. *)
Definition mprog : bytes := "tracep net: ".
Definition mac_net_main (args : list bytes) : outcome (callM (started mac_start)) :=
  r ← m_parse_args alive args;
  Ok match r with
     | NUsage => mret (UsageEnd 1)
     | NDie m => mret (fatalf mprog m)
     | NRun o cmd =>
         let color := if mo_color o then true
                      else match no_color with None => is_terminal (term (mo_out o)) | Some _ => false end in
         let run w child := mret (ToLoop (MacStart (MCfg color (mo_user o) pwname) w (mo_interval o) child)) in
         open_log strerror mprog (mo_out o)
           (match cmd with
            | [] => run (mo_watch o) None
            | _ => fork_command mprog 1 (fun err => mprog ++ net_failed cmd err ++ NL) (net_failed cmd) cmd
                     (fun pid => sys (Signal "SIGCHLD");;
                        run (if (length (mo_watch o) <? MAX_PIDS)%nat then mo_watch o ++ [i32 pid] else mo_watch o) (Some pid))
            end)
     end.
Definition net_banner (showErrors root : bool) (interval : Z) : bytes :=
  if showErrors then
    "tracep net: polling at " ++ fmt_d interval ++ "ms on darwin " ++ [chr 226; chr 128; chr 148] ++
    " short-lived connections may be missed" ++
    (if root then [] else bs "; non-root sees sockets only for own-user processes") ++ NL
  else [].
End Start.

(** * The loop on Linux *)

(** What happens at a turn: [recv] gives a buffer, handled at given times in
    some state of the machine, or an error that is not EINTR, which is reported
    and ignored; and before it a resolver thread may finish. *)
Inductive net_in := NlData (h : host) (now : Z -> spec_float) (data : bytes) | NlError (err : Z) | Resolved (h : host) (ip : bytes).

Section Linux.
Context (c : ncfg) (showErrors : bool) (strerror : Z -> bytes) (restarts : bool).
Definition net_error (err : Z) : list bytes :=
  if showErrors then ["proc-trace-net: recvfrom: " ++ strerror err ++ NL] else [].
Definition net_read (i : net_in) (s : nstate * list bytes) : outcome (nstate * list bytes) :=
  match i with
  | NlData h now data => s' ← process_nl_msgs c h now data s.1; Ok (s', s.2)
  | NlError err => Ok (s.1, s.2 ++ net_error err)
  | Resolved h ip => Ok (thread_done h ip s.1, s.2)
  end.
(** The loop has no test, and no end of its own. No handler is installed on
    Linux: whether a read is restarted is left open. *)
Definition net_run := lrun net_read (fun (f : Empty_set) s => Ok s) (fun (_ : unit) => false) restarts.

(** A run is one of the runs of buffers, with the errors reported on the side. *)
Lemma net_read_runs i s s' : net_read i s = Ok s' -> runs c s.1 -> runs c s'.1.
Proof.
  destruct i as [h now data|err|h ip]; intros H Hr; cbn [net_read] in H; [|by injection H as <-|injection H as <-; by constructor].
  apply bind_Ok in H as (s1&H&[= <-]). by eapply RunsBuffer.
Qed.

Lemma net_run_runs ls y : net_run (AtTest (nstate0, []) false) ls y -> runs c (tracer y).1.
Proof.
  intros H. refine (lrun_invariant _ _ _ _ (fun s => runs c s.1) _ _ _ _ _ H _); [|done|constructor].
  intros i s s' _ Hp Hi. by eapply net_read_runs.
Qed.

(** And it is not stuck: every buffer whose lengths are small can be read. *)
Lemma net_read_ok i s : match i with NlData _ _ data => blen data < 2 ^ 31 - 3 /\ framed data 0 | _ => True end ->
  exists s', net_read i s = Ok s'.
Proof.
  destruct i as [h now data|err|h ip]; intros H; cbn [net_read]; [|by eexists..]. destruct H as [Hl Hf].
  pose proof (blen_nonneg data). pose proof (Z.mul_succ_div_gt (blen data) 16 ltac:(lia)).
  destruct (nl_go_total c h (S (Z.to_nat (blen data / 16))) now data 0 s.1) as [s' E]; [lia|done|done|lia|].
  rewrite Z.sub_0_r in E. unfold process_nl_msgs. rewrite E. by eexists.
Qed.
End Linux.

(** * The loop on macOS *)

Section Mac.
Context (c : mcfg) (watch : list Z).

(** A scan, whose answer from lsof comes with it; the state is the table and
    the text printed so far. *)
Definition net_poll (seedOnly : bool) (lsof : list bytes -> option bytes) (s : seen_table * bytes) : outcome (seen_table * bytes) :=
  argv ← lsof_argv watch;
  let r := net_scan c seedOnly (lsof argv) s.1 in Ok (r.1, s.2 ++ r.2).
(** The seed, then a sleep and a scan before each test of the flag, and a last
    scan when it is up. *)
Definition mac_net_run (child : Z) := lrun (net_poll false) (net_poll false) (reaped_known child) true.
Definition net_seed (lsof : list bytes -> option bytes) : outcome (seen_table * bytes) := net_poll true lsof (pt_empty, []).

(** The connections that a scan sees. *)
Definition poll_lines (lsof : list bytes -> option bytes) : list bytes :=
  match lsof_argv watch with
  | Ok argv => match lsof argv with Some text => fgets_all 4096 text | None => [] end
  | _ => []
  end.
Definition sees (lsof : list bytes -> option bytes) : list (bytes * Z * conn) := observed ctx0 (poll_lines lsof).
Definition emit_all (l : list (bytes * Z * conn)) : bytes := mjoin ((fun x => net_emit c x.1.1 x.1.2 x.2) <$> l).

Lemma noted_app seen l1 l2 : noted seen (l1 ++ l2) = noted (noted seen l1) l2.
Proof. unfold noted. by rewrite fmap_app, foldl_app. Qed.
Lemma news_app l1 : forall seen l2, news seen (l1 ++ l2) = news seen l1 ++ news (noted seen l1) l2.
Proof. induction l1 as [|[[cm u] k] l1 IH]; intros seen l2; cbn [app news]; [done|]. by rewrite IH, <- app_assoc. Qed.
Lemma emit_all_app l1 l2 : emit_all (l1 ++ l2) = emit_all l1 ++ emit_all l2.
Proof. unfold emit_all. rewrite fmap_app. apply join_app. Qed.
Lemma keys_app l1 l2 : keys (l1 ++ l2) = keys l1 ∪ keys l2.
Proof. unfold keys. by rewrite !fmap_app, list_to_set_app_L. Qed.

Lemma net_poll_spec seedOnly lsof s s' : net_poll seedOnly lsof s = Ok s' -> seen_wf s.1 ->
  seen_wf s'.1 /\ seen_set s'.1 = noted (seen_set s.1) (sees lsof) /\
  s'.2 = s.2 ++ if seedOnly then [] else emit_all (news (seen_set s.1) (sees lsof)).
Proof.
  intros H Hw. unfold net_poll in H. unfold sees, poll_lines in *. apply bind_Ok in H as (argv&Ha&[= <-]).
  rewrite Ha in *. cbn [fst snd]. unfold net_scan. destruct (lsof argv) as [text|].
  - destruct (scan_spec seedOnly (fgets_all 4096 text) (ScanSt 0 0 "?" [] s.1 [])) as (H1&H2&H3); [done|cbn; lia|].
    cbn [sc_seen sc_out app ctx_of sc_pid sc_uid sc_comm sc_proto] in *. cbn [fst snd]. split; [done|]. split; [done|].
    rewrite H3. by destruct seedOnly.
  - cbn. split; [done|]. by destruct seedOnly.
Qed.

Lemma fold_polls l : forall s s', fold_in (net_poll false) l s = Ok s' -> seen_wf s.1 ->
  s'.2 = s.2 ++ emit_all (news (seen_set s.1) (mjoin (sees <$> l))).
Proof.
  induction l as [|i l IH]; intros s s' H Hw; cbn [fold_in] in H; [injection H as <-; cbn; by rewrite app_nil_r|].
  apply bind_Ok in H as (s1&H1&H). destruct (net_poll_spec _ _ _ _ H1 Hw) as (Hw1&Hs1&Ho1).
  rewrite (IH s1 s' H Hw1), Ho1, Hs1, fmap_cons. change (mjoin (?x :: ?y)) with (x ++ mjoin y).
  by rewrite news_app, emit_all_app, <- app_assoc.
Qed.

(** C6. Over a whole run on macOS each connection is printed at most once, and
    exactly once while the table holds them: what the run prints, its last scan
    included, is the connections that the set of 16384 entries admits, in the
    order in which the scans see them, each with its command and user; they are
    distinct, were seen by a scan and were not noted at the start. If the
    connections of the whole run, those of the start included, are at most
    16384 different ones, the lines are those of all connections that were not
    open at the start; past that the set is full, and a connection that is not
    in it is taken for known and dropped. *)
Theorem mac_net_run_prints_once child seed s0 ls y :
  net_seed seed = Ok s0 -> mac_net_run child (AtRead s0 false) ls y ->
  let seen := mjoin (sees <$> inputs ls ++ finals ls) in
  let new := news (noted ∅ (sees seed)) seen in
  (tracer y).2 = emit_all new /\ NoDup (conn_key <$> new.*2) /\
  (forall k, k ∈ new.*2 -> k ∈ seen.*2 /\ conn_key k ∉ noted ∅ (sees seed)) /\
  (Z.of_nat (size (keys (sees seed ++ seen))) <= NETSEEN_CAP ->
   forall k, k ∈ new.*2 <-> k ∈ seen.*2 /\ k ∉ (sees seed).*2).
Proof.
  intros Hseed Hr seen new. destruct (news_sound seen (noted ∅ (sees seed))) as [Hnd Hm]. split.
  - apply lrun_fold in Hr. assert (Hf : fold_in (net_poll false) (inputs ls ++ finals ls) s0 = Ok (tracer y)).
    { clear -Hr. cbn [tracer] in Hr. revert Hr. generalize s0. induction (inputs ls) as [|i l IH]; intros s Hr; cbn [fold_in app] in *.
      - rewrite ok_bind in Hr. revert s Hr. induction (finals ls) as [|f l IHf]; intros s Hr; cbn [fold_fin fold_in] in *; [done|].
        apply bind_Ok in Hr as (s1&->&Hr). rewrite ok_bind. by apply IHf.
      - apply bind_Ok in Hr as (s1&Hr&Hf). apply bind_Ok in Hr as (s2&Hi&Hr). rewrite Hi, ok_bind. apply IH. by rewrite Hr. }
    assert (E0 : seen_set pt_empty = ∅) by (unfold seen_set; by rewrite (pt_empty_abs seen_id), dom_empty_L).
    apply net_poll_spec in Hseed as (Hw0&Hs0&Ho0); [|exact (pt_empty_wf seen_id seen_home NETSEEN_BITS)].
    cbn [fst snd] in *. rewrite E0 in Hs0. apply fold_polls in Hf; [|done]. by rewrite Hf, Ho0, Hs0.
  - split; [done|]. split; [done|]. intros Hs k. rewrite keys_app in Hs.
    destruct (news_complete _ (sees seed) Hs ∅) as [Hn _]; [set_solver|]. rewrite union_empty_l_L in Hn.
    assert (Hk : conn_key k ∈ keys (sees seed) <-> k ∈ (sees seed).*2).
    { unfold keys. rewrite elem_of_list_to_set, list_elem_of_fmap. split; [intros (k'&->%conn_key_inj&?); done|eauto]. }
    destruct (news_complete _ seen Hs (noted ∅ (sees seed))) as [_ Hc]; [by rewrite Hn|]. rewrite <- Hk, <- Hn.
    split; [apply Hm|]. intros [??]. by apply Hc.
Qed.

(** The run ends with the command, when the handler knows it, with a last
    scan: after the signal the loop makes at most one more scan before it. *)
Lemma mac_net_run_ends child x ls1 reaped ls2 y :
  reaped_known child reaped = true -> mac_net_run child x (ls1 ++ LSignal reaped :: ls2) y -> ends_after ls2 y.
Proof. intros Hr. by apply lrun_stops. Qed.
End Mac.

(** A command that ends before the handler is installed stays a zombie; the
    first lsof that ends makes the handler reap both, so that it is not
    missed. *)
Lemma mac_net_late_handler pid lsof : 0 < pid -> 0 < lsof ->
  exited (foldl child_step child0 [Forked pid; Sigchld [pid; 0]; InstallHandler; Sigchld [lsof; pid; 0]]) = true.
Proof.
  intros Hp Hl. cbn. rewrite !(proj2 (Z.ltb_lt _ _)), Z.eqb_refl by lia. by rewrite orb_true_r.
Qed.

Definition demo_seed : list bytes -> option bytes := fun _ => Some (bs "p1" ++ NL ++ bs "PTCP" ++ NL ++ bs "n10.0.0.1:1->1.1.1.1:2" ++ NL).
Abbreviation answer := (list bytes -> option bytes).
Definition demo_polls : list (label (In := answer) (Fin := answer) (Sig := list Z)) :=
  [LRead (fun _ => Some demo_lsof); LTest; LRead (fun _ => Some demo_lsof); LSignal [99; 0]; LStop (fun _ => None)].
Lemma demo_mac_run : exists s0 y, net_seed demo_mcfg [] demo_seed = Ok s0 /\
  mac_net_run demo_mcfg [] 99 (AtRead s0 false) demo_polls y.
Proof.
  eexists _, _. split; [reflexivity|]. unfold demo_polls. repeat (eapply RunCons; [econstructor; reflexivity|]). constructor.
Qed.

Lemma mac_net_run_prints_once_witness : exists s0 y, mac_net_run demo_mcfg [] 99 (AtRead s0 false) demo_polls y /\
  let seen := mjoin (sees [] <$> inputs demo_polls ++ finals demo_polls) in
  let new := news (noted ∅ (sees [] demo_seed)) seen in
  (tracer y).2 = emit_all demo_mcfg new /\ NoDup (conn_key <$> new.*2) /\ length new = 1%nat /\
  forall k, k ∈ new.*2 <-> k ∈ seen.*2 /\ k ∉ (sees [] demo_seed).*2.
Proof.
  destruct demo_mac_run as (s0&y&Hs&Hr). exists s0, y. split; [exact Hr|].
  destruct (mac_net_run_prints_once demo_mcfg [] 99 demo_seed s0 demo_polls y Hs Hr) as (H1&H2&_&H4).
  split; [exact H1|]. split; [exact H2|]. split; [vm_compute; reflexivity|]. apply H4. vm_compute. discriminate.
Defined.
