(* ===== verification/NetRun.v ===== *)
(** Whole runs of the Linux connection tracer: with an encoder of the messages
    of conntrack, a run is the fold of the specification of NetSpec over the
    events that the kernel sends; the order of the set-up before a command is
    started, and the thread that ends the program with it. *)
From S2P Require Import Prelude CLib Inet Common Os Sys Loop Start ChainTable Table NetAttr NetLinux NetEvents NetProofs NetSpec NetArgs NetMain.

(** * The events of conntrack *)

(** An event: its header, the bytes of its family, its attributes with the
    tuple of the connection in its nest, and maybe the protocol information of
    TCP, among others. Or another message, of which only the length counts. *)
Record ct_event := CtEvent {
  ct_type : Z; ct_flags : Z; ct_seq : Z; ct_pid : Z; ct_nfgen : bytes;
  ct_before : list attr; ct_nest : nest; ct_tuple : conn_tuple; ct_between : list attr; ct_info : option (pnest * Z); ct_after : list attr;
}.
Inductive ct_msg := Event (e : ct_event) | Foreign (ty flags seq pid : Z) (body : bytes).
Definition info_attrs (i : option (pnest * Z)) : list attr := match i with Some (p, st) => [protoinfo_attr p st] | None => [] end.
Definition ct_state (e : ct_event) : Z := match ct_info e with Some (_, st) => st | None => 0 end.
Definition ct_attrs (e : ct_event) : list attr :=
  ct_before e ++ tuple_attr (ct_nest e) (ct_tuple e) :: ct_between e ++ info_attrs (ct_info e) ++ ct_after e.
Definition enc_head (len ty flags seq pid : Z) : bytes := put32 len ++ put16 ty ++ put16 flags ++ put32 seq ++ put32 pid.
(** The length that the header gives, and the message, padded to four bytes. *)
Definition ct_len (m : ct_msg) : Z :=
  match m with Event e => 20 + blen (enc_attrs (ct_attrs e)) | Foreign _ _ _ _ body => 16 + blen body end.
Definition enc_ct (m : ct_msg) : bytes :=
  match m with
  | Event e => enc_head (ct_len m) (ct_type e) (ct_flags e) (ct_seq e) (ct_pid e) ++ ct_nfgen e ++ enc_attrs (ct_attrs e)
  | Foreign ty flags seq pid body =>
      enc_head (ct_len m) ty flags seq pid ++ body ++ replicate (Z.to_nat ((- blen body) mod 4)) NUL
  end.
Definition enc_batch (l : list ct_msg) : bytes := mjoin (enc_ct <$> l).

(** The protocol information is that of TCP where there is one; that of a
    protocol which the tracer does not follow is anything. *)
Definition event_ok (e : ct_event) : Prop :=
  0 <= ct_type e < 2 ^ 16 /\ 0 <= ct_flags e < 2 ^ 16 /\ blen (ct_nfgen e) = 4 /\
  tuple_enc_ok (ct_tuple e) /\ nest_ok (ct_nest e) (ct_tuple e) /\
  (forall p st, ct_info e = Some (p, st) -> pnest_ok p /\ 0 <= st < 256) /\
  Forall attr_ok (ct_before e ++ ct_between e ++ ct_after e) /\
  CTA_TUPLE_ORIG_ ∉ (a_type <$> ct_before e) /\
  (proto (ct_tuple e) = 6 \/ proto (ct_tuple e) = 17 -> CTA_PROTOINFO_ ∉ (a_type <$> ct_before e ++ ct_between e ++ ct_after e)).
Definition ct_ok (m : ct_msg) : Prop :=
  match m with
  | Event e => event_ok e
  | Foreign ty flags _ _ _ => 0 <= ty < 2 ^ 16 /\ 0 <= flags < 2 ^ 16 /\ ty ∉ [MSG_CT_NEW; MSG_CT_DELETE]
  end.

(** What the tracer does of an event, on the connections and the addresses. *)
Abbreviation conns := (gmap bytes conn_entry * option (list bytes))%type.
Section Spec.
Context (c : ncfg) (h : host).

Definition spec_event (now : spec_float) (m : ct_msg) (x : conns) : conns * list shown :=
  match m with
  | Event e =>
      if bool_decide (ct_type e ∈ [MSG_CT_NEW; MSG_CT_DELETE]) && negb (skipped c (ct_tuple e))
      then spec_conn c h now (msg_kind (ct_type e) (ct_flags e)) (ct_tuple e) (ct_state e) x
      else (x, [])
  | Foreign _ _ _ _ _ => (x, [])
  end.
(** The messages of a datagram, each at the time of its place. *)
Fixpoint spec_events (now : Z -> spec_float) (off : Z) (l : list ct_msg) (x : conns) : conns * list shown :=
  match l with
  | [] => (x, [])
  | m :: l' =>
      let r := spec_event (now off) m x in
      let r' := spec_events now (off + blen (enc_ct m)) l' r.1 in (r'.1, r.2 ++ r'.2)
  end.

(** * One message, one datagram *)

Lemma blen_attrs l : (blen (enc_attrs l)) mod 4 = 0.
Proof.
  induction l as [|a l IH]; [done|]. change (enc_attrs (a :: l)) with (enc_attr a ++ enc_attrs l).
  rewrite blen_app, blen_enc_attr, Z.add_comm, Z.mod_add by done. done.
Qed.

Lemma blen_head len ty flags seq pid : blen (enc_head len ty flags seq pid) = 16.
Proof. done. Qed.
Lemma ct_len_16 m : 16 <= ct_len m.
Proof. destruct m as [e|ty fl sq pd body]; cbn [ct_len]; [pose proof (blen_nonneg (enc_attrs (ct_attrs e)))|pose proof (blen_nonneg body)]; lia. Qed.
Lemma blen_ct m : ct_ok m -> blen (enc_ct m) = (ct_len m + 3) / 4 * 4.
Proof.
  destruct m as [e|ty fl sq pd body]; cbn [ct_ok enc_ct ct_len].
  - intros (_&_&Hn&_). rewrite !blen_app, blen_head, Hn. pose proof (blen_attrs (ct_attrs e)). Z.div_mod_to_equations. lia.
  - intros _. rewrite !blen_app, blen_head, blen_replicate. rewrite Z2Nat.id by (by apply Z.mod_pos_bound). Z.div_mod_to_equations. lia.
Qed.
Lemma ct_head m : exists ty flags seq pid r, enc_ct m = enc_head (ct_len m) ty flags seq pid ++ r.
Proof. destruct m; cbn [enc_ct]; eauto 10. Qed.

Lemma ct_attrs_ok e : event_ok e -> Forall attr_ok (ct_attrs e).
Proof.
  intros (_&_&_&Ht&Hn&Hst&Ha&_). unfold ct_attrs. rewrite !Forall_app in Ha. destruct Ha as (?&?&?).
  rewrite Forall_app, Forall_cons, !Forall_app. split_and!; [done|by apply tuple_nest_ok|done| |done].
  destruct (ct_info e) as [[p st]|]; repeat constructor; apply protoinfo_nest_ok; by eapply Hst.
Qed.

Lemma ct_tuple_read e : event_ok e -> parse_tuple (enc_attrs (ct_attrs e)) CTA_TUPLE_ORIG_ = Ok (Some (ct_tuple e)).
Proof. intros He. pose proof (ct_attrs_ok e He). destruct He as (_&_&_&Ht&Hn&_&_&Ho&_). by apply parse_tuple_enc. Qed.

Lemma ct_state_read e : event_ok e -> skipped c (ct_tuple e) = false -> parse_tcp_state (enc_attrs (ct_attrs e)) = Ok (ct_state e).
Proof.
  intros He Hsk. pose proof (ct_attrs_ok e He) as Hall. destruct He as (_&_&_&_&_&Hst&_&_&Hn).
  assert (Hp : proto (ct_tuple e) = 6 \/ proto (ct_tuple e) = 17).
  { unfold skipped in Hsk. apply orb_false_iff in Hsk as [_ Hsk]. apply andb_false_iff in Hsk as [Hsk|Hsk]; zbool; auto. }
  specialize (Hn Hp). rewrite !fmap_app, !not_elem_of_app in Hn. destruct Hn as (N1&N2&N3).
  unfold ct_attrs, ct_state in *. destruct (ct_info e) as [[p st]|]; cbn [info_attrs] in *.
  - destruct (Hst p st eq_refl) as [Hpn Hs]. revert Hall.
    replace (ct_before e ++ tuple_attr (ct_nest e) (ct_tuple e) :: ct_between e ++ [protoinfo_attr p st] ++ ct_after e)
      with ((ct_before e ++ tuple_attr (ct_nest e) (ct_tuple e) :: ct_between e) ++ protoinfo_attr p st :: ct_after e) by (by rewrite <- app_assoc).
    intros Hall. apply parse_tcp_state_enc; [done..|]. rewrite fmap_app, fmap_cons, not_elem_of_app, not_elem_of_cons. done.
  - apply parse_tcp_state_none; [done|]. rewrite fmap_app, fmap_cons, !fmap_app, !not_elem_of_app, not_elem_of_cons, !not_elem_of_app.
    split_and!; try done. apply not_elem_of_nil.
Qed.

(** The fields of a header in a datagram. *)
Lemma head_read pre len ty flags seq pid post : 0 <= len < 2 ^ 32 -> 0 <= ty < 2 ^ 16 -> 0 <= flags < 2 ^ 16 ->
  le32 (pre ++ enc_head len ty flags seq pid ++ post) (blen pre) = Ok len /\
  le16 (pre ++ enc_head len ty flags seq pid ++ post) (blen pre + 4) = Ok ty /\
  le16 (pre ++ enc_head len ty flags seq pid ++ post) (blen pre + 6) = Ok flags.
Proof.
  intros Hl Ht Hf. unfold enc_head. rewrite <- !app_assoc. split; [by apply le32_put32|]. split.
  - rewrite app_assoc. apply le16_put16; [by rewrite blen_app|done].
  - rewrite (app_assoc pre), (app_assoc (pre ++ _)). apply le16_put16; [|done]. rewrite !blen_app.
    change (blen (put32 len)) with 4. change (blen (put16 ty)) with 2. lia.
Qed.

Lemma process_event_follows now pre e post s x : event_ok e -> ct_len (Event e) < 2 ^ 31 -> net_rep s x ->
  exists s', process_msg c h now (pre ++ enc_ct (Event e) ++ post) (blen pre) (ct_len (Event e)) s = Ok s' /\
    follows c h s (spec_event now (Event e) x) s'.
Proof.
  intros He Hb Hr. pose proof (ct_tuple_read e He) as Htup. pose proof He as (Ht&Hf&Hn&_). destruct x as [m once].
  cbn [enc_ct ct_len] in *. set (A := enc_attrs (ct_attrs e)) in *. pose proof (blen_nonneg A). rewrite <- !app_assoc.
  destruct (head_read pre (20 + blen A) (ct_type e) (ct_flags e) (ct_seq e) (ct_pid e) (ct_nfgen e ++ A ++ post)) as (_&R1&R2); [lia|done..|].
  assert (R3 : sub (pre ++ enc_head (20 + blen A) (ct_type e) (ct_flags e) (ct_seq e) (ct_pid e) ++ ct_nfgen e ++ A ++ post)
    (blen pre + NLMSG_HDRLEN + NFGEN_MSG_SIZE) (blen A) = Ok A).
  { rewrite 2!app_assoc. apply sub_prefix; [|done]. by rewrite !blen_app, blen_head, Hn. }
  unfold process_msg. rewrite R1, R2. cbn [mbind outcome_bind spec_event]. rewrite i32_small by lia.
  replace (20 + blen A - NLMSG_HDRLEN - NFGEN_MSG_SIZE) with (blen A) by (unfold NLMSG_HDRLEN, NFGEN_MSG_SIZE; lia).
  rewrite (proj2 (Z.ltb_ge (20 + blen A - NLMSG_HDRLEN) _)), (proj2 (Z.leb_le NFGEN_MSG_SIZE _)), R3
    by (unfold NLMSG_HDRLEN, NFGEN_MSG_SIZE; lia). cbn [mbind outcome_bind].
  destruct (decide (ct_type e ∈ [MSG_CT_NEW; MSG_CT_DELETE])) as [Hty|Hty].
  - rewrite bool_decide_true by done. assert (Hty' : ct_type e = MSG_CT_NEW \/ ct_type e = MSG_CT_DELETE) by set_solver.
    replace ((ct_type e =? MSG_CT_NEW) || (ct_type e =? MSG_CT_DELETE)) with true by (by destruct Hty' as [-> | ->]).
    destruct (skipped c (ct_tuple e)) eqn:Hsk; cbn [negb andb].
    + unfold handle_msg. rewrite Htup. cbn [mbind outcome_bind]. rewrite Hsk. eauto using follows_refl.
    + apply handle_msg_follows; [done..|]. by apply ct_state_read.
  - rewrite bool_decide_false by done. cbn [andb].
    rewrite (proj2 (Z.eqb_neq _ MSG_CT_NEW)), (proj2 (Z.eqb_neq _ MSG_CT_DELETE)) by set_solver. eauto using follows_refl.
Qed.

Lemma process_msg_follows now pre m post s x : ct_ok m -> ct_len m < 2 ^ 31 -> net_rep s x ->
  exists s', process_msg c h now (pre ++ enc_ct m ++ post) (blen pre) (ct_len m) s = Ok s' /\ follows c h s (spec_event now m x) s'.
Proof.
  destruct m as [e|ty fl sq pd body]; [by apply process_event_follows|]. intros (Ht&Hf&Hty) Hb Hr.
  pose proof (ct_len_16 (Foreign ty fl sq pd body)). cbn [enc_ct ct_len] in *. rewrite <- !app_assoc. unfold process_msg.
  destruct (head_read pre (16 + blen body) ty fl sq pd (body ++ replicate (Z.to_nat ((- blen body) mod 4)) NUL ++ post)) as (_&->&->); [lia|done..|].
  cbn [mbind outcome_bind spec_event].
  rewrite (proj2 (Z.eqb_neq _ MSG_CT_NEW)), (proj2 (Z.eqb_neq _ MSG_CT_DELETE)) by set_solver. eauto using follows_refl.
Qed.

Lemma follows_trans s x l1 s1 r2 s2 : follows c h s (x, l1) s1 -> follows c h s1 r2 s2 -> follows c h s (r2.1, l1 ++ r2.2) s2.
Proof.
  intros [_ (n1&E1&F1)] [H2 (n2&E2&F2)]. split; [done|]. exists (n1 ++ n2). split; [by rewrite E2, E1, <- app_assoc|].
  by apply Forall2_app.
Qed.

Lemma nl_go_follows l : forall turns now pre s x, (length l <= turns)%nat -> Forall ct_ok l ->
  blen (pre ++ enc_batch l) < 2 ^ 31 - 3 -> net_rep s x ->
  exists s', nl_go c h turns now (pre ++ enc_batch l) (blen pre) (blen (enc_batch l)) s = Ok s' /\
    follows c h s (spec_events now (blen pre) l x) s'.
Proof.
  induction l as [|m l IH]; intros turns now pre s x Ht Hok Hsz Hr.
  { exists s. split; [|by apply follows_refl]. by destruct turns. }
  inv Hok. destruct turns as [|turns]; [cbn in Ht; lia|]. cbn [length] in Ht.
  change (enc_batch (m :: l)) with (enc_ct m ++ enc_batch l) in *. rewrite !blen_app in *.
  pose proof (blen_nonneg pre). pose proof (blen_nonneg (enc_batch l)). pose proof (ct_len_16 m).
  match goal with H : ct_ok m |- _ => rename H into Hm end. pose proof (blen_ct m Hm) as Hlen.
  assert (Hle : ct_len m <= blen (enc_ct m)) by (rewrite Hlen; Z.div_mod_to_equations; lia).
  cbn [nl_go]. unfold NLMSG_HDRLEN at 1. rewrite (proj2 (Z.ltb_ge _ 16)) by lia.
  assert (Hrd : le32 (pre ++ enc_ct m ++ enc_batch l) (blen pre) = Ok (ct_len m)).
  { destruct (ct_head m) as (ty&fl&sq&pd&r&->). unfold enc_head. rewrite <- !app_assoc. apply le32_put32; [done|lia]. }
  rewrite Hrd. cbn [mbind outcome_bind].
  rewrite i32_small, (proj2 (Z.ltb_ge (ct_len m) _)), (proj2 (Z.ltb_ge _ (ct_len m))) by (unfold NLMSG_HDRLEN; lia).
  cbn [orb]. destruct (process_msg_follows (now (blen pre)) pre m (enc_batch l) s x Hm) as (s1&->&Hf); [lia|done|].
  cbn [mbind outcome_bind].
  assert (Hal : align_u32 (ct_len m) = blen (enc_ct m)) by (rewrite align_u32_small, Hlen by lia; done).
  rewrite Hal, i32_small by lia. cbn [spec_events]. destruct (spec_event (now (blen pre)) m x) as [x1 l1] eqn:Em. cbn [fst snd].
  pose proof Hf as [Hr1 _]. cbn [fst snd] in Hr1.
  destruct (blen (enc_ct m) + blen (enc_batch l) <=? blen (enc_ct m)) eqn:El; zbool.
  - destruct l as [|m2 l].
    + exists s1. split; [done|]. cbn [spec_events fst snd]. by rewrite app_nil_r.
    + exfalso. inv H2. change (enc_batch (m2 :: l)) with (enc_ct m2 ++ enc_batch l) in *. rewrite blen_app in *.
      pose proof (blen_ct m2 ltac:(done)). pose proof (ct_len_16 m2). pose proof (blen_nonneg (enc_batch l)). Z.div_mod_to_equations. lia.
  - rewrite !blen_app, (proj2 (Z.ltb_ge _ (blen pre + _))), (proj2 (Z.leb_gt (2 ^ 31) _)) by lia.
    replace (blen (enc_ct m) + blen (enc_batch l) - blen (enc_ct m)) with (blen (enc_batch l)) by lia.
    rewrite app_assoc, <- blen_app.
    destruct (IH turns now (pre ++ enc_ct m) s1 x1) as (s2&E&Hf2); [lia|done|rewrite !blen_app; lia|exact Hr1|].
    rewrite E. exists s2. split; [done|]. by apply (follows_trans s x1 l1 s1).
Qed.
End Spec.

(** * A run *)

(** What comes in, before it is encoded; a datagram fits in the buffer of
    [recv]. *)
Inductive ct_in := Batch (h : host) (now : Z -> spec_float) (l : list ct_msg) | Failed (err : Z) | ThreadDone (h : host) (ip : bytes).
Definition on_wire (i : ct_in) : net_in :=
  match i with Batch h now l => NlData h now (enc_batch l) | Failed err => NlError err | ThreadDone h ip => Resolved h ip end.
Definition in_ok (i : ct_in) : Prop := match i with Batch _ _ l => Forall ct_ok l /\ blen (enc_batch l) <= 2 ^ 20 | _ => True end.

Section Run.
Context (c : ncfg) (showErrors : bool) (strerror : Z -> bytes).

(** The connections and the addresses, and what is printed, each line in its
    state of the machine. *)
Fixpoint spec_inputs (l : list ct_in) (x : conns) : conns * list (host * shown) :=
  match l with
  | [] => (x, [])
  | i :: l' =>
      let r := match i with
               | Batch h now evs => let r := spec_events c h now 0 evs x in (r.1, pair h <$> r.2)
               | _ => (x, [])
               end in
      let r' := spec_inputs l' r.1 in (r'.1, r.2 ++ r'.2)
  end.
Definition spec_errors (l : list ct_in) : list bytes :=
  mjoin ((fun i => match i with Failed err => net_error showErrors strerror err | _ => [] end) <$> l).
(** The lines of a run are those of the specification. *)
Definition printed (lines : list line) (xs : list (host * shown)) : Prop := Forall2 (fun l x => line_shows c x.1 l x.2) lines xs.

Lemma printed_with h new xs : Forall2 (line_shows c h) new xs -> printed new (pair h <$> xs).
Proof. intros H. apply Forall2_fmap_r. exact H. Qed.

Lemma net_read_follows i s x : in_ok i -> net_rep s.1 x ->
  exists s', net_read c showErrors strerror (on_wire i) s = Ok s' /\
    net_rep s'.1 (spec_inputs [i] x).1 /\
    (exists new, ns_lines s'.1 = ns_lines s.1 ++ new /\ printed new (spec_inputs [i] x).2) /\ s'.2 = s.2 ++ spec_errors [i].
Proof.
  intros Hi Hr. destruct i as [h now l|err|h ip]; cbn [on_wire net_read spec_inputs].
  - destruct Hi as [Hok Hsz]. unfold process_nl_msgs.
    destruct (nl_go_follows c h l (S (Z.to_nat (blen (enc_batch l) / 16))) now [] s.1 x) as (s1&E&Hf); [|done|cbn [app]; lia|done|].
    + clear Hsz. assert (16 * blen l <= blen (enc_batch l)).
      { induction Hok as [|e l He _ IH]; [done|]. change (enc_batch (e :: l)) with (enc_ct e ++ enc_batch l).
        rewrite blen_app, blen_cons. pose proof (blen_ct e He). pose proof (ct_len_16 e). Z.div_mod_to_equations. lia. }
      unfold blen in *. Z.div_mod_to_equations. lia.
    + cbn [app] in E. change (blen []) with 0 in *. rewrite E. cbn [mbind outcome_bind]. eexists. split; [done|].
      destruct Hf as [Hm (new&El&Hn)]. cbn [fst snd]. split; [exact Hm|]. split; [|by rewrite app_nil_r].
      exists new. rewrite app_nil_r. split; [exact El|by apply printed_with].
  - eexists. split; [done|]. split; [exact Hr|]. split; [exists []; split; [by rewrite app_nil_r|constructor]|].
    cbn [snd]. unfold spec_errors. cbn. by rewrite app_nil_r.
  - eexists. split; [done|]. split; [exact Hr|]. split; [exists []; split; [by rewrite app_nil_r|constructor]|by rewrite app_nil_r].
Qed.

Lemma spec_inputs_cons i l x : spec_inputs (i :: l) x =
  ((spec_inputs l (spec_inputs [i] x).1).1, (spec_inputs [i] x).2 ++ (spec_inputs l (spec_inputs [i] x).1).2).
Proof. cbn [spec_inputs fst snd]. by rewrite app_nil_r. Qed.

Lemma fold_inputs l : forall s s' x, Forall in_ok l -> net_rep s.1 x ->
  fold_in (net_read c showErrors strerror) (on_wire <$> l) s = Ok s' ->
  net_rep s'.1 (spec_inputs l x).1 /\
  (exists new, ns_lines s'.1 = ns_lines s.1 ++ new /\ printed new (spec_inputs l x).2) /\ s'.2 = s.2 ++ spec_errors l.
Proof.
  induction l as [|i l IH]; intros s s' x Hok Hr H.
  { injection H as <-. split; [done|]. split; [exists []; split; [by rewrite app_nil_r|constructor]|by rewrite app_nil_r]. }
  cbn [fmap list_fmap fold_in] in H. apply Forall_cons in Hok as [Hi Hok].
  destruct (net_read_follows i s x) as (s1&E&Hm1&(n1&E1&P1)&Er1); [done|done|]. rewrite E in H. cbn [mbind outcome_bind] in H.
  apply (IH _ _ (spec_inputs [i] x).1) in H as (Hm2&(n2&E2&P2)&Er2); [|done|exact Hm1]. rewrite spec_inputs_cons. cbn [fst snd].
  split; [done|]. split.
  - exists (n1 ++ n2). split; [by rewrite E2, E1, <- app_assoc|by apply Forall2_app].
  - rewrite Er2, Er1. unfold spec_errors. rewrite !fmap_cons. change (mjoin (?x :: ?y)) with (x ++ mjoin y). cbn [fmap list_fmap].
    change (mjoin []) with (@nil bytes). by rewrite app_nil_r, <- app_assoc.
Qed.

(** C5. A whole run of the Linux connection tracer refines its specification.
    The datagrams are those of conntrack: any number of events for IPv4 or IPv6
    connections of any protocol, each with its tuple and the protocol
    information of TCP in their nests, beside them any other attributes there
    and in the message (the numbers of ICMP, zones, window scales, flags,
    counters), and between the events other messages; a datagram is at most the
    1 MiB that [recv] takes. However errors of [recv], signals and the threads
    that resolve names come in between, the table of the run is the map that
    the specification makes of the events, the addresses of the machine are
    read once, for the first event that asks, and the output is the lines of the
    specification, in the order of the events and byte for byte, but for the
    host names of -r; the errors are reported on the side. *)
Theorem net_run_refines restarts l ls y :
  net_run c showErrors strerror restarts (AtTest (nstate0, []) false) ls y -> inputs ls = on_wire <$> l -> Forall in_ok l ->
  net_rep (tracer y).1 (spec_inputs l (∅, None)).1 /\
  printed (ns_lines (tracer y).1) (spec_inputs l (∅, None)).2 /\
  (tracer y).2 = spec_errors l.
Proof.
  intros Hr Hin Hok. apply lrun_fold in Hr. rewrite Hin in Hr. apply bind_Ok in Hr as (s&Hs&Hf).
  apply (fold_inputs l _ _ (∅, None)) in Hs as (Hm&(new&El&Hl)&He); [|done|by split; [exact conn_rep_empty|]].
  cbn [fst nstate0 ns_lines app] in El.
  assert (E : tracer y = s) by (destruct (finals ls) as [|[]]; by injection Hf as <-). rewrite E, El. done.
Qed.
End Run.

(** A connection that opens, is established and closes, with the protocol
    information of a real kernel; an ICMP exchange; a message of another kind;
    between them a failed [recv] and the end of a thread. *)
Definition demo_ct (t flags : Z) (i : option (pnest * Z)) : ct_event :=
  CtEvent t flags 7 0 (replicate 4 NUL) [Attr 0 12 (put32 9)] plain_nest demo_tuple [] i [Attr 0 7 (put32 30)].
Definition demo_ping : ct_event :=
  CtEvent 256 1536 8 0 (replicate 4 NUL) [] demo_icmp_nest demo_icmp [] None [Attr 0 7 (put32 30)].
Definition demo_inputs : list ct_in :=
  [Batch demo_host demo_time [Event (demo_ct 256 1536 (Some (demo_pnest, 1))); Foreign 2 0 0 0 (replicate 7 NUL); Event (demo_ct 256 0 (Some (demo_pnest, 3)))];
   Failed 105; ThreadDone demo_host "1.1.1.1"; Batch demo_host demo_time [Event demo_ping; Event (demo_ct 258 0 None)]].
Definition full_ncfg : ncfg := NCfg [] true true false false true false false false.
Definition demo_net_labels : list (label (Fin := Empty_set) (Sig := unit)) :=
  mjoin ((fun i => [LTest; LRead (on_wire i)]) <$> demo_inputs) ++ [LSignal (); LTest; LSkip].

Example demo_net_lines : (fun x => (sh_pid x.2, sh_kind x.2, sh_extra x.2)) <$> (spec_inputs full_ncfg demo_inputs (∅, None)).2 =
  [(0, New, []); (0, Update, bs "ESTABLISHED"); (0, Closed, bs "0.000s")].
Proof. vm_compute. reflexivity. Qed.

Ltac not_there := apply (bool_decide_unpack _); vm_compute; exact I.
Lemma demo_ct_ok t flags i : 0 <= t < 2 ^ 16 -> 0 <= flags < 2 ^ 16 ->
  (forall p st, i = Some (p, st) -> pnest_ok p /\ 0 <= st < 256) -> event_ok (demo_ct t flags i).
Proof.
  intros Ht Hf Hi. do 2 (split; [done|]). split; [reflexivity|]. split; [exact demo_tuple_ok|]. split; [apply plain_nest_ok|].
  split; [exact Hi|]. split; [repeat constructor; cbv; done|]. split; [not_there|]. intros _. not_there.
Qed.
Lemma demo_ping_ok : event_ok demo_ping.
Proof.
  do 2 (split; [done|]). split; [reflexivity|]. split; [exact demo_icmp_ok|]. split; [exact demo_icmp_nest_ok|].
  split; [done|]. split; [repeat constructor; cbv; done|]. split; [apply not_elem_of_nil|]. intros _. not_there.
Qed.
Lemma demo_inputs_ok : Forall in_ok demo_inputs.
Proof.
  assert (Hp : forall st, 0 <= st < 256 -> forall p st', Some (demo_pnest, st) = Some (p, st') -> pnest_ok p /\ 0 <= st' < 256)
    by (intros st Hst p st' [= <- <-]; split; [exact demo_pnest_ok|done]).
  repeat (apply Forall_cons; split); try exact I; try apply Forall_nil_2; (split; [|vm_compute; discriminate]);
    repeat (apply Forall_cons; split); try apply Forall_nil_2; try (apply demo_ct_ok; [lia|lia|]); try (by apply Hp); try done.
  - split; [lia|]. split; [lia|]. not_there.
  - exact demo_ping_ok.
Qed.
Lemma demo_net_run : exists y, net_run full_ncfg true (fun _ => []) false (AtTest (nstate0, []) false) demo_net_labels y.
Proof.
  destruct (fold_in (net_read full_ncfg true (fun _ => [])) (on_wire <$> demo_inputs) (nstate0, [])) as [s| |] eqn:E;
    [|vm_compute in E; discriminate E..].
  unfold demo_inputs in E. cbn [fmap list_fmap fold_in] in E.
  repeat (let s := fresh "s" in let H := fresh "H" in apply bind_Ok in E as (s&H&E)).
  eexists. unfold demo_net_labels, demo_inputs. cbn [fmap list_fmap mjoin list_join app].
  repeat (eapply RunCons; [econstructor; try eassumption; reflexivity|]). constructor.
Qed.
Lemma net_run_refines_witness : exists y, net_run full_ncfg true (fun _ => []) false (AtTest (nstate0, []) false) demo_net_labels y /\
  net_rep (tracer y).1 (spec_inputs full_ncfg demo_inputs (∅, None)).1 /\
  printed full_ncfg (ns_lines (tracer y).1) (spec_inputs full_ncfg demo_inputs (∅, None)).2 /\
  (tracer y).2 = spec_errors true (fun _ => []) demo_inputs.
Proof.
  destruct demo_net_run as [y Hr]. exists y. split; [exact Hr|].
  apply (net_run_refines full_ncfg true (fun _ => []) false demo_inputs demo_net_labels y Hr); [reflexivity|exact demo_inputs_ok].
Defined.

(** * The command *)

Section Command.
Context (getpid : Z) (alive : Z -> bool) (no_color : option bytes) (term : option bytes -> stream) (strerror : Z -> bytes).

(** The command is started only after the socket is open and bound to the
    groups that the options ask for: no connection of the command is lost. In
    the tracer the thread that waits for the command is created next. *)
Lemma net_main_subscribes_first e args o cmd m :
  l_parse_args alive args = Ok (NRun o cmd) -> cmd <> [] ->
  net_main getpid alive no_color term strerror args = Ok m ->
  wp e [] m (fun r h => Fork ∈ h.*1 -> exists pre fd pid post,
    h = pre ++ [(Socket 16 3 12, fd); (Bind fd (l_groups (l_cfg o)) (u32 getpid), 0); (Fork, pid)] ++ post /\
    0 <= fd /\ Fork ∉ pre.*1 /\
    (pid <= 0 /\ (forall k, forked nprog 127 cmd pid r post k) \/
     0 < pid /\ exists w, post = [(WaiterThread, w)] /\
       r = ToLoop (NetStart fd (l_config no_color (term (l_out o)) (Some pid) o) (l_errors o) (Some pid)))).
Proof.
  intros Hp Hc Hm. unfold net_main in Hm. rewrite Hp, ok_bind in Hm. injection Hm as <-.
  match goal with |- context [net_subscribe _ _ _ ?k] => set (start := net_subscribe _ _ _ k); set (Q := fun r h => _ -> _) end.
  assert (Hs : forall h, Fork ∉ h.*1 -> wp e h start Q).
  { intros h Hh. unfold start, net_subscribe. apply wp_bind, wp_sys. set (fd := e h _).
    apply wp_on_error; intros Hfd; [intros Hf; exfalso; revert Hf; by apply snoc_no_fork|].
    apply wp_bind, wp_sys. set (h1 := h ++ _). set (b := e h1 _).
    assert (Hn : Fork ∉ (h1 ++ [(Bind fd (l_groups (l_cfg o)) (u32 getpid), b)]).*1) by (by repeat apply snoc_no_fork).
    apply wp_on_error; intros Hb; [intros Hf; exfalso; exact (Hn Hf)|]. zbool. destruct cmd as [|name cmd]; [done|]. unfold h1. rewrite Hb.
     apply wp_fork_command.
    - intros pid r post Hpid Hf _. exists h, fd, pid, post. rewrite <- !app_assoc. split_and!; [done..|]. by left.
    - intros pid Hpid. apply wp_bind, wp_sys. set (w := e _ WaiterThread). apply wp_ret. intros _.
      exists h, fd, pid, [(WaiterThread, w)]. rewrite <- !app_assoc. split_and!; [done..|]. right. eauto. }
  destruct (l_out o) as [f|]; [|apply Hs; set_solver].
  apply wp_bind, wp_sys. apply wp_on_error; intros _; [intros Hf; cbn in Hf; set_solver|apply Hs; cbn; set_solver].
Qed.
End Command.

(** The thread that waits ends the program with status 0, 300 ms after the
    first answer of [waitpid] that is not EINTR. *)
Lemma child_waiter_ends pid e n : forall h turns, (n < turns)%nat ->
  e (h ++ replicate n (Waitpid pid, -4)) (Waitpid pid) <> -4 ->
  wp e h (child_waiter turns pid) (fun r h' => r = Ok tt /\ exists k a s x, (k <= n)%nat /\ a <> -4 /\
    h' = h ++ replicate k (Waitpid pid, -4) ++ [(Waitpid pid, a); (Nanosleep 300000000, s); (ExitNow 0, x)]).
Proof.
  induction n as [|n IH]; intros h [|turns] Hn He; try lia; cbn [child_waiter replicate] in *; apply wp_bind, wp_sys.
  all: destruct (_ =? -4) eqn:Er; zbool.
  - rewrite app_nil_r in He. congruence.
  - apply wp_bind, wp_sys, wp_bind, wp_sys, wp_ret. split; [done|]. exists 0%nat. do 3 eexists. split; [done|]. split; [exact Er|]. by rewrite <- !app_assoc.
  - rewrite Er. eapply wp_mono; [apply (IH _ turns); [lia|by rewrite <- app_assoc]|].
    intros r h' (->&k&a&s&x&Hk&Ha&->). split; [done|]. exists (S k), a, s, x. split; [lia|]. split; [done|]. by rewrite <- app_assoc.
  - apply wp_bind, wp_sys, wp_bind, wp_sys, wp_ret. split; [done|]. exists 0%nat. do 3 eexists. split; [lia|]. split; [exact Er|]. by rewrite <- !app_assoc.
Qed.
