(* ===== verification/DnsTrace.v ===== *)
(** The DNS tracer of c/dns.c above the wire format: the filter sets, the
    attribution of a UDP port to a process on Linux, the cache of attributions,
    the table of queries in flight, the printed lines and the reaction to a
    captured frame. *)
From S2P Require Import Prelude CLib Inet Common Os DnsWire.

(** * Options and filters *)

Definition MAX_SET : nat := 64.
Definition is_blank (c : byte) : bool := eqc c " " || eqc c "009".

(** [split_set(s, set, n, upper)] *)
Definition split_set_add (upper : bool) (set : list bytes) (tok : bytes) : list bytes :=
  let t := rtrim is_blank (ltrim is_blank tok) in
  match t with
  | [] => set
  | _ => if (MAX_SET <=? length set)%nat then set else set ++ [if upper then toupper <$> t else t]
  end.
Definition split_set (s : bytes) (set : list bytes) (upper : bool) : list bytes :=
  foldl (split_set_add upper) set (strtok is_comma s).

(** [parse_pids(s)] *)
Definition parse_pid_add (set : list Z) (tok : bytes) : list Z :=
  let r := strtol tok in
  if st_conv r && eqs (ltrim is_blank (st_rest r)) [] && (length set <? MAX_SET)%nat
  then set ++ [i32 (st_val r)] else set.
Definition parse_pids (s : bytes) (set : list Z) : list Z := foldl parse_pid_add set (strtok is_comma s).

Definition in_str_set (set : list bytes) (v : bytes) : bool := existsb (fun x => eqs x v) set.
Definition in_pid_set (set : list Z) (v : Z) : bool := existsb (fun x => x =? v) set.

(** The flags of the command line. *)
Record dcfg := DCfg {
  fJSON : bool; fQuiet : bool; fQQuiet : bool; fFlat : bool; fColor : bool; fTime : bool;
  fDomain : bytes; fOutput : bytes;
  name_set : list bytes; type_set : list bytes; pid_set : list Z;
}.
Definition dcfg0 : dcfg := DCfg false false false false false false [] [] [] [] [].

(** How the scan of the command line ends: with the options and the rest of
    the arguments (the command to run), after printing the usage, or with an
    error message and exit status 1. *)
Inductive scan_res := Run (c : dcfg) (cmd : list bytes) | UsageExit | Die (msg : bytes).

Definition set_flag (c : dcfg) (ch : byte) (val : bytes) : dcfg :=
  let '(DCfg j q qq f co t d o ns ts ps) := c in
  if eqc ch "n" then DCfg j q qq f co t d o (split_set val ns false) ts ps
  else if eqc ch "p" then DCfg j q qq f co t d o ns ts (parse_pids val ps)
  else if eqc ch "d" then DCfg j q qq f co t val o ns ts ps
  else if eqc ch "o" then DCfg j q qq f co t d val ns ts ps
  else DCfg j q qq f co t d o ns (split_set val ts true) ps.
Definition set_switch (c : dcfg) (ch : byte) : option dcfg :=
  let '(DCfg j q qq f co t d o ns ts ps) := c in
  if eqc ch "c" then Some (DCfg j q qq f true t d o ns ts ps)
  else if eqc ch "f" then Some (DCfg j q qq true co t d o ns ts ps)
  else if eqc ch "j" then Some (DCfg true q qq f co t d o ns ts ps)
  else if eqc ch "q" then Some (DCfg j true qq f co t d o ns ts ps)
  else if eqc ch "Q" then Some (DCfg j q true f co t d o ns ts ps)
  else if eqc ch "t" then Some (DCfg j q qq f co true d o ns ts ps)
  else None.
Definition takes_value (ch : byte) : bool := existsb (eqc ch) ("npdoT" : bytes).

(** The manual flag scan of [dns_main], over the arguments after the first. *)
Fixpoint scan_flags (args : list bytes) (c : dcfg) : scan_res :=
  match args with
  | [] => Run c []
  | a :: rest =>
      match a with
      | d :: ch :: _ =>
          if negb (eqc d "-") then Run c args
          else if eqs a "--" then Run c rest
          else
            let val := match strchr a "=" with Some i => Some (drop (S i) a) | None => None end in
            match set_switch c ch with
            | Some c' => scan_flags rest c'
            | None =>
                if eqc ch "h" then UsageExit
                else if takes_value ch then
                  match val, rest with
                  | Some v, _ => scan_flags rest (set_flag c ch v)
                  | None, v :: rest' => scan_flags rest' (set_flag c ch v)
                  | None, [] => Die ("flag -" ++ [ch] ++ " requires an argument")
                  end
                else Die ("flag provided but not defined: -" ++ [ch])
            end
      | _ => Run c args
      end
  end.

(** * Attribution on Linux *)

(** The conversions of [sscanf] the tracer uses. *)
Fixpoint take_word (w : nat) (s : bytes) : bytes * bytes :=
  match w, s with
  | S w', c :: s' => if is_space c then ([], s) else let '(t, r) := take_word w' s' in (c :: t, r)
  | _, _ => ([], s)
  end.
Definition scan_str (w : nat) (s : bytes) : option (bytes * bytes) :=
  match take_word w (ltrim is_space s) with ([], _) => None | (t, r) => Some (t, r) end.
(** A word of any length, skipped. *)
Definition skip_str (s : bytes) : option bytes := r ← scan_str (length s) s; Some r.2.
Definition skip_int (s : bytes) : option bytes := r ← scan_int s; Some r.2.

(** [sscanf(line, " %*d %127s %*s %*s %*s %*s %*s %*s %*d %*d %ld", local, &ino)],
    when it converts both. *)
Definition scan_udp (line : bytes) : option (bytes * Z) :=
  s ← skip_int line;
  r ← scan_str 127 s;
  let '(local, s) := r in
  s ← skip_str s; s ← skip_str s; s ← skip_str s; s ← skip_str s; s ← skip_str s; s ← skip_str s;
  s ← skip_int s; s ← skip_int s;
  i ← scan_int s;
  Some (local, i.1).

Fixpoint find_port (want : bytes) (lines : list bytes) : Z :=
  match lines with
  | [] => -1
  | l :: lines' =>
      match scan_udp (cstr l) with
      | None => find_port want lines'
      | Some (local, ino) =>
          match strrchr local ":" with
          | Some i => if eqs (toupper <$> drop (S i) local) (toupper <$> want) then ino else find_port want lines'
          | None => find_port want lines'
          end
      end
  end.
Definition inode_for_port (o : os) (port : Z) (path : bytes) : Z :=
  match os_read o path with
  | None => -1
  | Some s => match fgets_all 512 s with
              | [] => -1
              | _ :: lines => find_port (trunc 8 (fmt_0X 4 port)) lines
              end
  end.

Definition comm_for_pid (o : os) (pid : Z) (cap : nat) : bytes :=
  match os_read o (trunc 64 (proc_path pid "comm")) with
  | None => trunc cap "?"
  | Some s => match fgets_all cap s with
              | [] => trunc cap "?"
              | l :: _ => match strchr (cstr l) "010" with Some i => take i (cstr l) | None => cstr l end
              end
  end.

Fixpoint fd_links_to (o : os) (fddir target : bytes) (names : list bytes) : bool :=
  match names with
  | [] => false
  | n :: names' =>
      match readlink o 64 (trunc 400 (fddir ++ "/" ++ n)) with
      | Target b => if eqs (cstr b) target then true else fd_links_to o fddir target names'
      | _ => fd_links_to o fddir target names'
      end
  end.
(** The walk over /proc: it stops at the first process found, if its number
    is not 0. *)
Fixpoint find_owner (o : os) (target : bytes) (cap : nat) (names : list bytes) (name : bytes) : Z * bytes :=
  match names with
  | [] => (0, name)
  | n :: names' =>
      let r := strtol n in
      if negb (eqs (st_rest r) []) then find_owner o target cap names' name
      else
        let fddir := trunc 64 ("/proc/" ++ fmt_d (st_val r) ++ "/fd") in
        match os_dir o fddir with
        | None => find_owner o target cap names' name
        | Some fds =>
            if fd_links_to o fddir target fds
            then let pid := i32 (st_val r) in
                 let name := comm_for_pid o pid cap in
                 if pid =? 0 then find_owner o target cap names' name else (pid, name)
            else find_owner o target cap names' name
        end
  end.
Definition pid_for_udp_port (o : os) (port : Z) (cap : nat) : Z * bytes :=
  let ino := inode_for_port o port "/proc/net/udp" in
  let ino := if ino <? 0 then inode_for_port o port "/proc/net/udp6" else ino in
  if ino <? 0 then (0, trunc cap "?")
  else match os_dir o "/proc" with
       | None => (0, trunc cap "?")
       | Some names => find_owner o (trunc 40 ("socket:[" ++ fmt_d ino ++ "]")) cap names (trunc cap "?")
       end.

(** * The cache of attributions *)

Definition CACHE_TTL_MS : spec_float := f64_of_Z 2000.
Record cache_ent := CacheEnt { pc_pid : Z; pc_name : bytes; pc_born : spec_float }.
Abbreviation pcache := (gmap Z cache_ent).

(** [lookup] is [pid_for_udp_port] of the platform, [t] the clock. *)
Definition proc_lookup (lookup : Z -> Z * bytes) (t : spec_float) (port : Z) (cap : nat) (cache : pcache)
  : Z * bytes * pcache :=
  let fresh := let '(pid, nm) := lookup port in
               (pid, trunc cap nm, <[port := CacheEnt pid (trunc 64 nm) t]> cache) in
  match cache !! port with
  | Some e => if f64_lt (f64_sub t (pc_born e)) CACHE_TTL_MS then (pc_pid e, trunc cap (pc_name e), cache) else fresh
  | None => fresh
  end.

(** * Output *)

Definition json_char (c : byte) : bytes :=
  if eqc c (chr 34) || eqc c "\" then ["\"%char; c]
  else if u8 c <? 32 then "\u" ++ fmt_0x 4 (u8 c)
  else [c].
(** [for (; *s && w < cap - 8; s++)] after [w] bytes. *)
Fixpoint json_escape_go (s : bytes) (w cap : Z) : bytes :=
  match s with
  | [] => []
  | c :: s' => if w <? cap - 8 then json_char c ++ json_escape_go s' (w + blen (json_char c)) cap else []
  end.
Definition json_escape (s : bytes) (cap : Z) : bytes := json_escape_go s 0 cap.

Definition trunc15 (s : bytes) : bytes :=
  if (length s <=? 15)%nat then trunc 64 s else trunc 64 (take 14 s ++ [chr 226; chr 128; chr 166]).

(** A string in quotes. *)
Definition DQ : byte := chr 34.
Definition json_str (s : bytes) (cap : Z) : bytes := [DQ] ++ json_escape s cap ++ [DQ].
Definition json_key (k : bytes) : bytes := [DQ] ++ k ++ [DQ] ++ ":".

Section Emit.
Context (c : dcfg) (use_color : bool).

(** The four filters at the top of [emit]. *)
Definition shown (query qtype : bytes) (pid : Z) (name : bytes) : bool :=
  (bool_decide (name_set c = []) || in_str_set (name_set c) name) &&
  (bool_decide (pid_set c = []) || in_pid_set (pid_set c) pid) &&
  (bool_decide (type_set c = []) || in_str_set (type_set c) qtype) &&
  (bool_decide (fDomain c = []) || match strstr query (fDomain c) with Some _ => true | None => false end).

Definition LF : byte := "010"%char.

Definition json_line (query qtype : bytes) (pid : Z) (name : bytes) (resp : dns_msg)
    (latency : spec_float) (ts : bytes) : bytes :=
  "{" ++ json_key "pid" ++ fmt_d pid ++ "," ++ json_key "name" ++ json_str name 256 ++ "," ++
  json_key "type" ++ [DQ] ++ qtype ++ [DQ] ++ "," ++ json_key "query" ++ json_str query 600 ++ "," ++
  json_key "answers" ++ "[" ++ joined_by "," ((fun a => json_str a 600) <$> m_answers resp) ++ "]," ++
  json_key "rcode" ++ [DQ] ++ rcode_str (Z.land (m_flags resp) 15) ++ [DQ] ++ "," ++
  json_key "latency_ms" ++ fmt_f 3 latency ++
  (if fTime c then "," ++ json_key "ts" ++ [DQ] ++ ts ++ [DQ] else []) ++ "}" ++ [LF].

Definition dcol (code s : bytes) : bytes := clr_text use_color code s.

Definition text_line (query qtype : bytes) (pid : Z) (name : bytes) (resp : dns_msg)
    (latency : spec_float) (ts : bytes) : bytes :=
  let rcode := rcode_str (Z.land (m_flags resp) 15) in
  let pidbuf := trunc 16 (fmt_d pid) in
  (if fTime c then dcol "36" ts ++ "  " else []) ++
  (if fFlat c
   then dcol "33" pidbuf ++ "  " ++ dcol "96" name ++ "  " ++ dcol "35" qtype ++ "  " ++ dcol "32" query ++ "  "
   else pad_right 7 (dcol "33" pidbuf) ++ "  " ++ pad_right 15 (dcol "96" (trunc15 name)) ++ "  " ++
        pad_right 5 (dcol "35" qtype) ++ "  " ++ pad_right 42 (dcol "32" query) ++ "  ") ++
  dcol "90" [chr 226; chr 134; chr 146; " "%char] ++
  (if eqs rcode "NOERROR"
   then match take 2047 (joined_by " " (m_answers resp)) with [] => [] | j => dcol "34" j end
   else dcol "31" rcode) ++
  "  " ++ dcol "90" (trunc 32 (fmt_f 1 latency ++ "ms")) ++ [LF].

(** What [emit] writes, or nothing. *)
Definition emit (query qtype : bytes) (pid : Z) (name : bytes) (resp : dns_msg)
    (latency : spec_float) (ts : bytes) : option bytes :=
  if negb (shown query qtype pid name) then None
  else if fQuiet c then Some (query ++ [LF])
  else if fJSON c then Some (json_line query qtype pid name resp latency ts)
  else Some (text_line query qtype pid name resp latency ts).
End Emit.

(** * Queries in flight *)

Record pending_t := Pending { p_query : bytes; p_qtype : bytes; p_pid : Z; p_name : bytes; p_sent : spec_float }.

(** The table of the queries whose [set] is true, the cache, the output. *)
Record dstate := DState { d_pending : gmap Z pending_t; d_cache : pcache; d_out : list bytes }.

(** The readings of the clock while a frame is handled, and the time of day. *)
Record clock := Clock { k_lookup : spec_float; k_sent : spec_float; k_ts : bytes }.

(** What the main loop does with a parsed message. *)
Definition on_message (c : dcfg) (use_color : bool) (lookup : Z -> Z * bytes) (k : clock)
    (m : dns_msg) (src dst : Z) (s : dstate) : dstate :=
  let is_query := Z.land (m_flags m) 32768 =? 0 in
  if is_query && (dst =? 53) then
    let '(pid, name, cache) := proc_lookup lookup (k_lookup k) src 64 (d_cache s) in
    DState (<[m_id m := Pending (trunc 256 (m_question m)) (trunc 16 (qtype_str (m_qtype m))) pid name (k_sent k)]>
              (d_pending s)) cache (d_out s)
  else if negb is_query && (src =? 53) then
    match d_pending s !! m_id m with
    | None => s
    | Some p =>
        DState (delete (m_id m) (d_pending s)) (d_cache s)
               (d_out s ++ match emit c use_color (p_query p) (p_qtype p) (p_pid p) (p_name p) m
                                   (f64_sub (k_sent k) (p_sent p)) (k_ts k) with
                           | Some l => [l]
                           | None => []
                           end)
    end
  else s.

(** One turn of the main loop on a captured frame. *)
Definition on_frame (fuel : nat) (c : dcfg) (use_color : bool) (lookup : Z -> Z * bytes) (k : clock)
    (frame : bytes) (s : dstate) : outcome dstate :=
  r ← parse_packet fuel frame;
  match r with
  | None => Ok s
  | Some (m, src, dst) => Ok (on_message c use_color lookup k m src dst s)
  end.

(** * macOS: the lsof table and the BPF records *)

Record mac_pn := MacPn { mp_pid : Z; mp_name : bytes }.
(** The current process, its name, the table of ports (absent: pid 0). *)
Record mac_scan := MacScan { mc_pid : Z; mc_name : bytes; mc_udp : gmap Z mac_pn }.

(** The local port of the name field of a socket. *)
Definition mac_port (s : bytes) : option Z :=
  let body := trunc 256 s in
  let body := match strstr body "->" with Some i => take i body | None => body end in
  i ← strrchr body ":";
  let pstr := drop (S i) body in
  match pstr with
  | "*"%char :: _ => None
  | _ => let port := st_val (strtol pstr) in
         if (port <=? 0) || (65535 <? port) then None else Some port
  end.

Definition mac_scan_line (m : mac_scan) (raw : bytes) : mac_scan :=
  let line := rtrim is_eol (cstr raw) in
  match line with
  | [] | [_] => m
  | tag :: val =>
      if eqc tag "p" then
        let r := strtol val in
        if st_conv r && eqs (st_rest r) [] then MacScan (i32 (st_val r)) (mc_name m) (mc_udp m) else m
      else if eqc tag "c" then MacScan (mc_pid m) (trunc 64 val) (mc_udp m)
      else if eqc tag "n" then
        match mac_port val with
        | None => m
        | Some port => MacScan (mc_pid m) (mc_name m) (<[port := MacPn (mc_pid m) (trunc 64 (mc_name m))]> (mc_udp m))
        end
      else m
  end.
(** [mac_scan_udp] on the output of lsof; [None]: [popen] fails. *)
Definition mac_scan_udp (out : option bytes) : gmap Z mac_pn :=
  match out with
  | None => ∅
  | Some s => mc_udp (foldl mac_scan_line (MacScan 0 "?" ∅) (fgets_all 1024 s))
  end.

(** The table and the time of its last scan ([None]: never, the time 0). *)
Record mac_state := MacState { ms_udp : gmap Z mac_pn; ms_born : option spec_float }.
Definition mac_pid_for_udp_port (out : option bytes) (t : spec_float) (port : Z) (cap : nat) (s : mac_state)
  : Z * bytes * mac_state :=
  let stale := match ms_born s with None => true | Some b => f64_lt (f64_of_Z 2000) (f64_sub t b) end in
  let s := if stale then MacState (mac_scan_udp out) (Some t) else s in
  match ms_udp s !! port with
  | Some p => if 0 <? mp_pid p then (mp_pid p, trunc cap (mp_name p), s) else (0, trunc cap "?", s)
  | None => (0, trunc cap "?", s)
  end.

(** The header of a BPF record: the capture length at 8, the header length at
    16; 20 bytes in all, records aligned to 4. *)
Definition BPF_HDR_SIZE : Z := 20.
Definition BPF_WORDALIGN (x : Z) : Z := Z.land (x + 3) (Z.lnot 3).

(** The next record of [rec]: the frame and the unconsumed bytes; [None] when
    it is exhausted or malformed and the device is read again. *)
Definition cap_record (rec : bytes) : outcome (option (bytes * bytes)) :=
  if blen rec <? BPF_HDR_SIZE then Ok None
  else
    cl ← le32 rec 8;
    hdrlen ← le16 rec 16;
    let caplen := i32 cl in
    if (hdrlen <? BPF_HDR_SIZE) || (caplen <? 0) then Ok None
    else if 2 ^ 31 <=? hdrlen + caplen then Ub
    else if blen rec <? hdrlen + caplen then Ok None
    else
      let adv := BPF_WORDALIGN (hdrlen + caplen) in
      frame ← sub rec hdrlen caplen;
      Ok (Some (frame, if blen rec <=? adv then [] else drop (Z.to_nat adv) rec)).

(** [cap_next]: the records that one [read] of the device delivered, in
    turn. *)
Fixpoint cap_all (fuel : nat) (rec : bytes) : outcome (list bytes) :=
  match fuel with
  | O => Fuel
  | S f =>
      r ← cap_record rec;
      match r with
      | None => Ok []
      | Some (frame, rest) => l ← cap_all f rest; Ok (frame :: l)
      end
  end.

(** An interface: its flags up and loopback, its IPv4 address, its name. *)
Record iface := Iface { if_up : bool; if_loopback : bool; if_addr : option Z; if_name : bytes }.
Fixpoint pick_iface_go (l : list iface) (cap : nat) (fallback : bytes) : option bytes :=
  match l with
  | [] => match fallback with [] => None | _ => Some (trunc cap fallback) end
  | p :: l' =>
      match if_addr p with
      | None => pick_iface_go l' cap fallback
      | Some h =>
          if negb (if_up p) || if_loopback p then pick_iface_go l' cap fallback
          else if (h =? 0) || (Z.shiftr h 24 =? 127) then pick_iface_go l' cap fallback
          else if has_prefix "en" (if_name p) then Some (trunc cap (if_name p))
          else pick_iface_go l' cap (match fallback with [] => trunc 16 (if_name p) | _ => fallback end)
      end
  end.
(** [None] is -1. *)
Definition pick_iface (ifs : option (list iface)) (cap : nat) : option bytes :=
  l ← ifs; pick_iface_go l cap [].
