(* ===== verification/DnsProps.v ===== *)
(** Properties of the DNS tracer above the wire format: JSON strings decode to
    what was escaped, responses are matched with their queries, the cache
    expires, the filters parse, the BPF records are split, and the port of a
    query is never found in the kernel's tables. *)
From S2P Require Import Prelude CLib Inet Common Os DnsWire DnsTrace.

(** * JSON *)

(** A reader of the body of a JSON string. *)
Fixpoint json_decode (s : bytes) : option bytes :=
  match s with
  | [] => Some []
  | c :: s' =>
      if eqc c "\" then
        match s' with
        | d :: s2 =>
            if eqc d DQ || eqc d "\" then cons d <$> json_decode s2
            else if eqc d "u" then
              match s2 with
              | a :: b :: e :: f :: s3 =>
                  let v := ((digit_val a * 16 + digit_val b) * 16 + digit_val e) * 16 + digit_val f in
                  if v <? 256 then cons (chr v) <$> json_decode s3 else None
              | _ => None
              end
            else None
        | [] => None
        end
      else if (u8 c <? 32) || eqc c DQ then None
      else cons c <$> json_decode s'
  end.

Lemma json_char_length c : 1 <= blen (json_char c) <= 6.
Proof.
  unfold json_char. destruct (eqc c (chr 34) || eqc c "\"); [done|]. destruct (u8 c <? 32) eqn:E; [|done]. zbool.
  pose proof (u8_range c). assert (Hall : forallb (fun z => blen ("\u" ++ fmt_0x 4 z) =? 6) (seqZ 0 32) = true) by (vm_compute; reflexivity).
  rewrite forallb_forall in Hall. specialize (Hall (u8 c)). rewrite Z.eqb_eq in Hall. rewrite Hall; [lia|].
  apply list_elem_of_In, elem_of_seqZ. lia.
Qed.

Lemma json_decode_char c s : json_decode (json_char c ++ s) = cons c <$> json_decode s.
Proof.
  destruct (eqc c (chr 34) || eqc c "\") eqn:E.
  - unfold json_char. rewrite E. cbn [app json_decode]. rewrite eqc_refl. fold DQ in E. by rewrite E.
  - destruct (u8 c <? 32) eqn:E2.
    + zbool. pose proof (u8_range c). assert (Hin : u8 c ∈ seqZ 0 32) by (apply elem_of_seqZ; lia).
      assert (Hall : Forall (fun z => forall s, json_decode (json_char (chr z) ++ s) = cons (chr z) <$> json_decode s) (seqZ 0 32))
        by (repeat constructor).
      rewrite Forall_forall in Hall. specialize (Hall (u8 c) Hin). by rewrite chr_u8 in Hall.
    + unfold json_char. rewrite E, E2. cbn [app json_decode]. apply orb_false_iff in E as [E0 E1].
      rewrite E1, E2. fold DQ in E0. by rewrite E0.
Qed.

Definition esc_len (s : bytes) : Z := blen (mjoin (json_char <$> s)).

Lemma esc_len_cons c s : esc_len (c :: s) = blen (json_char c) + esc_len s.
Proof. unfold esc_len. rewrite fmap_cons. change (mjoin (?x :: ?y)) with (x ++ mjoin y). apply blen_app. Qed.

Lemma esc_len_nonneg s : 0 <= esc_len s.
Proof. apply blen_nonneg. Qed.

(** JSON strings round trip: for every name, query and answer, the text
    [json_escape] writes fits its buffer and decodes, by the rules of JSON, to
    the string it was given, or to the beginning of it when the buffer is too
    small; a cut never falls inside of an escape. *)
Theorem json_escape_decodes s cap : 8 <= cap ->
  exists p, p `prefix_of` s /\ json_decode (json_escape s cap) = Some p /\
    (esc_len s <= cap - 8 -> p = s) /\ blen (json_escape s cap) < cap.
Proof.
  intros Hcap. unfold json_escape.
  assert (H : forall w, 0 <= w -> w <= cap - 3 ->
    exists p, p `prefix_of` s /\ json_decode (json_escape_go s w cap) = Some p /\
      (w + esc_len s <= cap - 8 -> p = s) /\ w + blen (json_escape_go s w cap) <= cap - 3).
  { induction s as [|c s IH]; intros w Hw Hle; cbn [json_escape_go].
    - exists []. split; [apply prefix_nil|]. split; [done|]. split; [done|]. change (blen []) with 0. lia.
    - rewrite esc_len_cons. pose proof (json_char_length c). pose proof (esc_len_nonneg s).
      destruct (w <? cap - 8) eqn:E; zbool.
      + destruct (IH (w + blen (json_char c))) as (p&Hp&Hd&Hfit&Hb); [lia|lia|].
        exists (c :: p). split; [by apply prefix_cons|]. split; [by rewrite json_decode_char, Hd|].
        split; [intros; f_equal; apply Hfit; lia|]. rewrite blen_app. lia.
      + exists []. split; [apply prefix_nil|]. split; [done|]. split; [lia|]. change (blen []) with 0. lia. }
  destruct (H 0) as (p&Hp&Hd&Hfit&Hb); [lia|lia|]. exists p. repeat (split; [done|]). lia.
Qed.

Lemma json_escape_decodes_witness :
  exists p, p `prefix_of` (bs "a\b") /\ json_decode (json_escape "a\b" 600) = Some p /\
    (esc_len "a\b" <= 600 - 8 -> p = bs "a\b") /\ blen (json_escape "a\b" 600) < 600.
Proof. apply (json_escape_decodes "a\b" 600). lia. Defined.

(** * Queries and responses *)

(** A message as the main loop gets it. *)
Record input := Input { i_clock : clock; i_msg : dns_msg; i_src : Z; i_dst : Z }.

Definition is_query (i : input) : Prop := Z.land (m_flags (i_msg i)) 32768 = 0 /\ i_dst i = 53.
Definition is_response (i : input) : Prop := Z.land (m_flags (i_msg i)) 32768 <> 0 /\ i_src i = 53.

Section Matching.
Context (c : dcfg) (use_color : bool) (lookup : Z -> Z * bytes).

Definition step (s : dstate) (i : input) : dstate :=
  on_message c use_color lookup (i_clock i) (i_msg i) (i_src i) (i_dst i) s.

Lemma step_query s i : is_query i -> exists pid name cache,
  proc_lookup lookup (k_lookup (i_clock i)) (i_src i) 64 (d_cache s) = (pid, name, cache) /\
  step s i = DState (<[m_id (i_msg i) := Pending (trunc 256 (m_question (i_msg i)))
     (trunc 16 (qtype_str (m_qtype (i_msg i)))) pid name (k_sent (i_clock i))]> (d_pending s)) cache (d_out s).
Proof.
  intros [Hf Hd]. unfold step, on_message. rewrite Hf, Hd. cbn [Z.eqb Pos.eqb andb].
  destruct (proc_lookup _ _ _ _ _) as [[pid name] cache] eqn:E. eauto.
Qed.

Lemma step_response s i : is_response i -> step s i =
  match d_pending s !! m_id (i_msg i) with
  | None => s
  | Some p => DState (delete (m_id (i_msg i)) (d_pending s)) (d_cache s)
      (d_out s ++ match emit c use_color (p_query p) (p_qtype p) (p_pid p) (p_name p) (i_msg i)
                             (f64_sub (k_sent (i_clock i)) (p_sent p)) (k_ts (i_clock i)) with
                  | Some l => [l] | None => [] end)
  end.
Proof.
  intros [Hf Hs]. unfold step, on_message. rewrite (proj2 (Z.eqb_neq _ _)) by done. rewrite Hs. done.
Qed.

(** Messages with other identifiers leave a query in flight. *)
Lemma step_frame s i x : m_id (i_msg i) <> x -> d_pending (step s i) !! x = d_pending s !! x.
Proof.
  intros Hx. unfold step, on_message. destruct (_ && (i_dst i =? 53)).
  - destruct (proc_lookup _ _ _ _ _) as [[pid name] cache]. cbn [d_pending]. by rewrite lookup_insert_ne.
  - destruct (_ && _); [|done]. destruct (d_pending s !! m_id (i_msg i)); [|done]. cbn [d_pending].
    by rewrite lookup_delete_ne.
Qed.

Lemma steps_frame l s x : Forall (fun i => m_id (i_msg i) <> x) l ->
  d_pending (foldl step s l) !! x = d_pending s !! x.
Proof.
  revert s. induction l as [|i l IH]; intros s Hl; [done|]. inv Hl. cbn [foldl]. rewrite IH by done. by apply step_frame.
Qed.
End Matching.

(** C14. Matching: after a query, any traffic with other identifiers, and the
    response, [emit] is called once, with the name, the type and the process of
    the query, the answers of the response, and the time between the two; a
    second response with the identifier changes nothing. *)
Theorem query_response_matched c use_color lookup s q l r r2 :
  is_query q -> is_response r -> is_response r2 ->
  m_id (i_msg r) = m_id (i_msg q) -> m_id (i_msg r2) = m_id (i_msg q) ->
  Forall (fun i => m_id (i_msg i) <> m_id (i_msg q)) l ->
  let s1 := foldl (step c use_color lookup) s (q :: l) in
  let s2 := step c use_color lookup s1 r in
  let '(pid, name, _) := proc_lookup lookup (k_lookup (i_clock q)) (i_src q) 64 (d_cache s) in
  d_out s2 = d_out s1 ++ option_list
    (emit c use_color (trunc 256 (m_question (i_msg q))) (trunc 16 (qtype_str (m_qtype (i_msg q)))) pid name
          (i_msg r) (f64_sub (k_sent (i_clock r)) (k_sent (i_clock q))) (k_ts (i_clock r))) /\
  step c use_color lookup s2 r2 = s2.
Proof.
  intros Hq Hr Hr2 Hid Hid2 Hl. cbn [foldl].
  destruct (step_query c use_color lookup s q Hq) as (pid&name&cache&Hp&Hs). rewrite Hp, Hs.
  set (s0 := DState _ _ _). set (s1 := foldl _ s0 l).
  assert (Hpend : d_pending s1 !! m_id (i_msg q) = d_pending s0 !! m_id (i_msg q)) by (by apply steps_frame).
  unfold s0 in Hpend. cbn [d_pending] in Hpend. rewrite lookup_insert_eq in Hpend.
  rewrite (step_response c use_color lookup s1 r Hr), Hid, Hpend. cbn [p_query p_qtype p_pid p_name p_sent].
  split.
  - done.
  - rewrite (step_response _ _ _ _ r2 Hr2), Hid2. cbn [d_pending]. by rewrite lookup_delete_eq.
Qed.

Definition demo_query : input := Input (Clock (f64_of_Z 10) (f64_of_Z 10) []) (DnsMsg 7 256 1 "ex" []) 4000 53.
Definition demo_response : input :=
  Input (Clock (f64_of_Z 12) (f64_of_Z 12) []) (DnsMsg 7 33152 1 "ex" ["10.0.0.1" : bytes]) 53 4000.
Definition demo_other : input := Input (Clock (f64_of_Z 11) (f64_of_Z 11) []) (DnsMsg 8 256 1 "other" []) 4001 53.
Definition demo_lookup : Z -> Z * bytes := fun p => if p =? 4000 then (42, bs "curl") else (0, bs "?").
Definition dstate0 : dstate := DState ∅ ∅ [].
Definition quiet : dcfg := DCfg false false false true false false [] [] [] [] [].

Lemma query_response_matched_witness :
  let s1 := foldl (step quiet false demo_lookup) dstate0 [demo_query; demo_other] in
  let s2 := step quiet false demo_lookup s1 demo_response in
  let '(pid, name, _) := proc_lookup demo_lookup (k_lookup (i_clock demo_query)) (i_src demo_query) 64 (d_cache dstate0) in
  d_out s2 = d_out s1 ++ option_list
    (emit quiet false (trunc 256 (m_question (i_msg demo_query))) (trunc 16 (qtype_str (m_qtype (i_msg demo_query)))) pid name
          (i_msg demo_response) (f64_sub (k_sent (i_clock demo_response)) (k_sent (i_clock demo_query)))
          (k_ts (i_clock demo_response))) /\
  step quiet false demo_lookup s2 demo_response = s2.
Proof.
  apply (query_response_matched quiet false demo_lookup dstate0 demo_query [demo_other] demo_response demo_response).
  - split; reflexivity.
  - split; [discriminate|reflexivity].
  - split; [discriminate|reflexivity].
  - reflexivity.
  - reflexivity.
  - apply Forall_cons. split; [discriminate|apply Forall_nil_2].
Defined.

Example demo_line :
  d_out (foldl (step quiet false demo_lookup) dstate0 [demo_query; demo_other; demo_response])
  = [bs "42  curl  A  ex  " ++ [chr 226; chr 134; chr 146] ++ bs " 10.0.0.1  2.0ms" ++ [LF]].
Proof. vm_compute. reflexivity. Qed.

(** * The cache *)

(** The cache after lookups at given times; [truth t port] is what the system
    answers at time [t]. *)
Inductive cached (truth : spec_float -> Z -> Z * bytes) : pcache -> Prop :=
  | CachedEmpty : cached truth ∅
  | CachedLookup t port cap cache : cached truth cache ->
      cached truth (proc_lookup (truth t) t port cap cache).2.

(** Every entry is an answer of the system at the time it was born. *)
Lemma cached_truth truth cache : cached truth cache -> forall port e, cache !! port = Some e ->
  pc_pid e = (truth (pc_born e) port).1 /\ pc_name e = trunc 64 (truth (pc_born e) port).2.
Proof.
  induction 1 as [|t p cap cache _ IH]; intros port e; [by rewrite lookup_empty|].
  assert (Hfresh : forall e, (<[p := CacheEnt (truth t p).1 (trunc 64 (truth t p).2) t]> cache) !! port = Some e ->
    pc_pid e = (truth (pc_born e) port).1 /\ pc_name e = trunc 64 (truth (pc_born e) port).2).
  { intros e'. destruct (decide (p = port)) as [<-|]; [|rewrite lookup_insert_ne by done; apply IH].
    rewrite lookup_insert_eq. by intros [= <-]. }
  unfold proc_lookup. destruct (truth t p) as [pid nm]. cbn [fst snd] in Hfresh.
  destruct (cache !! p) as [e0|]; [|apply Hfresh]. destruct (f64_lt _ _); [apply IH|apply Hfresh].
Qed.

(** The cache of attributions serves no stale answer: after any
    sequence of lookups, the process and the name returned for a port are what
    the system said at the time of the call or less than [CACHE_TTL_MS]
    before it. *)
Theorem proc_lookup_fresh truth cache t port :
  cached truth cache ->
  exists t', (t' = t \/ f64_lt (f64_sub t t') CACHE_TTL_MS = true) /\
    (proc_lookup (truth t) t port 64 cache).1 = ((truth t' port).1, trunc 64 (truth t' port).2).
Proof.
  intros Hc. unfold proc_lookup. destruct (cache !! port) as [e|] eqn:E.
  - destruct (f64_lt (f64_sub t (pc_born e)) CACHE_TTL_MS) eqn:Hlt.
    + exists (pc_born e). split; [by right|]. destruct (cached_truth truth cache Hc port e E) as [-> ->].
      cbn [fst]. f_equal. unfold trunc. by rewrite take_take, Nat.min_id.
    + exists t. split; [by left|]. by destruct (truth t port).
  - exists t. split; [by left|]. by destruct (truth t port).
Qed.

Definition demo_truth : spec_float -> Z -> Z * bytes :=
  fun t p => if f64_lt t (f64_of_Z 1000) then (42, bs "curl") else (43, bs "wget").

Lemma proc_lookup_fresh_witness :
  exists t', (t' = f64_of_Z 1500 \/ f64_lt (f64_sub (f64_of_Z 1500) t') CACHE_TTL_MS = true) /\
    (proc_lookup (demo_truth (f64_of_Z 1500)) (f64_of_Z 1500) 4000 64
       (proc_lookup (demo_truth (f64_of_Z 500)) (f64_of_Z 500) 4000 64 ∅).2).1
    = ((demo_truth t' 4000).1, trunc 64 (demo_truth t' 4000).2).
Proof.
  apply (proc_lookup_fresh demo_truth (proc_lookup (demo_truth (f64_of_Z 500)) (f64_of_Z 500) 4000 64 ∅).2).
  apply CachedLookup. apply CachedEmpty.
Defined.

Example demo_expiry :
  let c1 := (proc_lookup (demo_truth (f64_of_Z 500)) (f64_of_Z 500) 4000 64 ∅).2 in
  (proc_lookup (demo_truth (f64_of_Z 1500)) (f64_of_Z 1500) 4000 64 c1).1 = (42, bs "curl") /\
  (proc_lookup (demo_truth (f64_of_Z 2500)) (f64_of_Z 2500) 4000 64 c1).1 = (43, bs "wget").
Proof. vm_compute. split; reflexivity. Qed.

(** * Attribution on Linux *)

(** The columns of a line of /proc/net/udp as the kernel writes them: the
    number of the slot in five places ("%5d: "), a colon, a space, the rest. *)
Definition udp_line (slot : Z) (rest : bytes) : bytes := pad_left " " 5 (fmt_u slot) ++ ": " ++ rest.
Definition udp_line_ok (l : Z * bytes) : Prop :=
  0 <= l.1 < 2 ^ 31 /\ "010"%char ∉ l.2 /\ (length (udp_line l.1 l.2) < 511)%nat.
Definition udp_table (o : os) (path : bytes) : Prop :=
  os_read o path = None \/
  exists header lines, os_read o path =
      Some (mjoin ((fun l => l ++ ["010"%char]) <$> (header :: ((fun l => udp_line l.1 l.2) <$> lines)))) /\
    "010"%char ∉ header /\ (S (length header) < 512)%nat /\ Forall udp_line_ok lines.

Lemma strtol_space s : st_conv (strtol s) = true -> strtol (" "%char :: s) = strtol s.
Proof.
  unfold strtol. cbn [ltrim]. change (is_space " ") with true. cbv iota.
  destruct (read_sign (ltrim is_space s)) as [neg s1]. destruct (read_digits 10 s1 0 0) as [[v n] rest].
  by destruct n.
Qed.
Lemma strtol_spaces n s : st_conv (strtol s) = true -> strtol (replicate n " "%char ++ s) = strtol s.
Proof. intros H. induction n as [|n IH]; [done|]. cbn [replicate app]. by rewrite strtol_space, IH by (by rewrite IH). Qed.
Lemma cstr_spaces n s : cstr (replicate n " "%char ++ s) = replicate n " "%char ++ cstr s.
Proof. induction n as [|n IH]; [done|]. cbn [replicate app cstr]. change (eqc " " NUL) with false. cbv iota. by rewrite IH. Qed.

(** The first conversion stops at the colon, which the second one takes for
    the local address. *)
Lemma scan_udp_colon slot rest : 0 <= slot < 2 ^ 31 ->
  scan_udp (cstr (udp_line slot rest ++ ["010"%char])) = None \/
  exists ino, scan_udp (cstr (udp_line slot rest ++ ["010"%char])) = Some (bs ":", ino).
Proof.
  intros Hs. unfold udp_line, pad_left. set (n := (5 - _)%nat). change (bs ": ") with [":"%char; " "%char].
  assert (Hc : exists r, cstr (((replicate n " "%char ++ fmt_u slot) ++ [":"%char; " "%char] ++ rest) ++ ["010"%char])
    = replicate n " "%char ++ fmt_u slot ++ ":"%char :: " "%char :: r).
  { pose proof (fmt_u_digits slot ltac:(lia)) as Hd. exists (cstr (rest ++ ["010"%char])).
    rewrite <- !app_assoc, cstr_spaces. f_equal. cbn [app].
    induction Hd as [|x l Hx _ IH]; [done|]. cbn [app cstr].
    rewrite (proj2 (eqc_false x NUL)) by (intros ->; done). by rewrite IH. }
  destruct Hc as [r ->]. unfold scan_udp.
  assert (Hst : strtol (replicate n " "%char ++ fmt_u slot ++ ":"%char :: " "%char :: r) = Strto slot (":"%char :: " "%char :: r) true false).
  { pose proof (strtol_fmt_d slot (":"%char :: " "%char :: r)) as H.
    assert (Hf : fmt_d slot = fmt_u slot) by (unfold fmt_d; by rewrite (proj2 (Z.ltb_ge _ _)) by lia).
    rewrite Hf in H. rewrite strtol_spaces; rewrite H; try done; unfold LONG_MIN, LONG_MAX; try lia;
      intros ? ? [= <- _]; vm_compute; discriminate. }
  assert (Hsk : skip_int (replicate n " "%char ++ fmt_u slot ++ ":"%char :: " "%char :: r) = Some (":"%char :: " "%char :: r))
    by (unfold skip_int, scan_int; by rewrite Hst).
  rewrite Hsk. cbn [mbind option_bind].
  change (scan_str 127 (":"%char :: " "%char :: r)) with (Some ([":"%char], " "%char :: r)). cbn [mbind option_bind].
  repeat match goal with |- ?m ≫= _ = None \/ _ => destruct m as [?|]; cbn [mbind option_bind]; [|by left] end.
  right. eauto.
Qed.

Lemma find_port_never port lines : Forall udp_line_ok lines -> 0 <= port ->
  find_port (trunc 8 (fmt_0X 4 port)) ((fun l => udp_line l.1 l.2 ++ ["010"%char]) <$> lines) = -1.
Proof.
  intros Hl Hp. induction Hl as [|[slot rest] lines (Hs&_&_) _ IH]; [done|]. rewrite fmap_cons. cbn [find_port fst snd].
  destruct (scan_udp_colon slot rest Hs) as [->|[ino ->]]; [exact IH|].
  change (strrchr ":" ":") with (Some 0%nat). cbv iota.
  rewrite (proj2 (eqs_false _ _)); [exact IH|]. intros E. apply (f_equal length) in E.
  rewrite !length_fmap in E. change (drop 1 (bs ":")) with (@nil byte) in E. cbn [length] in E.
  unfold trunc, fmt_0X, fmt_0x, pad_left in E. rewrite length_take, length_fmap, length_app, length_replicate in E.
  cbn [Nat.pred] in E. lia.
Qed.

Lemma inode_for_port_never o path port : udp_table o path -> 0 <= port -> inode_for_port o port path = -1.
Proof.
  intros [Hr|(header&lines&Hr&Hh&Hl&Hok)] Hp; unfold inode_for_port; rewrite Hr; [done|].
  rewrite fgets_all_lines.
  - rewrite fmap_cons, <- list_fmap_compose. by apply find_port_never.
  - constructor; [done|]. apply Forall_fmap. eapply Forall_impl; [exact Hok|]. intros [slot rest] (Hs&Hn&Hlen). unfold compose. cbn [fst snd] in *.
    split; [|lia]. unfold udp_line, pad_left. rewrite !elem_of_app. intros [[H|H]|[H|H]]; [by apply elem_of_replicate in H as [[=] _]| |set_solver|done].
    pose proof (fmt_u_digits slot ltac:(lia)) as Hd. rewrite Forall_forall in Hd. by specialize (Hd _ H).
Qed.

(** C38. No query is ever attributed on Linux: on the tables the kernel
    writes, where the number of the slot, padded to five places, is followed by
    a colon, the [sscanf] of
    [inode_for_port] takes the colon for the local address, so that no port is
    found, and [pid_for_udp_port] answers process 0, name "?". *)
Theorem pid_for_udp_port_never o port cap :
  udp_table o "/proc/net/udp" -> udp_table o "/proc/net/udp6" -> 0 <= port < 2 ^ 16 ->
  pid_for_udp_port o port cap = (0, trunc cap "?").
Proof.
  intros H4 H6 Hp. unfold pid_for_udp_port. by rewrite !inode_for_port_never by (done || lia).
Qed.

(** A real table, and the process that owns port 53. *)
Definition udp_demo : os :=
  Os (fun p => if eqs p "/proc/net/udp" then
        Some (bs "   sl  local_address" ++ ["010"%char] ++ udp_line 1105
          "00000000:0035 00000000:0000 07 00000000:00000000 00:00000000 00000000 0 0 777 2 0 0" ++ ["010"%char]) else None)
     (fun _ => Target "socket:[777]") (fun p => Some ["10" : bytes]) (fun _ => None) (fun _ => None).

Lemma pid_for_udp_port_never_witness : pid_for_udp_port udp_demo 53 64 = (0, trunc 64 "?").
Proof.
  apply (pid_for_udp_port_never udp_demo 53 64); [right|left; reflexivity|lia].
  exists (bs "   sl  local_address"),
    [(1105, bs "00000000:0035 00000000:0000 07 00000000:00000000 00:00000000 00000000 0 0 777 2 0 0")].
  split; [vm_compute; reflexivity|]. split; [apply strchr_None; reflexivity|]. split; [vm_compute; lia|].
  apply Forall_cons. split; [|apply Forall_nil_2]. split; [cbn; lia|].
  split; [apply strchr_None; reflexivity|vm_compute; lia].
Defined.

(** * BPF records *)

(** A record: the time stamp, the length on the wire, what follows the fields
    of the header up to its length, the frame. *)
Record bpf_rec := BpfRec { br_time : bytes; br_datalen : Z; br_pad : bytes; br_frame : bytes }.
Definition bpf_hdrlen (r : bpf_rec) : Z := 18 + blen (br_pad r).
Definition enc_bpf (r : bpf_rec) : bytes :=
  br_time r ++ put32 (blen (br_frame r)) ++ put32 (br_datalen r) ++ put16 (bpf_hdrlen r) ++ br_pad r ++ br_frame r ++
  replicate (Z.to_nat (BPF_WORDALIGN (bpf_hdrlen r + blen (br_frame r)) - (bpf_hdrlen r + blen (br_frame r)))) NUL.
Definition bpf_ok (r : bpf_rec) : Prop :=
  blen (br_time r) = 8 /\ 2 <= blen (br_pad r) < 2 ^ 8 /\ blen (br_frame r) < 2 ^ 16.

Lemma wordalign_spec x : BPF_WORDALIGN x = (x + 3) / 4 * 4.
Proof. apply align4. Qed.

Lemma blen_enc_bpf r : bpf_ok r -> blen (enc_bpf r) = BPF_WORDALIGN (bpf_hdrlen r + blen (br_frame r)).
Proof.
  intros (Ht&Hp&Hf). pose proof (wordalign_spec (bpf_hdrlen r + blen (br_frame r))) as Hw.
  pose proof (blen_nonneg (br_frame r)).
  assert (bpf_hdrlen r + blen (br_frame r) <= BPF_WORDALIGN (bpf_hdrlen r + blen (br_frame r)))
    by (rewrite Hw; Z.div_mod_to_equations; lia).
  unfold enc_bpf. rewrite !blen_app, !blen_put32, blen_put16, Ht, blen_replicate.
  unfold bpf_hdrlen in *. lia.
Qed.

Lemma cap_record_enc r rest : bpf_ok r ->
  cap_record (enc_bpf r ++ rest) = Ok (Some (br_frame r, rest)).
Proof.
  intros Hok. pose proof Hok as (Ht&Hp&Hf). pose proof (blen_enc_bpf r Hok) as Hb.
  pose proof (wordalign_spec (bpf_hdrlen r + blen (br_frame r))) as Hw.
  set (hl := bpf_hdrlen r) in *. set (fl := blen (br_frame r)) in *. set (al := BPF_WORDALIGN (hl + fl)) in *.
  assert (Hal : hl + fl <= al < hl + fl + 4) by (rewrite Hw; Z.div_mod_to_equations; lia).
  assert (Hhl : 20 <= hl < 18 + 2 ^ 8) by (unfold hl, bpf_hdrlen; lia).
  assert (0 <= fl) by apply blen_nonneg. pose proof (blen_nonneg rest).
  set (d := enc_bpf r ++ rest). assert (Hd : blen d = al + blen rest) by (unfold d; rewrite blen_app; lia).
  unfold cap_record, BPF_HDR_SIZE. rewrite (proj2 (Z.ltb_ge (blen d) _)) by lia.
  assert (B8 : le32 d 8 = Ok fl).
  { unfold d, enc_bpf. rewrite <- !app_assoc. apply le32_put32; [done|]. fold fl. lia. }
  assert (B16 : le16 d 16 = Ok hl).
  { unfold d, enc_bpf. rewrite <- !app_assoc, (app_assoc (br_time r)), (app_assoc _ (put32 (br_datalen r))).
    apply le16_put16; [by rewrite !blen_app, !blen_put32, Ht|fold hl; lia]. }
  rewrite B8, B16. cbn [mbind outcome_bind]. rewrite (swrap_small 32) by lia.
  rewrite (proj2 (Z.ltb_ge hl _)), (proj2 (Z.ltb_ge fl 0)) by lia. cbn [orb].
  rewrite (proj2 (Z.leb_gt _ _)) by lia. rewrite (proj2 (Z.ltb_ge (blen d) _)) by lia. fold al.
  assert (Hsl : sub d hl fl = Ok (br_frame r)).
  { unfold d, enc_bpf. rewrite <- !app_assoc, (app_assoc (br_time r)), (app_assoc _ (put32 (br_datalen r))),
      (app_assoc _ (put16 _)), (app_assoc _ (br_pad r)).
    apply sub_prefix; [|done]. rewrite !blen_app, !blen_put32, blen_put16, Ht. unfold hl, bpf_hdrlen. lia. }
  rewrite Hsl, ok_bind. do 3 f_equal. destruct (blen d <=? al) eqn:E; zbool.
  - destruct rest; [done|]. rewrite blen_cons in *. pose proof (blen_nonneg rest). lia.
  - unfold d. rewrite <- Hb. unfold blen. rewrite Nat2Z.id. apply drop_app_length.
Qed.

Lemma cap_record_safe rec : blen rec < 2 ^ 30 ->
  cap_record rec <> Fuel /\ forall frame rest, cap_record rec = Ok (Some (frame, rest)) -> (length rest < length rec)%nat.
Proof.
  intros Hmax. unfold cap_record, BPF_HDR_SIZE. destruct (blen rec <? 20) eqn:E; zbool; [by split|].
  destruct (le32_safe rec 8) as (cl&->&Hcl); [lia..|]. destruct (le16_safe rec 16) as (hl&->&Hhl); [lia..|].
  cbn [mbind outcome_bind]. destruct ((hl <? 20) || (i32 cl <? 0)) eqn:E2; [by split|]. zbool.
  destruct (2 ^ 31 <=? hl + i32 cl) eqn:E3; [by split|]. destruct (blen rec <? hl + i32 cl) eqn:E4; [by split|]. zbool.
  rewrite sub_ok by lia. cbn [mbind outcome_bind].
  split; [done|]. intros frame rest [= _ <-]. rewrite wordalign_spec.
  assert (hl <= (hl + i32 cl + 3) / 4 * 4) by (Z.div_mod_to_equations; lia).
  destruct (_ <=? _); cbn [length]; [unfold blen in *; lia|]. rewrite length_drop. unfold blen in *. lia.
Qed.

Lemma cap_all_enc rs : forall fuel, Forall bpf_ok rs -> (length rs < fuel)%nat ->
  cap_all fuel (mjoin (enc_bpf <$> rs)) = Ok (br_frame <$> rs).
Proof.
  induction rs as [|r rs IH]; intros fuel Hok Hf; (destruct fuel as [|fuel]; [cbn in Hf; lia|]); cbn [cap_all].
  - done.
  - apply Forall_cons in Hok as [Hr Hok]. rewrite fmap_cons. change (mjoin (?x :: ?y)) with (x ++ mjoin y).
    rewrite cap_record_enc by done. cbn [mbind outcome_bind]. rewrite IH by (done || (cbn in Hf; lia)). done.
Qed.

(** The BPF reader returns every frame of a read of the device, in order
    and cut at its header and capture length, whatever the time stamps and the
    padding of the headers, with one turn per frame. *)
Theorem cap_all_splits rs fuel :
  Forall bpf_ok rs -> (length rs < fuel)%nat -> cap_all fuel (mjoin (enc_bpf <$> rs)) = Ok (br_frame <$> rs).
Proof. apply cap_all_enc. Qed.

Definition demo_bpf : bpf_rec := BpfRec (replicate 8 NUL) 60 [NUL; NUL] "a frame".
Lemma cap_all_splits_witness : cap_all 3 (mjoin (enc_bpf <$> [demo_bpf; demo_bpf])) = Ok [bs "a frame"; bs "a frame"].
Proof.
  apply (cap_all_splits [demo_bpf; demo_bpf] 3); [|cbn; lia].
  assert (H : bpf_ok demo_bpf) by (split; [reflexivity|]; split; [split; [discriminate|reflexivity]|reflexivity]).
  repeat (apply Forall_cons; split; [exact H|]). apply Forall_nil_2.
Defined.

(** * Process lists *)

Lemma parse_pids_go l : forall set, Forall (fun v => - 2 ^ 31 <= v < 2 ^ 31) l ->
  foldl parse_pid_add set (fmt_d <$> l) = set ++ take (MAX_SET - length set) l.
Proof.
  induction l as [|v l IH]; intros set Hl; [by rewrite take_nil, app_nil_r|]. apply Forall_cons in Hl as [Hv Hl].
  rewrite fmap_cons. cbn [foldl].
  assert (Hst : strtol (fmt_d v) = Strto v [] true false).
  { rewrite <- (app_nil_r (fmt_d v)). apply strtol_fmt_d; [unfold LONG_MIN, LONG_MAX; lia|done]. }
  rewrite IH by done. unfold parse_pid_add. rewrite Hst. cbn [st_conv st_rest st_val ltrim andb].
  rewrite eqs_refl, (swrap_small 32) by lia. cbn [andb].
  destruct (length set <? MAX_SET)%nat eqn:E; [apply Nat.ltb_lt in E|apply Nat.ltb_ge in E].
  - rewrite length_app. cbn [length]. rewrite <- app_assoc. f_equal.
    replace (MAX_SET - length set)%nat with (S (MAX_SET - (length set + 1)))%nat by lia. done.
  - replace (MAX_SET - length set)%nat with 0%nat by lia. done.
Qed.

(** The list of -p: numbers printed in decimal and joined by commas are
    read back exactly, up to the sixty-four places of the set; a token with
    anything after the number is not an entry. *)
Theorem parse_pids_roundtrip l tok :
  Forall (fun v => - 2 ^ 31 <= v < 2 ^ 31) l ->
  parse_pids (joined_by "," (fmt_d <$> l)) [] = take 64 l /\
  (ltrim is_blank (st_rest (strtol tok)) <> [] -> parse_pid_add l tok = l).
Proof.
  intros Hl. split.
  - unfold parse_pids. rewrite strtok_joined.
    + rewrite parse_pids_go by done. done.
    + apply Forall_fmap, Forall_forall. intros v _. unfold compose. split.
      * destruct (fmt_d_cons v) as (c&r&E&_). by rewrite E.
      * by apply fmt_d_not_in.
  - intros Hne. unfold parse_pid_add. rewrite (proj2 (eqs_false _ _)) by done. by rewrite andb_false_r.
Qed.

Lemma parse_pids_roundtrip_witness :
  parse_pids (joined_by "," (fmt_d <$> [1; 4321])) [] = take 64 [1; 4321] /\
  (ltrim is_blank (st_rest (strtol "12abc")) <> [] -> parse_pid_add [1; 4321] "12abc" = [1; 4321]).
Proof. apply (parse_pids_roundtrip [1; 4321] "12abc"). repeat (apply Forall_cons; split; [lia|]). apply Forall_nil_2. Defined.
