(* ===== verification/DnsMain.v ===== *)
(** The run of c/dns.c: the capture device, opened by a socket on Linux and by
    a search of the BPF devices on macOS, the set-up of [dns_main], and the
    loop over the frames. *)
From S2P Require Import Prelude CLib Sys Loop Start Common DnsWire DnsMessage DnsTrace.

(** * The capture device *)

Section Capture.
Context (strerror : Z -> bytes).

(** [cap_open] on Linux: a packet socket for every protocol. The error text,
    or the descriptor. *)
Definition cap_open : callM (bytes + Z) :=
  fd ← sys (Socket 17 3 768);
  mret (if fd <? 0 then inl (trunc 256 ("socket: " ++ strerror (- fd) ++ NL ++ "Hint: run as root or: sudo setcap cap_net_raw+eip tracep"))
        else inr fd).

(** On macOS the first device that opens; the error reported is that of a node
    that exists. *)
Definition EPERM : Z := 1.
Definition EACCES : Z := 13.
Fixpoint open_bpf (n : nat) (i openErrno : Z) : callM (Z * Z) :=
  match n with
  | O => mret (-1, openErrno)
  | S n' =>
      fd ← sys (OpenFile (trunc 16 ("/dev/bpf" ++ fmt_d i)));
      if 0 <=? fd then mret (fd, openErrno)
      else open_bpf n' (i + 1) (if (openErrno =? 0) || (- fd =? EACCES) || (- fd =? EPERM) then - fd else openErrno)
  end.

Definition DLT_EN10MB : Z := 1.
(** The steps that may fail: the device is closed. *)
Definition bpf_step (fd : Z) (request arg what : bytes) (k : Z -> callM (bytes + Z * Z)) : callM (bytes + Z * Z) :=
  r ← sys (Ioctl fd request arg);
  if r <? 0 then sys (Close fd);; mret (inl (trunc 256 (what ++ ": " ++ strerror (- r)))) else k r.

(** [cap_open] on macOS, after [pick_iface]: the descriptor and the size of the
    kernel's buffer. The answer of a request for a value is the value. *)
Definition mac_cap_open (iface : option bytes) : callM (bytes + Z * Z) :=
  match iface with
  | None => mret (inl (trunc 256 "no up non-loopback IPv4 interface found"))
  | Some iface =>
      r ← open_bpf 256 0 0;
      let '(fd, openErrno) := r in
      if fd <? 0 then mret (inl (trunc 256 ("open /dev/bpf*: " ++ strerror openErrno ++ NL ++ "Hint: run with sudo")))
      else
        bpf_step fd "BIOCSBLEN" (put32 32768) "BIOCSBLEN" (fun _ =>
        bpf_step fd "BIOCGBLEN" [] "BIOCGBLEN" (fun buflen =>
        bpf_step fd "BIOCSETIF" (trunc 16 iface) ("BIOCSETIF " ++ iface) (fun _ =>
        bpf_step fd "BIOCIMMEDIATE" (put32 1) "BIOCIMMEDIATE" (fun _ =>
        sys (Ioctl fd "BIOCSHDRCMPLT" (put32 1));;
        bpf_step fd "BIOCGDLT" [] "BIOCGDLT" (fun dlt =>
        if negb (dlt =? DLT_EN10MB)
        then sys (Close fd);;
             mret (inl (trunc 256 ("interface " ++ iface ++ " link type " ++ fmt_u dlt ++ " is not Ethernet (DLT_EN10MB); unsupported")))
        else mret (inr (fd, buflen)))))))
  end.

(** On any other platform there is no device. *)
Definition no_cap_open : callM (bytes + Z) := mret (inl (trunc 256 "dns capture is only supported on Linux and macOS")).

(** [cap_next] on macOS, with what the reads of the device answer until a frame
    is there; [None]: they are not enough, and it blocks. An interrupted read
    is tried again without a look at the flag. *)
Inductive dev := DevData (b : bytes) | DevError (err : Z).
Inductive cap_res := Frame (b : bytes) | CapError (err : Z).
Fixpoint cap_read (reads : list dev) : option (cap_res + bytes * list dev) :=
  match reads with
  | [] => None
  | DevError err :: reads' => if err =? 4 then cap_read reads' else Some (inl (CapError err))
  | DevData [] :: reads' => cap_read reads'
  | DevData b :: reads' => Some (inr (b, reads'))
  end.
Fixpoint cap_next (fuel : nat) (rec : bytes) (reads : list dev) : outcome (option (cap_res * bytes)) :=
  match fuel with
  | O => Fuel
  | S f =>
      r ← cap_record rec;
      match r with
      | Some (frame, rest) => Ok (Some (Frame frame, rest))
      | None =>
          match cap_read reads with
          | None => Ok None
          | Some (inl err) => Ok (Some (err, []))
          | Some (inr (b, reads')) => cap_next f b reads'
          end
      end
  end.
End Capture.

(** * The set-up *)

Record dns_start := DnsStart { ds_cap : Z; ds_cfg : dcfg; ds_color : bool }.

Section Start.
Context (no_color : option bytes) (stdout : stream) (strerror : Z -> bytes) (cap_open : callM (bytes + Z)).

Definition dprog : bytes := "tracep dns: ".
Definition with_pid (c : dcfg) (pid : Z) : dcfg :=
  let '(DCfg j q qq f co t d o ns ts ps) := c in
  DCfg j q qq f co t d o ns ts (if (length ps <? MAX_SET)%nat then ps ++ [i32 pid] else ps).

Definition dns_main (args : list bytes) : callM (started dns_start) :=
  match scan_flags args dcfg0 with
  | UsageExit => mret (UsageEnd 0)
  | Die m => mret (fatalf dprog m)
  | Run c cmd =>
      let use_color := want_color no_color (fColor c) stdout in
      let start (use_color : bool) :=
        r ← cap_open;
        match r with
        | inl err => mret (fatalf dprog err)
        | inr cap =>
            sys (Signal "SIGINT");; sys (Signal "SIGTERM");;
            match cmd with
            | [] => mret (ToLoop (DnsStart cap c use_color))
            | _ => sys (Signal "SIGCHLD");; sys (Signal "SIGALRM");;
                   fork_command dprog 127 (fun _ => []) (fun err => "start command: " ++ strerror err) cmd
                     (fun pid => mret (ToLoop (DnsStart cap (with_pid c pid) use_color)))
            end
        end in
      match fOutput c with
      | [] => start use_color
      | f => r ← sys (OpenLog f);
             on_error dprog (r <? 0) ("open output file: " ++ strerror (- r)) (start (if fColor c then use_color else false))
      end
  end.
End Start.

(** * The loop *)

(** What the capture gives, with the clock and the attribution of that time. *)
Record dns_in := DnsIn { di_cap : cap_res; di_clock : clock; di_lookup : Z -> Z * bytes }.

(** The signals: to stop; the end of a child (or its stop), which starts the
    timer of 500 ms, whatever it reaps; and the timer, which ends the
    process. *)
Inductive dsig := SigStop | SigChild (reaped : list Z).
Definition stops (x : dsig) : bool := match x with SigStop => true | SigChild _ => false end.
Definition dns_timer (now : Z) (x : dsig) (t : option Z) : option Z :=
  match x with SigStop => t | SigChild _ => Some (now + 500) end.

(** Whether [signal] asks for interrupted reads to be restarted is up to the C
    library, so that both are allowed. *)
Section Loop.
Context (restarts : bool) (fuel : nat) (c : dcfg) (use_color : bool) (strerror : Z -> bytes).
Definition log_err (msg : bytes) : list bytes := if fQQuiet c then [] else [msg ++ NL].
Definition dns_read (i : dns_in) (s : dstate * list bytes) : outcome (dstate * list bytes) :=
  match di_cap i with
  | CapError err => Ok (s.1, s.2 ++ log_err ("capture: " ++ strerror err))
  | Frame frame => s' ← on_frame fuel c use_color (di_lookup i) (di_clock i) frame s.1; Ok (s', s.2)
  end.
Definition dns_run := lrun dns_read (fun (_ : unit) s => Ok s) stops restarts.

(** On macOS the state has the unread records of the last buffer too. *)
Record mac_in := MacIn { mi_reads : list dev; mi_clock : clock; mi_lookup : Z -> Z * bytes }.
Definition mac_dns_read (i : mac_in) (s : (dstate * list bytes) * bytes) : outcome ((dstate * list bytes) * bytes) :=
  r ← cap_next (S (length (mi_reads i))) s.2 (mi_reads i);
  match r with
  | None => Fuel
  | Some (res, rest) => s' ← dns_read (DnsIn res (mi_clock i) (mi_lookup i)) s.1; Ok (s', rest)
  end.
Definition mac_dns_run := lrun mac_dns_read (fun (_ : unit) s => Ok s) stops restarts.
End Loop.
