(* ===== verification/DnsMainProps.v ===== *)
(** Theorems on the run of c/dns.c: the capture device does not leak, the run
    from frames on the wire is the fold of the message handler, and a stop
    signal ends it. *)
From S2P Require Import Prelude CLib Sys Loop Start Common DnsWire DnsName DnsMessage DnsCodec DnsTrace DnsProps DnsMain.

(** * The device *)

Definition dev_opens (c : call) (r : Z) : option Z :=
  match c with OpenFile _ | Socket _ _ _ => if 0 <=? r then Some r else None | _ => None end.
Definition dev_closes (c : call) : option Z := match c with Close fd => Some fd | _ => None end.
Abbreviation devs := (fds_after dev_opens dev_closes).

(** How the search for a device ends, with the descriptors open besides: an
    error and nothing open, or one descriptor more. *)
Definition device {A} (fd_of : A -> Z) (open : list Z) (r : bytes + A) (h : calls) : Prop :=
  match r with inl err => devs h = open /\ err <> [] | inr x => 0 <= fd_of x /\ devs h = fd_of x :: open end.

Section Device.
Context (strerror : Z -> bytes) (e : env (C := call)).
Hypothesis Hfresh : fresh_fds dev_opens dev_closes e.

Lemma open_bpf_ok n : forall i en h,
  wp e h (open_bpf n i en) (fun r h' => if r.1 <? 0 then devs h' = devs h else devs h' = r.1 :: devs h /\ r.1 ∉ devs h).
Proof using Hfresh.
  induction n as [|n IH]; intros i en h; cbn [open_bpf]; [by apply wp_ret|].
  apply wp_bind, wp_sys. pose proof (Hfresh h (OpenFile (trunc 16 ("/dev/bpf" ++ fmt_d i)))) as Hf. set (fd := e h _) in *.
  destruct (0 <=? fd) eqn:E; zbool.
  - apply wp_ret. cbn [fst]. rewrite (proj2 (Z.ltb_ge _ _)) by lia. split.
    + apply fds_opened; [|done]. cbn. by rewrite (proj2 (Z.leb_le _ _)).
    + apply Hf. cbn. by rewrite (proj2 (Z.leb_le _ _)).
  - eapply wp_mono; [apply IH|]. intros r h' Hr.
    assert (Ho : devs (h ++ [(OpenFile (trunc 16 ("/dev/bpf" ++ fmt_d i)), fd)]) = devs h)
      by (apply fds_other; [cbn; by rewrite (proj2 (Z.leb_gt _ _))|done]).
    by rewrite Ho in Hr.
Qed.

Lemma wp_bpf_step fd open request arg what k h : devs h = fd :: open -> fd ∉ open -> what <> [] ->
  (forall r h', devs h' = fd :: open -> wp e h' (k r) (device fst open)) ->
  wp e h (bpf_step strerror fd request arg what k) (device fst open).
Proof using.
  intros Ho Hn Hw Hk. unfold bpf_step. apply wp_bind, wp_sys. set (r := e h _).
  assert (Ho1 : devs (h ++ [(Ioctl fd request arg, r)]) = fd :: open) by (by rewrite fds_other).
  destruct (r <? 0); [|by apply Hk]. apply wp_bind, wp_sys, wp_ret. split; [by apply fds_closed with fd|].
  by destruct what.
Qed.

(** C23. Opening the capture device on macOS leaks nothing: whatever the
    kernel answers to the search over the devices and to each of the requests
    that set it up, [cap_open] comes back either with a descriptor, which is
    the only one it leaves open, or with a message and every descriptor it has
    opened closed. *)
Theorem mac_cap_open_no_leak iface h : wp e h (mac_cap_open strerror iface) (device fst (devs h)).
Proof using Hfresh.
  unfold mac_cap_open. destruct iface as [iface|]; [|by apply wp_ret]. apply wp_bind.
  eapply wp_mono; [apply open_bpf_ok|]. intros [fd en] h1 Hr. cbn [fst] in Hr. destruct (fd <? 0) eqn:E; [by apply wp_ret|].
  destruct Hr as [Ho Hn]. zbool. do 4 (apply wp_bpf_step; [done..|]; clear h1 Ho; intros ? h1 Ho).
  apply wp_bind, wp_sys. apply wp_bpf_step; [by rewrite fds_other|done..|]. intros dlt h2 Ho2.
  destruct (negb (dlt =? DLT_EN10MB)).
  - apply wp_bind, wp_sys, wp_ret. split; [by apply fds_closed with fd|done].
  - apply wp_ret. split; [cbn; lia|done].
Qed.

(** The same on Linux. *)
Lemma cap_open_no_leak h : wp e h (cap_open strerror) (device id (devs h)).
Proof using.
  unfold cap_open. apply wp_bind, wp_sys, wp_ret. set (fd := e h _). destruct (fd <? 0) eqn:E; zbool.
  - split; [|done]. apply fds_other; [|done]. cbn. by rewrite (proj2 (Z.leb_gt _ _)).
  - split; [done|]. apply fds_opened; [|done]. cbn. by rewrite (proj2 (Z.leb_le _ _)).
Qed.
End Device.

(** A kernel that opens the third device, an Ethernet. *)
Definition bpf_env : env (C := call) := fun h c =>
  match c with
  | OpenFile p => if eqs p "/dev/bpf2" then lowest_fd (devs h) else -16
  | Ioctl _ r _ => if eqs r "BIOCGBLEN" then 4096 else if eqs r "BIOCGDLT" then 1 else 0
  | _ => -1
  end.
Lemma bpf_env_fresh : fresh_fds dev_opens dev_closes bpf_env.
Proof.
  intros h c fd H. destruct c; try discriminate. cbn [dev_opens bpf_env] in H. destruct (eqs _ _); [|discriminate].
  destruct (0 <=? _); [|done]. injection H as <-. apply lowest_fd_fresh.
Qed.
Lemma mac_cap_open_no_leak_witness : wp bpf_env [] (mac_cap_open (fun _ => "error") (Some (bs "en0"))) (device fst []).
Proof. apply (mac_cap_open_no_leak (fun _ => "error") bpf_env bpf_env_fresh (Some (bs "en0")) []). Defined.
Example mac_cap_open_demo : (mac_cap_open (fun _ => "error") (Some (bs "en0")) bpf_env []).1 = inr (3, 4096).
Proof. vm_compute. reflexivity. Qed.

(** * The device's records *)

(** The next record is delivered before the device is read again, and a buffer
    that the device fills is delivered record by record, in order; reads that
    are interrupted or empty are skipped. *)
Lemma cap_next_record fuel r rest reads : bpf_ok r -> (1 <= fuel)%nat ->
  cap_next fuel (enc_bpf r ++ rest) reads = Ok (Some (Frame (br_frame r), rest)).
Proof. intros Hr Hf. destruct fuel as [|f]; [lia|]. cbn [cap_next]. by rewrite cap_record_enc. Qed.

Definition is_skipped (d : dev) : Prop := match d with DevData b => b = [] | DevError err => err = 4 end.
Lemma cap_next_read fuel r rest skipped reads : bpf_ok r -> Forall is_skipped skipped -> (2 <= fuel)%nat ->
  cap_next fuel [] (skipped ++ DevData (enc_bpf r ++ rest) :: reads) = Ok (Some (Frame (br_frame r), rest)).
Proof.
  intros Hr Hs Hf. destruct fuel as [|f]; [lia|]. cbn [cap_next]. change (cap_record []) with (Ok (A := option (bytes * bytes)) None).
  rewrite ok_bind. assert (E : cap_read (skipped ++ DevData (enc_bpf r ++ rest) :: reads) = Some (inr (enc_bpf r ++ rest, reads))).
  { induction Hs as [|d l Hd _ IH]; cbn [app cap_read].
    - destruct (enc_bpf r ++ rest) as [|x b] eqn:En; [|done]. exfalso. apply (f_equal blen) in En.
      rewrite blen_app, blen_enc_bpf in En by done. change (blen []) with 0 in En. pose proof (blen_nonneg rest).
      pose proof (wordalign_spec (bpf_hdrlen r + blen (br_frame r))) as Hw. destruct Hr as (_&Hp&_).
      unfold bpf_hdrlen in *. pose proof (blen_nonneg (br_frame r)). Z.div_mod_to_equations. lia.
    - destruct d as [b|err]; cbn in Hd; subst; exact IH. }
  rewrite E. apply cap_next_record; [done|lia].
Qed.

(** The turns are enough: it never runs out of them. *)
Lemma cap_read_shorter reads b reads' : cap_read reads = Some (inr (b, reads')) -> (length reads' < length reads)%nat.
Proof.
  induction reads as [|d l IH]; cbn [cap_read length]; [done|]. destruct d as [[|x b']|err].
  - intros H. apply IH in H. lia.
  - intros [= _ <-]. lia.
  - destruct (err =? 4); [|done]. intros H. apply IH in H. lia.
Qed.
Lemma cap_next_turns fuel : forall rec reads, (length reads < fuel)%nat -> blen rec < 2 ^ 30 ->
  Forall (fun d => match d with DevData b => blen b < 2 ^ 30 | DevError _ => True end) reads -> cap_next fuel rec reads <> Fuel.
Proof.
  induction fuel as [|f IH]; intros rec reads Hf Hr Hd; [lia|]. cbn [cap_next].
  destruct (cap_record_safe rec Hr) as [Hs _]. destruct (cap_record rec) as [[[frame rest]|]| |]; [done| |done|done].
  rewrite ok_bind. destruct (cap_read reads) as [[err|[b reads']]|] eqn:E; [done| |done].
  pose proof (cap_read_shorter _ _ _ E). apply IH; [lia| |].
  - clear -E Hd. revert E. induction Hd as [|d l Hd1 Hd IH]; cbn [cap_read]; [done|]. destruct d as [[|x b']|err']; [done| |].
    + by intros [= <- _].
    + by destruct (err' =? 4).
  - clear -E Hd. revert E. induction Hd as [|d l Hd1 Hd IH]; cbn [cap_read]; [done|]. destruct d as [[|x b']|err']; [done| |].
    + by intros [= _ <-].
    + by destruct (err' =? 4).
Qed.

(** * The run *)

(** A packet on the wire, and what the capture delivers. *)
Record packet := Packet { k_macs : bytes; k_ip : ip_header; k_src : Z; k_dst : Z; k_lenck : bytes; k_msg : message }.
Definition enc_packet (p : packet) : bytes := enc_frame (k_macs p) (k_ip p) (k_src p) (k_dst p) (k_lenck p) (enc_dns (k_msg p)).
Definition packet_ok (fuel : nat) (p : packet) : Prop :=
  blen (k_macs p) = 12 /\ ip_ok (k_ip p) /\ blen (k_lenck p) = 4 /\ 0 <= k_src p < 2 ^ 16 /\ 0 <= k_dst p < 2 ^ 16 /\
  (k_src p = 53 \/ k_dst p = 53) /\ message_ok (k_msg p) /\ (length (enc_packet p) < fuel)%nat.
Inductive delivery := Delivered (p : packet) (k : clock) | Failed (err : Z) (k : clock).
Definition as_input (lookup : Z -> Z * bytes) (d : delivery) : dns_in :=
  match d with Delivered p k => DnsIn (Frame (enc_packet p)) k lookup | Failed err k => DnsIn (CapError err) k lookup end.
Definition delivery_ok (fuel : nat) (d : delivery) : Prop := match d with Delivered p _ => packet_ok fuel p | Failed _ _ => True end.
(** The messages that the packets carry. *)
Definition messages (l : list delivery) : list input :=
  omap (fun d => match d with Delivered p k => Some (Input k (message_dns (k_msg p)) (k_src p) (k_dst p)) | Failed _ _ => None end) l.
Definition errors_of (l : list delivery) : list Z := omap (fun d => match d with Failed err _ => Some err | _ => None end) l.

Section Run.
Context (fuel : nat) (c : dcfg) (use_color : bool) (strerror : Z -> bytes) (lookup : Z -> Z * bytes).
Definition all_errs (l : list Z) : list bytes := mjoin ((fun err => log_err c ("capture: " ++ strerror err)) <$> l).

Lemma dns_read_delivery d s : delivery_ok fuel d -> dns_read fuel c use_color strerror (as_input lookup d) s =
  Ok (foldl (step c use_color lookup) s.1 (messages [d]), s.2 ++ all_errs (errors_of [d])).
Proof.
  destruct d as [p k|err k]; intros Hd; unfold dns_read; cbn [as_input di_cap di_clock di_lookup].
  - destruct Hd as (H1&H2&H3&H4&H5&H6&H7&H8). unfold on_frame, enc_packet in *. rewrite parse_packet_enc by done.
    unfold all_errs. cbn. by rewrite app_nil_r.
  - unfold all_errs. cbn. by rewrite app_nil_r.
Qed.

Lemma fold_deliveries l : forall s, Forall (delivery_ok fuel) l ->
  fold_in (dns_read fuel c use_color strerror) (as_input lookup <$> l) s =
  Ok (foldl (step c use_color lookup) s.1 (messages l), s.2 ++ all_errs (errors_of l)).
Proof.
  induction l as [|d l IH]; intros [s errs] Hl; [cbn; unfold all_errs; by rewrite app_nil_r|]. apply Forall_cons in Hl as [Hd Hl].
  rewrite fmap_cons. cbn [fold_in]. rewrite dns_read_delivery, ok_bind, IH by done. cbn [fst snd].
  change (d :: l) with ([d] ++ l). unfold messages, errors_of. rewrite !omap_app, foldl_app. unfold all_errs.
  by rewrite fmap_app, join_app, <- app_assoc.
Qed.

(** C3. The run refines the message handler: on frames that carry messages to
    or from port 53 (over IPv4 or IPv6, compressed or not), interleaved in any
    way with signals, interrupted reads and capture errors, the queries in
    flight, the cache and the lines printed are what the fold of the message
    handler makes of the messages, in their order; the errors are reported in
    theirs, unless -Q is given. *)
Theorem dns_run_refines restarts l s ls y :
  dns_run restarts fuel c use_color strerror (AtTest (s, []) false) ls y -> inputs ls = as_input lookup <$> l ->
  Forall (delivery_ok fuel) l ->
  tracer y = (foldl (step c use_color lookup) s (messages l), all_errs (errors_of l)).
Proof.
  intros Hr Hin Hl. apply lrun_fold in Hr. rewrite Hin, fold_deliveries in Hr by done. rewrite ok_bind in Hr. cbn [fst snd tracer app] in Hr.
  assert (Hf : forall fs s', fold_fin (fun (_ : unit) (s : dstate * list bytes) => Ok s) fs s' = Ok s')
    by (induction fs; [done|]; intros; cbn [fold_fin]; by rewrite ok_bind).
  rewrite Hf in Hr. by injection Hr as <-.
Qed.

(** After a stop signal the loop takes at most two steps and handles at most one
    frame. *)
Lemma dns_run_ends restarts x ls1 ls2 y :
  dns_run restarts fuel c use_color strerror x (ls1 ++ LSignal SigStop :: ls2) y -> ends_after ls2 y.
Proof. by apply lrun_stops. Qed.
End Run.

(** On a platform without a device, no command line gets to the loop. *)
Lemma dns_main_unsupported no_color stdout strerror args e h :
  wp e h (dns_main no_color stdout strerror no_cap_open args) (fun r _ => match r with ToLoop _ => False | _ => True end).
Proof.
  unfold dns_main. destruct (scan_flags args dcfg0) as [c cmd| |m]; [|by apply wp_ret..].
  destruct (fOutput c) as [|x f]; [by apply wp_bind, wp_ret, wp_ret|]. apply wp_bind, wp_sys.
  apply wp_on_error; intros _; [done|]. by apply wp_bind, wp_ret, wp_ret.
Qed.

(** * The types of the state *)

(** Every index and every string fits the array that holds it. *)
Definition pending_ok (id : Z) (p : pending_t) : Prop :=
  0 <= id < 2 ^ 16 /\ (length (p_query p) < 256)%nat /\ (length (p_qtype p) < 16)%nat /\ (length (p_name p) < 64)%nat.
Definition cache_ok (port : Z) (e : cache_ent) : Prop := 0 <= port < 2 ^ 16 /\ (length (pc_name e) < 64)%nat.
Definition dstate_ok (s : dstate) : Prop := map_Forall pending_ok (d_pending s) /\ map_Forall cache_ok (d_cache s).

Lemma proc_lookup_ok lookup t port cache : map_Forall cache_ok cache -> 0 <= port < 2 ^ 16 ->
  let '(_, name, cache') := proc_lookup lookup t port 64 cache in (length name < 64)%nat /\ map_Forall cache_ok cache'.
Proof.
  intros Hc Hp. unfold proc_lookup. destruct (lookup port) as [pid nm].
  assert (Hfresh : map_Forall cache_ok (<[port := CacheEnt pid (trunc 64 nm) t]> cache)).
  { apply map_Forall_insert_2; [|done]. split; [done|]. apply trunc_length. lia. }
  destruct (cache !! port) as [e|]; [destruct (f64_lt _ _)|]; (split; [apply trunc_length; lia|done]).
Qed.

Lemma on_message_ok c use_color lookup k m src dst s : msg_ok m -> 0 <= src < 2 ^ 16 -> dstate_ok s ->
  dstate_ok (on_message c use_color lookup k m src dst s).
Proof.
  intros (Hid&_) Hsrc [Hp Hc]. unfold on_message. destruct (_ && (dst =? 53)).
  - pose proof (proc_lookup_ok lookup (k_lookup k) src (d_cache s) Hc Hsrc) as Hl.
    destruct (proc_lookup _ _ _ _ _) as [[pid name] cache']. destruct Hl as [Hn Hc']. split; [|done].
    apply map_Forall_insert_2; [|done]. split_and!; [lia..| | |done]; apply trunc_length; lia.
  - destruct (_ && _); [|done]. destruct (d_pending s !! m_id m); [|done]. split; [|done]. by apply map_Forall_delete.
Qed.

(** C20. The state of the dns tracer keeps its types: over every run, whatever
    bytes the frames hold, every query in flight is filed under a 16-bit
    identifier and every cached port is a 16-bit number, so that both index
    their arrays, and every string that is kept fits its array. *)
Theorem dns_run_typed restarts fuel c use_color strerror s ls y :
  dns_run restarts fuel c use_color strerror (AtTest (s, []) false) ls y -> dstate_ok s -> dstate_ok (tracer y).1.
Proof.
  intros Hr Hs. refine (lrun_invariant _ _ _ _ (fun s => dstate_ok s.1) _ _ _ _ _ Hr Hs); [|by intros ??? ? [= <-]].
  intros i s1 s2 _ H1 H. unfold dns_read in H. destruct (di_cap i) as [frame|err]; [|by injection H as <-].
  apply bind_Ok in H as (s3&H&[= <-]). unfold on_frame in H. pose proof (parse_packet_ok fuel frame) as Hp.
  destruct (parse_packet fuel frame) as [[[[m src] dst]|]| |]; [|by injection H as <-|done..].
  injection H as <-. destruct Hp as (Hm&Hsrc&_). by apply on_message_ok.
Qed.

Definition demo_packet : packet := Packet (replicate 12 NUL) demo_ip 53 4000 (replicate 4 NUL) demo_message.
Definition demo_query_packet : packet :=
  Packet (replicate 12 NUL) demo_ip 4000 53 (replicate 4 NUL) (Message 7 256 (replicate 4 NUL) ["www" : bytes; "ex" : bytes] 1 [NUL; chr 1] [] []).
Definition at_ms (t : Z) : clock := Clock (f64_of_Z t) (f64_of_Z t) [].
Definition demo_deliveries : list delivery := [Delivered demo_query_packet (at_ms 10); Failed 100 (at_ms 11); Delivered demo_packet (at_ms 12)].
Definition demo_labels : list (label (Fin := unit)) :=
  [LTest; LRead (as_input demo_lookup (Delivered demo_query_packet (at_ms 10))); LTest; LRead (as_input demo_lookup (Failed 100 (at_ms 11)));
   LTest; LSignal SigStop; LRead (as_input demo_lookup (Delivered demo_packet (at_ms 12))); LStop tt].
Lemma demo_message_ok : message_ok demo_message.
Proof.
  unfold message_ok. cbn -[Z.pow]. repeat (split; [lia || reflexivity|]). split; [repeat constructor|]. repeat constructor.
Qed.
Lemma demo_deliveries_ok : Forall (delivery_ok 200) demo_deliveries.
Proof.
  assert (Hip : ip_ok demo_ip) by (split; [reflexivity|]; split; [reflexivity|]; exists 0; split; [lia|reflexivity]).
  assert (Hq : packet_ok 200 demo_query_packet).
  { unfold packet_ok. split_and!; [reflexivity|exact Hip|reflexivity|cbn; lia..|by right| |vm_compute; lia].
    unfold message_ok. cbn -[Z.pow]. repeat (split; [lia || reflexivity|]). split; repeat constructor. }
  assert (Hp : packet_ok 200 demo_packet).
  { unfold packet_ok. split_and!; [reflexivity|exact Hip|reflexivity|cbn; lia..|by left|exact demo_message_ok|vm_compute; lia]. }
  apply Forall_cons. split; [exact Hq|]. apply Forall_cons. split; [exact I|]. apply Forall_cons. split; [exact Hp|]. apply Forall_nil_2.
Qed.

Lemma demo_dns_run : exists y, dns_run true 200 quiet false (fun _ => "error") (AtTest (dstate0, []) false) demo_labels y.
Proof.
  eexists. unfold demo_labels. repeat (eapply RunCons; [econstructor; vm_compute; reflexivity|]). constructor.
Qed.

Lemma dns_run_refines_witness :
  exists y, dns_run true 200 quiet false (fun _ => "error") (AtTest (dstate0, []) false) demo_labels y /\
  tracer y = (foldl (step quiet false demo_lookup) dstate0 (messages demo_deliveries), all_errs quiet (fun _ => "error") (errors_of demo_deliveries)).
Proof.
  destruct demo_dns_run as [y Hr]. exists y. split; [exact Hr|].
  apply (dns_run_refines 200 quiet false (fun _ => "error") demo_lookup true demo_deliveries dstate0 demo_labels y Hr);
    [reflexivity|exact demo_deliveries_ok].
Defined.

Lemma dns_run_typed_witness :
  exists y, dns_run true 200 quiet false (fun _ => "error") (AtTest (dstate0, []) false) demo_labels y /\ dstate_ok (tracer y).1.
Proof.
  destruct demo_dns_run as [y Hr]. exists y. split; [exact Hr|].
  apply (dns_run_typed true 200 quiet false (fun _ => "error") dstate0 demo_labels y Hr). split; apply map_Forall_empty.
Defined.
