(* ===== verification/Tls.v ===== *)
(** c/tls.c: the cache of server names, the remote address of a process, the
    discovery of the library, the commands that make probes, the reaction to
    a trace event and the command line. The offsets of the symbols and the
    parsed events are arguments here; TlsTrace computes them. *)
From S2P Require Import Prelude CLib Inet Common Os ProbeTable.

(** * The cache of server names *)

Definition MAX_SNI : nat := 1024.
(** The slots: a process and a host, or not set. *)
Abbreviation sni_cache := (list (option (Z * bytes))).
Definition sni_empty : sni_cache := replicate MAX_SNI None.

Definition holds_pid (pid : Z) (e : option (Z * bytes)) : Prop := match e with Some (p, _) => p = pid | None => False end.
#[export] Instance holds_pid_dec pid e : Decision (holds_pid pid e).
Proof. destruct e as [[p h]|]; unfold holds_pid; apply _. Defined.

(** A slot index out of range, from the remainder of a negative number, is
    outside of the array. *)
Definition set_sni (pid : Z) (host : bytes) (c : sni_cache) : outcome sni_cache :=
  let e := Some (pid, trunc 256 host) in
  match list_find (holds_pid pid) c with
  | Some (i, _) => Ok (<[i := e]> c)
  | None =>
      match list_find (fun x => x = None) c with
      | Some (i, _) => Ok (<[i := e]> c)
      | None => let i := Z.rem pid (Z.of_nat MAX_SNI) in
                if i <? 0 then Ub else Ok (<[Z.to_nat i := e]> c)
      end
  end.
Definition get_sni (pid : Z) (c : sni_cache) : bytes :=
  match list_find (holds_pid pid) c with Some (_, Some (_, h)) => h | _ => [] end.

(** * The remote host *)

Definition is_field_sep (c : byte) : bool := eqc c " " || eqc c "009" || eqc c "010".

(** The bytes that pairs of digits denote. *)
Fixpoint hex_pairs (s : bytes) : option (list Z) :=
  match s with
  | [] => Some []
  | a :: b :: s' =>
      let r := strtoul 16 [a; b] in
      if st_conv r && eqs (st_rest r) []
      then l ← hex_pairs s'; Some (st_val r mod 256 :: l) else None
  | _ => None
  end.

(** The address of the four bytes: [addr32], its bytes put in order, and
    [htonl]. *)
Definition tls_ipv4 (b : list Z) : list Z :=
  match b with
  | [b0; b1; b2; b3] =>
      let addr32 := Z.lor (Z.lor b0 (Z.shiftl b1 8)) (Z.lor (Z.shiftl b2 16) (Z.shiftl b3 24)) in
      let host := Z.lor (Z.lor (u32 (Z.shiftl (Z.land addr32 255) 24)) (u32 (Z.shiftl (Z.land addr32 65280) 8)))
                        (Z.lor (Z.land (Z.shiftr addr32 8) 65280) (Z.land (Z.shiftr addr32 24) 255)) in
      (* in network order, the most significant byte first *)
      [Z.land (Z.shiftr host 24) 255; Z.land (Z.shiftr host 16) 255; Z.land (Z.shiftr host 8) 255; Z.land host 255]
  | _ => []
  end.
(** The first octet of [addr32] is 127, or all of them are 0. *)
Definition skip_ipv4 (b : list Z) : bool :=
  match b with b0 :: _ => (b0 =? 127) || forallb (fun x => x =? 0) b | [] => false end.

Fixpoint swap_groups (b : list Z) : list Z :=
  match b with b0 :: b1 :: b2 :: b3 :: b' => b3 :: b2 :: b1 :: b0 :: swap_groups b' | _ => b end.
(** Loopback, link-local or unspecified. *)
Definition skip_ipv6 (b : list Z) : bool :=
  forallb (fun x => x =? 0) (take 15 b) && ((default 0 (b !! 15%nat) =? 1) || (default 0 (b !! 15%nat) =? 0))
  || (default 0 (b !! 0%nat) =? 254) && (Z.land (default 0 (b !! 1%nat)) 192 =? 128).

Section Remote.
(** [getnameinfo] with [NI_NAMEREQD], and [-R]. *)
Context (resolve : bytes -> option bytes) (no_reverse_dns : bool).

Definition host_port (ipstr : bytes) (port : Z) (cap : nat) : bytes :=
  let name := if no_reverse_dns then None else resolve ipstr in
  let host := match name with
              | Some h => match reverse h with "."%char :: _ => take (length h - 1) h | _ => h end
              | None => ipstr
              end in
  trunc cap (host ++ ":" ++ fmt_d port).

Definition parse_hex_addr (hex_addr : bytes) (is_v6 : bool) (cap : nat) : option bytes :=
  i ← strchr hex_addr ":";
  if (64 <=? i)%nat then None
  else
    let addr_hex := take i hex_addr in
    let r := strtoul 16 (drop (S i) hex_addr) in
    if negb (st_conv r) || (65535 <? st_val r) || (st_val r =? 0) then None
    else if Nat.odd i || (16 <? i / 2)%nat then None
    else
      b ← hex_pairs addr_hex;
      if is_v6 then
        if negb (i / 2 =? 16)%nat then None
        else let b := swap_groups b in
             if skip_ipv6 b then None else Some (host_port (inet_ntop6 b) (st_val r) cap)
      else
        if negb (i / 2 =? 4)%nat then None
        else if skip_ipv4 b then None else Some (host_port (inet_ntop4 (tls_ipv4 b)) (st_val r) cap).

(** The first established connection of a table. *)
Fixpoint first_remote (is_v6 : bool) (lines : list bytes) (cap : nat) : option bytes :=
  match lines with
  | [] => None
  | l :: lines' =>
      match take 4 (strtok is_field_sep (cstr l)) with
      | [_; _; remote; st] =>
          if eqs st "01" then
            match parse_hex_addr remote is_v6 cap with
            | Some h => Some h
            | None => first_remote is_v6 lines' cap
            end
          else first_remote is_v6 lines' cap
      | _ => first_remote is_v6 lines' cap
      end
  end.
Definition remote_of (o : os) (pid : Z) (proto : bytes) (cap : nat) : option bytes :=
  s ← os_read o (trunc 64 (proc_path pid ("net/" ++ proto)));
  first_remote (eqs proto "tcp6") (tail (fgets_all 1024 s)) cap.
Definition remote_from_proc_net (o : os) (pid : Z) (cap : nat) : option bytes :=
  match remote_of o pid "tcp6" cap with Some h => Some h | None => remote_of o pid "tcp" cap end.

Definition remote_host (o : os) (pid : Z) (cap : nat) (c : sni_cache) : bytes :=
  match get_sni pid c with
  | [] => default [] (remote_from_proc_net o pid cap)
  | sni => trunc cap sni
  end.
End Remote.

(** * The library *)

Section Library.
Context (o : os) (realpath : bytes -> option bytes).
Definition stat_ok (path : bytes) : bool := match os_uid o path with Some _ => true | None => false end.
Definition resolve_lib (path : bytes) (cap : nat) : bytes := trunc cap (default path (realpath path)).

Fixpoint maps_line (lines : list bytes) : option bytes :=
  match lines with
  | [] => None
  | l :: lines' =>
      match strstr (cstr l) "libssl", strtok is_field_sep (cstr l) !! 5%nat with
      | Some _, Some path => if stat_ok path then Some path else maps_line lines'
      | _, _ => maps_line lines'
      end
  end.
Definition lib_from_maps (pid : Z) (cap : nat) : option bytes :=
  s ← os_read o (trunc 64 (proc_path pid "maps"));
  p ← maps_line (fgets_all 4096 s);
  Some (resolve_lib p cap).

Definition libssl_candidates : list bytes :=
  [bs "/lib/x86_64-linux-gnu/libssl.so.3"; bs "/lib/x86_64-linux-gnu/libssl.so.1.1";
   bs "/lib64/libssl.so.3"; bs "/lib64/libssl.so.1.1"; bs "/usr/lib64/libssl.so.3"; bs "/usr/lib64/libssl.so.1.1";
   bs "/usr/lib/x86_64-linux-gnu/libssl.so.3"; bs "/usr/lib/x86_64-linux-gnu/libssl.so.1.1";
   bs "/lib/aarch64-linux-gnu/libssl.so.3"; bs "/lib/aarch64-linux-gnu/libssl.so.1.1"].
Fixpoint first_some {A B} (f : A -> option B) (l : list A) : option B :=
  match l with [] => None | a :: l' => match f a with Some b => Some b | None => first_some f l' end end.
Definition find_libssl (watch : list Z) (cap : nat) : option bytes :=
  match first_some (fun p => lib_from_maps p cap) watch with
  | Some p => Some p
  | None => first_some (fun p => if stat_ok p then Some (resolve_lib p cap) else None) libssl_candidates
  end.

Definition must_look_path (name : bytes) (cap : nat) : bytes :=
  default (trunc cap ("/usr/bin/" ++ name))
    (first_some (fun d => let p := trunc 4096 (d ++ "/" ++ name) in if stat_ok p then Some (trunc cap p) else None)
       [bs "/usr/bin"; bs "/bin"; bs "/usr/local/bin"; bs "/sbin"; bs "/usr/sbin"]).
End Library.

(** * Probes *)

Record probe_target := Target_ { pt_symbol : bytes; pt_is_ret : bool; pt_dir : bytes; pt_args : bytes; pt_filter : bytes }.
Definition probe_targets : list probe_target :=
  [Target_ "SSL_read" false "read" "" ""; Target_ "SSL_read" true "read" "" "";
   Target_ "SSL_write" false "write" "" ""; Target_ "SSL_read_ex" false "read" "" "";
   Target_ "SSL_write_ex" false "write" "" "";
   Target_ "SSL_get_servername" true "sni" "+0($retval):string" "";
   Target_ "SSL_ctrl" false "sni" "cmd=%si:u64 sni=+0(%cx):string" "cmd==55"].
Definition probe_name (t : probe_target) : bytes :=
  let n := trunc 128 ("tls_" ++ pt_dir t ++ "_" ++ pt_symbol t) in
  if pt_is_ret t then n ++ take (127 - length n) (bs "_ret") else n.

Definition TRACING_BASE : bytes := "/sys/kernel/debug/tracing".
Definition UPROBE_EVENTS : bytes := TRACING_BASE ++ "/uprobe_events".
Definition probe_file (name file : bytes) : bytes := trunc 256 (TRACING_BASE ++ "/events/uprobes/" ++ name ++ "/" ++ file).

(** A write to a file of the tracing directory: appended as one line, or
    replacing the contents. *)
Inductive fs_op := Append (path line : bytes) | WriteStr (path s : bytes).
Definition remove_ops (name : bytes) : list fs_op :=
  [WriteStr (probe_file name "enable") "0"; Append UPROBE_EVENTS (trunc 160 ("-:uprobes/" ++ name))].

(** The definition of a probe at an offset. *)
Definition probe_line (t : probe_target) (name lib : bytes) (offset : Z) : bytes :=
  let l := trunc 512 ((if pt_is_ret t then "r" else "p") ++ ":" ++ name ++ " " ++ lib ++ ":0x" ++ fmt_x offset) in
  match pt_args t with
  | [] => l
  | a => let l := l ++ take (511 - length l) (bs " ") in l ++ take (511 - length l) a
  end.

(** * Events *)

Record tls_event := TlsEvent { ev_comm : bytes; ev_pid : Z; ev_ts : spec_float; ev_probe : bytes; ev_dir : bytes; ev_sni : bytes }.

(** The direction of a probe, from its name. *)
Definition dir_of (name : bytes) : bytes :=
  match strstr name "_sni" with
  | Some _ => "sni"
  | None => match strstr name "_read" with
            | Some _ => "read"
            | None => match strstr name "_write" with Some _ => "write" | None => "?" end
            end
  end.

Definition is_watched (watch : list Z) (pid : Z) : bool :=
  match watch with [] => true | _ => existsb (fun p => p =? pid) watch end.

Definition CONN_BITS : Z := 12.  (* MAX_CONN = 4096 *)
Definition conn_hash (key : bytes) : Z := foldl (fun h c => u32 (h * 33 + u8 c)) 5381 key.
Definition conn_start (key : bytes) : Z := conn_hash key mod 2 ^ CONN_BITS.
Definition conn_id (k : bytes) : bytes := k.
Abbreviation conn_table := (@ptable bytes).
(** True when the key was seen before; a full table takes no more keys, all
    of which are new. *)
Definition conn_mark (key : bytes) (t : conn_table) : bool * conn_table :=
  match probe conn_id conn_start CONN_BITS (pt_slots t) key with
  | Hit _ => (true, t)
  | Full => (false, t)
  | Hole j => (false, PTable (<[j := trunc 320 key]> (pt_slots t)) (pt_len t + 1))
  end.

Definition str_trim_prefix (s pfx : bytes) : bytes := if has_prefix pfx s then drop (length pfx) s else s.

(** The conversion of a double to [long long]. *)
Definition f64_trunc (x : spec_float) : outcome Z :=
  match x with
  | S754_zero _ => Ok 0
  | S754_finite s m e =>
      let v := if 0 <=? e then Zpos m * 2 ^ e else Zpos m / 2 ^ (- e) in
      let v := if s then - v else v in
      if (- 2 ^ 63 <=? v) && (v <? 2 ^ 63) then Ok v else Ub
  | _ => Ub
  end.

(** The time of day of an event; [localtime] gives hours, minutes, seconds. *)
Definition event_time (localtime : Z -> Z * Z * Z) (ts : spec_float) : outcome bytes :=
  nanos ← f64_trunc (f64_mul ts (f64_of_Z 1000000000));
  let sec := Z.quot nanos 1000000000 in
  let frac := Z.rem nanos 1000000000 in
  let '(sec, frac) := if frac <? 0 then (sec - 1, frac + 1000000000) else (sec, frac) in
  let '(h, m, s) := localtime sec in
  let p2 v := pad_left "0" 2 (fmt_d v) in
  Ok (trunc 16 (p2 h ++ ":" ++ p2 m ++ ":" ++ p2 s ++ "." ++ pad_left "0" 3 (fmt_d (Z.quot frac 1000000)))).

(** The function of a probe: its name without the direction and [_ret]. *)
Definition probe_sym (name : bytes) : bytes :=
  let sym := trunc 64 (str_trim_prefix (str_trim_prefix name "tls_read_") "tls_write_") in
  if (4 <=? length sym)%nat && eqs (drop (length sym - 4) sym) "_ret" then take (length sym - 4) sym else sym.

Record tstate := TState { t_sni : sni_cache; t_conns : conn_table; t_counter : Z; t_out : list bytes }.

Section Events.
Context (o : os) (resolve : bytes -> option bytes) (no_reverse_dns color_mode : bool) (localtime : Z -> Z * Z * Z).

(** What identifies the lines of a process to a host. *)
Definition event_key (pid : Z) (host : bytes) : bytes := trunc 320 (fmt_d pid ++ "|" ++ host).

Definition event_line (ev : tls_event) (host ts : bytes) : bytes :=
  let c := clr_text color_mode in
  let write := eqs (ev_dir ev) "write" in
  c "2" ts ++ " " ++ c "33" (trunc 16 (fmt_d (ev_pid ev))) ++ " " ++ c "96" (ev_comm ev) ++ " " ++
  c (if write then "33" else "36") (if write then "TX" else "RX") ++ " " ++ c "2" (probe_sym (ev_probe ev)) ++
  (match host with [] => [] | _ => trunc 512 ("  " ++ c "35" host) end) ++ ["010"%char].

Definition print_event (ev : tls_event) (s : tstate) : outcome tstate :=
  if eqs (ev_dir ev) "sni" then
    match ev_sni ev with
    | [] => Ok s
    | h => c ← set_sni (ev_pid ev) h (t_sni s); Ok (TState c (t_conns s) (t_counter s) (t_out s))
    end
  else
    let host := remote_host resolve no_reverse_dns o (ev_pid ev) 300 (t_sni s) in
    let '(seen, conns) := conn_mark (event_key (ev_pid ev) host) (t_conns s) in
    if seen then Ok (TState (t_sni s) conns (t_counter s) (t_out s))
    else ts ← event_time localtime (ev_ts ev);
         Ok (TState (t_sni s) conns (t_counter s + 1) (t_out s ++ [event_line ev host ts])).

(** One turn of the main loop on a parsed event. *)
Definition on_event (watch : list Z) (ev : tls_event) (s : tstate) : outcome tstate :=
  if is_watched watch (ev_pid ev) then print_event ev s else Ok s.
Fixpoint on_events (watch : list Z) (evs : list tls_event) (s : tstate) : outcome tstate :=
  match evs with [] => Ok s | ev :: evs' => s' ← on_event watch ev s; on_events watch evs' s' end.
End Events.

(** * The command line *)

Record topts := TOpts {
  to_color : bool; to_quiet : bool; to_errors : bool; to_size : bool; to_verbose : bool; to_norev : bool;
  to_lib : bytes; to_out : bytes; to_watch : list Z;
}.
Definition topts0 : topts := TOpts false false true false false false [] [] [].
Inductive tres := TRun (o : topts) | TUsage | TDie (msg : bytes).

Definition tblank (c : byte) : bool := eqc c " " || eqc c "009".
Fixpoint t_watch (w : list Z) (toks : list bytes) : list Z + bytes :=
  match toks with
  | [] => inl w
  | t :: toks' =>
      match rtrim tblank (ltrim tblank t) with
      | [] => t_watch w toks'
      | s => let r := strtol s in
             if negb (eqs (st_rest r) []) || (st_val r <=? 0) then inr ("-p: invalid PID: " ++ s)
             else t_watch (if (length w <? 256)%nat then w ++ [i32 (st_val r)] else w) toks'
      end
  end.

(** The letters of a cluster; the arguments left. *)
Fixpoint t_cluster (s : bytes) (rest : list bytes) (o : topts) : tres * list bytes :=
  match s with
  | [] => (TRun o, rest)
  | ch :: s' =>
      let '(TOpts co qu er sz ve nr lib out w) := o in
      if eqc ch "c" then t_cluster s' rest (TOpts true qu er sz ve nr lib out w)
      else if eqc ch "h" then (TUsage, rest)
      else if eqc ch "l" then
        match rest with
        | [] => (TDie "-l requires a path", rest)
        | v :: rest' => t_cluster s' rest' (TOpts co qu er sz ve nr (trunc 4096 v) out w)
        end
      else if eqc ch "o" then
        match rest with
        | [] => (TDie "-o requires a path", rest)
        | v :: rest' => t_cluster s' rest' (TOpts co qu er sz ve nr lib (trunc 4096 v) w)
        end
      else if eqc ch "p" then
        match rest with
        | [] => (TDie "-p requires a PID list", rest)
        | v :: rest' => match t_watch w (strtok is_comma v) with
                        | inl w' => t_cluster s' rest' (TOpts co qu er sz ve nr lib out w')
                        | inr m => (TDie m, rest')
                        end
        end
      else if eqc ch "q" then t_cluster s' rest (TOpts co true er sz ve nr lib out w)
      else if eqc ch "Q" then t_cluster s' rest (TOpts co qu false sz ve nr lib out w)
      else if eqc ch "R" then t_cluster s' rest (TOpts co qu er sz ve true lib out w)
      else if eqc ch "s" then t_cluster s' rest (TOpts co qu er true ve nr lib out w)
      else if eqc ch "v" then t_cluster s' rest (TOpts co qu er sz true nr lib out w)
      else (TDie ("unknown flag -" ++ [ch]), rest)
  end.
Fixpoint t_scan (fuel : nat) (args : list bytes) (o : topts) : outcome tres :=
  match args with
  | [] => Ok (TRun o)
  | a :: rest =>
      if (length a <? 2)%nat || negb (has_prefix "-" a) then Ok (TDie ("unexpected argument: " ++ a))
      else match fuel with
           | O => Fuel
           | S f => match t_cluster (drop 1 a) rest o with
                    | (TRun o', rest') => t_scan f rest' o'
                    | (r, _) => Ok r
                    end
           end
  end.
Definition t_parse_args (args : list bytes) : outcome tres := t_scan (length args) args topts0.
