(* ===== verification/Regex.v ===== *)
(** The part of POSIX regular expressions that c/tls.c hands to [regcomp]:
    their matches as a relation, the matches as a list, and [regexec], the
    leftmost of the longest of them, with the positions of its groups. *)
From S2P Require Import Prelude CLib.

(** * Expressions *)

Inductive re :=
  | Set_ (f : byte -> bool)   (* one character of a bracket or [.] *)
  | Eps
  | Seq (r1 r2 : re)
  | Alt (r1 r2 : re)
  | Star (r : re)
  | Group (n : nat) (r : re)
  | Bol                       (* ^ *)
  | Eol.                      (* $ *)

Definition Lit (c : byte) : re := Set_ (fun x => eqc x c).
Definition Plus (r : re) : re := Seq r (Star r).
Definition Opt (r : re) : re := Alt r Eps.
Fixpoint lits (s : bytes) : re := match s with [] => Eps | c :: s' => Seq (Lit c) (lits s') end.
Fixpoint seqs (l : list re) : re := match l with [] => Eps | r :: l' => Seq r (seqs l') end.

(** The groups of a match, the last one to end first. *)
Abbreviation caps := (list (nat * (nat * nat))).
Definition cap_of (n : nat) (c : caps) : option (nat * nat) := snd <$> (snd <$> list_find (fun x => x.1 = n) c).

Section Match.
Context (s : bytes).

(** [r] matches from position [i] to position [j]. A turn of a star is never
    empty. *)
Inductive rmatch : re -> nat -> nat -> caps -> Prop :=
  | MSet f i c : s !! i = Some c -> f c = true -> rmatch (Set_ f) i (S i) []
  | MEps i : rmatch Eps i i []
  | MSeq r1 r2 i j k c1 c2 : rmatch r1 i j c1 -> rmatch r2 j k c2 -> rmatch (Seq r1 r2) i k (c2 ++ c1)
  | MAltL r1 r2 i j c : rmatch r1 i j c -> rmatch (Alt r1 r2) i j c
  | MAltR r1 r2 i j c : rmatch r2 i j c -> rmatch (Alt r1 r2) i j c
  | MStar0 r i : rmatch (Star r) i i []
  | MStarS r i j k c1 c2 : rmatch r i j c1 -> (i < j)%nat -> rmatch (Star r) j k c2 -> rmatch (Star r) i k (c2 ++ c1)
  | MGroup n r i j c : rmatch r i j c -> rmatch (Group n r) i j ((n, (i, j)) :: c)
  | MBol : rmatch Bol 0 0 []
  | MEol : rmatch Eol (length s) (length s) [].

(** The matches from a position, in the order of preference: as many turns of
    a star as possible, the left side of an alternative first. *)
Section Star.
Context (step : nat -> list (nat * caps)).
Fixpoint star_parses (fuel : nat) (i : nat) : list (nat * caps) :=
  match fuel with
  | O => []
  | S f =>
      (p ← step i;
       if (i <? p.1)%nat then (fun q => (q.1, q.2 ++ p.2)) <$> star_parses f p.1 else []) ++ [(i, [])]
  end.
End Star.

Fixpoint parses (r : re) (i : nat) : list (nat * caps) :=
  match r with
  | Set_ f => match s !! i with Some c => if f c then [(S i, [])] else [] | None => [] end
  | Eps => [(i, [])]
  | Seq r1 r2 => p ← parses r1 i; (fun q => (q.1, q.2 ++ p.2)) <$> parses r2 p.1
  | Alt r1 r2 => parses r1 i ++ parses r2 i
  | Star r => star_parses (parses r) (S (length s - i)) i
  | Group n r => (fun p => (p.1, (n, (i, p.1)) :: p.2)) <$> parses r i
  | Bol => if (i =? 0)%nat then [(i, [])] else []
  | Eol => if (i =? length s)%nat then [(i, [])] else []
  end.

(** The longest match from a position, the preferred one among those. *)
Fixpoint longest (l : list (nat * caps)) : option (nat * caps) :=
  match l with
  | [] => None
  | p :: l' => match longest l' with
               | Some q => if (p.1 <? q.1)%nat then Some q else Some p
               | None => Some p
               end
  end.
Fixpoint leftmost (r : re) (n i : nat) : option (nat * nat * caps) :=
  match longest (parses r i) with
  | Some (j, c) => Some (i, j, c)
  | None => match n with O => None | S n' => leftmost r n' (S i) end
  end.
End Match.

(** [regexec(re, s, ...)]: the start and the end of the match, its groups. *)
Definition regexec (r : re) (s : bytes) : option (nat * nat * caps) := leftmost s r (length s) 0.
(** The text of a group. *)
Definition group_text (s : bytes) (n : nat) (c : caps) : option bytes :=
  p ← cap_of n c; Some (take (p.2 - p.1) (drop p.1 s)).

(** * The matcher is the relation *)

Section Spec.
Context (s : bytes).
Implicit Types (r : re) (c : caps).

Lemma rmatch_le r i j c : rmatch s r i j c -> (i <= j)%nat.
Proof. induction 1; lia. Qed.

Lemma rmatch_bound r i j c : rmatch s r i j c -> (i <= length s -> j <= length s)%nat.
Proof. induction 1 as [f i c H| | | | | | | | | ]; intros; try lia; try auto. apply lookup_lt_Some in H. lia. Qed.

Lemma star_parses_sound r step : (forall i j c, (j, c) ∈ step i -> rmatch s r i j c) ->
  forall fuel i j c, (j, c) ∈ star_parses step fuel i -> rmatch s (Star r) i j c.
Proof.
  intros Hs. induction fuel as [|fuel IH]; intros i j c H; cbn [star_parses] in H; [by apply elem_of_nil in H|].
  apply elem_of_app in H as [H|H]; [|apply list_elem_of_singleton in H as [= -> ->]; constructor].
  apply list_elem_of_bind in H as ([k c1]&H&Hk). cbn [fst snd] in H.
  destruct (i <? k)%nat eqn:E; [|by apply elem_of_nil in H]. apply Nat.ltb_lt in E.
  apply list_elem_of_fmap in H as ([k2 c2]&[= -> ->]&H). eapply MStarS; eauto.
Qed.

Lemma parses_sound r i j c : (j, c) ∈ parses s r i -> rmatch s r i j c.
Proof.
  revert i j c. induction r as [f| |r1 IH1 r2 IH2|r1 IH1 r2 IH2|r IH|n r IH| |]; intros i j c H; cbn [parses] in H.
  - destruct (s !! i) as [x|] eqn:E; [|by apply elem_of_nil in H]. destruct (f x) eqn:Ef; [|by apply elem_of_nil in H].
    apply list_elem_of_singleton in H as [= -> ->]. econstructor; eauto.
  - apply list_elem_of_singleton in H as [= -> ->]. constructor.
  - apply list_elem_of_bind in H as ([k c1]&H&Hk). apply list_elem_of_fmap in H as ([k2 c2]&[= -> ->]&H).
    econstructor; eauto.
  - apply elem_of_app in H as [H|H]; [apply MAltL|apply MAltR]; auto.
  - eapply star_parses_sound; eauto.
  - apply list_elem_of_fmap in H as ([k c1]&[= -> ->]&H). constructor. auto.
  - destruct (i =? 0)%nat eqn:E; [|by apply elem_of_nil in H]. apply Nat.eqb_eq in E as ->.
    apply list_elem_of_singleton in H as [= -> ->]. constructor.
  - destruct (i =? length s)%nat eqn:E; [|by apply elem_of_nil in H]. apply Nat.eqb_eq in E as ->.
    apply list_elem_of_singleton in H as [= -> ->]. constructor.
Qed.

Lemma star_parses_complete r step : (forall i j c, (i <= length s)%nat -> rmatch s r i j c -> (j, c) ∈ step i) ->
  forall r' i j c, rmatch s r' i j c -> r' = Star r ->
  forall fuel, (length s - i < fuel)%nat -> (i <= length s)%nat -> (j, c) ∈ star_parses step fuel i.
Proof.
  intros Hs r' i j c H. induction H; intros [= ->] fuel Hf Hi.
  - destruct fuel; [lia|]. cbn [star_parses]. apply elem_of_app. right. by apply list_elem_of_singleton.
  - destruct fuel as [|fuel]; [lia|]. cbn [star_parses]. apply elem_of_app. left.
    pose proof (rmatch_bound _ _ _ _ H Hi).
    apply list_elem_of_bind. exists (j, c1). split; [|auto]. cbn [fst snd]. rewrite (proj2 (Nat.ltb_lt _ _)) by done.
    apply list_elem_of_fmap. exists (k, c2). split; [done|]. apply IHrmatch2; [done|lia|lia].
Qed.

Lemma parses_complete r i j c : (i <= length s)%nat -> rmatch s r i j c -> (j, c) ∈ parses s r i.
Proof.
  revert i j c. induction r as [f| |r1 IH1 r2 IH2|r1 IH1 r2 IH2|r IH|n r IH| |]; intros i j c Hi H.
  - inv H. cbn [parses]. repeat case_match; try congruence. apply list_elem_of_singleton. congruence.
  - inv H. by apply list_elem_of_singleton.
  - inv H. cbn [parses]. apply list_elem_of_bind. eexists (_, _). split; [|eauto].
    apply list_elem_of_fmap. exists (j, c2). split; [done|]. eauto using rmatch_bound.
  - inv H; cbn [parses]; apply elem_of_app; auto.
  - cbn [parses]. eapply star_parses_complete; eauto; lia.
  - inv H. cbn [parses]. apply list_elem_of_fmap. eexists (_, _). split; [reflexivity|]. auto.
  - inv H. by apply list_elem_of_singleton.
  - inv H. cbn [parses]. rewrite Nat.eqb_refl. by apply list_elem_of_singleton.
Qed.

Lemma longest_spec l : match longest l with
  | Some p => p ∈ l /\ (forall q, q ∈ l -> (q.1 <= p.1)%nat)
  | None => l = []
  end.
Proof.
  induction l as [|p l IH]; [done|]. cbn [longest]. destruct (longest l) as [q|].
  - destruct IH as [Hq IH]. destruct (Nat.ltb_spec p.1 q.1).
    + split; [by right|]. intros x [->|Hx]%elem_of_cons; [lia|auto].
    + split; [by left|]. intros x [->|Hx]%elem_of_cons; [lia|]. specialize (IH x Hx). lia.
  - subst l. split; [by left|]. by intros x ->%list_elem_of_singleton.
Qed.

Lemma leftmost_spec r n i : (i + n = length s)%nat -> match leftmost s r n i with
  | Some (a, j, c) => rmatch s r a j c /\ (i <= a <= length s)%nat /\ forall a' j' c', (i <= a' <= length s)%nat -> rmatch s r a' j' c' ->
      (a <= a')%nat /\ (a' = a -> (j' <= j)%nat)
  | None => forall a j c, (i <= a <= length s)%nat -> ~ rmatch s r a j c
  end.
Proof.
  revert i. induction n as [|n IH]; intros i Hi; cbn [leftmost]; pose proof (longest_spec (parses s r i)) as Hl;
    destruct (longest (parses s r i)) as [[j c]|].
  1, 3: destruct Hl as [Hin Hmax]; apply parses_sound in Hin; (split_and!; [done|lia|lia|]); intros a' j' c' Ha' Hm;
    (split; [lia|]); intros ->; apply (Hmax (j', c')); apply parses_complete; [lia|done].
  all: assert (Hn : forall j c, ~ rmatch s r i j c) by
    (intros j c Hm; apply parses_complete in Hm; [|lia]; rewrite Hl in Hm; by apply elem_of_nil in Hm).
  - intros a j c Ha. replace a with i by lia. apply Hn.
  - specialize (IH (S i) ltac:(lia)). destruct (leftmost s r n (S i)) as [[[a j] c]|].
    + destruct IH as (Hm&Ha&IH). split_and!; [done|lia|lia|]. intros a' j' c' Ha' Hm'.
      destruct (decide (a' = i)) as [->|]; [by apply Hn in Hm'|]. apply (IH a' j' c'); [lia|done].
    + intros a j c Ha Hm. destruct (decide (a = i)) as [->|]; [by apply Hn in Hm|]. eapply (IH a); [lia|done].
Qed.

(** [regexec] finds a match if there is one: the leftmost, and the longest of
    those that start there. *)
Lemma regexec_spec r : match regexec r s with
  | Some (i, j, c) => rmatch s r i j c /\ (i <= length s)%nat /\ forall i' j' c', (i' <= length s)%nat -> rmatch s r i' j' c' ->
      (i <= i')%nat /\ (i' = i -> (j' <= j)%nat)
  | None => forall i j c, (i <= length s)%nat -> ~ rmatch s r i j c
  end.
Proof.
  unfold regexec. pose proof (leftmost_spec r (length s) 0 ltac:(lia)) as H.
  destruct (leftmost s r (length s) 0) as [[[i j] c]|].
  - destruct H as (Hm&Ha&H). split_and!; [done|lia|]. intros. eapply H; [lia|done].
  - intros i j c Hi. apply H. lia.
Qed.
End Spec.

(** * Matches as texts

    The same relation without positions: [r] matches [w] after [p] and before
    [q], and its groups match the texts [c]. *)
Abbreviation texts := (list (nat * bytes)).
Inductive rtext : re -> bytes -> bytes -> bytes -> texts -> Prop :=
  | TSet f p x q : f x = true -> rtext (Set_ f) p [x] q []
  | TEps p q : rtext Eps p [] q []
  | TSeq r1 r2 p w1 w2 q c1 c2 : rtext r1 p w1 (w2 ++ q) c1 -> rtext r2 (p ++ w1) w2 q c2 ->
      rtext (Seq r1 r2) p (w1 ++ w2) q (c2 ++ c1)
  | TAltL r1 r2 p w q c : rtext r1 p w q c -> rtext (Alt r1 r2) p w q c
  | TAltR r1 r2 p w q c : rtext r2 p w q c -> rtext (Alt r1 r2) p w q c
  | TStar0 r p q : rtext (Star r) p [] q []
  | TStarS r p w1 w2 q c1 c2 : rtext r p w1 (w2 ++ q) c1 -> w1 <> [] -> rtext (Star r) (p ++ w1) w2 q c2 ->
      rtext (Star r) p (w1 ++ w2) q (c2 ++ c1)
  | TGroup n r p w q c : rtext r p w q c -> rtext (Group n r) p w q ((n, w) :: c)
  | TBol q : rtext Bol [] [] q []
  | TEol p : rtext Eol p [] [] [].

Definition between (s : bytes) (i j : nat) : bytes := take (j - i) (drop i s).
Definition sub_caps (s : bytes) (c : caps) : texts := (fun x => (x.1, between s x.2.1 x.2.2)) <$> c.
Definition text_of (n : nat) (c : texts) : option bytes := snd <$> (snd <$> list_find (fun x => x.1 = n) c).

Lemma group_text_sub s n c : group_text s n c = text_of n (sub_caps s c).
Proof.
  unfold group_text, cap_of, text_of, sub_caps. induction c as [|[m [i j]] c IH]; [done|].
  rewrite fmap_cons. cbn [list_find fst]. destruct (decide (m = n)); [done|].
  destruct (list_find _ c) as [[k x]|], (list_find _ _) as [[k' x']|]; cbn in *; done.
Qed.

Lemma between_app s i j k : (i <= j)%nat -> (j <= k)%nat -> between s i k = between s i j ++ between s j k.
Proof.
  intros. unfold between. replace (drop j s) with (drop (j - i) (drop i s)) by (rewrite drop_drop; f_equal; lia).
  replace (k - i)%nat with ((j - i) + (k - j))%nat by lia. by rewrite take_take_drop.
Qed.

Lemma between_drop s i j : (i <= j)%nat -> between s i j ++ drop j s = drop i s.
Proof.
  intros. unfold between. replace (drop j s) with (drop (j - i) (drop i s)) by (rewrite drop_drop; f_equal; lia).
  apply take_drop.
Qed.

Lemma between_take s i j : (i <= j)%nat -> take i s ++ between s i j = take j s.
Proof. intros. unfold between. rewrite take_take_drop. f_equal. lia. Qed.

Lemma between_nil s i : between s i i = [].
Proof. unfold between. by rewrite Nat.sub_diag. Qed.

Lemma rmatch_text s r i j c : (i <= length s)%nat -> rmatch s r i j c ->
  rtext r (take i s) (between s i j) (drop j s) (sub_caps s c).
Proof.
  intros Hi H. induction H as [f i x Hx Hf| |r1 r2 i j k c1 c2 H1 IH1 H2 IH2| | | |r i j k c1 c2 H1 IH1 Hlt H2 IH2|n r i j c H IH| |].
  - unfold between. replace (S i - i)%nat with 1%nat by lia. erewrite drop_S by exact Hx. by constructor.
  - rewrite between_nil. constructor.
  - pose proof (rmatch_le _ _ _ _ _ H1). pose proof (rmatch_le _ _ _ _ _ H2). pose proof (rmatch_bound _ _ _ _ _ H1 Hi).
    rewrite (between_app s i j k) by done. unfold sub_caps. rewrite fmap_app. constructor.
    + rewrite between_drop by done. auto.
    + rewrite between_take by done. auto.
  - apply TAltL. auto.
  - apply TAltR. auto.
  - rewrite between_nil. constructor.
  - pose proof (rmatch_le _ _ _ _ _ H2). pose proof (rmatch_bound _ _ _ _ _ H1 Hi).
    rewrite (between_app s i j k) by lia. unfold sub_caps. rewrite fmap_app. constructor.
    + rewrite between_drop by done. auto.
    + intros E. apply (f_equal length) in E. unfold between in E. rewrite length_take, length_drop in E. cbn in E. lia.
    + rewrite between_take by lia. auto.
  - unfold sub_caps. rewrite fmap_cons. constructor. auto.
  - rewrite between_nil. constructor.
  - rewrite between_nil, drop_all. constructor.
Qed.

Lemma text_rmatch r p w q t : rtext r p w q t -> exists c, rmatch (p ++ w ++ q) r (length p) (length p + length w) c.
Proof.
  induction 1 as [f p x q Hx|p q|r1 r2 p w1 w2 q c1 c2 H1 IH1 H2 IH2| | |r p q|r p w1 w2 q c1 c2 H1 IH1 Hne H2 IH2|n r p w q c H IH|q|p].
  - exists []. replace (length p + length [x])%nat with (S (length p)) by (cbn; lia). econstructor; [|exact Hx].
    by apply list_lookup_middle.
  - exists []. rewrite Nat.add_0_r. constructor.
  - destruct IH1 as [d1 IH1], IH2 as [d2 IH2]. exists (d2 ++ d1). rewrite <- !app_assoc in *.
    rewrite !length_app, Nat.add_assoc in *. by econstructor.
  - destruct IHrtext as [d ?]. exists d. by apply MAltL.
  - destruct IHrtext as [d ?]. exists d. by apply MAltR.
  - exists []. rewrite Nat.add_0_r. constructor.
  - destruct IH1 as [d1 IH1], IH2 as [d2 IH2]. exists (d2 ++ d1). rewrite <- !app_assoc in *.
    rewrite !length_app, Nat.add_assoc in *. econstructor; [done| |done]. destruct w1; [done|]. cbn. lia.
  - destruct IH as [d ?]. eexists. by constructor.
  - exists []. constructor.
  - exists []. rewrite Nat.add_0_r, app_nil_r. constructor.
Qed.

(** When every match is at least as far to the right, and no longer there,
    [regexec] finds one with these bounds. *)
Lemma regexec_text r p w q t : rtext r p w q t ->
  (forall p' w' q' t', p ++ w ++ q = p' ++ w' ++ q' -> rtext r p' w' q' t' ->
     (length p <= length p')%nat /\ (length p' = length p -> (length w' <= length w)%nat)) ->
  exists c t', regexec r (p ++ w ++ q) = Some (length p, (length p + length w)%nat, c) /\ rtext r p w q t' /\
    forall n, group_text (p ++ w ++ q) n c = text_of n t'.
Proof.
  intros H Hmin. set (s := p ++ w ++ q). pose proof (regexec_spec s r) as Hs.
  destruct (text_rmatch _ _ _ _ _ H) as [c0 H0]. fold s in H0.
  assert (Hlen : (length p + length w <= length s)%nat) by (unfold s; rewrite !length_app; lia).
  destruct (regexec r s) as [[[i j] c]|]; [|exfalso; eapply Hs; [|exact H0]; lia].
  destruct Hs as (Hm&Hin&Hbest). destruct (Hbest (length p) _ _ ltac:(lia) H0) as [Hi Hj].
  pose proof (rmatch_le _ _ _ _ _ Hm). pose proof (rmatch_bound _ _ _ _ _ Hm Hin).
  pose proof (rmatch_text _ _ _ _ _ Hin Hm) as Ht.
  destruct (Hmin (take i s) (between s i j) (drop j s) (sub_caps s c)) as [Hp Hw]; [|done|].
  { fold s. by rewrite between_drop, take_drop by done. }
  rewrite length_take in Hp. assert (Hii : i = length p) by lia. subst i. specialize (Hj eq_refl).
  unfold between in Hw. rewrite !length_take, length_drop in Hw.
  assert (j = (length p + length w)%nat) by lia. subst j.
  exists c, (sub_caps s c). split; [done|]. split; [|intros n; by rewrite group_text_sub].
  assert (take (length p) s = p) as E1 by (unfold s; apply take_app_length).
  assert (between s (length p) (length p + length w) = w) as E2.
  { unfold between, s. rewrite drop_app_length. replace (length p + length w - length p)%nat with (length w) by lia. apply take_app_length. }
  assert (drop (length p + length w) s = q) as E3.
  { unfold s. rewrite app_assoc. apply drop_app_length'. by rewrite length_app. }
  by rewrite E1, E2, E3 in Ht.
Qed.

(** No match at all. *)
Lemma regexec_none r s : (forall p w q t, s = p ++ w ++ q -> ~ rtext r p w q t) -> regexec r s = None.
Proof.
  intros H. pose proof (regexec_spec s r) as Hs. destruct (regexec r s) as [[[i j] c]|]; [|done]. exfalso.
  destruct Hs as (Hm&Hi&_). pose proof (rmatch_le _ _ _ _ _ Hm). apply (H (take i s) (between s i j) (drop j s) (sub_caps s c)).
  - by rewrite between_drop, take_drop.
  - by apply rmatch_text.
Qed.

(** What [regexec] returns is a match. *)
Lemma regexec_some r s i j c : regexec r s = Some (i, j, c) -> exists p w q t, s = p ++ w ++ q /\ rtext r p w q t /\
  length p = i /\ length w = (j - i)%nat /\ forall n, group_text s n c = text_of n t.
Proof.
  intros E. pose proof (regexec_spec s r) as Hs. rewrite E in Hs. destruct Hs as (Hm&Hi&_).
  pose proof (rmatch_le _ _ _ _ _ Hm). pose proof (rmatch_bound _ _ _ _ _ Hm Hi).
  exists (take i s), (between s i j), (drop j s), (sub_caps s c). split_and!.
  - by rewrite between_drop, take_drop.
  - by apply rmatch_text.
  - rewrite length_take. lia.
  - unfold between. rewrite length_take, length_drop. lia.
  - intros n. apply group_text_sub.
Qed.

(** ** Inversions for the expressions in use *)

Lemma rtext_seq r1 r2 p w q t : rtext (Seq r1 r2) p w q t -> exists w1 w2 t1 t2,
  w = w1 ++ w2 /\ t = t2 ++ t1 /\ rtext r1 p w1 (w2 ++ q) t1 /\ rtext r2 (p ++ w1) w2 q t2.
Proof. intros H. inv H. eauto 10. Qed.

Lemma rtext_set f p w q t : rtext (Set_ f) p w q t -> exists x, w = [x] /\ f x = true /\ t = [].
Proof. intros H. inv H. eauto. Qed.

Lemma rtext_lit c p w q t : rtext (Lit c) p w q t -> w = [c] /\ t = [].
Proof. intros (x&->&Hx&->)%rtext_set. by apply eqc_true in Hx as ->. Qed.

Lemma rtext_seqs_cons r l p w q t : rtext (seqs (r :: l)) p w q t -> exists w1 w2 t1 t2,
  w = w1 ++ w2 /\ t = t2 ++ t1 /\ rtext r p w1 (w2 ++ q) t1 /\ rtext (seqs l) (p ++ w1) w2 q t2.
Proof. apply rtext_seq. Qed.

Lemma rtext_group n r p w q t : rtext (Group n r) p w q t -> exists t', t = (n, w) :: t' /\ rtext r p w q t'.
Proof. intros H. inv H. eauto. Qed.

Lemma rtext_alt r1 r2 p w q t : rtext (Alt r1 r2) p w q t -> rtext r1 p w q t \/ rtext r2 p w q t.
Proof. intros H. inv H; auto. Qed.

Lemma rtext_eps p w q t : rtext Eps p w q t -> w = [] /\ t = [].
Proof. intros H. by inv H. Qed.

Lemma rtext_bol p w q t : rtext Bol p w q t -> p = [] /\ w = [] /\ t = [].
Proof. intros H. by inv H. Qed.

Lemma rtext_eol p w q t : rtext Eol p w q t -> w = [] /\ q = [] /\ t = [].
Proof. intros H. by inv H. Qed.

Lemma rtext_seqs_nil p w q t : rtext (seqs []) p w q t -> w = [] /\ t = [].
Proof. intros H. by inv H. Qed.

Lemma rtext_star_set f p w q t : rtext (Star (Set_ f)) p w q t -> Forall (fun x => f x = true) w /\ t = [].
Proof.
  remember (Star (Set_ f)) as r eqn:Er. intros H. induction H; try discriminate Er; [by split; [constructor|]|].
  injection Er as ->. destruct IHrtext2 as [Hf ->]; [done|]. inv H. split; [by constructor|done].
Qed.

Lemma star_set_rtext f p w q : Forall (fun x => f x = true) w -> rtext (Star (Set_ f)) p w q [].
Proof.
  intros H. revert p. induction H as [|x w Hx Hw IH]; intros p; [constructor|].
  change (x :: w) with ([x] ++ w). change (@nil (nat * bytes)) with (@nil (nat * bytes) ++ []).
  apply TStarS; [by constructor|done|apply IH].
Qed.

Lemma rtext_plus_set f p w q t : rtext (Plus (Set_ f)) p w q t -> w <> [] /\ Forall (fun x => f x = true) w /\ t = [].
Proof.
  intros (w1&w2&t1&t2&->&->&(x&->&Hx&->)%rtext_set&[Hf ->]%rtext_star_set)%rtext_seq.
  split_and!; [done|by constructor|done].
Qed.

Lemma plus_set_rtext f p w q : w <> [] -> Forall (fun x => f x = true) w -> rtext (Plus (Set_ f)) p w q [].
Proof.
  intros Hne H. destruct w as [|x w]; [done|]. apply Forall_cons in H as [Hx Hw]. unfold Plus.
  change (x :: w) with ([x] ++ w). change (@nil (nat * bytes)) with (@nil (nat * bytes) ++ []).
  constructor; [by constructor|by apply star_set_rtext].
Qed.

Lemma rtext_lits s p w q t : rtext (lits s) p w q t -> w = s /\ t = [].
Proof.
  revert p w q t. induction s as [|x s IH]; intros p w q t; [apply rtext_eps|].
  by intros (w1&w2&t1&t2&->&->&[-> ->]%rtext_lit&[-> ->]%IH)%rtext_seq.
Qed.

Lemma lits_rtext s p q : rtext (lits s) p s q [].
Proof.
  revert p. induction s as [|x s IH]; intros p; [constructor|]. cbn [lits].
  change (x :: s) with ([x] ++ s). change (@nil (nat * bytes)) with (@nil (nat * bytes) ++ []).
  constructor; [|apply IH]. constructor. apply eqc_refl.
Qed.
