(* ===== verification/TlsTrace.v ===== *)
(** The text that c/tls.c reads with regular expressions: the symbol tables
    printed by nm and objdump, and the lines of the kernel's trace pipe, with
    the loop that reacts to them. *)
From S2P Require Import Prelude CLib Os ProbeTable Regex Tls.

(** * Classes of characters *)

Definition space : byte -> bool := is_space.
Definition nonspace (c : byte) : bool := negb (is_space c).
Definition hexdigit (c : byte) : bool := is_digit c || ((97 <=? u8 c) && (u8 c <=? 102)).
(** [[:alnum:]_], in the C locale. *)
Definition word_char (c : byte) : bool :=
  is_digit c || ((65 <=? u8 c) && (u8 c <=? 90)) || ((97 <=? u8 c) && (u8 c <=? 122)) || eqc c "_".
Definition nonword (c : byte) : bool := negb (word_char c).
Definition dot_digit (c : byte) : bool := is_digit c || eqc c ".".
Definition any_char (_ : byte) : bool := true.

Definition spaces : re := Plus (Set_ space).
Definition boundary : re := Alt (Set_ nonword) Eol.

(** * Symbol tables *)

(** The three patterns of [sym_match], for a symbol of word characters. *)
Definition pat1 (sym : bytes) : re :=
  seqs [Bol; Group 1 (Plus (Set_ hexdigit)); spaces; Opt (Group 2 (Seq (Plus (Set_ hexdigit)) spaces));
        Plus (Set_ nonspace); spaces; lits sym; boundary].
Definition pat2 (sym : bytes) : re :=
  seqs [Bol; Group 1 (Plus (Set_ hexdigit)); spaces; Set_ nonspace; spaces; lits sym; boundary].
Definition pat3 (sym : bytes) : re :=
  seqs [Bol; Group 1 (Plus (Set_ hexdigit)); spaces; Star (Set_ any_char); Set_ nonword; lits sym; Eol].

(** The lines of a text, without their ends; the text ends after its last end
    of line. *)
Fixpoint lines_go (s cur : bytes) : list bytes :=
  match s with
  | [] => match cur with [] => [] | _ => [reverse cur] end
  | c :: s' => if eqc c "010" then reverse cur :: lines_go s' [] else lines_go s' (c :: cur)
  end.
Definition lines_of (s : bytes) : list bytes := lines_go s [].

(** The offset on a line, when it names the symbol: the number in group 1. *)
Definition sym_line (pat : re) (line : bytes) : option Z :=
  let lbuf := take 1023 line in
  '(_, _, c) ← regexec pat lbuf;
  hex ← group_text lbuf 1 c;
  match strstr lbuf "*UND*" with
  | Some _ => None
  | None =>
      if (0 <? length hex)%nat && (length hex <? 32)%nat
      then let v := st_val (strtoul 16 hex) in if v =? 0 then None else Some v
      else None
  end.

Definition sym_match (data sym : bytes) : option Z :=
  first_some (fun pat => first_some (sym_line pat) (lines_of (cstr data))) [pat1 sym; pat2 sym; pat3 sym].

(** The output of a child: what the reads of its pipe return, up to an empty
    one or an error. [None]: the pipe or the fork fails. *)
Fixpoint read_all (reads : list (option bytes)) : bytes :=
  match reads with
  | Some (c :: r) :: reads' => (c :: r) ++ read_all reads'
  | _ => []
  end.
Definition run_cmd (child : option (list (option bytes))) : option bytes := read_all <$> child.

Section SymbolOffset.
(** The children that run a program with its arguments. *)
Context (child : bytes -> list bytes -> option (list (option bytes))).
Definition symbol_offset (lib sym : bytes) : option Z :=
  let objdump := data ← run_cmd (child "objdump" [bs "objdump"; bs "-T"; lib]); sym_match data sym in
  match run_cmd (child "nm" [bs "nm"; bs "-D"; bs "--defined-only"; lib]) with
  | None | Some [] => objdump
  | Some data => sym_match data sym
  end.
End SymbolOffset.

(** * Trace lines *)

Definition trace_re : re :=
  seqs [Bol; Star (Set_ space); Group 1 (Plus (Set_ nonspace)); Lit "-"; Group 2 (Plus (Set_ is_digit)); spaces;
        Opt (Group 3 (seqs [Lit "("; Plus (Set_ nonspace); Lit ")"; spaces]));
        Lit "["; Plus (Set_ is_digit); Lit "]"; Star (Set_ any_char); spaces; Group 4 (Plus (Set_ dot_digit)); Lit ":";
        spaces; Group 5 (Seq (lits "tls_") (Plus (Set_ word_char)))].
Definition sni_re : re :=
  seqs [Group 1 (Alt (lits "arg1") (lits "sni")); Lit "="; Lit (chr 34);
        Group 2 (Star (Set_ (fun c => negb (eqc c (chr 34))))); Lit (chr 34)].

(** [strtod] on digits and dots: the number up to its second dot, rounded to
    the nearest double. *)
Fixpoint span_digits (s : bytes) : bytes * bytes :=
  match s with
  | c :: s' => if is_digit c then let '(d, r) := span_digits s' in (c :: d, r) else ([], s)
  | [] => ([], [])
  end.
Definition dec_val (s : bytes) : Z := foldl (fun n c => n * 10 + (u8 c - 48)) 0 s.
Definition strtod (s : bytes) : spec_float :=
  let '(ip, r) := span_digits s in
  let fp := match r with c :: r' => if eqc c "." then (span_digits r').1 else [] | [] => [] end in
  match dec_val (ip ++ fp) with
  | Zpos m => SFdiv 53 1024 (S754_finite false m 0) (S754_finite false (Z.to_pos (10 ^ Z.of_nat (length fp))) 0)
  | _ => S754_zero false
  end.

Definition parse_line (line : bytes) : option tls_event :=
  '(_, _, m) ← regexec trace_re line;
  comm ← group_text line 1 m;
  pid ← group_text line 2 m;
  ts ← group_text line 4 m;
  probe ← group_text line 5 m;
  let probe := trunc 64 probe in
  let dir := dir_of probe in
  let sni := if eqs dir "sni" then
               match ('(_, _, sm) ← regexec sni_re line; group_text line 2 sm) with Some h => trunc 256 h | None => [] end
             else [] in
  Some (TlsEvent (trunc 256 comm) (atoi (trunc 32 pid)) (strtod (trunc 32 ts)) probe dir sni).

(** * The loop over the trace pipe *)

Section Loop.
Context (o : os) (resolve : bytes -> option bytes) (no_reverse_dns color_mode : bool) (localtime : Z -> Z * Z * Z).

(** A line as [getline] returns it, its end of line included. *)
Definition chomp (l : bytes) : bytes := match last l with Some "010"%char => take (length l - 1) l | _ => l end.
Definition on_line (watch : list Z) (l : bytes) (s : tstate) : outcome tstate :=
  match parse_line (cstr (chomp l)) with
  | Some ev => on_event o resolve no_reverse_dns color_mode localtime watch ev s
  | None => Ok s
  end.
Fixpoint trace_loop (watch : list Z) (lines : list bytes) (s : tstate) : outcome tstate :=
  match lines with [] => Ok s | l :: lines' => s' ← on_line watch l s; trace_loop watch lines' s' end.
End Loop.

Definition demo_trace : bytes :=
  "            curl-4242    [003] ...1 12345.678901: tls_sni_SSL_ctrl: (0x7f2a) cmd=0x37 sni=" ++ [chr 34] ++ "example.org" ++ [chr 34].
Example parse_demo : parse_line demo_trace =
  Some (TlsEvent "curl" 4242 (strtod "12345.678901") "tls_sni_SSL_ctrl" "sni" "example.org").
Proof. vm_compute. reflexivity. Qed.

Example sym_demo : sym_match ("0000000000000000 A OPENSSL_3.0.0" ++ ["010"%char] ++ "0000000000036f60 T SSL_read_ex@@OPENSSL_3.0.0" ++
   ["010"%char] ++ "0000000000036dc0 T SSL_read@@OPENSSL_3.0.0" ++ ["010"%char]) "SSL_read" = Some 224704.
Proof. vm_compute. reflexivity. Qed.
