(* ===== verification/TlsTraceProps.v ===== *)
(** The regular expressions of c/tls.c read what the kernel and nm print: the
    process, the time, the probe and the server name of a trace line, the
    offset of a symbol. *)
From S2P Require Import Prelude CLib Os ProbeTable NetText Regex Tls TlsTrace.

(** * Lists of characters *)

(** The run of a class at the head of a text is determined. *)
Lemma span_inj {A} (f : A -> bool) a b c d r r' :
  Forall (fun x => f x = true) a -> Forall (fun x => f x = true) b -> f c = false -> f d = false ->
  a ++ c :: r = b ++ d :: r' -> a = b /\ c = d /\ r = r'.
Proof.
  intros Ha Hb Hc Hd. revert b Hb. induction Ha as [|x a Hx Ha IH]; intros [|y b] Hb E; cbn in E.
  - by simplify_eq.
  - injection E as -> _. apply Forall_cons in Hb as [Hy _]. congruence.
  - injection E as -> _. congruence.
  - injection E as -> E. apply Forall_cons in Hb as [_ Hb]. destruct (IH b Hb E) as (->&->&->). done.
Qed.

(** The same at the end of a text. *)
Lemma span_inj_end {A} (f : A -> bool) a b c d r r' :
  Forall (fun x => f x = true) a -> Forall (fun x => f x = true) b -> f c = false -> f d = false ->
  r ++ c :: a = r' ++ d :: b -> a = b /\ c = d /\ r = r'.
Proof.
  intros Ha Hb Hc Hd E. apply (f_equal reverse) in E. rewrite !reverse_app, !reverse_cons, <- !app_assoc in E. cbn [app] in E.
  apply (span_inj f) in E as (E1&->&E2); [|by apply Forall_reverse..|done|done].
  apply (inj reverse) in E1 as ->. by apply (inj reverse) in E2 as ->.
Qed.

(** A run that stops at a character outside of its class is the longest. *)
Lemma span_max {A} (f : A -> bool) a b q q' :
  Forall (fun x => f x = true) a -> match q' with [] => True | x :: _ => f x = false end ->
  a ++ q = b ++ q' -> (length a <= length b)%nat /\ (length a = length b -> a = b).
Proof.
  intros Ha Hq. revert b. induction Ha as [|x a Hx Ha IH]; intros [|y b] E; cbn in E.
  - done.
  - split; [cbn; lia|done].
  - destruct q' as [|z q']; [done|]. simplify_eq. congruence.
  - injection E as -> E. destruct (IH b E) as [Hl He]. cbn. split; [lia|]. intros Hn. f_equal. apply He. lia.
Qed.

Lemma Forall_true {A} (f : A -> bool) l : forallb f l = true -> Forall (fun x => f x = true) l.
Proof. intros H. apply Forall_forall. intros x Hx. rewrite forallb_forall in H. apply H. by apply list_elem_of_In. Qed.

Lemma space_nonspace c : is_space c = true -> nonspace c = false.
Proof. unfold nonspace. by intros ->. Qed.
Lemma nonspace_space c : nonspace c = true -> is_space c = false.
Proof. unfold nonspace. by destruct (is_space c). Qed.
Lemma dot_digit_nonspace c : dot_digit c = true -> is_space c = false.
Proof.
  unfold dot_digit. intros [H|H]%orb_true_iff; [by apply is_digit_not_space|]. by apply eqc_true in H as ->.
Qed.
Lemma word_nonspace c : word_char c = true -> is_space c = false.
Proof.
  unfold word_char, is_space, is_digit. intros H. apply not_true_iff_false. intros Hs.
  rewrite !orb_true_iff in H. destruct H as [[[H|H]|H]|H]; [| | |by apply eqc_true in H as ->];
    apply orb_true_iff in Hs as [Hs|Hs]; zbool; lia.
Qed.

(** Take apart the matches of the expressions in the hypotheses. *)
Ltac rtext_inv :=
  repeat match goal with
    | H : rtext (seqs (_ :: _)) _ _ _ _ |- _ =>
        let w1 := fresh "w" in let w2 := fresh "w" in let t1 := fresh "t" in let t2 := fresh "t" in
        let Hw := fresh in let Ht := fresh in
        apply rtext_seqs_cons in H as (w1&w2&t1&t2&Hw&Ht&?&?); subst
    | H : rtext (seqs []) _ _ _ _ |- _ => apply rtext_seqs_nil in H as [? ?]; subst
    | H : rtext (Lit _) _ _ _ _ |- _ => apply rtext_lit in H as [? ?]; subst
    | H : rtext spaces _ _ _ _ |- _ => apply rtext_plus_set in H as (?&?&?); subst
    | H : rtext (Plus (Set_ _)) _ _ _ _ |- _ => apply rtext_plus_set in H as (?&?&?); subst
    | H : rtext (Star (Set_ _)) _ _ _ _ |- _ => apply rtext_star_set in H as [? ?]; subst
    | H : rtext (lits _) _ _ _ _ |- _ => apply rtext_lits in H as [? ?]; subst
    | H : rtext (Group _ _) _ _ _ _ |- _ => apply rtext_group in H as (?&?&?); subst
    | H : rtext (Seq _ _) _ _ _ _ |- _ => apply rtext_seq in H as (?&?&?&?&?&?&?&?); subst
    | H : rtext Bol _ _ _ _ |- _ => apply rtext_bol in H as (?&?&?); subst
    | H : rtext Eol _ _ _ _ |- _ => apply rtext_eol in H as (?&?&?); subst
    | H : rtext Eps _ _ _ _ |- _ => apply rtext_eps in H as [? ?]; subst
    | H : rtext (Set_ _) _ _ _ _ |- _ => apply rtext_set in H as (?&?&?&?); subst
    end.

Abbreviation all f := (Forall (fun x => f x = true)).

(** * The trace expression *)

(** The optional thread group. *)
Definition tgid_ok (tg : bytes) : Prop :=
  tg = [] \/ exists g sp, tg = "("%char :: (g ++ [")"%char]) ++ sp /\ g <> [] /\ all nonspace g /\ sp <> [] /\ all is_space sp.

Record front := Front { f_pad : bytes; f_comm : bytes; f_pid : bytes; f_gap : bytes; f_tg : bytes; f_cpu : bytes }.
Definition front_text (f : front) : bytes :=
  f_pad f ++ f_comm f ++ "-"%char :: f_pid f ++ f_gap f ++ f_tg f ++ "["%char :: f_cpu f.
Definition front_ok (f : front) : Prop :=
  all is_space (f_pad f) /\ (f_comm f <> [] /\ all nonspace (f_comm f)) /\ (f_pid f <> [] /\ all is_digit (f_pid f)) /\
  (f_gap f <> [] /\ all is_space (f_gap f)) /\ tgid_ok (f_tg f) /\ (f_cpu f <> [] /\ all is_digit (f_cpu f)).

Record back := Back { b_mid : bytes; b_gap : bytes; b_ts : bytes; b_gap2 : bytes; b_name : bytes }.
Definition back_text (b : back) : bytes :=
  "]"%char :: b_mid b ++ b_gap b ++ b_ts b ++ ":"%char :: b_gap2 b ++ "tls_" ++ b_name b.
Definition back_ok (b : back) : Prop :=
  (b_gap b <> [] /\ all is_space (b_gap b)) /\ (b_ts b <> [] /\ all dot_digit (b_ts b)) /\
  (b_gap2 b <> [] /\ all is_space (b_gap2 b)) /\ (b_name b <> [] /\ all word_char (b_name b)).

Lemma trace_re_inv p w q t : rtext trace_re p w q t -> exists f b, p = [] /\ w = front_text f ++ back_text b /\
  front_ok f /\ back_ok b /\ text_of 1 t = Some (f_comm f) /\ text_of 2 t = Some (f_pid f) /\
  text_of 4 t = Some (b_ts b) /\ text_of 5 t = Some ("tls_" ++ b_name b).
Proof.
  intros H. unfold trace_re in H. rtext_inv.
  match goal with H : rtext (Opt _) _ ?w _ ?t |- _ =>
    assert (Ht : tgid_ok w /\ (t = [] \/ exists x, t = [(3%nat, x)])); [apply rtext_alt in H as [H|H]; rtext_inv|clear H] end.
  { rewrite !app_nil_r. split; [|right; cbn; eauto]. right.
    match goal with |- exists g sp, [?c] ++ ?g ++ [?d] ++ ?sp = _ /\ _ => exists g, sp end.
    split; [by rewrite <- app_assoc|done]. }
  { split; [by left|by left]. }
  destruct Ht as [Htg Ht].
  match goal with |- context [[] ++ ?pad ++ ?comm ++ [_] ++ ?pid ++ ?gap ++ ?tg ++ [_] ++ ?cpu ++ [_] ++ ?mid ++ ?gap' ++ ?ts ++ [_] ++ ?gap2 ++ (_ ++ ?name) ++ []] =>
    exists (Front pad comm pid gap tg cpu), (Back mid gap' ts gap2 name) end.
  unfold front_text, back_text, front_ok, back_ok.
  cbn [f_pad f_comm f_pid f_gap f_tg f_cpu b_mid b_gap b_ts b_gap2 b_name].
  split; [done|]. split; [repeat (rewrite ?app_nil_r, <- ?app_assoc; cbn [app]); reflexivity|].
  split; [split_and!; done|]. split; [split_and!; done|].
  destruct Ht as [->|[x ->]]; rewrite ?app_nil_r, ?app_nil_l; cbn; done.
Qed.

(** Build a match, item by item. *)
Ltac rtext_build :=
  repeat first [apply TBol | apply TEps | apply TGroup | apply lits_rtext | apply star_set_rtext; assumption
               | apply plus_set_rtext; assumption | apply TSet; (assumption || apply eqc_refl || reflexivity) | eapply TSeq].

Lemma rtext_tgid tg : tgid_ok tg -> exists t, forall p q,
  rtext (Opt (Group 3 (seqs [Lit "("; Plus (Set_ nonspace); Lit ")"; spaces]))) p tg q t.
Proof.
  intros [->|(g&sp&->&Hg&Hga&Hs&Hsa)].
  - exists []. intros. apply TAltR. constructor.
  - eexists. intros. apply TAltL, TGroup.
    replace ("("%char :: (g ++ [")"%char]) ++ sp) with (["("%char] ++ g ++ [")"%char] ++ sp ++ []) by (rewrite app_nil_r, <- app_assoc; done).
    cbn [seqs]. rtext_build.
Qed.

Lemma trace_re_match f b q : front_ok f -> back_ok b -> exists t, rtext trace_re [] (front_text f ++ back_text b) q t.
Proof.
  intros (Hpad&[Hc Hca]&[Hp Hpa]&[Hg Hga]&Htg&[Hu Hua]) ([Hbg Hbga]&[Ht Hta]&[H2 H2a]&[Hn Hna]).
  destruct (rtext_tgid (f_tg f) Htg) as [t3 H3].
  replace (front_text f ++ back_text b) with
    ([] ++ f_pad f ++ f_comm f ++ ["-"%char] ++ f_pid f ++ f_gap f ++ f_tg f ++ ["["%char] ++ f_cpu f ++ ["]"%char] ++
     b_mid b ++ b_gap b ++ b_ts b ++ [":"%char] ++ b_gap2 b ++ ("tls_" ++ b_name b) ++ [])
    by (unfold front_text, back_text; repeat (rewrite ?app_nil_r, <- ?app_assoc; cbn [app]); reflexivity).
  eexists. unfold trace_re. cbn [seqs]. rtext_build. 1: apply H3. rtext_build. apply star_set_rtext. apply Forall_forall. done.
Qed.

(** ** The match is determined *)

Lemma tg_unique gap tg gap' tg' r r' : all is_space gap -> all is_space gap' -> tgid_ok tg -> tgid_ok tg' ->
  gap ++ tg ++ "["%char :: r = gap' ++ tg' ++ "["%char :: r' -> r = r'.
Proof.
  intros Hg Hg' [->|(g&sp&->&Hn&Hna&Hs&Hsa)] [->|(g'&sp'&->&Hn'&Hna'&Hs'&Hsa')] E; cbn [app] in E;
    rewrite <- ?app_assoc in E; cbn [app] in E; apply (span_inj is_space) in E as (_&E1&E2); try done.
  destruct sp as [|s0 sp]; [done|]. destruct sp' as [|s0' sp']; [done|].
  apply Forall_cons in Hsa as [Hs0 Hsa]. apply Forall_cons in Hsa' as [Hs0' Hsa'].
  assert (Et : (g ++ [")"%char]) ++ s0 :: sp ++ "["%char :: r = (g' ++ [")"%char]) ++ s0' :: sp' ++ "["%char :: r')
    by (rewrite <- !app_assoc; exact E2).
  clear E2. rename Et into E2.
  apply (span_inj nonspace) in E2 as (_&_&E2); try (apply Forall_app; split; [done|by constructor]); try by apply space_nonspace.
  by apply (span_inj is_space) in E2 as (_&_&->).
Qed.

Lemma front_unique f f' r r' : front_ok f -> front_ok f' ->
  front_text f ++ "]"%char :: r = front_text f' ++ "]"%char :: r' -> f_comm f = f_comm f' /\ f_pid f = f_pid f' /\ r = r'.
Proof.
  destruct f as [pad comm pid gap tg cpu], f' as [pad' comm' pid' gap' tg' cpu']. unfold front_text, front_ok.
  cbn [f_pad f_comm f_pid f_gap f_tg f_cpu].
  intros (Hpad&[Hc Hca]&[Hp Hpa]&[Hg Hga]&Htg&[Hu Hua]) (Hpad'&[Hc' Hca']&[Hp' Hpa']&[Hg' Hga']&Htg'&[Hu' Hua']) E.
  repeat (rewrite <- app_assoc in E; cbn [app] in E).
  destruct comm as [|c0 comm]; [done|]. destruct comm' as [|c0' comm']; [done|]. cbn [app] in E.
  apply (span_inj is_space) in E as (_&E0&E); [|done|done|apply nonspace_space..]; [|by inv Hca|by inv Hca'].
  destruct gap as [|g0 gap]; [done|]. destruct gap' as [|g0' gap']; [done|]. cbn [app] in E.
  assert (Et : (c0 :: comm ++ "-"%char :: pid) ++ g0 :: gap ++ tg ++ "["%char :: cpu ++ "]"%char :: r =
               (c0' :: comm' ++ "-"%char :: pid') ++ g0' :: gap' ++ tg' ++ "["%char :: cpu' ++ "]"%char :: r').
  { cbn [app]. repeat (rewrite <- app_assoc; cbn [app]). by rewrite E0, E. }
  assert (Hd : forall l, all is_digit l -> all nonspace l).
  { intros l Hl. eapply Forall_impl; [exact Hl|]. intros x Hx. unfold nonspace. by rewrite is_digit_not_space. }
  apply (span_inj nonspace) in Et as (Et&Eg0&Eg).
  - change (c0 :: comm ++ "-"%char :: pid) with ((c0 :: comm) ++ "-"%char :: pid) in Et.
    change (c0' :: comm' ++ "-"%char :: pid') with ((c0' :: comm') ++ "-"%char :: pid') in Et.
    apply (span_inj_end is_digit) in Et as (->&_&->); [|done..].
    split; [done|]. split; [done|]. inv Hga. inv Hga'. apply tg_unique in Eg; [|done..].
    by apply (span_inj is_digit) in Eg as (_&_&->).
  - change (c0 :: comm ++ "-"%char :: pid) with ((c0 :: comm) ++ "-"%char :: pid). apply Forall_app. split; [done|]. constructor; auto.
  - change (c0' :: comm' ++ "-"%char :: pid') with ((c0' :: comm') ++ "-"%char :: pid'). apply Forall_app. split; [done|]. constructor; auto.
  - inv Hga. by apply space_nonspace.
  - inv Hga'. by apply space_nonspace.
Qed.

(** No space is followed by the prefix of the names of the probes. *)
Fixpoint cleanb (s : bytes) : bool :=
  match s with [] => true | c :: s' => negb (is_space c && has_prefix "tls_" s') && cleanb s' end.
Definition clean (s : bytes) : Prop := forall a c y, s = a ++ c :: "tls_" ++ y -> is_space c = false.

Lemma cleanb_clean s : cleanb s = true -> clean s.
Proof.
  induction s as [|x s IH]; intros H [|a0 a] c y E; cbn [app] in E; try done; injection E as -> E; cbn [cleanb] in H;
    apply andb_true_iff in H as [H Hs]; [|by apply (IH Hs a c y)]. subst s. destruct (is_space c); [discriminate H|done].
Qed.

Lemma app_cons_split {A} (a : list A) c x a' c' x' : a ++ c :: x = a' ++ c' :: x' ->
  (a = a' /\ c = c' /\ x = x') \/ (exists m, a' = a ++ c :: m /\ x = m ++ c' :: x') \/
  (exists m, a = a' ++ c' :: m /\ x' = m ++ c :: x).
Proof.
  revert a'. induction a as [|h a IH]; intros [|h' a'] E; cbn in E; injection E as -> E; [by left|right; left; eauto|right; right; eauto|].
  destruct (IH a' E) as [(->&->&->)|[(m&->&->)|(m&->&->)]]; [by left|right; left; eauto|right; right; eauto].
Qed.

(** A word is before the next space. *)
Lemma word_before w q m c y : all nonspace w -> is_space c = true -> w ++ q = m ++ c :: y ->
  exists m2, m = w ++ m2 /\ q = m2 ++ c :: y.
Proof.
  intros Hw Hc. revert m. induction Hw as [|x w Hx Hw IH]; intros m E; cbn in E; [by exists m|].
  destruct m as [|z m]; cbn in E; injection E as -> E; [by apply nonspace_space in Hx; congruence|].
  destruct (IH m E) as (m2&->&->). by exists m2.
Qed.

Lemma tls_nonspace : all nonspace (bs "tls_").
Proof. apply Forall_true. reflexivity. Qed.

(** The only place where a probe is named. *)
Lemma tls_position a c x a' c' x' : clean (a ++ [c]) -> is_space c = true -> is_space c' = true ->
  (forall m y, x = m ++ c' :: "tls_" ++ y -> False) ->
  a ++ c :: "tls_" ++ x = a' ++ c' :: "tls_" ++ x' -> a = a' /\ c = c' /\ x = x'.
Proof.
  intros Ha Hc Hc' Hx E. apply app_cons_split in E as [(->&->&E)|[(m&->&E)|(m&->&E)]].
  - by apply app_inv_head in E.
  - exfalso. apply word_before in E as (m2&->&E); [|exact tls_nonspace|done]. by apply Hx in E.
  - exfalso. apply word_before in E as (m2&->&E); [|exact tls_nonspace|done].
    rewrite (Ha a' c' (m2 ++ [c])) in Hc'; [done|]. by rewrite <- !app_assoc.
Qed.

Lemma clean_app mid sp t : clean mid -> is_space sp = true -> "t"%char ∉ t -> clean (mid ++ sp :: t).
Proof.
  intros Hm Hsp Ht a c y E. change (c :: "tls_" ++ y) with ([c] ++ "tls_" ++ y) in E. rewrite app_assoc in E.
  apply app_eq_inv in E as [(k&->&E)|(k&E1&E)].
  - apply word_before in E as (m2&->&_); [|exact tls_nonspace|done]. apply (Hm a c m2). by rewrite <- app_assoc.
  - destruct k as [|x k]; cbn in E.
    + injection E as -> _. discriminate Hsp.
    + injection E as -> ->. exfalso. apply Ht. apply elem_of_app. right. by left.
Qed.

Definition back_head (b : back) : bytes := b_mid b ++ b_gap b ++ b_ts b ++ ":"%char :: b_gap2 b.

Lemma back_head_clean b : back_ok b -> clean (b_mid b) -> clean (back_head b).
Proof.
  intros ([Hg Hga]&[Ht Hta]&[H2 H2a]&_) Hc. unfold back_head. destruct (b_gap b) as [|sp gap]; [done|]. cbn [app].
  apply Forall_cons in Hga as [Hsp Hga]. apply clean_app; [done|done|].
  rewrite !not_elem_of_app, not_elem_of_cons. split_and!; [| |done|]; intros Hin.
  - rewrite Forall_forall in Hga. by specialize (Hga _ Hin).
  - rewrite Forall_forall in Hta. by specialize (Hta _ Hin).
  - rewrite Forall_forall in H2a. by specialize (H2a _ Hin).
Qed.

Lemma back_head_end b : back_ok b -> exists a c, back_head b = a ++ [c] /\ is_space c = true /\
  exists g, b_gap2 b = g ++ [c] /\ a = b_mid b ++ b_gap b ++ b_ts b ++ ":"%char :: g.
Proof.
  intros (_&_&[H2 H2a]&_). destruct (b_gap2 b) as [|c g _] eqn:E using rev_ind; [done|]. apply Forall_app in H2a as [_ H2a]. inv H2a.
  eexists _, c. split; [|split; [done|by exists g]]. unfold back_head. rewrite E. by rewrite <- !app_assoc.
Qed.

Lemma back_unique b b' q q' : back_ok b -> back_ok b' -> clean (b_mid b) -> clean q ->
  match q with x :: _ => word_char x = false | [] => True end ->
  back_text b ++ q = back_text b' ++ q' ->
  b_ts b = b_ts b' /\ (length (b_name b') <= length (b_name b))%nat /\ b_name b ++ q = b_name b' ++ q'.
Proof.
  intros Hb Hb' Hm Hq Hqw E.
  assert (E' : back_head b ++ "tls_" ++ b_name b ++ q = back_head b' ++ "tls_" ++ b_name b' ++ q').
  { unfold back_text, back_head in *. cbn [app] in E. injection E as E. repeat (rewrite <- app_assoc in *; cbn [app] in *). exact E. }
  destruct (back_head_end b Hb) as (a&c&Ha&Hc&g&Hg&Hag), (back_head_end b' Hb') as (a'&c'&Ha'&Hc'&g'&Hg'&Hag').
  pose proof (back_head_clean b Hb Hm) as Hcl. rewrite Ha in Hcl. rewrite Ha, Ha', <- !app_assoc in E'. cbn [app] in E'.
  apply tls_position in E' as (Eaa&->&En); [|done..|].
  - split; [|split; [|done]].
    + assert (Hh : back_head b = back_head b') by (by rewrite Ha, Ha', Eaa).
      destruct Hb as ([Hga Hgas]&[Ht Hta]&[H2 H2a]&_), Hb' as ([Hga' Hgas']&[Ht' Hta']&[H2' H2a']&_).
      unfold back_head in Hh.
      destruct (b_gap b) as [|sp gap _] eqn:E1 using rev_ind; [done|]. destruct (b_gap b') as [|sp' gap' _] eqn:E2 using rev_ind; [done|].
      apply Forall_app in Hgas as [_ Hsp]. apply Forall_app in Hgas' as [_ Hsp']. inv Hsp. inv Hsp'.
      rewrite !(app_assoc _ _ (_ :: _)) in Hh. apply (span_inj_end is_space) in Hh as (_&_&Hh); [|done..].
      rewrite <- !app_assoc in Hh. cbn [app] in Hh. rewrite !(app_assoc (b_mid _)) in Hh.
      apply (span_inj_end dot_digit) in Hh as (Hh&_&_); [done|done|done|..].
      all: apply not_true_iff_false; intros Hd%dot_digit_nonspace; congruence.
    + symmetry in En. apply (span_max word_char) in En; [apply En|apply Hb'|done].
  - intros m y Ew. destruct Hb as (_&_&_&[_ Hn]).
    apply word_before in Ew as (m2&_&->); [|eapply Forall_impl; [exact Hn|]; intros x Hx; unfold nonspace; by rewrite word_nonspace|done].
    rewrite (Hq m2 c' y) in Hc'; done.
Qed.

Lemma trace_regexec f b q : front_ok f -> back_ok b -> clean (b_mid b) -> clean q ->
  match q with x :: _ => word_char x = false | [] => True end ->
  let s := front_text f ++ back_text b ++ q in
  exists i j c, regexec trace_re s = Some (i, j, c) /\ group_text s 1 c = Some (f_comm f) /\
    group_text s 2 c = Some (f_pid f) /\ group_text s 4 c = Some (b_ts b) /\ group_text s 5 c = Some ("tls_" ++ b_name b).
Proof.
  intros Hf Hb Hm Hq Hqw s.
  assert (Hu : forall p' w' q' t', s = p' ++ w' ++ q' -> rtext trace_re p' w' q' t' -> p' = [] /\
    exists b', text_of 1 t' = Some (f_comm f) /\ text_of 2 t' = Some (f_pid f) /\ text_of 4 t' = Some (b_ts b) /\
      text_of 5 t' = Some ("tls_" ++ b_name b') /\ (length (b_name b') <= length (b_name b))%nat /\ b_name b ++ q = b_name b' ++ q').
  { intros p' w' q' t' E H. apply trace_re_inv in H as (f'&b'&->&->&Hf'&Hb'&H1&H2&H4&H5). split; [done|]. exists b'.
    unfold s in E. cbn [app] in E. rewrite <- app_assoc in E.
    assert (E0 : exists r, back_text b ++ q = "]"%char :: r) by (eexists; reflexivity).
    assert (E1 : exists r, back_text b' ++ q' = "]"%char :: r) by (eexists; reflexivity).
    destruct E0 as [r0 E0], E1 as [r1 E1]. rewrite E0, E1 in E. apply front_unique in E as (Hc&Hp&->); [|done..].
    rewrite <- E1 in E0. destruct (back_unique b b' q q') as (Ht&Hl&Hn); [done..|].
    rewrite Hc, Hp, Ht. done. }
  destruct (trace_re_match f b q Hf Hb) as [t Ht].
  destruct (regexec_text trace_re [] (front_text f ++ back_text b) q t Ht) as (c&t'&Hr&Ht'&Hg).
  - intros p' w' q' t' E H. cbn [app] in E. rewrite <- app_assoc in E. fold s in E.
    destruct (Hu _ _ _ _ E H) as (->&b'&_&_&_&_&Hl&Hn). split; [done|]. intros _.
    apply (f_equal length) in E, Hn. unfold s in E. rewrite !length_app in *. cbn [length] in *. lia.
  - cbn [app] in Hr, Hg. rewrite <- app_assoc in Hr, Hg. fold s in Hr, Hg.
    destruct (Hu [] (front_text f ++ back_text b) q t') as (_&b'&H1&H2&H4&H5&_&Hn); [unfold s; by rewrite <- app_assoc|done|].
    apply app_inv_tail in Hn. eexists _, _, c. split; [exact Hr|]. by rewrite !Hg, Hn.
Qed.

(** * Server names *)

Definition quote : byte := chr 34.
Definition sni_key (k : bytes) : Prop := k = bs "arg1" \/ k = bs "sni".

Lemma sni_re_inv p w q t : rtext sni_re p w q t -> exists k h, sni_key k /\ quote ∉ h /\
  w = k ++ "="%char :: quote :: h ++ [quote] /\ text_of 2 t = Some h.
Proof.
  intros H. unfold sni_re in H. rtext_inv.
  match goal with H : rtext (Alt _ _) _ ?k _ _, Hf : Forall _ ?h |- _ => exists k, h; assert (Hk : sni_key k /\ x = []) end.
  { unfold sni_key. match goal with H : rtext (Alt _ _) _ _ _ _ |- _ => apply rtext_alt in H as [H|H]; apply rtext_lits in H as [-> ->] end; auto. }
  destruct Hk as [Hk ->]. split_and!; [done| | |done].
  - intros Hin. match goal with Hf : Forall _ _ |- _ => rewrite Forall_forall in Hf; specialize (Hf _ Hin); discriminate Hf end.
  - done.
Qed.

Lemma sni_none s : quote ∉ s -> regexec sni_re s = None.
Proof.
  intros H. apply regexec_none. intros p w q t -> Hr. apply sni_re_inv in Hr as (k&h&_&_&->&_). apply H.
  rewrite !elem_of_app. right. left. right. right. by left.
Qed.

Lemma sni_regexec p k h post : quote ∉ p -> quote ∉ h -> sni_key k ->
  let s := p ++ (k ++ "="%char :: quote :: h ++ [quote]) ++ post in
  exists i j c, regexec sni_re s = Some (i, j, c) /\ group_text s 2 c = Some h.
Proof.
  intros Hp Hh Hk s.
  assert (Hm : exists t, rtext sni_re p (k ++ "="%char :: quote :: h ++ [quote]) post t).
  { replace (k ++ "="%char :: quote :: h ++ [quote]) with (k ++ ["="%char] ++ [quote] ++ h ++ [quote] ++ []) by done.
    eexists. unfold sni_re. cbn [seqs]. eapply TSeq; [apply TGroup; destruct Hk as [-> | ->]; [apply TAltL|apply TAltR]; apply lits_rtext|].
    rtext_build. apply star_set_rtext. apply Forall_forall. intros x Hx. apply negb_true_iff, eqc_false. by intros ->. }
  destruct Hm as [t Ht].
  assert (Hu : forall p' w' q' t', s = p' ++ w' ++ q' -> rtext sni_re p' w' q' t' ->
    (length p <= length p')%nat /\ (length p' = length p -> exists h', text_of 2 t' = Some h' /\ h' = h /\ length w' = length (k ++ "="%char :: quote :: h ++ [quote]))).
  { intros p' w' q' t' E H. apply sni_re_inv in H as (k'&h'&Hk'&Hh'&->&Ht').
    assert (Hq : forall k0, sni_key k0 -> quote ∉ k0) by (intros k0 [-> | ->]; apply strchr_None; reflexivity).
    assert (E' : (p ++ k ++ ["="%char]) ++ quote :: h ++ quote :: post = (p' ++ k' ++ ["="%char]) ++ quote :: h' ++ quote :: q').
    { unfold s in E. repeat (rewrite <- app_assoc in *; cbn [app] in *). exact E. }
    assert (Hlen : (length k = 3 \/ length k = 4)%nat) by (destruct Hk as [-> | ->]; cbn; lia).
    assert (Hlen' : (length k' = 3 \/ length k' = 4)%nat) by (destruct Hk' as [-> | ->]; cbn; lia).
    apply app_cons_split in E' as [(E1&_&E2)|[(m&E1&E2)|(m&E1&E2)]].
    - rewrite !app_assoc in E1. apply app_inj_tail in E1 as [E1 _].
      assert (Hkk : k = k' /\ p = p').
      { destruct Hk as [-> | ->], Hk' as [-> | ->]; [by apply app_inv_tail in E1|exfalso|exfalso|by apply app_inv_tail in E1];
          apply (f_equal last) in E1; rewrite !last_app in E1; discriminate E1. }
      destruct Hkk as [<- <-]. split; [done|]. intros _. exists h'. split; [done|].
      assert (h = h') as <-; [|done].
      apply (span_inj (fun x => negb (eqc x quote))) in E2 as (E2&_&_); [done| | |done|done];
        apply Forall_forall; intros x Hx; apply negb_true_iff, eqc_false; by intros ->.
    - split; [apply (f_equal length) in E1; rewrite !length_app in E1; cbn [length] in E1; lia|]. intros Hl. exfalso.
      rewrite <- app_assoc in E1. apply app_inj_1 in E1 as [_ E1]; [|done].
      assert (Hin : quote ∈ k' ++ ["="%char]) by (rewrite E1; apply elem_of_app; right; by left).
      apply elem_of_app in Hin as [Hin|Hin]; [by apply Hq in Hin|]. apply list_elem_of_singleton in Hin. discriminate Hin.
    - exfalso. assert (Hin : quote ∈ p ++ k ++ ["="%char]) by (rewrite E1; apply elem_of_app; right; by left).
      rewrite !elem_of_app in Hin. destruct Hin as [Hin|[Hin|Hin]]; [done|by apply Hq in Hin|].
      apply list_elem_of_singleton in Hin. discriminate Hin. }
  destruct (regexec_text sni_re p _ post t Ht) as (c&t'&Hr&Ht'&Hg).
  - intros p' w' q' t' E H. destruct (Hu p' w' q' t' E H) as [Hl Hw]. split; [done|]. intros Hl'. destruct (Hw Hl') as (?&_&_&->). done.
  - fold s in Hr, Hg. eexists _, _, c. split; [exact Hr|]. rewrite Hg.
    destruct (Hu p _ post t' eq_refl Ht') as [_ Hw]. destruct (Hw eq_refl) as (h'&->&->&_). done.
Qed.

(** * Trace lines *)

(** The hit of a probe, as the kernel prints it. *)
Record hit := Hit_ {
  h_pad : bytes; h_comm : bytes; h_pid : Z; h_gap : bytes; h_tgid : bytes; h_cpu : bytes; h_flags : bytes; h_gap2 : bytes;
  h_ts : bytes; h_probe : probe_target; h_args : bytes; h_str : option (bytes * bytes * bytes);   (* key, string, rest *)
}.
Definition args_text (h : hit) : bytes :=
  h_args h ++ match h_str h with Some (k, s, post) => (k ++ "="%char :: quote :: s ++ [quote]) ++ post | None => [] end.
Definition hit_line (h : hit) : bytes :=
  h_pad h ++ h_comm h ++ "-" ++ fmt_d (h_pid h) ++ h_gap h ++ h_tgid h ++ "[" ++ h_cpu h ++ "]" ++ h_flags h ++ h_gap2 h ++
  h_ts h ++ ": " ++ probe_name (h_probe h) ++ ": " ++ args_text h.
Definition hit_ok (h : hit) : Prop :=
  all is_space (h_pad h) /\ (h_comm h <> [] /\ all nonspace (h_comm h)) /\ 0 <= h_pid h < 2 ^ 31 /\
  (h_gap h <> [] /\ all is_space (h_gap h)) /\ tgid_ok (h_tgid h) /\ (h_cpu h <> [] /\ all is_digit (h_cpu h)) /\
  clean (h_flags h) /\ (h_gap2 h <> [] /\ all is_space (h_gap2 h)) /\ (h_ts h <> [] /\ all dot_digit (h_ts h)) /\
  h_probe h ∈ probe_targets /\ clean (": " ++ args_text h) /\
  (* the only quotes are those of the string *)
  quote ∉ h_pad h ++ h_comm h ++ h_gap h ++ h_tgid h ++ h_flags h ++ h_gap2 h ++ h_args h /\
  match h_str h with Some (k, s, _) => sni_key k /\ quote ∉ s | None => True end.

Definition hit_front (h : hit) : front := Front (h_pad h) (h_comm h) (fmt_d (h_pid h)) (h_gap h) (h_tgid h) (h_cpu h).
Definition hit_back (h : hit) : back := Back (h_flags h) (h_gap2 h) (h_ts h) [" "%char] (drop 4 (probe_name (h_probe h))).

Lemma hit_line_split h : h_probe h ∈ probe_targets ->
  hit_line h = front_text (hit_front h) ++ back_text (hit_back h) ++ ": " ++ args_text h.
Proof.
  intros Hp. assert (E : probe_name (h_probe h) = "tls_" ++ drop 4 (probe_name (h_probe h))).
  { unfold probe_targets in Hp. rewrite !elem_of_cons, elem_of_nil in Hp.
    destruct Hp as [->|[->|[->|[->|[->|[->|[->|[]]]]]]]]; reflexivity. }
  unfold hit_line, front_text, back_text, hit_front, hit_back.
  cbn [f_pad f_comm f_pid f_gap f_tg f_cpu b_mid b_gap b_ts b_gap2 b_name]. rewrite E at 1.
  change (bs "-") with ["-"%char]. change (bs "[") with ["["%char]. change (bs "]") with ["]"%char].
  change (bs ": ") with [":"%char; " "%char].
  repeat (rewrite <- app_assoc; cbn [app]). reflexivity.
Qed.

(** The probes are read back from their names, in full. *)
Lemma probe_fields t : t ∈ probe_targets -> trunc 64 (probe_name t) = probe_name t /\ dir_of (probe_name t) = pt_dir t /\
  (drop 4 (probe_name t) <> [] /\ all word_char (drop 4 (probe_name t))) /\ "tls_" ++ drop 4 (probe_name t) = probe_name t.
Proof.
  unfold probe_targets. rewrite !elem_of_cons, elem_of_nil. intros Hp.
  destruct Hp as [->|[->|[->|[->|[->|[->|[->|[]]]]]]]]; (split; [reflexivity|]; split; [reflexivity|]; split; [|reflexivity]);
    (split; [discriminate|apply Forall_true; reflexivity]).
Qed.

Lemma fmt_d_digits v : 0 <= v -> fmt_d v <> [] /\ all is_digit (fmt_d v).
Proof.
  intros Hv. split; [destruct (fmt_d_cons v) as (c&r&->&_); done|].
  unfold fmt_d. rewrite (proj2 (Z.ltb_ge _ _)) by done. by apply fmt_u_digits.
Qed.

Lemma atoi_fmt v : 0 <= v < 2 ^ 31 -> atoi (trunc 32 (fmt_d v)) = v.
Proof.
  intros Hv. rewrite trunc_fits by (pose proof (fmt_d_length 10 v ltac:(lia) ltac:(lia)); lia).
  unfold atoi. rewrite <- (app_nil_r (fmt_d v)), strtol_fmt_d by (done || unfold LONG_MIN, LONG_MAX; lia).
  apply (swrap_small 32); lia.
Qed.

Lemma hit_sni h : hit_ok h ->
  ('(_, _, sm) ← regexec sni_re (hit_line h); group_text (hit_line h) 2 sm) =
  match h_str h with Some (_, s, _) => Some s | None => None end.
Proof.
  intros (_&_&Hpid&_&_&[_ Hcpu]&_&_&[_ Hts]&Hp&_&Hq&Hs). rewrite !not_elem_of_app in Hq. destruct Hq as (Q1&Q2&Q3&Q4&Q5&Q6&Q7).
  assert (Hn : forall l : bytes, l <> [] -> all (fun x => negb (eqc x quote)) l -> quote ∉ l).
  { intros l _ Hl Hin. rewrite Forall_forall in Hl. specialize (Hl _ Hin). discriminate Hl. }
  set (pre := h_pad h ++ h_comm h ++ "-" ++ fmt_d (h_pid h) ++ h_gap h ++ h_tgid h ++ "[" ++ h_cpu h ++ "]" ++ h_flags h ++ h_gap2 h ++
    h_ts h ++ ": " ++ probe_name (h_probe h) ++ ": " ++ h_args h).
  assert (Hpre : quote ∉ pre).
  { unfold pre. rewrite !not_elem_of_app. split_and!; try done; try (apply strchr_None; reflexivity).
    - by apply fmt_d_not_in.
    - intros Hin. rewrite Forall_forall in Hcpu. by specialize (Hcpu _ Hin).
    - intros Hin. rewrite Forall_forall in Hts. by specialize (Hts _ Hin).
    - unfold probe_targets in Hp. rewrite !elem_of_cons, elem_of_nil in Hp.
      destruct Hp as [->|[->|[->|[->|[->|[->|[->|[]]]]]]]]; apply strchr_None; reflexivity. }
  assert (El : hit_line h = pre ++ match h_str h with Some (k, s, post) => (k ++ "="%char :: quote :: s ++ [quote]) ++ post | None => [] end).
  { unfold hit_line, args_text, pre. repeat rewrite <- app_assoc. reflexivity. }
  rewrite El. destruct (h_str h) as [[[k s] post]|].
  - destruct Hs as [Hk Hs]. destruct (sni_regexec pre k s post Hpre Hs Hk) as (i&j&c&->&Hg). cbn [mbind option_bind]. by rewrite Hg.
  - by rewrite app_nil_r, sni_none.
Qed.

(** A line of the trace pipe is read as the kernel wrote it. *)
Definition hit_event (h : hit) : tls_event :=
  TlsEvent (trunc 256 (h_comm h)) (h_pid h) (strtod (trunc 32 (h_ts h))) (probe_name (h_probe h)) (pt_dir (h_probe h))
    (if eqs (pt_dir (h_probe h)) "sni" then match h_str h with Some (_, s, _) => trunc 256 s | None => [] end else []).
Lemma parse_hit h : hit_ok h -> parse_line (hit_line h) = Some (hit_event h).
Proof.
  intros Hok. pose proof (hit_sni h Hok) as Hsni. destruct Hok as (Hpad&Hcomm&Hpid&Hgap&Htg&Hcpu&Hfl&Hgap2&Hts&Hp&Hcl&_).
  destruct (probe_fields _ Hp) as (Htr&Hdir&Hname&Hfull).
  destruct (trace_regexec (hit_front h) (hit_back h) (": " ++ args_text h)) as (i&j&c&Hr&G1&G2&G4&G5); try done.
  { unfold front_ok, hit_front. cbn [f_pad f_comm f_pid f_gap f_tg f_cpu]. split_and!; try apply fmt_d_digits; try apply Hcomm; try apply Hgap; try apply Hcpu; done || lia. }
  { unfold back_ok, hit_back. cbn [b_mid b_gap b_ts b_gap2 b_name]. split_and!; try apply Hgap2; try apply Hts; try apply Hname; try done. by constructor. }
  rewrite <- hit_line_split in Hr, G1, G2, G4, G5 by done. unfold parse_line. rewrite Hsni, Hr. cbn [mbind option_bind].
  rewrite G1, G2, G4, G5. cbn [mbind option_bind hit_front hit_back f_comm f_pid b_ts b_name].
  rewrite Hfull, Htr, Hdir, atoi_fmt by done. unfold hit_event. f_equal. f_equal. destruct (eqs (pt_dir (h_probe h)) "sni"); [|done].
  by destruct (h_str h) as [[[? ?] ?]|].
Qed.

Definition demo_hit : hit :=
  Hit_ (replicate 12 " "%char) "curl-x" 4242 "    " "" "003" " d..2. " " " "12345.678901"
    (Target_ "SSL_ctrl" false "sni" "cmd=%si:u64 sni=+0(%cx):string" "cmd==55") "(0x7f2a41) cmd=0x37 "
    (Some (bs "sni", bs "example.org", [])).

Lemma demo_hit_ok : hit_ok demo_hit.
Proof.
  unfold hit_ok.
  split_and!; try (apply Forall_true; reflexivity); try (apply cleanb_clean; reflexivity); try (apply strchr_None; reflexivity);
    try discriminate.
  - vm_compute. reflexivity.
  - by left.
  - unfold probe_targets. rewrite !elem_of_cons. cbn [h_probe demo_hit]. do 6 right. by left.
  - split; [by right|apply strchr_None; reflexivity].
Qed.

(** * The pipe *)

(** A command with a blank in its name: the first word of the line has no
    hyphen, and the expression does not match. *)
Definition spaced_ok (pad word : bytes) : Prop := all is_space pad /\ (word <> [] /\ all nonspace word) /\ "-"%char ∉ word.
Lemma trace_re_spaced pad word rest : spaced_ok pad word -> regexec trace_re (pad ++ word ++ " "%char :: rest) = None.
Proof.
  intros (Hp&[Hne Hw]&Hn). apply regexec_none. intros p w q t E H.
  apply trace_re_inv in H as (f&b&->&->&(Hpad&[Hne' Hcomm]&_)&_). cbn [app] in E. unfold front_text in E.
  repeat (rewrite <- app_assoc in E; cbn [app] in E).
  match type of E with _ = _ ++ _ ++ "-"%char :: ?m => set (more := m) in *; clearbody more end.
  destruct word as [|x word]; [done|]. destruct (f_comm f) as [|y comm]; [done|]. cbn [app] in E.
  pose proof Hw as [Hx _]%Forall_cons. pose proof Hcomm as [Hy _]%Forall_cons.
  apply (span_inj is_space) in E as (_&->&E); [|exact Hp|exact Hpad|by apply nonspace_space..].
  assert (Ec : (y :: comm ++ ["-"%char]) ++ more = (y :: word) ++ " "%char :: rest) by (cbn [app]; rewrite E; f_equal; by rewrite <- app_assoc).
  pose proof Ec as Ec'. apply (span_max nonspace) in Ec' as [Hl _]; [|constructor; [done|]; apply Forall_app; split; [by inv Hcomm|repeat constructor]|done].
  apply Hn. apply (f_equal (take (length (y :: comm ++ ["-"%char])))) in Ec. rewrite take_app_length, take_app_le in Ec by done.
  assert (Hin : "-"%char ∈ y :: comm ++ ["-"%char]) by (right; apply elem_of_app; right; by left).
  rewrite Ec in Hin. rewrite <- (take_drop (length (y :: comm ++ ["-"%char])) (y :: word)). apply elem_of_app. by left.
Qed.
(** A line without a blank before "tls_" is none of the tracer's. *)
Lemma trace_re_clean l : clean l -> regexec trace_re l = None.
Proof.
  intros Hl. apply regexec_none. intros p w q t E H.
  apply trace_re_inv in H as (f&b&->&->&_&(_&_&[Hne Hg2]&_)&_). unfold back_text in E. cbn [app] in E.
  destruct (exists_last Hne) as (g&sp&Eg). rewrite Eg in E, Hg2. apply Forall_app in Hg2 as [_ [Hsp _]%Forall_cons].
  enough (is_space sp = false) by congruence.
  apply (Hl (front_text f ++ "]"%char :: b_mid b ++ b_gap b ++ b_ts b ++ ":"%char :: g) sp (b_name b ++ q)).
  rewrite E. repeat (rewrite <- app_assoc; cbn [app]). done.
Qed.
Lemma parse_no_match l : regexec trace_re l = None -> parse_line l = None.
Proof. intros H. unfold parse_line. by rewrite H. Qed.

(** A line of the pipe: the hit of a probe by a command without a blank; by a
    command with one; or another line, in which no blank is before "tls_". *)
Inductive pipe_line := PHit (h : hit) | PSpaced (pad word rest : bytes) | POther (l : bytes).
Definition line_text (p : pipe_line) : bytes :=
  match p with PHit h => hit_line h | PSpaced pad word rest => pad ++ word ++ " "%char :: rest | POther l => l end.
Definition line_ok (p : pipe_line) : Prop :=
  NUL ∉ line_text p /\
  match p with PHit h => hit_ok h | PSpaced pad word _ => spaced_ok pad word | POther l => clean l end.
Definition line_event (p : pipe_line) : option tls_event := match p with PHit h => Some (hit_event h) | _ => None end.

Lemma chomp_line l : chomp (l ++ ["010"%char]) = l.
Proof. unfold chomp. rewrite last_snoc, length_app. cbn [length]. rewrite Nat.add_sub. apply take_app_length. Qed.

Definition no_os : os := Os (fun _ => None) (fun _ => LinkFails) (fun _ => None) (fun _ => None) (fun _ => None).

(** C7. The trace pipe is read as the kernel wrote it, within the limits of the
    expressions that read it: for every sequence of hits of the probes that the
    tracer registers, among other lines, the loop does with the lines what the
    event handler does with the hits, in order: the command, the process, the
    time, the probe and its direction, and for a probe of the server name the
    string among its arguments. The limits: the name of the command has no
    blank (the hits of one that has, and no hyphen before it, are lost), no
    quotes are in the line but those of the string, and neither the arguments
    nor the string have a blank before "tls_" (with one, the line can be read
    as another event). The other lines have no blank before "tls_". *)
Theorem trace_loop_reads o resolve no_rev color localtime watch ps s :
  Forall line_ok ps ->
  trace_loop o resolve no_rev color localtime watch ((fun p => line_text p ++ ["010"%char]) <$> ps) s =
  on_events o resolve no_rev color localtime watch (omap line_event ps) s.
Proof.
  intros Hp. revert s. induction Hp as [|p ps [Hn Hp] _ IH]; intros s; [done|]. rewrite fmap_cons. cbn [trace_loop].
  unfold on_line. rewrite chomp_line, cstr_id by done.
  destruct p as [h|pad word rest|l]; cbn [line_text line_event omap list_omap] in *.
  - rewrite parse_hit by done. cbn [on_events]. by destruct (on_event _ _ _ _ _ _ _ _); cbn; [apply IH|..].
  - rewrite parse_no_match, ok_bind by (by apply trace_re_spaced). apply IH.
  - rewrite parse_no_match, ok_bind by (by apply trace_re_clean). apply IH.
Qed.

Definition demo_pipe : list pipe_line :=
  [POther "# tracer: nop"; PSpaced (replicate 5 " "%char) "Web" "Content-4242  [003] d..2. 12345.678901: tls_write_SSL_write: (0x7f2a41)"; PHit demo_hit].
Lemma trace_loop_reads_witness :
  trace_loop no_os (fun _ => None) true false (fun _ => (0, 0, 0)) []
    ((fun p => line_text p ++ ["010"%char]) <$> demo_pipe) (TState sni_empty pt_empty 0 []) =
  on_events no_os (fun _ => None) true false (fun _ => (0, 0, 0)) [] (omap line_event demo_pipe) (TState sni_empty pt_empty 0 []).
Proof.
  apply (trace_loop_reads no_os (fun _ => None) true false (fun _ => (0, 0, 0)) [] demo_pipe).
  apply Forall_cons. split; [split; [apply strchr_None; reflexivity|by apply cleanb_clean]|].
  apply Forall_cons. split.
  { split; [apply strchr_None; vm_compute; reflexivity|]. split; [apply Forall_true; reflexivity|].
    split; [split; [discriminate|apply Forall_true; reflexivity]|apply strchr_None; reflexivity]. }
  apply Forall_cons. split; [split; [apply strchr_None; vm_compute; reflexivity|exact demo_hit_ok]|apply Forall_nil_2].
Defined.

(** C40. A hit of a command with a blank in its name is lost: a line whose
    first word has no hyphen is not read, whatever follows. *)
Theorem parse_line_spaced pad word rest :
  all is_space pad -> word <> [] -> all nonspace word -> "-"%char ∉ word -> parse_line (pad ++ word ++ " "%char :: rest) = None.
Proof. intros. apply parse_no_match. by apply trace_re_spaced. Qed.
Lemma parse_line_spaced_witness :
  parse_line (replicate 5 " "%char ++ bs "Web" ++ " "%char :: bs "Content-4242    [003] d..2. 12345.678901: tls_write_SSL_write: (0x7f2a41)") = None.
Proof.
  apply (parse_line_spaced (replicate 5 " "%char) "Web"); [apply Forall_true; reflexivity|discriminate|apply Forall_true; reflexivity|].
  apply strchr_None. reflexivity.
Defined.

(** A traced process that passes the right string for a name chooses the time
    and the probe of the event. *)
Example parse_line_forged :
  (fun ev => (ev_probe ev, ev_dir ev)) <$>
    parse_line ("curl-4242 [003] d..2. 12345.678901: tls_sni_SSL_ctrl: (0x7f2a41) cmd=0x37 sni=" ++ [quote] ++ "a 1: tls_write_x" ++ [quote]) =
  Some (bs "tls_write_x", bs "write").
Proof. vm_compute. reflexivity. Qed.

(** * Symbol tables *)

(** A line of [nm -D]: the address, the type, the name with its version. *)
Record nm_row := NmRow { r_addr : Z; r_ty : byte; r_name : bytes }.
Definition row_text (r : nm_row) : bytes := fmt_0x 16 (r_addr r) ++ " "%char :: r_ty r :: " "%char :: r_name r.
Definition nm_text (rows : list nm_row) : bytes := mjoin ((fun r => row_text r ++ ["010"%char]) <$> rows).
Definition row_ok (r : nm_row) : Prop :=
  0 <= r_addr r < 2 ^ 64 /\ (nonspace (r_ty r) = true /\ r_ty r <> NUL /\ r_ty r <> "*"%char) /\
  (r_name r <> [] /\ all nonspace (r_name r)) /\ NUL ∉ r_name r /\ "*"%char ∉ r_name r /\ (length (r_name r) <= 1000)%nat.
(** The row is that of the symbol: its name ends there, or goes on with a
    character that no name has. *)
Definition names (sym : bytes) (r : nm_row) : bool :=
  has_prefix sym (r_name r) && match drop (length sym) (r_name r) with [] => true | c :: _ => nonword c end.
Definition row_off (sym : bytes) (r : nm_row) : option Z :=
  if names sym r && negb (r_addr r =? 0) then Some (r_addr r) else None.

Definition edge (e q : bytes) : Prop := (e = [] /\ q = []) \/ exists c, e = [c] /\ nonword c = true.

Lemma pat1_inv sym p w q t : rtext (pat1 sym) p w q t -> exists h s1 g tok s2 e,
  p = [] /\ w = h ++ s1 ++ g ++ tok ++ s2 ++ sym ++ e /\ (h <> [] /\ all hexdigit h) /\ (s1 <> [] /\ all is_space s1) /\
  (g = [] \/ exists h2 s', g = h2 ++ s' /\ (h2 <> [] /\ all hexdigit h2) /\ (s' <> [] /\ all is_space s')) /\
  (tok <> [] /\ all nonspace tok) /\ (s2 <> [] /\ all is_space s2) /\ edge e q /\ text_of 1 t = Some h.
Proof.
  intros H. unfold pat1 in H. rtext_inv.
  match goal with H : rtext (Opt _) _ ?g _ ?t |- _ =>
    assert (Hg : (g = [] \/ exists h2 s', g = h2 ++ s' /\ (h2 <> [] /\ all hexdigit h2) /\ (s' <> [] /\ all is_space s')) /\
      (t = [] \/ exists x, t = [(2%nat, x)])); [apply rtext_alt in H as [H|H]; rtext_inv|clear H] end.
  { split; [right; eexists _, _; split; [reflexivity|done]|]. right. cbn. eauto. }
  { split; by left. }
  match goal with H : rtext boundary _ ?e _ ?t |- _ => assert (He : edge e q /\ t = []); [apply rtext_alt in H as [H|H]; rtext_inv|clear H] end.
  { split; [right; eauto|done]. }
  { split; [by left|done]. }
  destruct Hg as [Hg Ht], He as [He ->]. cbn [app] in He.
  match goal with |- context [[] ++ ?h ++ ?s1 ++ ?g ++ ?tok ++ ?s2 ++ ?sy ++ ?e ++ []] => exists h, s1, g, tok, s2, e end.
  rewrite app_nil_r. split_and!; try done. destruct Ht as [->|[x ->]]; done.
Qed.

Lemma hexdigit_chr d : 0 <= d < 16 -> hexdigit (digit_chr d) = true.
Proof.
  intros Hd. assert (H : Forall (fun d => hexdigit (digit_chr d) = true) (seqZ 0 16)) by (repeat constructor).
  rewrite Forall_forall in H. apply H, elem_of_seqZ. lia.
Qed.

Lemma addr_hex v : 0 <= v < 2 ^ 64 -> fmt_0x 16 v <> [] /\ all hexdigit (fmt_0x 16 v) /\ length (fmt_0x 16 v) = 16%nat /\
  strtoul 16 (fmt_0x 16 v) = Strto v [] true false.
Proof.
  intros Hv. assert (Hl : length (fmt_0x 16 v) = 16%nat).
  { unfold fmt_0x, pad_left. rewrite length_app, length_replicate.
    pose proof (fmt_go_length 16 (S (Z.to_nat (Z.log2 v))) 16 v [] ltac:(lia) ltac:(lia) ltac:(lia)) as H. cbn [length] in H.
    unfold fmt_x, fmt_base. lia. }
  split; [by intros E; rewrite E in Hl|]. split; [|split; [done|]].
  - apply Forall_app_2; [by apply Forall_replicate|]. eapply Forall_impl; [apply fmt_x_hex; lia|]. intros c (d&Hd&->). by apply hexdigit_chr.
  - assert (E : hex_val (fmt_0x 16 v) 0 = v) by (unfold fmt_0x, pad_left; rewrite hex_val_zeros; apply fmt_x_val; lia).
    rewrite strtoul_hex; rewrite ?E; [done| | |lia].
    + intros E'. by rewrite E' in Hl.
    + apply Forall_app_2; [by apply Forall_replicate|]. eapply Forall_impl; [apply fmt_x_hex; lia|]. intros c (d&Hd&->).
      unfold is_hex. rewrite digit_val_chr; lia.
Qed.

(** A row matches the first pattern exactly when it names the symbol. *)
Lemma pat1_row sym r p w q t : row_ok r -> sym <> [] -> all word_char sym -> row_text r = p ++ w ++ q -> rtext (pat1 sym) p w q t ->
  p = [] /\ text_of 1 t = Some (fmt_0x 16 (r_addr r)) /\ exists e, r_name r = sym ++ e ++ q /\ edge e q.
Proof.
  intros (Ha&(Hty&_)&[Hn Hna]&_) Hs Hsw E H. destruct (addr_hex _ Ha) as (_&Hx&_).
  apply pat1_inv in H as (h&s1&g&tok&s2&e&->&->&[Hh Hha]&[H1 H1a]&Hg&[Htk Htka]&[H2 H2a]&He&Ht). split; [done|].
  unfold row_text in E. cbn [app] in E. rewrite <- !app_assoc in E.
  destruct s1 as [|c1 s1]; [done|]. apply Forall_cons in H1a as [Hc1 H1a]. cbn [app] in E.
  assert (Hsp : forall c, is_space c = true -> hexdigit c = false).
  { intros c Hc. unfold hexdigit, is_space, is_digit in *. apply not_true_iff_false. intros Hd.
    apply orb_true_iff in Hc, Hd. destruct Hc as [Hc|Hc], Hd as [Hd|Hd]; zbool; lia. }
  apply (span_inj hexdigit) in E as (<-&_&E); [|done|done|done|by apply Hsp]. split; [done|].
  assert (Hhd : exists x y, g ++ tok ++ s2 ++ sym ++ e ++ q = x :: y /\ is_space x = false).
  { destruct Hg as [->|(h2&s'&->&[Hh2 Hh2a]&_)].
    - destruct tok as [|x tok]; [done|]. inv Htka. eexists _, _. split; [reflexivity|by apply nonspace_space].
    - destruct h2 as [|x h2]; [done|]. inv Hh2a. eexists _, _. split; [reflexivity|]. apply not_true_iff_false. intros Hx'. apply Hsp in Hx'. congruence. }
  destruct Hhd as (x&y&Ey&Hx'). rewrite Ey in E. change (r_ty r :: ?z) with ([] ++ r_ty r :: z) in E.
  apply (span_inj is_space) in E as (_&<-&Ey2); [|constructor|done|by apply nonspace_space|done]. rewrite <- Ey2 in Ey. clear Ey2 y Hx'.
  assert (Hnosp : forall a c b, r_name r = a ++ c :: b -> is_space c = true -> False).
  { intros a c b En Hc. rewrite En in Hna. apply Forall_app in Hna as [_ Hna]. apply Forall_cons in Hna as [Hna _]. apply nonspace_space in Hna. congruence. }
  destruct s2 as [|c2 s2]; [done|]. apply Forall_cons in H2a as [Hc2 H2a].
  destruct Hg as [->|(h2&s'&->&[Hh2 Hh2a]&[Hs' Hsa'])].
  - cbn [app] in Ey. change (r_ty r :: " "%char :: ?z) with ([r_ty r] ++ " "%char :: z) in Ey.
    apply (span_inj nonspace) in Ey as (_&_&En); [|done|by constructor|by apply space_nonspace|done].
    destruct s2 as [|c3 s2]; [by exists e|]. exfalso. inv H2a. symmetry in En. by apply (Hnosp [] c3 _ En).
  - exfalso. destruct s' as [|c3 s']; [done|]. inv Hsa'. rewrite <- !app_assoc in Ey. cbn [app] in Ey.
    change (r_ty r :: " "%char :: ?z) with ([r_ty r] ++ " "%char :: z) in Ey.
    apply (span_inj nonspace) in Ey as (_&_&En); [| |by constructor|by apply space_nonspace|done].
    + apply (Hnosp (s' ++ tok) c2 (s2 ++ sym ++ e ++ q)); [|done]. rewrite <- app_assoc. done.
    + eapply Forall_impl; [exact Hh2a|]. intros z Hz. unfold nonspace. apply negb_true_iff, not_true_iff_false. intros Hz'. apply Hsp in Hz'. congruence.
Qed.

Lemma row_match sym r : row_ok r -> sym <> [] -> names sym r = true -> exists w q t, row_text r = w ++ q /\ rtext (pat1 sym) [] w q t.
Proof.
  intros (Ha&(Hty&_)&[Hn Hna]&_) Hs Hnm. destruct (addr_hex _ Ha) as (Hne&Hx&_).
  unfold names in Hnm. apply andb_true_iff in Hnm as [Hp He]. apply has_prefix_true in Hp.
  set (e := take 1 (drop (length sym) (r_name r))). set (q := drop 1 (drop (length sym) (r_name r))).
  assert (Hb : rtext boundary ((((((([] ++ []) ++ fmt_0x 16 (r_addr r)) ++ [" "%char]) ++ []) ++ [r_ty r]) ++ [" "%char]) ++ sym) e ([] ++ q) []).
  { unfold e, q. destruct (drop (length sym) (r_name r)) as [|c l]; [apply TAltR, TEol|apply TAltL; by apply TSet]. }
  exists ([] ++ fmt_0x 16 (r_addr r) ++ [" "%char] ++ [] ++ [r_ty r] ++ [" "%char] ++ sym ++ e ++ []), q.
  eexists. split.
  - unfold row_text. rewrite Hp at 1. cbn [app]. rewrite <- !app_assoc. cbn [app]. rewrite <- !app_assoc. cbn [app].
    unfold e, q. by rewrite take_drop.
  - unfold pat1. cbn [seqs]. assert (all is_space [" "%char]) by by constructor.
    assert (all nonspace [r_ty r]) by by constructor.
    eapply TSeq; [apply TBol|]. eapply TSeq; [apply TGroup; by apply plus_set_rtext|]. eapply TSeq; [by apply plus_set_rtext|].
    eapply TSeq; [apply TAltR, TEps|]. eapply TSeq; [by apply plus_set_rtext|]. eapply TSeq; [by apply plus_set_rtext|].
    eapply TSeq; [apply lits_rtext|]. eapply TSeq; [exact Hb|apply TEps].
Qed.

Lemma edge_names sym r e q : r_name r = sym ++ e ++ q -> edge e q -> names sym r = true.
Proof.
  unfold names. intros -> He. rewrite has_prefix_app, drop_app_length. cbn [andb].
  destruct He as [[-> ->]|(c&->&Hc)]; done.
Qed.

Lemma edge_length e q e' q' : e ++ q = e' ++ q' -> edge e q -> edge e' q' -> length e = length e'.
Proof.
  intros E [[-> ->]|(c&->&Hc)] [[-> ->]|(c'&->&Hc')]; try done.
Qed.

Lemma row_line_len r : row_ok r -> (length (row_text r) <= 1023)%nat.
Proof.
  intros (Ha&_&_&_&_&Hl). destruct (addr_hex _ Ha) as (_&_&H16&_). unfold row_text. rewrite length_app. cbn [length]. lia.
Qed.

Lemma row_no_und r : row_ok r -> strstr (row_text r) "*UND*" = None.
Proof.
  intros (Ha&(_&_&Hty)&_&_&Hst&_). destruct (addr_hex _ Ha) as (_&Hx&_). apply strstr_none. cbn. unfold row_text.
  rewrite not_elem_of_app, !not_elem_of_cons. split_and!; try done. intros Hin. rewrite Forall_forall in Hx. by specialize (Hx _ Hin).
Qed.

Lemma sym_line_row sym r : row_ok r -> sym <> [] -> all word_char sym -> sym_line (pat1 sym) (row_text r) = row_off sym r.
Proof.
  intros Hok Hs Hsw. unfold sym_line, row_off. rewrite take_ge by by apply row_line_len.
  destruct (names sym r) eqn:En; cbn [andb].
  - destruct (row_match sym r Hok Hs En) as (w&q&t&E&Ht).
    destruct (regexec_text (pat1 sym) [] w q t Ht) as (c&t'&Hr&Ht'&Hg).
    + intros p' w' q' t' E' H. cbn [app] in E'. rewrite <- E in E'.
      destruct (pat1_row sym r _ _ _ _ Hok Hs Hsw E' H) as (->&_&e'&En'&He').
      destruct (pat1_row sym r [] w q t Hok Hs Hsw E Ht) as (_&_&e&En2&He). split; [done|]. intros _.
      rewrite En2 in En'. apply app_inv_head in En'. pose proof (edge_length _ _ _ _ En' He He') as Hl.
      rewrite E in E'. apply (f_equal length) in E', En'. rewrite !length_app in *. cbn [length] in *. lia.
    + cbn [app] in Hr, Hg. rewrite <- E in Hr, Hg. rewrite Hr. cbn [mbind option_bind].
      destruct (pat1_row sym r [] w q t' Hok Hs Hsw E Ht') as (_&H1&_). rewrite Hg, H1. cbn [mbind option_bind].
      rewrite row_no_und by done. destruct Hok as (Ha&_). destruct (addr_hex _ Ha) as (_&_&->&->). cbn [st_val].
      change ((0 <? 16)%nat && (16 <? 32)%nat) with true. cbn [andb]. by destruct (r_addr r =? 0).
  - rewrite regexec_none; [done|]. intros p w q t E H.
    destruct (pat1_row sym r p w q t Hok Hs Hsw E H) as (_&_&e&En'&He). by rewrite (edge_names _ _ _ _ En' He) in En.
Qed.

Lemma lines_go_line l s : "010"%char ∉ l -> forall cur, lines_go (l ++ "010"%char :: s) cur = (reverse cur ++ l) :: lines_go s [].
Proof.
  induction l as [|c l IH]; intros Hl cur; cbn [app lines_go]; [by rewrite app_nil_r|]. apply not_elem_of_cons in Hl as [Hc Hl].
  rewrite (proj2 (eqc_false c "010")) by done. rewrite IH by done. by rewrite reverse_cons, <- app_assoc.
Qed.

Lemma lines_nm rows : Forall row_ok rows -> lines_of (cstr (nm_text rows)) = row_text <$> rows.
Proof.
  intros Hr. assert (Hn : forall r, row_ok r -> NUL ∉ row_text r /\ "010"%char ∉ row_text r).
  { intros r (Ha&(Hty&Hty0&_)&[_ Hna]&Hnul&_). destruct (addr_hex _ Ha) as (_&Hx&_). unfold row_text.
    rewrite !not_elem_of_app, !not_elem_of_cons.
    split; split_and!; try done; try (intros Hin; rewrite Forall_forall in Hx; by specialize (Hx _ Hin)).
    - by intros E; rewrite <- E in Hty.
    - intros Hin. rewrite Forall_forall in Hna. by specialize (Hna _ Hin). }
  rewrite cstr_id.
  - unfold lines_of, nm_text. induction Hr as [|r rows H Hr IH]; [done|]. rewrite !fmap_cons. change (mjoin (?x :: ?y)) with (x ++ mjoin y).
    rewrite <- app_assoc. cbn [app]. rewrite lines_go_line by by apply Hn. by rewrite IH.
  - unfold nm_text. induction Hr as [|r rows H Hr IH]; [apply not_elem_of_nil|]. rewrite fmap_cons. change (mjoin (?x :: ?y)) with (x ++ mjoin y).
    rewrite !not_elem_of_app. split; [split; [by apply Hn|]|done]. apply strchr_None. reflexivity.
Qed.

Lemma first_some_fmap {A B C} (f : B -> option C) (g : A -> B) l : first_some f (g <$> l) = first_some (f ∘ g) l.
Proof. induction l as [|a l IH]; [done|]. rewrite fmap_cons. cbn [first_some]. unfold compose at 1. by rewrite IH. Qed.
Lemma first_some_ext {A B} (f g : A -> option B) l : Forall (fun a => f a = g a) l -> first_some f l = first_some g l.
Proof. induction 1 as [|a l H Hl IH]; [done|]. cbn [first_some]. by rewrite H, IH. Qed.

(** C29. The offset of a symbol is found in what nm prints: the address of the
    first row that names the symbol, alone or with a version behind it, and
    has an address; a longer name that starts with the symbol is not taken for
    it, and objdump is not run. *)
Theorem symbol_offset_nm (child : bytes -> list bytes -> option (list (option bytes))) lib sym rows reads v :
  child "nm" [bs "nm"; bs "-D"; bs "--defined-only"; lib] = Some reads -> read_all reads = nm_text rows ->
  Forall row_ok rows -> sym <> [] -> all word_char sym -> first_some (row_off sym) rows = Some v ->
  symbol_offset child lib sym = Some v.
Proof.
  intros Hc Hrd Hr Hs Hsw Hv. unfold symbol_offset, run_cmd. rewrite Hc. cbn [fmap option_fmap option_map]. rewrite Hrd.
  assert (Hm : sym_match (nm_text rows) sym = Some v).
  { unfold sym_match. cbn [first_some]. rewrite lines_nm, first_some_fmap by done.
    rewrite (first_some_ext _ (row_off sym)); [by rewrite Hv|]. eapply Forall_impl; [exact Hr|]. intros r H. by apply sym_line_row. }
  destruct rows as [|r rows]; [done|]. destruct (nm_text (r :: rows)) as [|x l] eqn:E; [|by rewrite Hm].
  exfalso. apply (f_equal length) in E. unfold nm_text in E. rewrite fmap_cons in E. change (mjoin (?x :: ?y)) with (x ++ mjoin y) in E.
  rewrite !length_app in E. cbn in E. lia.
Qed.

Definition demo_rows : list nm_row :=
  [NmRow 0 "A" "OPENSSL_3.0.0"; NmRow 225120 "T" "SSL_read_ex@@OPENSSL_3.0.0"; NmRow 224704 "T" "SSL_read@@OPENSSL_3.0.0"].
Lemma symbol_offset_nm_witness :
  symbol_offset (fun _ _ => Some [Some (nm_text demo_rows)]) "/lib/libssl.so.3" "SSL_read" = Some 224704.
Proof.
  apply (symbol_offset_nm _ _ _ demo_rows [Some (nm_text demo_rows)]).
  - reflexivity.
  - vm_compute. reflexivity.
  - repeat (apply Forall_cons; split); try apply Forall_nil_2; unfold row_ok;
      (split_and!; try discriminate; try reflexivity; try (vm_compute; lia); try (apply strchr_None; reflexivity); apply Forall_true; reflexivity).
  - discriminate.
  - apply Forall_true. reflexivity.
  - vm_compute. reflexivity.
Defined.
