(* ===== verification/TlsProps.v ===== *)
(** What c/tls.c computes: the addresses of /proc/net/tcp it prints, the cache
    of server names, and the lines it prints once per host. *)
From S2P Require Import Prelude CLib Inet Common Os ProbeTable NetLinux NetText Tls.

(** * Addresses *)

Lemma hex_pairs_cons a b s : is_hex a -> is_hex b ->
  hex_pairs (a :: b :: s) = (l ← hex_pairs s; Some (16 * digit_val a + digit_val b :: l)).
Proof.
  intros Ha Hb. unfold is_hex in *. pose proof (digit_val_range a). pose proof (digit_val_range b). cbn [hex_pairs].
  assert (Hv : hex_val [a; b] 0 = 16 * digit_val a + digit_val b) by (cbn [hex_val foldl]; lia).
  rewrite strtoul_hex; [|done|by repeat constructor|rewrite Hv; lia]. cbn [st_conv st_rest st_val]. rewrite eqs_refl.
  cbn [andb]. by rewrite Hv, Z.mod_small by lia.
Qed.

Lemma hex_pairs_word b s : length b = 4%nat ->
  hex_pairs (fmt_0X 8 (le_word b) ++ s) = (l ← hex_pairs s; Some (reverse (u8 <$> b) ++ l)).
Proof.
  intros Hb. pose proof (le_word_range b Hb) as Hr. pose proof (fmt_0X_length 8 (le_word b) ltac:(lia) Hr) as Hl.
  pose proof (fmt_0X_hex 8 (le_word b) ltac:(lia)) as Hh. pose proof (fmt_0X_val 8 (le_word b) ltac:(lia)) as Hv.
  destruct b as [|b0 [|b1 [|b2 [|b3 []]]]]; try done. clear Hb.
  destruct (fmt_0X 8 _) as [|c0 [|c1 [|c2 [|c3 [|c4 [|c5 [|c6 [|c7 []]]]]]]]]; try done. clear Hl.
  repeat (apply Forall_cons in Hh as [? Hh]). cbn [app]. rewrite !hex_pairs_cons by done.
  cbn [hex_val foldl le_word foldr] in Hv. unfold is_hex in *.
  pose proof (u8_range b0). pose proof (u8_range b1). pose proof (u8_range b2). pose proof (u8_range b3).
  repeat match goal with H : digit_val ?c < 16 |- _ => pose proof (digit_val_range c); generalize dependent (digit_val c); intros end.
  destruct (hex_pairs s) as [l|]; [|done]. cbn [mbind option_bind].
  change (reverse (u8 <$> [b0; b1; b2; b3]) ++ l) with (u8 b3 :: u8 b2 :: u8 b1 :: u8 b0 :: l).
  repeat f_equal; lia.
Qed.

(** The bytes that [hex_pairs] reads from the kernel's text: every group of
    four in reverse. *)
Lemma hex_pairs_words n : forall b, length b = (4 * n)%nat ->
  exists l, hex_pairs (hex_words n b) = Some l /\ swap_groups l = u8 <$> b /\ (n = 1%nat -> l = reverse (u8 <$> b)).
Proof.
  induction n as [|n IH]; intros b Hb.
  - destruct b; [|cbn in Hb; lia]. exists []. done.
  - destruct (IH (drop 4 b)) as (l&Hl&Hsw&_); [rewrite length_drop; lia|]. cbn [hex_words].
    assert (Ht : length (take 4 b) = 4%nat) by (rewrite length_take; lia).
    rewrite hex_pairs_word, Hl by done. cbn [mbind option_bind]. eexists. split; [done|].
    rewrite <- (take_drop 4 b) at 2. rewrite fmap_app, <- Hsw. split.
    + destruct (take 4 b) as [|b0 [|b1 [|b2 [|b3 []]]]]; try done.
    + intros Hn. injection Hn as ->. rewrite <- (take_drop 4 b) at 2.
      rewrite (nil_length_inv (drop 4 b)) in * by (rewrite length_drop; lia). cbn in Hl. injection Hl as <-.
      by rewrite !app_nil_r.
Qed.

Lemma hex_words_no_colon n : forall b, length b = (4 * n)%nat -> ":"%char ∉ hex_words n b.
Proof.
  induction n as [|n IH]; intros b Hb; [apply not_elem_of_nil|]. cbn [hex_words]. rewrite not_elem_of_app. split.
  - intros Hin. assert (Ht : length (take 4 b) = 4%nat) by (rewrite length_take; lia).
    pose proof (le_word_range _ Ht) as Hr. pose proof (fmt_0X_hex 8 (le_word (take 4 b)) ltac:(lia)) as Hh.
    rewrite Forall_forall in Hh. by destruct (hex_not_special ":" (Hh _ Hin)) as (_&_&_&_&_&Hc&_).
  - apply IH. rewrite length_drop. lia.
Qed.

(** The text of an address and a port in /proc/net. *)
Definition kernel_addr (b : bytes) (port : Z) : bytes := hex_addr b ++ ":" ++ fmt_0X 4 port.

(** The parser up to the conversion of the bytes. *)
Lemma parse_kernel_addr resolve norev b k port is_v6 cap : length b = (4 * k)%nat -> (k <= 4)%nat -> 0 < port < 65536 ->
  exists l, hex_pairs (hex_addr b) = Some l /\ swap_groups l = u8 <$> b /\ (k = 1%nat -> l = reverse (u8 <$> b)) /\
  parse_hex_addr resolve norev (kernel_addr b port) is_v6 cap =
    if is_v6 then
      if negb (k =? 4)%nat then None
      else if skip_ipv6 (swap_groups l) then None
      else Some (host_port resolve norev (inet_ntop6 (swap_groups l)) port cap)
    else if negb (k =? 1)%nat then None
      else if skip_ipv4 l then None else Some (host_port resolve norev (inet_ntop4 (tls_ipv4 l)) port cap).
Proof.
  intros Hb Hk Hp. assert (Hw : hex_addr b = hex_words k b).
  { unfold hex_addr. rewrite Hb. by replace (4 * k / 4)%nat with k by (rewrite Nat.mul_comm, Nat.div_mul; lia). }
  destruct (hex_pairs_words k b Hb) as (l&Hl&Hsw&Hrev). destruct (parse_hex_words_enc k b Hb) as [Hlen _].
  exists l. rewrite Hw. split; [done|]. split; [done|]. split; [done|].
  unfold kernel_addr, parse_hex_addr. rewrite Hw. change (bs ":") with [":"%char]. cbn [app].
  rewrite strchr_app by (by apply hex_words_no_colon). cbn [mbind option_bind]. rewrite Hlen.
  rewrite (proj2 (Nat.leb_gt _ _)) by lia. 
  rewrite take_app_length' by done.
  assert (Hdrop : drop (S (8 * k)) (hex_words k b ++ ":"%char :: fmt_0X 4 port) = fmt_0X 4 port)
    by (rewrite <- Hlen; apply drop_snoc_eq). rewrite Hdrop.
  rewrite strtoul_0X by (lia || (change (16 ^ Z.of_nat 4) with 65536; lia)). cbn [st_conv st_val negb orb].
  rewrite (proj2 (Z.ltb_ge _ _)), (proj2 (Z.eqb_neq _ _)) by lia. cbn [orb].
  replace (8 * k)%nat with (2 * (4 * k))%nat by lia. rewrite Nat.odd_even. cbn [orb].
  replace (2 * (4 * k) / 2)%nat with (4 * k)%nat by (rewrite (Nat.mul_comm 2 (4 * k)), Nat.div_mul; lia).
  rewrite (proj2 (Nat.ltb_ge _ _)) by lia. rewrite Hl. cbn [mbind option_bind].
  replace (4 * k =? 16)%nat with (k =? 4)%nat by (destruct k as [|[|[|[|[|k]]]]]; reflexivity || lia).
  replace (4 * k =? 4)%nat with (k =? 1)%nat by (destruct k as [|[|[|[|[|k]]]]]; reflexivity || lia). done.
Qed.

Lemma land_byte1 x : Z.land x 65280 = (x / 256) mod 256 * 256.
Proof.
  replace 65280 with (Z.shiftl 255 8) by done. rewrite <- land_255, <- (Z.shiftl_mul_pow2 _ 8) by lia.
  change 256 with (2 ^ 8). rewrite <- Z.shiftr_div_pow2 by lia.
  apply Z.bits_inj'. intros n Hn. rewrite Z.land_spec. destruct (decide (n < 8)).
  - rewrite !Z.shiftl_spec_low by lia. by rewrite andb_false_r.
  - rewrite !Z.shiftl_spec, Z.land_spec, Z.shiftr_spec by lia. by replace (n - 8 + 8) with n by lia.
Qed.

(** The byte shuffling of [parse_hex_addr] is the identity. *)
Lemma tls_ipv4_id b0 b1 b2 b3 : 0 <= b0 < 256 -> 0 <= b1 < 256 -> 0 <= b2 < 256 -> 0 <= b3 < 256 ->
  tls_ipv4 [b0; b1; b2; b3] = [b0; b1; b2; b3].
Proof.
  intros H0 H1 H2 H3. unfold tls_ipv4.
  assert (Ha : Z.lor (Z.lor b0 (Z.shiftl b1 8)) (Z.lor (Z.shiftl b2 16) (Z.shiftl b3 24))
    = b0 + b1 * 256 + b2 * 65536 + b3 * 16777216) by (rewrite Z.lor_assoc; by apply lor_bytes).
  cbv zeta. rewrite Ha. set (x := b0 + b1 * 256 + b2 * 65536 + b3 * 16777216).
  assert (E0 : Z.land x 255 = b0) by (rewrite land_255; unfold x; Z.div_mod_to_equations; lia).
  assert (E1 : Z.land x 65280 = b1 * 256) by (rewrite land_byte1; unfold x; f_equal; Z.div_mod_to_equations; lia).
  assert (E2 : Z.land (Z.shiftr x 8) 65280 = b2 * 256).
  { rewrite land_byte1, Z.shiftr_div_pow2 by lia. change (2 ^ 8) with 256. unfold x. f_equal. Z.div_mod_to_equations; lia. }
  assert (E3 : Z.land (Z.shiftr x 24) 255 = b3).
  { rewrite land_255, Z.shiftr_div_pow2 by lia. change (2 ^ 24) with 16777216. unfold x. Z.div_mod_to_equations; lia. }
  rewrite E0, E1, E2, E3.
  assert (F0 : u32 (Z.shiftl b0 24) = Z.shiftl b0 24) by (apply wrap_small; rewrite Z.shiftl_mul_pow2 by lia; lia).
  assert (F1 : u32 (Z.shiftl (b1 * 256) 8) = Z.shiftl b1 16)
    by (rewrite !Z.shiftl_mul_pow2 by lia; rewrite (wrap_small 32) by lia; lia).
  assert (F2 : b2 * 256 = Z.shiftl b2 8) by (by rewrite Z.shiftl_mul_pow2 by lia).
  rewrite F0, F1, F2.
  assert (Hh : Z.lor (Z.lor (Z.shiftl b0 24) (Z.shiftl b1 16)) (Z.lor (Z.shiftl b2 8) b3)
    = b3 + b2 * 256 + b1 * 65536 + b0 * 16777216).
  { rewrite <- lor_bytes by done. rewrite (Z.lor_comm (Z.lor (Z.shiftl b0 24) _)), (Z.lor_comm (Z.shiftl b2 8)),
      (Z.lor_comm (Z.shiftl b0 24)). by rewrite Z.lor_assoc. }
  rewrite Hh, !land_255, !Z.shiftr_div_pow2 by lia.
  change (2 ^ 24) with 16777216. change (2 ^ 16) with 65536. change (2 ^ 8) with 256.
  repeat f_equal; Z.div_mod_to_equations; lia.
Qed.

(** The remote address of a connection: from the text that the kernel of
    a little-endian machine prints, [parse_hex_addr] reads an IPv6 address and
    its port back, but an IPv4 address with its four octets in reverse (it
    prints 34.216.184.93 for 93.184.216.34), and the test for loopback looks
    at the last octet: it passes 127.0.0.1, which is shown as 1.0.0.127. *)
Theorem parse_hex_addr_reads resolve b6 b4 port cap :
  length b6 = 16%nat -> length b4 = 4%nat -> 0 < port < 65536 ->
  skip_ipv6 (u8 <$> b6) = false -> skip_ipv4 (reverse (u8 <$> b4)) = false ->
  parse_hex_addr resolve true (kernel_addr b6 port) true cap = Some (trunc cap (ip_str b6 ++ ":" ++ fmt_d port)) /\
  parse_hex_addr resolve true (kernel_addr b4 port) false cap = Some (trunc cap (ip_str (reverse b4) ++ ":" ++ fmt_d port)) /\
  skip_ipv4 (reverse (u8 <$> [chr 127; chr 0; chr 0; chr 1])) = false.
Proof.
  intros H6 H4 Hp Hs6 Hs4. split; [|split; [|reflexivity]].
  - destruct (parse_kernel_addr resolve true b6 4 port true cap) as (l&_&Hsw&_&->); [done|lia|done|].
    rewrite Hsw, Hs6. unfold ip_str, blen, host_port. rewrite H6. done.
  - destruct (parse_kernel_addr resolve true b4 1 port false cap) as (l&_&_&Hl&->); [done|lia|done|].
    rewrite Hl by done. rewrite Hs4. unfold ip_str, blen, host_port. rewrite length_reverse, H4. cbn [Z.of_nat Z.eqb negb Nat.eqb].
    destruct b4 as [|a [|b [|c [|d []]]]]; try done. change (reverse (u8 <$> [a; b; c; d])) with [u8 d; u8 c; u8 b; u8 a].
    rewrite tls_ipv4_id by apply u8_range. done.
Qed.

Definition demo_v6 : bytes := [chr 32; chr 1; chr 13; chr 184] ++ replicate 11 (chr 0) ++ [chr 1].
Definition demo_v4 : bytes := [chr 93; chr 184; chr 216; chr 34].

Lemma parse_hex_addr_reads_witness :
  parse_hex_addr (fun _ => None) true (kernel_addr demo_v6 443) true 300 = Some (trunc 300 (ip_str demo_v6 ++ ":" ++ fmt_d 443)) /\
  parse_hex_addr (fun _ => None) true (kernel_addr demo_v4 443) false 300 = Some (trunc 300 (ip_str (reverse demo_v4) ++ ":" ++ fmt_d 443)) /\
  skip_ipv4 (reverse (u8 <$> [chr 127; chr 0; chr 0; chr 1])) = false.
Proof. apply (parse_hex_addr_reads (fun _ => None) demo_v6 demo_v4 443 300); reflexivity || lia. Defined.

Example demo_reversed :
  parse_hex_addr (fun _ => None) true "22D8B85D:01BB" false 300 = Some (bs "34.216.184.93:443").
Proof. vm_compute. reflexivity. Qed.

(** * The cache of server names *)

Definition sni_at (c : sni_cache) (pid : Z) (h : bytes) : Prop := exists i, c !! i = Some (Some (pid, h)).
(** The cache has all its slots, and no process has two. *)
Definition sni_wf (c : sni_cache) : Prop :=
  length c = MAX_SNI /\ forall i j p h h', c !! i = Some (Some (p, h)) -> c !! j = Some (Some (p, h')) -> i = j.

Lemma get_sni_at c pid h : sni_wf c -> sni_at c pid h -> get_sni pid c = h.
Proof.
  intros [_ Hu] [i Hi]. unfold get_sni. destruct (list_find (holds_pid pid) c) as [[j e]|] eqn:E.
  - apply list_find_Some in E as (Hj&He&_). destruct e as [[p h']|]; [|done]. cbn in He. subst p.
    assert (j = i) as -> by (by eapply Hu). rewrite Hi in Hj. by injection Hj.
  - apply list_find_None in E. rewrite Forall_lookup in E. specialize (E i _ Hi). by cbn in E.
Qed.

Lemma get_sni_absent c pid : (forall h, ~ sni_at c pid h) -> get_sni pid c = [].
Proof.
  intros Hn. unfold get_sni. destruct (list_find (holds_pid pid) c) as [[j [[p h]|]]|] eqn:E; [|done..].
  apply list_find_Some in E as (Hj&He&_). cbn in He. subst p. exfalso. apply (Hn h). by exists j.
Qed.

Lemma get_sni_ext c c' q : sni_wf c -> sni_wf c' -> (forall h, sni_at c q h <-> sni_at c' q h) -> get_sni q c = get_sni q c'.
Proof.
  intros Hw Hw' He. unfold get_sni at 2. destruct (list_find (holds_pid q) c') as [[j [[p h]|]]|] eqn:E.
  - apply list_find_Some in E as (Hj&Hp&_). cbn in Hp. subst p. apply get_sni_at; [done|]. apply He. by exists j.
  - apply list_find_Some in E as (_&[]&_).
  - apply get_sni_absent. intros h Hh. apply He in Hh as [i Hi]. apply list_find_None in E.
    rewrite Forall_lookup in E. specialize (E i _ Hi). by cbn in E.
Qed.

(** Writing a slot that is the process's own, or when it has none. *)
Lemma sni_write c i pid h : sni_wf c -> (i < MAX_SNI)%nat ->
  (forall j h', c !! j = Some (Some (pid, h')) -> j = i) ->
  let c' := <[i := Some (pid, h)]> c in
  sni_wf c' /\ get_sni pid c' = h /\
  forall q, q <> pid -> get_sni q c' = get_sni q c \/ ((exists h', c !! i = Some (Some (q, h'))) /\ get_sni q c' = []).
Proof.
  intros [Hl Hu] Hi Hown c'. assert (Hi' : (i < length c)%nat) by lia.
  assert (Hw' : sni_wf c').
  { split; [by unfold c'; rewrite length_insert|]. intros a b p x y Ha Hb. unfold c' in Ha, Hb.
    destruct (decide (i = a)) as [<-|Na], (decide (i = b)) as [<-|Nb]; [done| | |].
    - rewrite list_lookup_insert_eq in Ha by done. rewrite list_lookup_insert_ne in Hb by done.
      injection Ha as <- <-. by rewrite (Hown b y Hb).
    - rewrite list_lookup_insert_eq in Hb by done. rewrite list_lookup_insert_ne in Ha by done.
      injection Hb as <- <-. by rewrite (Hown a x Ha).
    - rewrite list_lookup_insert_ne in Ha, Hb by done. by eapply Hu. }
  split; [done|]. split.
  - apply get_sni_at; [done|]. exists i. by apply list_lookup_insert_eq.
  - intros q Hq. assert (Hdec : (exists h', c !! i = Some (Some (q, h'))) \/ ~ exists h', c !! i = Some (Some (q, h'))).
    { destruct (c !! i) as [[[q' h']|]|]; [|right; by intros [? ?]..].
      destruct (decide (q' = q)) as [->|Hne]; [left; eauto|right; intros [? ?]; congruence]. }
    destruct Hdec as [Hev|Hno].
    + right. split; [done|]. apply get_sni_absent. intros h' [j Hj]. unfold c' in Hj. rewrite list_lookup_insert in Hj.
      case_decide as Hd; [by simplify_eq|]. destruct Hev as [h2 Hev]. apply Hd. split; [|done]. by eapply Hu.
    + left. apply get_sni_ext; [done|split; done|]. intros h'. unfold sni_at, c'. split; intros [j Hj]; exists j.
      * rewrite list_lookup_insert in Hj. case_decide; [by simplify_eq|done].
      * rewrite list_lookup_insert_ne; [done|]. intros ->. apply Hno. eauto.
Qed.

Definition sni_full (c : sni_cache) : Prop := forall i, (i < MAX_SNI)%nat -> is_Some (mjoin (c !! i)).

Lemma sni_empty_wf : sni_wf sni_empty.
Proof. split; [done|]. intros i j p h h' Hi. apply lookup_replicate_1 in Hi as [[=] _]. Qed.

(** The cache of server names is a map from processes to hosts: setting
    the name of a process succeeds, keeps one slot per process, and the name is
    found again, cut at 255 bytes; the names of the other processes are those
    of before, except that when all 1024 slots are taken by other processes
    the one whose slot is used loses its name. *)
Theorem sni_set_get c pid host : sni_wf c -> 0 <= pid ->
  exists c', set_sni pid host c = Ok c' /\ sni_wf c' /\ get_sni pid c' = trunc 256 host /\
    forall q, q <> pid -> get_sni q c' = get_sni q c \/ (sni_full c /\ get_sni pid c = [] /\ get_sni q c' = []).
Proof.
  intros Hw Hp. pose proof Hw as [Hl Hu]. unfold set_sni.
  destruct (list_find (holds_pid pid) c) as [[i e]|] eqn:E1.
  - apply list_find_Some in E1 as (Hi&He&_). destruct e as [[p h]|]; [|done]. cbn in He. subst p.
    destruct (sni_write c i pid (trunc 256 host) Hw) as (Hw'&Hg&Ho).
    { rewrite <- Hl. by eapply lookup_lt_Some. }
    { intros j h' Hj. by eapply Hu. }
    eexists. split; [done|]. split; [done|]. split; [done|]. intros q Hq. left.
    destruct (Ho q Hq) as [?|[[h' Hc] _]]; [done|]. congruence.
  - apply list_find_None in E1. rewrite Forall_lookup in E1.
    assert (Hnone : forall j h', c !! j <> Some (Some (pid, h'))) by (intros j h' Hj; specialize (E1 j _ Hj); by cbn in E1).
    destruct (list_find (fun x => x = None) c) as [[i e]|] eqn:E2.
    + apply list_find_Some in E2 as (Hi&->&_).
      destruct (sni_write c i pid (trunc 256 host) Hw) as (Hw'&Hg&Ho).
      { rewrite <- Hl. by eapply lookup_lt_Some. }
      { intros j h' Hj. by destruct (Hnone j h'). }
      eexists. split; [done|]. split; [done|]. split; [done|]. intros q Hq. left.
      destruct (Ho q Hq) as [?|[[h' Hc] _]]; [done|]. congruence.
    + apply list_find_None in E2. rewrite Forall_lookup in E2.
      pose proof (Z.rem_bound_pos pid (Z.of_nat MAX_SNI) Hp ltac:(done)) as Hr.
      rewrite (proj2 (Z.ltb_ge _ _)) by lia. set (i := Z.to_nat (Z.rem pid (Z.of_nat MAX_SNI))).
      assert (Hfull : sni_full c).
      { intros j Hj. destruct (lookup_lt_is_Some_2 c j) as [x Hx]; [by rewrite Hl|]. rewrite Hx.
        specialize (E2 j _ Hx). destruct x as [x|]; [by exists x|done]. }
      destruct (sni_write c i pid (trunc 256 host) Hw) as (Hw'&Hg&Ho).
      { unfold i. lia. }
      { intros j h' Hj. by destruct (Hnone j h'). }
      eexists. split; [done|]. split; [done|]. split; [done|]. intros q Hq.
      destruct (Ho q Hq) as [?|[_ Hq0]]; [by left|right]. split; [done|]. split; [|done].
      apply get_sni_absent. intros h [j Hj]. by destruct (Hnone j h).
Qed.

Lemma sni_set_get_witness :
  exists c', set_sni 42 "example.com" sni_empty = Ok c' /\ sni_wf c' /\ get_sni 42 c' = trunc 256 "example.com" /\
    forall q, q <> 42 -> get_sni q c' = get_sni q sni_empty \/ (sni_full sni_empty /\ get_sni 42 sni_empty = [] /\ get_sni q c' = []).
Proof. apply (sni_set_get sni_empty 42 "example.com"); [exact sni_empty_wf|lia]. Defined.

(** * The lines *)

Definition conns_wf (t : conn_table) : Prop := pt_wf conn_id conn_start CONN_BITS t.
Definition conns_set (t : conn_table) : gset bytes := dom (pt_abs conn_id t).

Lemma conn_mark_spec key t : conns_wf t -> (length key < 320)%nat -> Z.of_nat (size (conns_set t)) < cap CONN_BITS ->
  exists b t', conn_mark key t = (b, t') /\ conns_wf t' /\ b = bool_decide (key ∈ conns_set t) /\
    conns_set t' = {[key]} ∪ conns_set t.
Proof.
  intros Hw Hk Hs. unfold conns_set in *. rewrite size_dom, (pt_abs_size conn_id conn_start CONN_BITS t Hw) in Hs.
  pose proof (pt_search_spec conn_id conn_start CONN_BITS ltac:(done) t key Hw) as Hp. unfold conn_mark.
  destruct (probe conn_id conn_start CONN_BITS (pt_slots t) key) as [j|j|]; [| |lia].
  - exists true, t. split; [done|]. split; [done|]. apply elem_of_dom in Hp. split; [by rewrite bool_decide_true|].
    symmetry. by apply subseteq_union_1_L, singleton_subseteq_l.
  - destruct Hp as (Hn&_&Hput). rewrite trunc_fits by done. destruct (Hput key) as [Hw' Ha']; [done|].
    eexists false, _. split; [done|]. split; [exact Hw'|]. split.
    + rewrite bool_decide_false; [done|]. by apply not_elem_of_dom.
    + rewrite Ha'. by rewrite dom_insert_L.
Qed.

Lemma event_key_length pid host : (length (event_key pid host) < 320)%nat.
Proof. apply trunc_length. lia. Qed.

(** C30. One line for every process and host: while the table of connections
    has room, an event of a read or a write is printed, and counted, exactly
    when no event of the same process to the same host has been before; the
    event of a server name prints nothing and changes only the cache. *)
Theorem print_event_once o resolve norev color localtime ev s :
  conns_wf (t_conns s) -> Z.of_nat (size (conns_set (t_conns s))) < cap CONN_BITS ->
  sni_wf (t_sni s) -> 0 <= ev_pid ev -> (exists ts, event_time localtime (ev_ts ev) = Ok ts) ->
  exists s', print_event o resolve norev color localtime ev s = Ok s' /\ conns_wf (t_conns s') /\ sni_wf (t_sni s') /\
    let key := event_key (ev_pid ev) (remote_host resolve norev o (ev_pid ev) 300 (t_sni s)) in
    if eqs (ev_dir ev) "sni" then t_conns s' = t_conns s /\ t_counter s' = t_counter s /\ t_out s' = t_out s
    else t_sni s' = t_sni s /\ conns_set (t_conns s') = {[key]} ∪ conns_set (t_conns s) /\
      (key ∈ conns_set (t_conns s) -> t_out s' = t_out s /\ t_counter s' = t_counter s) /\
      (key ∉ conns_set (t_conns s) -> t_counter s' = t_counter s + 1 /\ exists l, t_out s' = t_out s ++ [l]).
Proof.
  intros Hw Hs Hsni Hp [ts Hts]. unfold print_event. destruct (eqs (ev_dir ev) "sni").
  - destruct (ev_sni ev) as [|c h]; [by exists s|].
    destruct (sni_set_get (t_sni s) (ev_pid ev) (c :: h) Hsni Hp) as (c'&->&Hw'&_). rewrite ok_bind.
    eexists. split; [done|]. done.
  - set (host := remote_host resolve norev o (ev_pid ev) 300 (t_sni s)).
    destruct (conn_mark_spec (event_key (ev_pid ev) host) (t_conns s) Hw (event_key_length _ _) Hs) as (b&t'&->&Hw'&Hb&Hset).
    cbv zeta. destruct b; symmetry in Hb.
    + apply bool_decide_eq_true in Hb. eexists. split; [done|]. cbn [t_conns t_sni t_counter t_out].
      split_and!; [done|done|done|done|done|done].
    + apply bool_decide_eq_false in Hb. rewrite Hts, ok_bind. eexists. split; [done|]. cbn [t_conns t_sni t_counter t_out].
      split_and!; [done|done|done|done|done|]. intros _. split; [done|]. by eexists.
Qed.

Definition tls_os : os := Os (fun _ => None) (fun _ => LinkFails) (fun _ => None) (fun _ => None) (fun _ => None).
Definition tls_ev : tls_event := TlsEvent "curl" 42 (f64_of_Z 3661) "tls_write_SSL_write" "write" [].
Definition demo_localtime (t : Z) : Z * Z * Z := (t / 3600 mod 24, t / 60 mod 60, t mod 60).
Definition tstate0 : tstate := TState sni_empty pt_empty 0 [].

Lemma print_event_once_witness :
  exists s', print_event tls_os (fun _ => None) true false demo_localtime tls_ev tstate0 = Ok s' /\
    conns_wf (t_conns s') /\ sni_wf (t_sni s') /\
    let key := event_key (ev_pid tls_ev) (remote_host (fun _ => None) true tls_os (ev_pid tls_ev) 300 (t_sni tstate0)) in
    if eqs (ev_dir tls_ev) "sni" then t_conns s' = t_conns tstate0 /\ t_counter s' = t_counter tstate0 /\ t_out s' = t_out tstate0
    else t_sni s' = t_sni tstate0 /\ conns_set (t_conns s') = {[key]} ∪ conns_set (t_conns tstate0) /\
      (key ∈ conns_set (t_conns tstate0) -> t_out s' = t_out tstate0 /\ t_counter s' = t_counter tstate0) /\
      (key ∉ conns_set (t_conns tstate0) -> t_counter s' = t_counter tstate0 + 1 /\ exists l, t_out s' = t_out tstate0 ++ [l]).
Proof.
  apply (print_event_once tls_os (fun _ => None) true false demo_localtime tls_ev tstate0).
  - apply pt_empty_wf.
  - vm_compute. reflexivity.
  - exact sni_empty_wf.
  - cbn. lia.
  - eexists. vm_compute. reflexivity.
Defined.

Example demo_tls_line :
  match print_event tls_os (fun _ => None) true false demo_localtime tls_ev tstate0 with
  | Ok s => t_out s = [bs "01:01:01.000 42 curl TX SSL_write" ++ ["010"%char]]
  | _ => False
  end.
Proof. vm_compute. reflexivity. Qed.
