(* ===== verification/TlsMain.v ===== *)
(** The run of c/tls.c: the writes to the tracing files, the set-up of
    [tls_main], the loop over the trace pipe, and the removal of the probes at
    its ends. *)
From S2P Require Import Prelude CLib Os Sys Start Common ProbeTable Tls TlsTrace TlsProps.

(** * The tracing files *)

(** A line appended by one write, and contents replaced by one write: whether
    the kernel took all of it. *)
Definition O_WRONLY : Z := 1.
Definition O_TRUNC : Z := 512.
Definition O_APPEND : Z := 1024.
Definition append_to_file (path content : bytes) : callM bool :=
  fd ← sys (OpenFlags path (Z.lor O_WRONLY O_APPEND));
  if fd <? 0 then mret false
  else
    let buf := content ++ NL in
    if 1024 <=? blen buf then sys (Close fd);; mret false
    else w ← sys (WriteFd fd buf); sys (Close fd);; mret (w =? blen buf).
Definition write_str (path s : bytes) : callM bool :=
  fd ← sys (OpenFlags path (Z.lor O_WRONLY O_TRUNC));
  if fd <? 0 then mret false
  else w ← sys (WriteFd fd s); sys (Close fd);; mret (w =? blen s).
Definition run_op (op : fs_op) : callM bool :=
  match op with Append path line => append_to_file path line | WriteStr path s => write_str path s end.

Definition file_opens (c : call) (r : Z) : option Z := match c with OpenFile _ | OpenFlags _ _ => if 0 <=? r then Some r else None | _ => None end.
Definition file_closes (c : call) : option Z := match c with Close fd => Some fd | _ => None end.
Abbreviation files := (fds_after file_opens file_closes).
(** The file of an operation, how it is opened, and the text that is written. *)
Definition op_open (op : fs_op) : call :=
  match op with
  | Append path _ => OpenFlags path (Z.lor O_WRONLY O_APPEND)
  | WriteStr path _ => OpenFlags path (Z.lor O_WRONLY O_TRUNC)
  end.
Definition op_text (op : fs_op) : bytes := match op with Append _ l => l ++ NL | WriteStr _ s => s end.
Definition op_fits (op : fs_op) : bool := match op with Append _ l => blen (l ++ NL) <? 1024 | WriteStr _ _ => true end.

Lemma app_two {A} (l : list A) x y : l ++ [x; y] = (l ++ [x]) ++ [y].
Proof. by rewrite <- app_assoc. Qed.
Lemma app_three {A} (l : list A) x y z : l ++ [x; y; z] = ((l ++ [x]) ++ [y]) ++ [z].
Proof. by rewrite <- !app_assoc. Qed.

(** C25. A command reaches a tracing file in one write, unbuffered, or not at
    all. The calls of an operation are these and no others: the file of the
    operation is opened, to append for a command and truncated for a setting;
    if it opens, and the text fits, the whole text is written by one call to
    the descriptor that the open gave, which is then closed; the operation
    counts as done exactly if the kernel took every byte. No path leaks the
    descriptor. *)
Theorem run_op_one_write op (e : env (C := call)) h :
  wp e h (run_op op) (fun ok h' =>
    exists fd, e h (op_open op) = fd /\
    (fd < 0 /\ ok = false /\ h' = h ++ [(op_open op, fd)] \/
     0 <= fd /\ op_fits op = false /\ ok = false /\ (exists c, h' = h ++ [(op_open op, fd); (Close fd, c)]) \/
     0 <= fd /\ op_fits op = true /\ exists w c,
       h' = h ++ [(op_open op, fd); (WriteFd fd (op_text op), w); (Close fd, c)] /\ ok = (w =? blen (op_text op)))) /\
  (fresh_fds file_opens file_closes e -> wp e h (run_op op) (fun _ h' => files h' = files h)).
Proof.
  assert (Hw : wp e h (run_op op) (fun ok h' => exists fd, e h (op_open op) = fd /\
    (fd < 0 /\ ok = false /\ h' = h ++ [(op_open op, fd)] \/
     0 <= fd /\ op_fits op = false /\ ok = false /\ (exists c, h' = h ++ [(op_open op, fd); (Close fd, c)]) \/
     0 <= fd /\ op_fits op = true /\ exists w c,
       h' = h ++ [(op_open op, fd); (WriteFd fd (op_text op), w); (Close fd, c)] /\ ok = (w =? blen (op_text op))))).
  { destruct op as [path line|path s]; cbn [run_op op_open op_text op_fits]; unfold append_to_file, write_str;
      apply wp_bind, wp_sys; set (fd := e h _); destruct (fd <? 0) eqn:E; zbool; try (apply wp_ret; exists fd; split; [done|by left]).
    - rewrite Z.ltb_antisym. destruct (1024 <=? blen (line ++ NL)); cbn [negb].
      + apply wp_bind, wp_sys, wp_ret. exists fd. split; [done|]. right. left. rewrite <- app_assoc. by eauto.
      + apply wp_bind, wp_sys, wp_bind, wp_sys, wp_ret. exists fd. split; [done|]. right. right. rewrite <- !app_assoc. by eauto 10.
    - apply wp_bind, wp_sys, wp_bind, wp_sys, wp_ret. exists fd. split; [done|]. right. right. rewrite <- !app_assoc. by eauto 10. }
  split; [exact Hw|]. intros Hfr. eapply wp_mono; [exact Hw|]. intros ok h' (fd&Hfd&H). pose proof (Hfr h (op_open op)) as Hn.
  assert (Ho : file_opens (op_open op) fd = if 0 <=? fd then Some fd else None) by by destruct op.
  assert (Hc : file_closes (op_open op) = None) by by destruct op.
  rewrite Hfd in Hn. destruct H as [(H&_&->)|[(H&_&_&c&->)|(H&_&w&c&->&_)]].
  - apply fds_other; [|done]. by rewrite Ho, (proj2 (Z.leb_gt _ _)).
  - rewrite (proj2 (Z.leb_le _ _) H) in Ho. rewrite app_two.
    eapply fds_closed; [done|reflexivity|by apply fds_opened|by apply Hn].
  - rewrite (proj2 (Z.leb_le _ _) H) in Ho. rewrite app_three.
    eapply fds_closed; [done|reflexivity| |by apply Hn]. rewrite fds_other by done. by apply fds_opened.
Qed.

Definition file_env : env (C := call) := fun h c =>
  match c with OpenFile _ | OpenFlags _ _ => lowest_fd (files h) | WriteFd _ b => blen b | _ => 0 end.
Lemma file_env_fresh : fresh_fds file_opens file_closes file_env.
Proof.
  intros h c fd H. destruct c; try discriminate; cbn [file_opens file_env] in H; (destruct (0 <=? _); [|done]);
    injection H as <-; apply lowest_fd_fresh.
Qed.
Lemma run_op_one_write_witness :
  let op := Append UPROBE_EVENTS "-:uprobes/tls_read_SSL_read" in
  wp file_env [] (run_op op) (fun _ h' => files h' = files []) /\
  exists w c, run_op op file_env [] =
    (true, [(OpenFlags UPROBE_EVENTS 1025, 3); (WriteFd 3 ("-:uprobes/tls_read_SSL_read" ++ NL), w); (Close 3, c)]).
Proof.
  destruct (run_op_one_write (Append UPROBE_EVENTS "-:uprobes/tls_read_SSL_read") file_env []) as [_ H].
  split; [exact (H file_env_fresh)|]. eexists _, _. vm_compute. reflexivity.
Defined.

(** * errno *)

(** The error number of the last call that failed, but for [close], around
    which it is saved. *)
Definition errno_of (h : calls) : Z :=
  foldl (fun n x => match x.1 with Close _ => n | _ => if x.2 <? 0 then - x.2 else n end) 0 h.
Definition errno : callM Z := fun e h => (errno_of h, h).

(** * The probes *)

Definition MAX_PROBES : nat := 32.
Definition TRACE_ON : bytes := TRACING_BASE ++ "/tracing_on".
Definition CURRENT_TRACER : bytes := TRACING_BASE ++ "/current_tracer".
Definition TRACE_PIPE : bytes := TRACING_BASE ++ "/trace_pipe".

Fixpoint run_ops (ops : list fs_op) : callM unit :=
  match ops with [] => mret tt | op :: ops' => run_op op;; run_ops ops' end.
Definition cleanup_uprobes (regs : list bytes) : callM unit := run_ops (mjoin (remove_ops <$> regs)).

Section Register.
(** The offset of a symbol, the messages of errors, [-v]. *)
Context (symbol_offset : bytes -> option Z) (strerror : Z -> bytes) (verbose : bool).

(** A message of [-v], and that of a write that failed. *)
Definition verb (text : bytes) : bytes := if verbose then text else [].
Definition try_op (op : fs_op) (what : bytes) : callM bytes :=
  ok ← run_op op;
  if (ok : bool) then mret [] else err ← errno; mret (verb ("  " ++ what ++ ": " ++ strerror err ++ NL)).

(** The loop of [register_uprobes]: the names registered, and the messages. *)
Fixpoint register_go (lib : bytes) (ts : list probe_target) (seen regs : list bytes) : callM (list bytes * bytes) :=
  match ts with
  | [] => mret (regs, [])
  | t :: ts' =>
      match symbol_offset (pt_symbol t) with
      | None =>
          r ← register_go lib ts' seen regs;
          mret (r.1, verb ("  skipping " ++ pt_symbol t ++ ": symbol " ++ pt_symbol t ++ " not found in " ++ lib ++ NL) ++ r.2)
      | Some off =>
          let name := probe_name t in
          if existsb (fun s => eqs s name) seen then register_go lib ts' seen regs
          else
            run_ops (remove_ops name);;
            ok ← run_op (Append UPROBE_EVENTS (probe_line t name lib off));
            if negb ok then
              err ← errno;
              r ← register_go lib ts' (seen ++ [name]) regs;
              mret (r.1, verb ("  uprobe " ++ name ++ ": " ++ strerror err ++ NL) ++ r.2)
            else
              m1 ← try_op (WriteStr (probe_file name "enable") "1") ("enable " ++ name);
              m2 ← match pt_filter t with
                   | [] => mret []
                   | f => try_op (WriteStr (probe_file name "filter") f) ("filter " ++ name)
                   end;
              r ← register_go lib ts' (seen ++ [name]) (if (length regs <? MAX_PROBES)%nat then regs ++ [name] else regs);
              mret (r.1, verb ("  registered: " ++ name ++ " @ 0x" ++ fmt_x off ++ NL) ++ m1 ++ m2 ++ r.2)
      end
  end.
Definition register_uprobes (lib : bytes) : callM (list bytes * bytes) := register_go lib probe_targets [] [].
End Register.

(** * The run *)

(** How the reading of the pipe ends, after some lines: by a signal, or at the
    end of the pipe. *)
Inductive pipe_end := BySignal (lines : list bytes) | AtEof (lines : list bytes).
Definition pipe_lines (p : pipe_end) : list bytes := match p with BySignal l | AtEof l => l end.

(** The end of a run: the status, the names of the probes registered, the lines
    printed, the text on the standard error. *)
Record tls_end := TlsEnd { te_status : Z; te_regs : list bytes; te_out : list bytes; te_err : bytes }.

(** The watched processes, as the start text shows them. *)
Definition pids_text (watch : list Z) : bytes :=
  foldl (fun acc x => acc ++ take (1023 - length acc) x) []
    (imap (fun i p => trunc 16 ((if (i =? 0)%nat then [] else bs ",") ++ fmt_d p)) watch).
Definition tls_banner (color : bool) (lib : bytes) (watch : list Z) (version : bytes) : bytes :=
  clr_text color "96" ("proc-trace-tls " ++ version) ++ NL ++ "  lib : " ++ clr_text color "2" lib ++ NL ++
  "  pids: " ++ (match watch with [] => clr_text color "2" "all" | _ => clr_text color "33" (pids_text watch) end) ++ NL ++ NL.

Section Main.
Context (o : os) (realpath : bytes -> option bytes) (resolve : bytes -> option bytes) (localtime : Z -> Z * Z * Z)
  (child : bytes -> list bytes -> option (list (option bytes))) (no_color : option bytes) (term : option bytes -> stream)
  (strerror : Z -> bytes) (version : bytes) (pipe : pipe_end).

Definition tls_fatal (regs : list bytes) (err msg : bytes) : outcome tls_end :=
  Ok (TlsEnd 1 regs [] (err ++ "proc-trace-tls: " ++ msg ++ NL)).

Definition tls_loop (op : topts) (color : bool) (lines : list bytes) : outcome tstate :=
  trace_loop o resolve (to_norev op) color localtime (to_watch op) lines tstate0.

(** [on_sig]: the count of the lines printed, unless [-q], and the removal of
    the probes. *)
Definition on_sig (quiet : bool) (s : tstate) (regs : list bytes) : callM bytes :=
  cleanup_uprobes regs;;
  mret (if quiet then [] else NL ++ NL ++ "captured " ++ fmt_d (t_counter s) ++ " TLS events" ++ NL).

(** From the registration of the probes to the end. *)
Definition tls_trace (op : topts) (color : bool) (lib err : bytes) : callM (outcome tls_end) :=
  r ← register_uprobes (symbol_offset child lib) strerror (to_verbose op) lib;
  let '(regs, said) := r in
  let err := err ++ verb (to_verbose op) ("Registering uprobes on " ++ lib ++ "..." ++ NL) ++ said in
  match regs with
  | [] => mret (tls_fatal [] err ("no uprobes registered " ++ [chr 226; chr 128; chr 148] ++ " is OpenSSL installed?"))
  | _ =>
      let err := err ++ if to_quiet op then [] else
        "Watching " ++ fmt_d (blen regs) ++ " probe(s). Press Ctrl-C to stop." ++ NL ++ NL in
      sys (Signal "SIGINT");; sys (Signal "SIGTERM");;
      f ← sys (OpenFile TRACE_PIPE);
      if f <? 0 then
        cleanup_uprobes regs;;
        e ← errno;
        mret (tls_fatal regs err ("open trace_pipe: " ++ strerror e))
      else
        match tls_loop op color (pipe_lines pipe) with
        | Ok s =>
            match pipe with
            | BySignal _ => text ← on_sig (to_quiet op) s regs; mret (Ok (TlsEnd 0 regs (t_out s) (err ++ text)))
            | AtEof _ => sys (Close f);; mret (Ok (TlsEnd 0 regs (t_out s) err))
            end
        | Ub => mret Ub
        | Fuel => mret Fuel
        end
  end.

(** From the options to the probes. *)
Definition tls_start (op : topts) (color : bool) (lib : bytes) : callM (outcome tls_end) :=
  let err := if to_quiet op then [] else tls_banner color lib (to_watch op) version in
  on ← run_op (WriteStr TRACE_ON "1");
  if negb on then
    e ← errno;
    mret (tls_fatal [] err ("enable tracing: " ++ strerror e ++ NL ++ "Are you root? Is debugfs mounted at " ++ TRACING_BASE ++ "?"))
  else
    warn ← try_op strerror (to_verbose op) (WriteStr CURRENT_TRACER "nop") "warning: could not set current_tracer to nop";
    tls_trace op color lib (err ++ warn).

(** [tls_main] *)
Definition tls_main (args : list bytes) : callM (outcome tls_end) :=
  match t_parse_args args with
  | Ok TUsage => mret (Ok (TlsEnd 1 [] [] []))
  | Ok (TDie m) => mret (tls_fatal [] [] m)
  | Ok (TRun op) =>
      out ← match to_out op with [] => mret 0 | f => sys (OpenLog f) end;
      if out <? 0 then mret (tls_fatal [] [] ("open " ++ to_out op ++ ": " ++ strerror (- out)))
      else
        let color := if to_color op then true else
          match no_color with None => is_terminal (term (match to_out op with [] => None | f => Some f end)) | Some _ => false end in
        match (match to_lib op with [] => find_libssl o realpath (to_watch op) 4096 | l => Some l end) with
        | None => mret (tls_fatal [] [] ("libssl.so not found; use -l to specify" ++ NL ++
                          "Hint: install openssl or use -l /path/to/libssl.so"))
        | Some lib => tls_start op color lib
        end
  | Ub => mret Ub
  | Fuel => mret Fuel
  end.
End Main.
