(* ===== verification/TlsRun.v ===== *)
(** What a run of tls leaves in the kernel: the list of the probes, as the
    commands written to uprobe_events make it. *)
From S2P Require Import Prelude CLib Os Sys Start Common ProbeTable Tls TlsTrace TlsProps TlsMain.

(** * The list of probes *)

(** The name of a probe, up to the end of its word. *)
Definition word_of (s : bytes) : bytes := match strchr s " " with Some i => take i s | None => s end.
Definition line_of (s : bytes) : bytes := match strchr s "010" with Some i => take i s | None => s end.
(** A command of uprobe_events, in the syntax of the kernel's documentation: the
    removal of a probe of the default group, or a definition. *)
Definition obey (b : bytes) (ps : gset bytes) : gset bytes :=
  if has_prefix "-:uprobes/" b then ps ∖ {[ line_of (drop 10 b) ]}
  else if has_prefix "p:" b || has_prefix "r:" b then {[ word_of (drop 2 b) ]} ∪ ps
  else ps.

(** The files that are open, and the probes: a write that the kernel takes whole
    is a command. *)
Record kstate := KState { k_files : gmap Z bytes; k_probes : gset bytes }.
Definition kstep (k : kstate) (x : call * Z) : kstate :=
  match x.1 with
  | OpenFile p | OpenFlags p _ => if 0 <=? x.2 then KState (<[x.2 := p]> (k_files k)) (k_probes k) else k
  | Close fd => KState (delete fd (k_files k)) (k_probes k)
  | WriteFd fd b =>
      if bool_decide (k_files k !! fd = Some UPROBE_EVENTS) && (x.2 =? blen b) then KState (k_files k) (obey b (k_probes k)) else k
  | _ => k
  end.
(** The probes after a history, from those that there were. *)
Definition probes (ps : gset bytes) (h : calls) : gset bytes := k_probes (foldl kstep (KState ∅ ps) h).

(** What an operation does to them, when it is taken. *)
Definition op_probes (op : fs_op) (ps : gset bytes) : gset bytes :=
  match op with
  | Append p l => if eqs p UPROBE_EVENTS then obey (l ++ NL) ps else ps
  | WriteStr p s => if eqs p UPROBE_EVENTS then obey s ps else ps
  end.

Section Kernel.
Context (ps : gset bytes).
Abbreviation after h := (foldl kstep (KState ∅ ps) h).

Lemma after_snoc h x : after (h ++ [x]) = kstep (after h) x.
Proof. by rewrite foldl_app. Qed.

(** A write through a descriptor that has just been opened. *)
Lemma write_probes path flags text (e : env (C := call)) h : wp e h
  (fd ← sys (OpenFlags path flags); if fd <? 0 then mret false else w ← sys (WriteFd fd text); sys (Close fd);; mret (w =? blen text))
  (fun ok h' => probes ps h' = if ok && eqs path UPROBE_EVENTS then obey text (probes ps h) else probes ps h).
Proof.
  unfold probes. apply wp_bind, wp_sys. set (fd := e h _). destruct (fd <? 0) eqn:E; zbool.
  - apply wp_ret. cbn [andb]. rewrite after_snoc. unfold kstep. cbn [fst snd]. by rewrite (proj2 (Z.leb_gt _ _)).
  - apply wp_bind, wp_sys. set (h1 := h ++ _). set (w := e h1 _). apply wp_bind, wp_sys, wp_ret.
    rewrite !after_snoc. unfold h1. rewrite after_snoc. unfold kstep at 3. cbn [fst snd]. rewrite (proj2 (Z.leb_le _ _)) by done.
    unfold kstep at 2. cbn [fst snd k_files k_probes]. rewrite lookup_insert_eq.
    replace (bool_decide (Some path = Some UPROBE_EVENTS)) with (eqs path UPROBE_EVENTS) by (apply bool_decide_ext; naive_solver).
    rewrite andb_comm. by destruct (_ && _).
Qed.

Lemma run_op_probes op (e : env (C := call)) h :
  wp e h (run_op op) (fun ok h' => probes ps h' = if ok then op_probes op (probes ps h) else probes ps h).
Proof.
  destruct op as [path line|path s]; cbn [run_op op_probes].
  - unfold append_to_file. destruct (1024 <=? blen (line ++ NL)) eqn:El.
    + unfold probes. apply wp_bind, wp_sys. set (fd := e h _). destruct (fd <? 0) eqn:E; zbool.
      * apply wp_ret. rewrite after_snoc. unfold kstep. cbn [fst snd]. by rewrite (proj2 (Z.leb_gt _ _)).
      * apply wp_bind, wp_sys, wp_ret. rewrite !after_snoc. unfold kstep. cbn [fst snd]. by rewrite (proj2 (Z.leb_le _ _)).
    + eapply wp_mono; [apply write_probes|]. intros ok h' ->. by destruct ok, (eqs path UPROBE_EVENTS).
  - eapply wp_mono; [apply write_probes|]. intros ok h' ->. by destruct ok, (eqs path UPROBE_EVENTS).
Qed.
End Kernel.

(** * The commands of tls *)

Definition tls_names : list bytes := probe_name <$> probe_targets.
Definition removal (name : bytes) : bytes := trunc 160 ("-:uprobes/" ++ name).

Ltac each_name H := unfold tls_names, probe_targets in H; cbn [fmap list_fmap] in H; rewrite ?elem_of_cons, ?elem_of_nil in H;
  repeat (destruct H as [->|H]; [|]); [..|destruct H].

Lemma tls_names_eq : probe_name <$> probe_targets = tls_names.
Proof. done. Qed.
Lemma tracing_other : eqs TRACE_ON UPROBE_EVENTS = false /\ eqs CURRENT_TRACER UPROBE_EVENTS = false.
Proof. done. Qed.
Lemma targets_fit : (length probe_targets <= MAX_PROBES)%nat.
Proof. cbv. lia. Qed.
Lemma probe_name_in t : t ∈ probe_targets -> probe_name t ∈ tls_names.
Proof. apply list_elem_of_fmap_2. Qed.
Lemma obey_removal name ps : name ∈ tls_names -> obey (removal name ++ NL) ps = ps ∖ {[name]}.
Proof. intros H. each_name H; vm_compute (removal _ ++ NL); reflexivity. Qed.
Lemma removal_name name : name ∈ tls_names -> line_of (drop 10 (removal name ++ NL)) = name.
Proof. intros H. each_name H; vm_compute; reflexivity. Qed.
Lemma removal_short name : name ∈ tls_names -> blen (removal name ++ NL) < 1024.
Proof. intros H. each_name H; reflexivity. Qed.
Lemma obey_line t lib off ps : t ∈ probe_targets -> obey (probe_line t (probe_name t) lib off ++ NL) ps = {[probe_name t]} ∪ ps.
Proof. intros H. each_name H; reflexivity. Qed.
Lemma probe_file_other name file : name ∈ tls_names -> eqs (probe_file name file) UPROBE_EVENTS = false.
Proof. intros H. each_name H; reflexivity. Qed.

(** [ps'] differs from [ps] at most in the names of [ns]. *)
Definition same_but (ns : list bytes) (ps ps' : gset bytes) : Prop := forall n, n ∉ ns -> n ∈ ps' <-> n ∈ ps.

Lemma same_but_refl ns ps : same_but ns ps ps.
Proof. by intros n. Qed.
Lemma same_but_trans ns ps1 ps2 ps3 : same_but ns ps1 ps2 -> same_but ns ps2 ps3 -> same_but ns ps1 ps3.
Proof. intros H1 H2 n Hn. by rewrite (H2 n Hn), (H1 n Hn). Qed.
Lemma same_but_weaken ns ns' ps ps' : ns ⊆ ns' -> same_but ns ps ps' -> same_but ns' ps ps'.
Proof. intros Hi H n Hn. apply H. set_solver. Qed.

(** The names [new] are those that a registration of the names [ns] has added,
    but for those of [seen]. *)
Definition new_probes (ns seen : list bytes) (ps ps' : gset bytes) (new : list bytes) : Prop :=
  (forall n, n ∈ new -> n ∈ ps' /\ n ∈ ns /\ n ∉ seen) /\ (forall n, n ∉ ns \/ n ∈ seen -> n ∈ ps' <-> n ∈ ps) /\
  (forall n, n ∈ ps' -> n ∈ ps \/ n ∈ new).
Lemma new_probes_nil seen ps : new_probes [] seen ps ps [].
Proof. split; [|split]; [intros n Hn; by apply elem_of_nil in Hn|done|by left]. Qed.
Lemma new_probes_skip name ns seen ps ps' new : new_probes ns seen ps ps' new -> new_probes (name :: ns) seen ps ps' new.
Proof.
  intros (H1&H2&H3). split; [|split]; [|intros n Hn; apply H2; rewrite not_elem_of_cons in Hn; tauto|done].
  intros n Hn. destruct (H1 n Hn) as (?&?&?). split_and!; [done|by right|done].
Qed.
(** A probe that has been removed, and whose definition fails or is taken. *)
Lemma new_probes_fail name ns seen ps ps1 ps' new : name ∉ seen -> same_but [name] ps ps1 -> ps1 ⊆ ps ->
  new_probes ns (seen ++ [name]) ps1 ps' new -> new_probes (name :: ns) seen ps ps' new.
Proof.
  intros Hs Hb Hi (H1&H2&H3). split; [|split].
  - intros n Hn. destruct (H1 n Hn) as (?&?&Hx). rewrite not_elem_of_app in Hx. split_and!; [done|by right|tauto].
  - intros n Hn. rewrite not_elem_of_cons in Hn. assert (n <> name) by (intros ->; tauto).
    rewrite <- (Hb n) by set_solver. apply H2. rewrite elem_of_app. tauto.
  - intros n Hn. destruct (H3 n Hn); [left; by apply Hi|by right].
Qed.
Lemma new_probes_add name ns seen ps ps1 ps' new : name ∉ seen -> same_but [name] ps ps1 -> ps1 ⊆ ps ->
  new_probes ns (seen ++ [name]) ({[name]} ∪ ps1) ps' new -> new_probes (name :: ns) seen ps ps' (name :: new).
Proof.
  intros Hs Hb Hi (H1&H2&H3). split; [|split].
  - intros n [->|Hn]%elem_of_cons.
    + split_and!; [|by left|done]. apply H2; [right; set_solver|set_solver].
    + destruct (H1 n Hn) as (?&?&Hx). rewrite not_elem_of_app in Hx. split_and!; [done|by right|tauto].
  - intros n Hn. rewrite not_elem_of_cons in Hn. assert (n <> name) by (intros ->; tauto).
    rewrite <- (Hb n), (H2 n) by (set_solver || (rewrite elem_of_app; tauto)). set_solver.
  - intros n Hn. rewrite elem_of_cons. destruct (H3 n Hn) as [[Hx|Hx]%elem_of_union|]; [|left; by apply Hi|tauto].
    apply elem_of_singleton in Hx. tauto.
Qed.

#[local] Opaque probe_targets tls_names probe_name probe_line removal probe_file UPROBE_EVENTS.

Section Steps.
Context (ps : gset bytes) (e : env (C := call)).
Abbreviation P h := (probes ps h).

(** A call that writes nothing. *)
Lemma other_call h c r : match c with WriteFd _ _ => False | _ => True end -> P (h ++ [(c, r)]) = P h.
Proof. intros Hc. unfold probes. rewrite after_snoc. unfold kstep. destruct c; try done; cbn [fst snd]; by destruct (0 <=? r). Qed.

Lemma wp_errno h (Q : Z -> calls -> Prop) : Q (errno_of h) h -> wp e h errno Q.
Proof. done. Qed.

(** The kernel lets tls open the list, and takes the removal of every probe of
    tls that is in it; that of one which is not there may be refused. *)
Definition takes_removals : Prop :=
  (forall h flags, 0 <= e h (OpenFlags UPROBE_EVENTS flags)) /\
  forall h fd name, name ∈ tls_names -> name ∈ P h -> k_files (foldl kstep (KState ∅ ps) h) !! fd = Some UPROBE_EVENTS ->
    e h (WriteFd fd (removal name ++ NL)) = blen (removal name ++ NL).

Lemma run_op_taken h name : takes_removals -> name ∈ tls_names -> name ∈ P h ->
  (run_op (Append UPROBE_EVENTS (removal name)) e h).1 = true.
Proof.
  intros [Ho Ht] Hn Hp. unfold run_op, append_to_file, mbind, sys_bind, sys. rewrite (proj2 (Z.ltb_ge _ _)) by apply Ho.
  rewrite (proj2 (Z.leb_gt _ _)) by by apply removal_short. cbn [fst]. set (c := OpenFlags _ _). set (fd := e h c).
  rewrite (Ht (h ++ [(c, fd)])); [apply Z.eqb_refl|done|by rewrite other_call|].
  rewrite after_snoc. unfold kstep, c. cbn [fst snd]. rewrite (proj2 (Z.leb_le _ _)) by apply Ho. cbn [k_files]. apply lookup_insert_eq.
Qed.

(** A write to a file of a probe changes nothing in the list. *)
Lemma run_file_op h op : match op with WriteStr p _ => eqs p UPROBE_EVENTS = false | _ => False end ->
  wp e h (run_op op) (fun _ h' => P h' = P h).
Proof.
  intros Hop. eapply wp_mono; [apply run_op_probes|]. intros ok h' ->. destruct ok, op; cbn [op_probes] in *; try done. by rewrite Hop.
Qed.
Lemma try_file_op strerror v h op what : match op with WriteStr p _ => eqs p UPROBE_EVENTS = false | _ => False end ->
  wp e h (try_op strerror v op what) (fun _ h' => P h' = P h).
Proof.
  intros Hop. unfold try_op. apply wp_bind. eapply wp_mono; [by apply run_file_op|]. intros ok h' Hp. by destruct ok.
Qed.

(** Disabling and removing a probe. *)
Lemma remove_spec h name : name ∈ tls_names -> wp e h (run_ops (remove_ops name)) (fun _ h' =>
  same_but [name] (P h) (P h') /\ P h' ⊆ P h /\ (takes_removals -> name ∉ P h')).
Proof.
  intros Hn. unfold remove_ops. cbn [run_ops]. apply wp_bind. eapply wp_mono; [apply run_file_op; by apply probe_file_other|].
  intros ok0 h1 H1. apply wp_bind.
  assert (H2 : wp e h1 (run_op (Append UPROBE_EVENTS (removal name))) (fun ok h2 =>
    P h2 = (if ok then op_probes (Append UPROBE_EVENTS (removal name)) (P h1) else P h1) /\
    (takes_removals -> name ∈ P h1 -> ok = true))).
  { split; [apply run_op_probes|]. intros Hk Hin. by apply run_op_taken. }
  eapply wp_mono; [exact H2|]. intros ok h2 [E Hk]. apply wp_ret. cbn [op_probes] in E.
  rewrite eqs_refl, obey_removal, H1 in E by done. rewrite E. rewrite H1 in Hk. destruct ok.
  - split_and!; [intros n Hne; set_solver|set_solver|set_solver].
  - split_and!; [apply same_but_refl|done|]. intros Hk' Hin. by specialize (Hk Hk' Hin).
Qed.

Lemma cleanup_spec regs : forall h, Forall (.∈ tls_names) regs -> wp e h (cleanup_uprobes regs) (fun _ h' =>
  same_but regs (P h) (P h') /\ P h' ⊆ P h /\ (takes_removals -> forall n, n ∈ regs -> n ∉ P h')).
Proof.
  assert (Happ : forall a b h, run_ops (a ++ b) e h = (run_ops a;; run_ops b) e h).
  { induction a as [|op a IHa]; intros b h; [done|]. cbn [app run_ops]. unfold mbind, sys_bind in *. destruct (run_op op e h). apply IHa. }
  induction regs as [|n regs IH]; intros h Hok; [apply wp_ret; split_and!; [apply same_but_refl|done|set_solver]|].
  apply Forall_cons in Hok as [Hn Hok].
  unfold cleanup_uprobes, wp in *. rewrite fmap_cons. change (mjoin (?x :: ?y)) with (x ++ mjoin y). rewrite Happ.
  pose proof (remove_spec h n) as Hrm. unfold wp, mbind, sys_bind in *. destruct (run_ops (remove_ops n) e h) as [[] h1].
  destruct Hrm as (S1&I1&R1); [done|]. destruct (IH h1) as (S2&I2&R2); [done|]. cbn [fst snd] in *. split_and!.
  - apply (same_but_trans _ _ (P h1)); [|by eapply same_but_weaken; [|exact S2]; set_solver].
    eapply same_but_weaken; [|exact S1]. set_solver.
  - set_solver.
  - intros Hk x [->|Hx]%elem_of_cons; [|by apply R2]. specialize (R1 Hk). set_solver.
Qed.

(** The registration: what is new is what is registered. *)
Lemma register_spec so strerror v lib ts : forall seen regs h, ts ⊆ probe_targets -> (length regs + length ts <= MAX_PROBES)%nat ->
  wp e h (register_go so strerror v lib ts seen regs) (fun r h' =>
    exists new, r.1 = regs ++ new /\ new_probes (probe_name <$> ts) seen (P h) (P h') new).
Proof.
  induction ts as [|t ts IH]; intros seen regs h Hts Hlen; cbn [register_go].
  { apply wp_ret. exists []. rewrite app_nil_r. split; [done|apply new_probes_nil]. }
  assert (Ht : t ∈ probe_targets) by (apply Hts; by left). assert (Hts' : ts ⊆ probe_targets) by (intros x Hx; apply Hts; by right).
  cbn [length] in Hlen. rewrite fmap_cons. pose proof (probe_name_in t Ht) as Hin.
  destruct (so (pt_symbol t)) as [off|].
  2: { apply wp_bind. eapply wp_mono; [apply IH; [done|lia]|]. intros r h' (new&E&H). apply wp_ret.
       exists new. split; [done|by apply new_probes_skip]. }
  destruct (existsb _ seen) eqn:Hs.
  { eapply wp_mono; [apply IH; [done|lia]|]. intros r h' (new&E&H). exists new. split; [done|by apply new_probes_skip]. }
  assert (Hseen : probe_name t ∉ seen).
  { intros Hx. apply not_true_iff_false in Hs. apply Hs. apply existsb_exists. exists (probe_name t).
    split; [by apply list_elem_of_In|apply eqs_refl]. }
  apply wp_bind. eapply wp_mono; [by apply remove_spec|]. intros u0 h1 (S1&I1&_).
  apply wp_bind. eapply wp_mono; [apply run_op_probes|]. intros ok h2 H2. cbn [op_probes] in H2. rewrite eqs_refl, obey_line in H2 by done.
  destruct ok; cbn [negb].
  - apply wp_bind. eapply wp_mono; [apply try_file_op; by apply probe_file_other|]. intros m1 h3 H3.
    apply wp_bind. apply (wp_mono _ _ _ (fun _ h' => P h' = P h2)).
    { destruct (pt_filter t); [by apply wp_ret|]. eapply wp_mono; [apply try_file_op; by apply probe_file_other|].
      intros ok1 h4 E4. by rewrite E4. }
    intros m2 h4 H4. apply wp_bind. rewrite (proj2 (Nat.ltb_lt _ _)) by lia.
    eapply wp_mono; [apply IH; [done|rewrite length_app; cbn; lia]|]. intros r h' (new&E&H). apply wp_ret.
    exists (probe_name t :: new). split; [cbn [fst]; by rewrite E, <- app_assoc|].
    apply (new_probes_add _ _ _ _ (P h1)); [done..|]. by rewrite H4, H2 in H.
  - apply wp_bind. apply wp_errno, wp_bind. eapply wp_mono; [apply IH; [done|lia]|]. intros r h' (new&E&H). apply wp_ret.
    exists new. split; [done|]. apply (new_probes_fail _ _ _ _ (P h1)); [done..|]. by rewrite <- H2.
Qed.
End Steps.

(** * The run *)

Section Run.
Context (o : os) (realpath : bytes -> option bytes) (resolve : bytes -> option bytes) (localtime : Z -> Z * Z * Z)
  (child : bytes -> list bytes -> option (list (option bytes))) (no_color : option bytes) (term : option bytes -> stream)
  (strerror : Z -> bytes) (version : bytes) (pipe : pipe_end).
Context (ps : gset bytes) (e : env (C := call)).

(** What a run that ends as [en] leaves in the list of probes [ps']. *)
Definition leaves (en : tls_end) (ps' : gset bytes) : Prop :=
  same_but tls_names ps ps' /\ (forall n, n ∈ ps' -> n ∈ ps \/ n ∈ te_regs en) /\
  (takes_removals ps e -> te_status en = 1 \/ (exists l, pipe = BySignal l) -> forall n, n ∈ te_regs en -> n ∉ ps') /\
  (te_status en = 0 -> forall l, pipe = AtEof l -> forall n, n ∈ te_regs en -> n ∈ ps').
Definition ends_well (r : outcome tls_end) (h : calls) : Prop := match r with Ok en => leaves en (probes ps h) | _ => True end.

Lemma leaves_none err ps' s : same_but tls_names ps ps' -> ps' ⊆ ps -> leaves (TlsEnd s [] [] err) ps'.
Proof. intros Hb Hi. split_and!; [done|by left; apply Hi|intros _ _ n Hn|intros _ l _ n Hn]; by apply elem_of_nil in Hn. Qed.

(** After the removal of what has been registered. *)
Lemma leaves_cleaned en ps1 ps' : new_probes tls_names [] ps ps1 (te_regs en) ->
  same_but (te_regs en) ps1 ps' -> ps' ⊆ ps1 -> (takes_removals ps e -> forall n, n ∈ te_regs en -> n ∉ ps') ->
  (te_status en = 0 -> exists l, pipe = BySignal l) -> leaves en ps'.
Proof using Type.
  intros (H1&H2&H3) Hb Hi Hr Hs. split_and!.
  - intros n Hn. rewrite <- (H2 n) by auto. apply Hb. intros Hx. by destruct (H1 n Hx) as (_&?&_).
  - intros n Hn. by apply H3, Hi.
  - intros Ht _. by apply Hr.
  - intros H0 l E. destruct (Hs H0) as [l' E']. congruence.
Qed.

Lemma tls_trace_leaves op color lib err h : probes ps h = ps ->
  wp e h (tls_trace o resolve localtime child strerror pipe op color lib err) ends_well.
Proof using Type.
  intros Hp. unfold tls_trace, register_uprobes. apply wp_bind.
  eapply wp_mono; [apply (register_spec ps e); [done|exact targets_fit]|]. intros [regs said] h1 (new&E&Hn). cbn [fst app] in E. subst new.
  rewrite Hp, tls_names_eq in Hn. destruct regs as [|x regs'] eqn:Eq.
  - apply wp_ret. destruct Hn as (_&H2&H3). apply leaves_none; [intros n Hn; by apply H2; left|].
    intros n Hn. destruct (H3 n Hn) as [|Hx]; [done|by apply elem_of_nil in Hx].
  - rewrite <- Eq in *. assert (Hne : regs <> []) by (by rewrite Eq).
    assert (Hreg : Forall (.∈ tls_names) regs) by (apply Forall_forall; intros n Hx; by destruct Hn as (H1&_); destruct (H1 n Hx) as (_&?&_)).
    clear Eq x regs'. apply wp_bind, wp_sys, wp_bind, wp_sys, wp_bind, wp_sys. set (h2 := _ ++ _).
    assert (E2 : probes ps h2 = probes ps h1) by (unfold h2; by rewrite !other_call). clearbody h2. clear Hp.
    destruct (_ <? 0).
    + apply wp_bind. eapply wp_mono; [by apply (cleanup_spec ps e)|]. intros u h3 (S1&I1&R1). apply wp_bind, wp_errno, wp_ret.
      rewrite E2 in *. by apply (leaves_cleaned (TlsEnd 1 regs [] _) (probes ps h1)).
    + destruct (tls_loop _ _ _ _ _ _) as [s| |]; [|done..]. destruct pipe as [lines|lines] eqn:Ep.
      * unfold on_sig. apply wp_bind, wp_bind. eapply wp_mono; [by apply (cleanup_spec ps e)|]. intros u h3 (S1&I1&R1). apply wp_ret, wp_ret.
        rewrite E2 in *. apply (leaves_cleaned (TlsEnd 0 regs _ _) (probes ps h1)); try done. intros _. by exists lines.
      * apply wp_bind, wp_sys, wp_ret. unfold ends_well. rewrite other_call, E2 by done. destruct Hn as (H1&H2&H3). split_and!.
        -- intros n Hx. apply H2. by left.
        -- done.
        -- intros _ [H0|[l H0]]; [discriminate H0|congruence].
        -- intros _ l _ n Hx. by destruct (H1 n Hx).
Qed.

(** C26. What tls leaves in the kernel.  Whatever the answers of the system, a
    run changes no probe but those that bear its names, and the list of probes
    at its end has none but those that were there and those that the run has
    registered.  When a signal ends it that its handler catches, SIGINT or
    SIGTERM while it reads the pipe, or when an error does, none of the probes
    that it has registered is left, as long as the kernel takes the removals of
    probes that are there; it may refuse those of probes that are not, which
    the registration asks for first; but when the trace pipe ends, all of them
    are left.  A signal before the handlers are installed, while the probes are
    registered, and any other signal, SIGPIPE and SIGHUP among them, end the
    process without this code: such an end is not a run here. *)
Theorem tls_main_leaves args :
  wp e [] (tls_main o realpath resolve localtime child no_color term strerror version pipe args) (fun r h =>
    match r with Ok en => leaves en (probes ps h) | _ => True end).
Proof using Type.
  unfold tls_main. destruct (t_parse_args args) as [[op| |m]| |]; try (apply wp_ret; by apply leaves_none); [|done..].
  apply wp_bind. apply (wp_mono _ _ _ (fun _ h => probes ps h = ps)).
  { destruct (to_out op); [by apply wp_ret|]. apply wp_sys. by rewrite (other_call ps []). }
  intros out h Hp. destruct (out <? 0); [apply wp_ret; rewrite Hp; by apply leaves_none|].
  destruct (match to_lib op with [] => _ | l => _ end) as [lib|]; [|apply wp_ret; rewrite Hp; by apply leaves_none].
  unfold tls_start. destruct tracing_other as [T1 T2].
  apply wp_bind. eapply wp_mono; [by apply (run_file_op ps e)|]. intros on h1 H1. destruct on; cbn [negb].
  - apply wp_bind. eapply wp_mono; [by apply (try_file_op ps e)|]. intros warn h2 H2.
    apply tls_trace_leaves. by rewrite H2, H1.
  - apply wp_bind, wp_errno, wp_ret. rewrite H1, Hp. by apply leaves_none.
Qed.
End Run.

(** A kernel that takes every write but the removal of a probe that is not in
    its list, [ENOENT], on a machine where the library has one of the
    functions. *)
Definition demo_probes : gset bytes := {[ bs "other" ]}.
Definition kernel_env : env (C := call) := fun h c =>
  match c with
  | OpenFile _ | OpenFlags _ _ => lowest_fd (files h)
  | WriteFd _ b => if has_prefix "-:uprobes/" b && bool_decide (line_of (drop 10 b) ∉ probes demo_probes h) then -2 else blen b
  | _ => 0
  end.
Definition tls_demo (p : pipe_end) : callM (outcome tls_end) :=
  tls_main tls_os (fun _ => None) (fun _ => None) (fun _ => (0, 0, 0))
    (fun _ _ => Some [Some ("0000000000036dc0 T SSL_write@@OPENSSL_3.0.0" ++ NL)]) None (fun _ => NullStream) (fun _ => []) "1" p
    [bs "-ql"; bs "/lib/libssl.so.3"].
Definition tls_left (p : pipe_end) : list bytes := elements (probes demo_probes (tls_demo p kernel_env []).2).
Example tls_demo_signal : tls_left (BySignal []) = [bs "other"].
Proof. vm_compute. reflexivity. Qed.
Example tls_demo_eof : tls_left (AtEof []) = [bs "other"; bs "tls_write_SSL_write"].
Proof. vm_compute. reflexivity. Qed.
(** The first removal is refused. *)
Example tls_demo_refused : In (WriteFd 3 (removal "tls_write_SSL_write" ++ NL), -2) (tls_demo (BySignal []) kernel_env []).2.
Proof. vm_compute. tauto. Qed.
Lemma kernel_env_removals : takes_removals demo_probes kernel_env.
Proof.
  split; [intros h fl; cbn; unfold lowest_fd; induction (files h); cbn; lia|].
  intros h fd name Hn Hp _. cbn [kernel_env]. rewrite removal_name, bool_decide_false by (done || tauto). by rewrite andb_false_r.
Qed.

Lemma tls_main_leaves_witness : takes_removals demo_probes kernel_env /\
  wp kernel_env [] (tls_demo (BySignal [])) (fun r h =>
    match r with Ok en => leaves (BySignal []) demo_probes kernel_env en (probes demo_probes h) | _ => True end).
Proof.
  split; [exact kernel_env_removals|]. unfold tls_demo. apply tls_main_leaves.
Defined.

(** The message for a pipe that does not open is made after the clean-up, whose
    own errors replace the number: here ENOENT is reported as EINVAL. *)
Definition no_pipe_env : env (C := call) := fun h c =>
  match c with
  | OpenFile p | OpenFlags p _ => if eqs p TRACE_PIPE then -2 else lowest_fd (files h)
  | WriteFd _ b => if has_prefix "-:" b then -22 else blen b
  | _ => 0
  end.
Example pipe_error_replaced :
  match (tls_main tls_os (fun _ => None) (fun _ => None) (fun _ => (0, 0, 0))
    (fun _ _ => Some [Some ("0000000000036dc0 T SSL_write@@OPENSSL_3.0.0" ++ NL)]) None (fun _ => NullStream) fmt_d "1" (AtEof [])
    [bs "-ql"; bs "/lib/libssl.so.3"] no_pipe_env []).1 with
  | Ok en => te_err en
  | _ => []
  end = "proc-trace-tls: open trace_pipe: 22" ++ NL.
Proof. vm_compute. reflexivity. Qed.
