(* ===== verification/Ca.v ===== *)
(** c/ca.c: the command line with its flags anywhere, the URL and the HTTP
    response of the certificate fetch, the chase of redirects, the chain of
    certificates and the choice of those to save. Here the exchange with a
    server and the certificates are parameters; CaRun has the calls. *)
From S2P Require Import Prelude CLib Common.

(** * The command line *)

(** [match_flag]: not this flag; a value in the same word; the next word is
    the value; a switch, with the text after [=] if any. *)
Inductive flag_match := NoMatch | Value (v : bytes) | NextWord | Switch (v : option bytes).

Definition match_flag (a name : bytes) (is_bool : bool) : flag_match :=
  match a with
  | d :: body0 =>
      if negb (eqc d "-") then NoMatch
      else
        let body := match body0 with e :: b => if eqc e "-" then b else body0 | [] => [] end in
        if has_prefix name body then
          match drop (length name) body with
          | [] => if is_bool then Switch None else NextWord
          | c :: v => if eqc c "=" then (if is_bool then Switch (Some v) else Value v) else NoMatch
          end
        else NoMatch
  | [] => NoMatch
  end.

(** [None]: the message of an invalid literal, exit status 1. *)
Definition parse_bool (v : option bytes) : option bool :=
  match v with
  | None => Some true
  | Some [] => Some true
  | Some s =>
      if existsb (eqs s) [bs "1"; bs "t"; bs "T"; bs "true"; bs "TRUE"; bs "True"] then Some true
      else if existsb (eqs s) [bs "0"; bs "f"; bs "F"; bs "false"; bs "FALSE"; bs "False"] then Some false
      else None
  end.

Record caopts := CaOpts {
  fPort : Z; fOutput : bytes; fFetchRoot : bool; fInsecure : bool; fAll : bool; fTimeout : Z; fShowVer : bool;
}.
Definition caopts0 : caopts := CaOpts 443 [] false false false 10 false.

(** A full decimal number, as an [int]. *)
Definition int_value (s : bytes) : option Z :=
  let r := strtol s in if st_conv r && eqs (st_rest r) [] then Some (i32 (st_val r)) else None.

Definition set_port (o : caopts) (v : Z) : caopts := CaOpts v (fOutput o) (fFetchRoot o) (fInsecure o) (fAll o) (fTimeout o) (fShowVer o).
Definition set_output (o : caopts) (v : bytes) : caopts := CaOpts (fPort o) v (fFetchRoot o) (fInsecure o) (fAll o) (fTimeout o) (fShowVer o).
Definition set_fetch (o : caopts) (b : bool) : caopts := CaOpts (fPort o) (fOutput o) b (fInsecure o) (fAll o) (fTimeout o) (fShowVer o).
Definition set_insecure (o : caopts) (b : bool) : caopts := CaOpts (fPort o) (fOutput o) (fFetchRoot o) b (fAll o) (fTimeout o) (fShowVer o).
Definition set_all (o : caopts) (b : bool) : caopts := CaOpts (fPort o) (fOutput o) (fFetchRoot o) (fInsecure o) b (fTimeout o) (fShowVer o).
Definition set_timeout (o : caopts) (v : Z) : caopts := CaOpts (fPort o) (fOutput o) (fFetchRoot o) (fInsecure o) (fAll o) v (fShowVer o).
Definition set_version (o : caopts) (b : bool) : caopts := CaOpts (fPort o) (fOutput o) (fFetchRoot o) (fInsecure o) (fAll o) (fTimeout o) b.

(** The flags in the order they are tried: the name, and what to do with the
    value ([None]: an error message and exit status 1). *)
Inductive ca_action := Bool (f : caopts -> bool -> caopts) | Val (f : caopts -> bytes -> option caopts).
Definition ca_flags : list (bytes * ca_action) :=
  [(bs "port", Val (fun o v => set_port o <$> int_value v));
   (bs "fetch-root", Bool set_fetch); (bs "insecure", Bool set_insecure); (bs "all", Bool set_all);
   (bs "version", Bool set_version);
   (bs "timeout", Val (fun o v => set_timeout o <$> int_value v));
   (bs "o", Val (fun o v => Some (set_output o v)))].

(** The first flag that matches a word. *)
Inductive ca_hit := HitBool (f : caopts -> bool -> caopts) (v : option bytes)
  | HitVal (f : caopts -> bytes -> option caopts) (name v : bytes) | HitNext (f : caopts -> bytes -> option caopts) (name : bytes).
Fixpoint find_flag (fs : list (bytes * ca_action)) (a : bytes) : option ca_hit :=
  match fs with
  | [] => None
  | (name, Bool f) :: fs' =>
      match match_flag a name true with Switch v => Some (HitBool f v) | _ => find_flag fs' a end
  | (name, Val f) :: fs' =>
      match match_flag a name false with
      | Value v => Some (HitVal f name v)
      | NextWord => Some (HitNext f name)
      | _ => find_flag fs' a
      end
  end.

(** How the scan ends: the options and the positional arguments (the first
    four), or an error. *)
Definition bad_bool (v : option bytes) : bytes := "invalid boolean value " ++ default [] v ++ " for flag" ++ ["010"%char].
Definition bad_value (name v : bytes) : bytes := "invalid value " ++ v ++ " for flag -" ++ name ++ ["010"%char].
Inductive ca_scan := Scanned (o : caopts) (pos : list bytes) | BadValue (msg : bytes) | Missing (name : bytes) | Unknown (a : bytes).
Fixpoint scan_ca (args : list bytes) (o : caopts) (pos : list bytes) : ca_scan :=
  match args with
  | [] => Scanned o pos
  | a :: rest =>
      match find_flag ca_flags a with
      | Some (HitBool f v) =>
          match parse_bool v with Some b => scan_ca rest (f o b) pos | None => BadValue (bad_bool v) end
      | Some (HitVal f name v) => match f o v with Some o' => scan_ca rest o' pos | None => BadValue (bad_value name v) end
      | Some (HitNext f name) =>
          match rest with
          | [] => Missing name
          | v :: rest' => match f o v with Some o' => scan_ca rest' o' pos | None => BadValue (bad_value name v) end
          end
      | None =>
          match a with
          | d :: _ :: _ => if eqc d "-" then Unknown a
                           else scan_ca rest o (if (length pos <? 4)%nat then pos ++ [a] else pos)
          | _ => scan_ca rest o (if (length pos <? 4)%nat then pos ++ [a] else pos)
          end
      end
  end.

(** [print_defaults], and the text of [usage_err]. *)
Definition default_text (flag desc : bytes) : bytes :=
  "  -" ++ flag ++ ["010"%char] ++ "    " ++ ["009"%char] ++ desc ++ ["010"%char].
Definition print_defaults : bytes :=
  default_text "all" "Save full chain including leaf certificate" ++
  default_text "fetch-root" "Fetch root CA via AIA URL" ++
  default_text "insecure" "Skip TLS certificate verification" ++
  default_text "o string" "Output file (default: <hostname>-ca.pem, use - for stdout)" ++
  default_text "port int" "TLS port to connect to (default 443)" ++
  default_text "timeout int" "Connection timeout in seconds (default 10)" ++
  default_text "version" "Print version and exit".
Definition ca_usage : bytes := "usage: tracep ca [flags] <hostname> [port]" ++ ["010"%char] ++ print_defaults.

(** What is fetched: the host and the port, once the positional arguments are
    checked. *)
Inductive ca_plan := ShowVersion | NoHost | BadPort (s : bytes) | Fetch (host : bytes) (port : Z) (o : caopts).
Definition plan (o : caopts) (pos : list bytes) : ca_plan :=
  if fShowVer o then ShowVersion
  else match pos with
       | [] => NoHost
       | [h] => Fetch h (fPort o) o
       | h :: p :: _ =>
           let r := strtol p in
           if negb (st_conv r) || negb (eqs (st_rest r) []) || (st_val r <? 1) || (65535 <? st_val r)
           then BadPort p else Fetch h (st_val r) (set_port o (st_val r))
       end.

(** * URLs *)

(** The arrays [scheme], [host] and [path] of the callers, and the one size
    that they pass. *)
Definition SCHEME_SZ : Z := 16.
Definition HOST_SZ : Z := 256.
Definition PATH_SZ : nat := 1024.

Record url_parts := Url { u_scheme : bytes; u_host : bytes; u_port : Z; u_path : bytes }.

(** [url_split(url, scheme, host, &port, path, sizeof path)]; [Ub] when it
    writes past the end of [scheme] or [host]. *)
Definition url_split (url : bytes) : outcome (option url_parts) :=
  match strstr url "://" with
  | None => Ok None
  | Some sl =>
      if (PATH_SZ <=? sl)%nat then Ok None
      else if SCHEME_SZ <? Z.of_nat sl + 1 then Ub
      else
        let scheme := take sl url in
        let https := eqs scheme "https" in
        if negb https && negb (eqs scheme "http") then Ok None
        else
          let h := drop (sl + 3) url in
          let slash := strchr h "/" in
          let hostend := match slash with Some i => i | None => length h end in
          let colon := strchr (take hostend h) ":" in
          let hl := match colon with Some i => i | None => hostend end in
          if (PATH_SZ <=? hl)%nat then Ok None
          else if HOST_SZ <? Z.of_nat hl + 1 then Ub
          else
            let port := match colon with Some i => atoi (drop (S i) h) | None => if https then 443 else 80 end in
            let path := match slash with Some i => trunc PATH_SZ (drop i h) | None => "/" end in
            Ok (Some (Url scheme (take hl h) port path))
  end.

(** * HTTP *)

Definition CRLF : bytes := ["013"%char; "010"%char].

(** The request; it fits in its 2048 bytes, since the host has at most 255 and
    the path at most 1023. *)
Definition request (u : url_parts) : bytes :=
  "GET " ++ u_path u ++ " HTTP/1.1" ++ CRLF ++ "Host: " ++ u_host u ++ CRLF ++ "User-Agent: tracep" ++ CRLF ++
  "Accept: */*" ++ CRLF ++ "Connection: close" ++ CRLF ++ CRLF.

Definition skip_lit (lit s : bytes) : option bytes := if has_prefix lit s then Some (drop (length lit) s) else None.
(** [sscanf(raw, "HTTP/%*d.%*d %d", status)], then without the minor version;
    0 when both fail. *)
Definition scan_status (raw : bytes) : Z :=
  match (s ← skip_lit "HTTP/" raw; r ← scan_int s; s ← skip_lit "." r.2; r ← scan_int s; scan_int r.2) with
  | Some (v, _) => i32 v
  | None =>
      match (s ← skip_lit "HTTP/" raw; r ← scan_int s; scan_int r.2) with Some (v, _) => i32 v | None => 0 end
  end.

(** [strncasecmp(l, "location:", 9) == 0] *)
Definition is_location (l : bytes) : bool := eqs (tolower <$> take 9 l) "location:".
Definition hblank (c : byte) : bool := eqc c " " || eqc c "009".

(** The lines of the header block, of [n] bytes before the empty line: the
    last [Location] wins. *)
Fixpoint scan_headers (fuel : nat) (l : bytes) (n : nat) (loccap : nat) (loc : bytes) : bytes :=
  match fuel with
  | O => loc
  | S f =>
      if (n =? 0)%nat then loc
      else match strstr l CRLF with
           | None => loc
           | Some nl =>
               if (n <? nl)%nat then loc
               else
                 let loc := if is_location l
                            then trunc loccap (ltrim hblank (take (nl - 9) (drop 9 l))) else loc in
                 if (n <=? nl + 2)%nat then loc
                 else scan_headers f (drop (nl + 2) l) (n - (nl + 2)) loccap loc
           end
  end.

(** The response: its status, its location, its body. [None]: it has no end of
    headers. The headers are read as a C string. *)
Definition parse_response (raw : bytes) (loccap : nat) : option (Z * bytes * bytes) :=
  let s := cstr raw in
  hdrend ← strstr s (CRLF ++ CRLF);
  Some (scan_status s, scan_headers (S (length s)) s hdrend loccap [], drop (hdrend + 4) raw).

Section Fetch.
(** The exchange with a server: connection, request, response; [None]: it
    fails, or nothing is received. *)
Context (exchange : url_parts -> option bytes).

Definition LOC_SZ : nat := 2048.

(** [http_get_once]; [None]: an error. *)
Definition http_get_once (url : bytes) : outcome (option (Z * bytes * bytes)) :=
  u ← url_split url;
  Ok (u ← u; raw ← exchange u; parse_response raw LOC_SZ).

(** The target of a redirect, relative to the current URL; [None]: the current
    URL cannot be split. *)
Definition redirect (cur loc : bytes) : outcome (option bytes) :=
  match strstr loc "://" with
  | Some _ => Ok (Some (trunc LOC_SZ loc))
  | None =>
      u ← url_split cur;
      Ok (u ← u;
          Some (trunc LOC_SZ (u_scheme u ++ "://" ++ u_host u ++ ":" ++ fmt_d (u_port u) ++
                              (match loc with c :: _ => if eqc c "/" then [] else "/" | [] => "/" end) ++ loc)))
  end.

(** The body that is parsed in the end: [None] after an error. *)
Fixpoint fetch_body (hops : nat) (cur body : bytes) : outcome (option bytes) :=
  match hops with
  | O => Ok (Some body)
  | S hops' =>
      r ← http_get_once cur;
      match r with
      | None => Ok None
      | Some (status, loc, body) =>
          if (300 <=? status) && (status <? 400) && negb (eqs loc []) then
            t ← redirect cur loc;
            match t with Some cur' => fetch_body hops' cur' body | None => Ok (Some body) end
          else Ok (Some body)
      end
  end.

(** [fetch_der_cert]: DER first, then PEM. *)
Context {X509 : Type} (d2i pem : bytes -> option X509).
Definition fetch_der_cert (url : bytes) : outcome (option X509) :=
  b ← fetch_body 10 (trunc LOC_SZ url) [];
  Ok (match b with
      | None | Some [] => None
      | Some body => match d2i body with Some c => Some c | None => pem body end
      end).
End Fetch.

(** * Certificates *)

Definition short_cn (cn : bytes) : bytes :=
  if (38 <? length cn)%nat then trunc 64 (take 35 cn ++ "...") else trunc 64 cn.

Section Certs.
(** A certificate: [X509_check_ca(c) == 1], [X509_check_issued(c, c)],
    [X509_cmp], the texts of [name_cn] for the subject and the issuer, of
    [not_after], and the URL of [aia_ca_issuer]. *)
Context {X509 : Type} (is_ca self_issued : X509 -> bool) (same : X509 -> X509 -> bool)
  (subject_cn issuer_cn expires : X509 -> bytes) (aia : X509 -> option bytes).

Definition cert_role (c : X509) (idx : nat) : bytes :=
  if (idx =? 0)%nat && negb (is_ca c) then "leaf"
  else if is_ca c && self_issued c then "root CA"
  else if is_ca c then "intermediate CA"
  else "unknown".

(** The leaf and the chain without it. *)
Definition presented (leaf : option X509) (chain : list X509) : list X509 :=
  match leaf with
  | None => chain
  | Some l => l :: match chain with c :: chain' => if same c l then chain' else chain | [] => [] end
  end.

Definition to_save (all : bool) (certs : list X509) : list X509 :=
  (imap (fun i c => (i, c)) certs) ≫= (fun ic => if all || (0 <? ic.1)%nat || is_ca ic.2 then [ic.2] else []).

Definition rule : bytes := mjoin (replicate 70 [chr 226; chr 148; chr 128]) ++ ["010"%char].
Definition cert_lines (i : nat) (c : X509) : bytes :=
  "  [" ++ fmt_d (Z.of_nat i) ++ "] " ++ pad_right 16 (cert_role c i) ++ " CN=" ++ pad_right 40 (short_cn (subject_cn c)) ++
  " IsCA=" ++ (if is_ca c then "true" else "false") ++ ["010"%char] ++
  "       Issuer : " ++ short_cn (issuer_cn c) ++ ["010"%char] ++
  "       Expires: " ++ expires c ++ ["010"%char] ++
  (match aia c with Some u => "       AIA    : " ++ u ++ ["010"%char] | None => [] end) ++ ["010"%char].
Definition chain_text (certs : list X509) : bytes :=
  "Chain received: " ++ fmt_d (blen certs) ++ " certificate(s)" ++ ["010"%char] ++ rule ++
  mjoin (imap cert_lines certs) ++ rule.

Definition out_path (output hostname : bytes) : bytes :=
  match output with [] => trunc 512 (hostname ++ "-ca.pem") | p => p end.
End Certs.
