(* ===== verification/CaProps.v ===== *)
(** What c/ca.c computes: flags are found anywhere on the command line, a URL
    is split into its parts or overruns the arrays of its caller, the parts of
    an HTTP response are recovered, and the certificates saved are the ones
    chosen. *)
From S2P Require Import Prelude CLib Common Ca.

(** * The command line *)

(** A flag as it may be written: with one or two dashes, its value after [=] or
    in the next word. *)
Inductive ca_item :=
  | IVal (dd eq : bool) (name v : bytes)
  | ISwitch (dd : bool) (name : bytes)
  | IPos (p : bytes).
Definition ca_words (i : ca_item) : list bytes :=
  match i with
  | IVal dd eq name v =>
      let f : bytes := (if dd then "--" else "-") ++ name in
      if eq then [f ++ "=" ++ v] else [f; v]
  | ISwitch dd name => [(if dd then "--" else "-") ++ name]
  | IPos p => [p]
  end.

Definition value_setter (name : bytes) : option (caopts -> bytes -> option caopts) :=
  if eqs name "port" then Some (fun o v => set_port o <$> int_value v)
  else if eqs name "timeout" then Some (fun o v => set_timeout o <$> int_value v)
  else if eqs name "o" then Some (fun o v => Some (set_output o v)) else None.
Definition switch_setter (name : bytes) : option (caopts -> bool -> caopts) :=
  if eqs name "fetch-root" then Some set_fetch
  else if eqs name "insecure" then Some set_insecure
  else if eqs name "all" then Some set_all
  else if eqs name "version" then Some set_version else None.

(** The options after an item, when it is a good one. *)
Definition item_opts (o : caopts) (i : ca_item) : option caopts :=
  match i with
  | IVal _ _ name v => f ← value_setter name; f o v
  | ISwitch _ name => f ← switch_setter name; Some (f o true)
  | IPos p => if match p with c :: _ :: _ => eqc c "-" | _ => false end then None else Some o
  end.
Fixpoint items_opts (o : caopts) (l : list ca_item) : option caopts :=
  match l with [] => Some o | i :: l' => o' ← item_opts o i; items_opts o' l' end.
Definition positionals (l : list ca_item) : list bytes := omap (fun i => match i with IPos p => Some p | _ => None end) l.

Definition flag_word (dd : bool) (name : bytes) : bytes := (if dd then "--" else "-") ++ name.

Lemma find_value dd name f v : value_setter name = Some f ->
  find_flag ca_flags (flag_word dd name ++ "=" ++ v) = Some (HitVal f name v) /\
  find_flag ca_flags (flag_word dd name) = Some (HitNext f name).
Proof.
  unfold value_setter. intros H.
  repeat match type of H with
    | (if eqs name ?n then _ else _) = _ =>
        let E := fresh in destruct (eqs name n) eqn:E; [apply eqs_true in E; subst name; injection H as <-; destruct dd; split; reflexivity|]
    end. done.
Qed.

Lemma find_switch dd name f : switch_setter name = Some f ->
  find_flag ca_flags (flag_word dd name) = Some (HitBool f None).
Proof.
  unfold switch_setter. intros H.
  repeat match type of H with
    | (if eqs name ?n then _ else _) = _ =>
        let E := fresh in destruct (eqs name n) eqn:E; [apply eqs_true in E; subst name; injection H as <-; destruct dd; reflexivity|]
    end. done.
Qed.

Lemma find_positional p : match p with c :: _ :: _ => eqc c "-" | _ => false end = false -> find_flag ca_flags p = None.
Proof.
  destruct p as [|c [|d p]]; [reflexivity| |]; intros H.
  - destruct (ascii_dec c "-") as [->|Hc]; [reflexivity|]. cbn [find_flag ca_flags match_flag].
    by rewrite (proj2 (eqc_false c "-")).
  - cbn [find_flag ca_flags match_flag]. by rewrite H.
Qed.

Definition add_pos (pos : list bytes) (p : bytes) : list bytes := if (length pos <? 4)%nat then pos ++ [p] else pos.

Lemma scan_item i o o' rest pos : item_opts o i = Some o' ->
  scan_ca (ca_words i ++ rest) o pos = scan_ca rest o' (foldl add_pos pos (positionals [i])).
Proof.
  destruct i as [dd eq name v|dd name|p]; cbn [item_opts].
  - destruct (value_setter name) as [f|] eqn:Ef; [|done]. cbn [mbind option_bind]. intros Ho.
    destruct (find_value dd name f v Ef) as [H1 H2]. cbn [ca_words]. fold (flag_word dd name).
    destruct eq; cbn [app scan_ca]; rewrite ?H1, ?H2, Ho; done.
  - destruct (switch_setter name) as [f|] eqn:Ef; [|done]. cbn [mbind option_bind]. intros [= <-].
    cbn [ca_words]. fold (flag_word dd name). cbn [app scan_ca]. by rewrite (find_switch dd name f Ef).
  - destruct (match p with c :: _ :: _ => eqc c "-" | _ => false end) eqn:E; [done|]. intros [= <-].
    cbn [ca_words app scan_ca]. rewrite find_positional by done.
    destruct p as [|c [|d p]]; [done|done|]. by rewrite E.
Qed.

Lemma add_pos_all l : foldl add_pos [] l = take 4 l.
Proof.
  assert (H : forall pos, (length pos <= 4)%nat -> foldl add_pos pos l = pos ++ take (4 - length pos) l).
  { induction l as [|p l IH]; intros pos Hl; [by rewrite take_nil, app_nil_r|]. cbn [foldl]. unfold add_pos at 2.
    destruct (length pos <? 4)%nat eqn:E; [apply Nat.ltb_lt in E|apply Nat.ltb_ge in E].
    - rewrite IH by (rewrite length_app; cbn; lia). rewrite length_app, <- app_assoc. cbn [length].
      replace (4 - length pos)%nat with (S (4 - (length pos + 1)))%nat by lia. done.
    - rewrite IH by done. by replace (4 - length pos)%nat with 0%nat by lia. }
  apply H. cbn. lia.
Qed.

Lemma scan_items items o :
  items_opts caopts0 items = Some o ->
  scan_ca (mjoin (ca_words <$> items)) caopts0 [] = Scanned o (take 4 (positionals items)).
Proof.
  rewrite <- add_pos_all. generalize caopts0 as o0, (@nil bytes) as pos.
  induction items as [|i items IH]; intros o0 pos; cbn [items_opts].
  - intros [= <-]. done.
  - destruct (item_opts o0 i) as [o1|] eqn:E; [|done]. cbn [mbind option_bind]. intros Ho.
    rewrite fmap_cons. change (mjoin (?x :: ?y)) with (x ++ mjoin y). rewrite (scan_item i o0 o1) by done.
    rewrite (IH _ _ Ho). rewrite <- foldl_app. f_equal. f_equal. by destruct i.
Qed.

(** The flags of ca may stand before, between or after the positional
    arguments, with one dash or two, and with their values after an equals
    sign or in the next word: any sequence of good flags and positional
    arguments is read as those flags in order and the first four of those
    arguments. *)
Theorem ca_args_parsed items o :
  items_opts caopts0 items = Some o ->
  scan_ca (mjoin (ca_words <$> items)) caopts0 [] = Scanned o (take 4 (positionals items)).
Proof. apply scan_items. Qed.

Lemma ca_args_parsed_witness :
  scan_ca (mjoin (ca_words <$> [IPos "github.com"; IVal false false "o" "-"; ISwitch true "all"; IVal false true "port" "8443"])) caopts0 []
  = Scanned (CaOpts 8443 "-" false false true 10 false) (take 4 (positionals
      [IPos "github.com"; IVal false false "o" "-"; ISwitch true "all"; IVal false true "port" "8443"])).
Proof.
  apply (ca_args_parsed [IPos "github.com"; IVal false false "o" "-"; ISwitch true "all"; IVal false true "port" "8443"]).
  reflexivity.
Defined.

(** * URLs *)

(** The text of a URL, with any text after a colon behind the host, or with a
    port number there. *)
Definition authority_text (scheme host : bytes) (after : option bytes) (path : bytes) : bytes :=
  scheme ++ "://" ++ host ++ (match after with Some t => ":" ++ t | None => [] end) ++ path.
Definition url_text (scheme host : bytes) (port : option Z) (path : bytes) : bytes :=
  authority_text scheme host (fmt_d <$> port) path.
Definition host_ok (host : bytes) : Prop := ":"%char ∉ host /\ "/"%char ∉ host.
Definition path_ok (path : bytes) : Prop := match path with [] => True | c :: _ => c = "/"%char end.

Definition after_ok (after : option bytes) : Prop := match after with Some t => "/"%char ∉ t | None => True end.

Lemma url_host_port host after path : host_ok host -> after_ok after -> path_ok path ->
  let pp : bytes := match after with Some t => ":" ++ t | None => [] end in
  let h := host ++ pp ++ path in
  let hostend := match strchr h "/" with Some i => i | None => length h end in
  hostend = length (host ++ pp) /\ take hostend h = host ++ pp /\ drop hostend h = path /\
  (strchr h "/" = None <-> path = []).
Proof.
  intros [Hc Hs] Ha Hp pp h hostend.
  assert (Hpp : "/"%char ∉ pp).
  { unfold pp. destruct after; [|apply not_elem_of_nil]. rewrite not_elem_of_app. split; [set_solver|exact Ha]. }
  assert (He : hostend = length (host ++ pp) /\ (strchr h "/" = None <-> path = [])).
  { unfold hostend, h. destruct path as [|c path].
    - rewrite app_nil_r. rewrite (proj2 (strchr_None _ _)) by set_solver. done.
    - cbn in Hp. subst c. rewrite app_assoc, strchr_app by set_solver. done. }
  destruct He as [He Hn]. rewrite He. split_and!; [done| | |done]; unfold h; rewrite app_assoc; [apply take_app_length|apply drop_app_length].
Qed.

(** The parse of a well-formed URL, up to the sizes of the arrays. *)
Lemma url_split_eq scheme host after path :
  scheme = bs "https" \/ scheme = bs "http" -> host_ok host -> after_ok after -> path_ok path -> (length host < PATH_SZ)%nat ->
  url_split (authority_text scheme host after path) =
    if HOST_SZ <? blen host + 1 then Ub
    else Ok (Some (Url scheme host
      (match after with Some t => atoi (t ++ path) | None => if eqs scheme "https" then 443 else 80 end)
      (match path with [] => bs "/" | _ => trunc PATH_SZ path end))).
Proof.
  intros Hsch Hh Ha Hp Hl. unfold url_split, authority_text.
  assert (Hcol : ":"%char ∉ scheme) by (destruct Hsch as [-> | ->]; apply strchr_None; reflexivity).
  rewrite strstr_first by (cbn; done).
  assert (Hsl : (length scheme = 4 \/ length scheme = 5)%nat) by (destruct Hsch as [-> | ->]; cbn; lia).
  rewrite (proj2 (Nat.leb_gt _ _)) by (unfold PATH_SZ; lia). rewrite (proj2 (Z.ltb_ge SCHEME_SZ _)) by (unfold SCHEME_SZ; lia).
  rewrite take_app_length, (app_assoc scheme (bs "://")), drop_app_length' by (rewrite length_app; reflexivity).
  replace (negb (eqs scheme "https") && negb (eqs scheme "http")) with false by (by destruct Hsch as [-> | ->]).
  destruct (url_host_port host after path Hh Ha Hp) as (He&Ht&Hd&Hn). cbv zeta in *.
  set (pp := match after with Some t => ":" ++ t | None => [] end) in *. rewrite Ht.
  assert (Hcolon : strchr (host ++ pp) ":" = match after with Some _ => Some (length host) | None => None end).
  { unfold pp. destruct after; [apply strchr_app; apply Hh|]. rewrite app_nil_r. by apply strchr_None, Hh. }
  rewrite Hcolon.
  assert (Hhl : match (match after with Some _ => Some (length host) | None => None end) with
     | Some i => i | None => match strchr (host ++ pp ++ path) "/" with Some i => i | None => length (host ++ pp ++ path) end end = length host).
  { destruct after; [done|]. rewrite He. unfold pp. by rewrite app_nil_r. }
  rewrite Hhl. rewrite (proj2 (Nat.leb_gt _ _)) by done. unfold blen. destruct (HOST_SZ <? Z.of_nat (length host) + 1); [done|].
  rewrite take_app_length. f_equal. f_equal. f_equal.
  - unfold pp. destruct after as [t|]; [|done]. f_equal. change (bs ":") with [":"%char]. cbn [app]. apply drop_snoc_eq.
  - destruct path as [|c path].
    + by rewrite (proj2 Hn).
    + destruct (strchr (host ++ pp ++ c :: path) "/") as [i|] eqn:Es; [by rewrite Hd|]. exfalso. pose proof (proj1 Hn eq_refl). congruence.
Qed.

Lemma path_no_digit path : path_ok path -> forall c s', path = c :: s' -> 10 <= digit_val c.
Proof. intros Hp c s' ->. cbn in Hp. by subst c. Qed.

Lemma atoi_port p path : 0 <= p <= 65535 -> path_ok path -> atoi (fmt_d p ++ path) = p.
Proof.
  intros Hp Hk. unfold atoi. rewrite strtol_fmt_d by (try apply path_no_digit; unfold LONG_MIN, LONG_MAX; lia || done).
  cbn [st_val]. apply (swrap_small 32); lia.
Qed.

Lemma fmt_after port : after_ok (fmt_d <$> port).
Proof. destruct port; [|done]. by apply fmt_d_not_in. Qed.

(** C33. The URL of an issuer. For a host without a colon of at most 255 bytes,
    url_split recovers the scheme, the host, the port, with its default, and
    the path, up to 1023 bytes of it, of every http or https URL; it writes past
    the 256 bytes of the array of the host on every longer one below 1024
    bytes, since its only size is that of the path. The first colon ends the
    host, whatever follows it: an IPv6 literal in brackets is cut there, so
    that [http://[::1]/] names the host "[" and the port 0. *)
Theorem url_split_parses scheme host path :
  scheme = bs "https" \/ scheme = bs "http" -> host_ok host -> path_ok path -> (length host < PATH_SZ)%nat ->
  let parts port := if 255 <? blen host then Ub
    else Ok (Some (Url scheme host port (match path with [] => bs "/" | _ => take 1023 path end))) in
  url_split (scheme ++ "://" ++ host ++ path) = parts (if eqs scheme "https" then 443 else 80) /\
  (forall port, 0 <= port <= 65535 -> url_split (scheme ++ "://" ++ host ++ ":" ++ fmt_d port ++ path) = parts port) /\
  (forall after, "/"%char ∉ after -> url_split (scheme ++ "://" ++ host ++ ":" ++ after ++ path) = parts (atoi (after ++ path))).
Proof.
  intros Hsch Hh Hp Hl parts.
  assert (Hall : forall host after, host_ok host -> after_ok after -> (length host < PATH_SZ)%nat ->
    url_split (authority_text scheme host after path) = if 255 <? blen host then Ub
      else Ok (Some (Url scheme host (match after with Some t => atoi (t ++ path) | None => if eqs scheme "https" then 443 else 80 end)
        (match path with [] => bs "/" | _ => take 1023 path end)))).
  { intros host' after Hh' Ha' Hl'. rewrite url_split_eq by done. unfold HOST_SZ.
    replace (256 <? blen host' + 1) with (255 <? blen host')
      by (destruct (Z.ltb_spec 255 (blen host')), (Z.ltb_spec 256 (blen host' + 1)); lia || done). done. }
  split; [exact (Hall host None Hh I Hl)|]. split.
  - intros port Hport. pose proof (Hall host (Some (fmt_d port)) Hh (fmt_after (Some port)) Hl) as H. unfold authority_text in H.
    rewrite <- !app_assoc, atoi_port in H by done. exact H.
  - intros after Ha. pose proof (Hall host (Some after) Hh Ha Hl) as H. unfold authority_text in H.
    rewrite <- !app_assoc in H. exact H.
Qed.

Lemma url_split_parses_witness :
  url_split ("http" ++ "://" ++ "ca.example" ++ ":" ++ fmt_d 8080 ++ "/root.der") = Ok (Some (Url "http" "ca.example" 8080 "/root.der")) /\
  url_split ("http" ++ "://" ++ replicate 300 "h"%char ++ "/") = Ub /\
  url_split ("http" ++ "://" ++ "[" ++ ":" ++ ":1]" ++ "/") = Ok (Some (Url "http" "[" 0 "/")).
Proof.
  assert (Hok : host_ok "ca.example") by (split; apply strchr_None; reflexivity).
  assert (Hlong : host_ok (replicate 300 "h"%char)) by (split; apply strchr_None; reflexivity).
  assert (Hsix : host_ok "[") by (split; apply strchr_None; reflexivity).
  destruct (url_split_parses "http" "ca.example" "/root.der") as (_&H1&_); [by right|done|done|vm_compute; lia|].
  destruct (url_split_parses "http" (replicate 300 "h"%char) "/") as (H2&_&_); [by right|done|done|apply Nat.ltb_lt; reflexivity|].
  destruct (url_split_parses "http" "[" "/") as (_&_&H3); [by right|done|done|vm_compute; lia|].
  split; [|split].
  - rewrite (H1 8080) by lia. reflexivity.
  - rewrite H2. reflexivity.
  - rewrite (H3 ":1]") by (apply strchr_None; reflexivity). reflexivity.
Defined.

(** A redirect to an absolute path stays on the server that sent it: the
    URL that is fetched next has the scheme, the host and the port of the
    current one, whatever its path was, and the location as its path. *)
Theorem redirect_same_server scheme host port path loc :
  scheme = bs "https" \/ scheme = bs "http" -> host_ok host -> path_ok path -> (length host <= 255)%nat ->
  0 <= port <= 65535 -> strstr loc "://" = None -> head loc = Some "/"%char -> (length loc <= 1023)%nat ->
  exists t, redirect (url_text scheme host (Some port) path) loc = Ok (Some t) /\
    url_split t = Ok (Some (Url scheme host port loc)).
Proof.
  intros Hsch Hh Hp Hl Hport Hloc Hhd Hll. exists (url_text scheme host (Some port) loc).
  assert (Hcur : forall q, path_ok q -> url_split (url_text scheme host (Some port) q) =
    Ok (Some (Url scheme host port (match q with [] => bs "/" | _ => take 1023 q end)))).
  { intros q Hq. unfold url_text. rewrite url_split_eq; [|done|done|apply fmt_after|done|unfold PATH_SZ; lia]. unfold HOST_SZ.
    rewrite (proj2 (Z.ltb_ge _ _)) by (unfold blen; lia). cbn [fmap option_fmap option_map]. by rewrite atoi_port. }
  destruct loc as [|c loc]; [done|]. cbn in Hhd. injection Hhd as ->. split.
  - unfold redirect. rewrite Hloc, Hcur by done. rewrite ok_bind. cbn [mbind option_bind u_scheme u_host u_port]. f_equal. f_equal.
    change (eqc "/" "/") with true. cbn [app]. unfold url_text, authority_text. cbn [fmap option_fmap option_map]. rewrite <- app_assoc. change (bs ":") with [":"%char].
    unfold trunc. rewrite take_ge; [done|].
    pose proof (fmt_d_length 6 port ltac:(lia) ltac:(lia)). rewrite !length_app. cbn [length] in *. unfold LOC_SZ.
    destruct Hsch as [-> | ->]; cbn [length bs]; rewrite ?length_app; cbn; lia.
  - rewrite Hcur by done. by rewrite take_ge.
Qed.

Lemma redirect_same_server_witness :
  exists t, redirect (url_text "http" "ca.example" (Some 80) "/old/path") "/new.der" = Ok (Some t) /\
    url_split t = Ok (Some (Url "http" "ca.example" 80 "/new.der")).
Proof.
  apply (redirect_same_server "http" "ca.example" 80 "/old/path" "/new.der"); try done; try (cbn; lia); [by right|].
  split; apply strchr_None; reflexivity.
Defined.

(** * Responses *)

Definition CR : byte := "013"%char.

(** The head of a response, its lines separated by CR LF. *)
Fixpoint head_text (l : bytes) (ls : list bytes) : bytes :=
  match ls with [] => l | l' :: ls' => l ++ CRLF ++ head_text l' ls' end.
Definition line_ok (l : bytes) : Prop := CR ∉ l /\ NUL ∉ l.
(** The value of a [Location] header, of at most 2047 bytes. *)
Definition loc_value (l : bytes) : option bytes :=
  if is_location l then Some (trunc LOC_SZ (ltrim hblank (drop 9 l))) else None.
Definition location_of (ls : list bytes) : bytes := default [] (last (omap loc_value ls)).

Definition status_line (major minor status : Z) (reason : bytes) : bytes :=
  "HTTP/" ++ fmt_d major ++ "." ++ fmt_d minor ++ " " ++ fmt_d status ++ reason.
Definition response (start : bytes) (headers : list bytes) (body : bytes) : bytes :=
  head_text start headers ++ CRLF ++ CRLF ++ body.

Lemma strstr_skip l c p t : c ∉ l -> strstr (l ++ t) (c :: p) = (fun i => (length l + i)%nat) <$> strstr t (c :: p).
Proof.
  intros Hc. induction l as [|x l IH]; [cbn [app length]; by destruct (strstr t (c :: p))|]. apply not_elem_of_cons in Hc as [Hx Hl].
  cbn [app strstr has_prefix]. rewrite (proj2 (eqc_false c x)) by done. cbn [andb]. rewrite IH by done.
  by destruct (strstr t (c :: p)).
Qed.

Lemma strstr_step p c s : has_prefix p (c :: s) = false -> strstr (c :: s) p = S <$> strstr s p.
Proof. intros H. cbn [strstr]. rewrite H. by destruct (strstr s p). Qed.

(** The end of the headers is the empty line after them. *)
Lemma head_end l ls body : line_ok l -> Forall line_ok ls -> Forall (.≠ []) ls ->
  strstr (head_text l ls ++ CRLF ++ CRLF ++ body) (CRLF ++ CRLF) = Some (length (head_text l ls)).
Proof.
  intros Hl Hls Hne. revert l Hl. induction ls as [|l' ls IH]; intros l [Hl _]; cbn [head_text].
  - change (CRLF ++ CRLF ++ body) with ((CRLF ++ CRLF) ++ body). by apply strstr_first.
  - apply Forall_cons in Hls as [Hl' Hls]. apply Forall_cons in Hne as [Hn' Hne].
    rewrite <- !app_assoc. change (CRLF ++ CRLF) with (CR :: ["010"%char; CR; "010"%char]).
    rewrite strstr_skip by done.
    assert (Hh : exists c r, head_text l' ls ++ CRLF ++ CRLF ++ body = c :: r /\ c <> CR).
    { destruct l' as [|c l']; [done|]. exists c. destruct Hl' as [Hl' _]. apply not_elem_of_cons in Hl' as [Hc _].
      destruct ls; cbn [head_text]; eexists; (split; [reflexivity|done]). }
    destruct Hh as (c&r&Hh&Hc). pose proof (IH Hls Hne l' Hl') as HI. rewrite Hh in HI |- *.
    change (CRLF ++ c :: r) with (CR :: "010"%char :: c :: r). change (CRLF ++ CRLF) with (CR :: ["010"%char; CR; "010"%char]) in HI.
    rewrite strstr_step; [rewrite strstr_step; [rewrite HI|]|].
    + cbn [fmap option_fmap option_map]. f_equal. rewrite !length_app. cbn [length CRLF]. lia.
    + reflexivity.
    + cbn [has_prefix]. rewrite (proj2 (eqc_false CR c)) by done. reflexivity.
Qed.

Lemma cstr_head l ls t : line_ok l -> Forall line_ok ls -> cstr (head_text l ls ++ t) = head_text l ls ++ cstr t.
Proof.
  intros Hl Hls. assert (Hn : NUL ∉ head_text l ls).
  { revert l Hl. induction Hls as [|l' ls Hl' Hls IH]; intros l [_ Hl]; cbn [head_text]; [done|].
    rewrite !not_elem_of_app. split_and!; [done| |by apply IH]. apply strchr_None. reflexivity. }
  induction (head_text l ls) as [|c s IH]; [done|]. apply not_elem_of_cons in Hn as [Hc Hs]. cbn [app cstr].
  rewrite (proj2 (eqc_false c NUL)) by done. by rewrite IH.
Qed.

Lemma is_location_app l t : is_location (l ++ CRLF ++ t) = is_location l.
Proof.
  unfold is_location. destruct (decide (9 <= length l)%nat) as [H|H]; [by rewrite take_app_le by done|].
  assert (Hf : forall s : bytes, CR ∈ s \/ length s <> 9%nat -> eqs (tolower <$> s) "location:" = false).
  { intros s Hs. apply eqs_false. intros E. destruct Hs as [Hs|Hs]; [|apply Hs; by rewrite <- (length_fmap tolower s), E].
    apply (list_elem_of_fmap_2 tolower) in Hs. rewrite E in Hs. revert Hs. apply strchr_None. reflexivity. }
  rewrite !Hf; [done| |].
  - right. rewrite length_take. lia.
  - left. rewrite take_app_ge by lia. apply elem_of_app. right.
    replace (9 - length l)%nat with (S (8 - length l)) by lia. apply elem_of_cons. by left.
Qed.

Lemma location_at l t : is_location l = true -> take (length l - 9) (drop 9 (l ++ t)) = drop 9 l.
Proof.
  intros H. assert (9 <= length l)%nat.
  { unfold is_location in H. apply eqs_true in H. apply (f_equal length) in H. rewrite length_fmap, length_take in H. change (length (bs "location:")) with 9%nat in H. lia. }
  rewrite drop_app_le by done. apply take_app_length'. by rewrite length_drop.
Qed.

Definition upd_loc (loc l : bytes) : bytes := default loc (loc_value l).

Lemma scan_headers_all l ls t fuel loc : (length (head_text l ls) < fuel)%nat ->
  line_ok l -> Forall line_ok ls -> Forall (.≠ []) ls ->
  scan_headers fuel (head_text l ls ++ CRLF ++ t) (length (head_text l ls)) LOC_SZ loc = foldl upd_loc loc (l :: ls).
Proof.
  intros Hf Hl Hls Hne. revert l t fuel loc Hl Hf. induction ls as [|l' ls IH]; intros l t fuel loc Hl Hf.
  - cbn [head_text foldl] in *. destruct fuel as [|fuel]; [lia|]. cbn [scan_headers].
    destruct (Nat.eqb_spec (length l) 0) as [H0|_]; [by apply nil_length_inv in H0; subst l|].
    rewrite strstr_first by apply Hl. rewrite Nat.ltb_irrefl, is_location_app, (proj2 (Nat.leb_le _ _)) by lia.
    unfold upd_loc, loc_value. destruct (is_location l) eqn:E; [|done]. by rewrite location_at.
  - apply Forall_cons in Hls as [Hl' Hls]. apply Forall_cons in Hne as [Hn' Hne].
    cbn [head_text] in *. rewrite !length_app in *. cbn [length CRLF] in *.
    assert (Hp : (0 < length (head_text l' ls))%nat).
    { destruct ls; cbn [head_text]; rewrite ?length_app; destruct l'; cbn; done || lia. }
    destruct fuel as [|fuel]; [lia|]. cbn [scan_headers].
    rewrite (proj2 (Nat.eqb_neq _ _)) by lia. rewrite <- !app_assoc. rewrite strstr_first by apply Hl.
    rewrite (proj2 (Nat.ltb_ge _ _)), is_location_app, (proj2 (Nat.leb_gt _ _)) by lia.
    match goal with |- scan_headers _ _ _ _ ?u = _ => assert (Hu : u = upd_loc loc l) end.
    { unfold upd_loc, loc_value. destruct (is_location l) eqn:E; [|done]. by rewrite location_at. }
    rewrite Hu. replace (length l + 2)%nat with (length (l ++ CRLF)) by (rewrite length_app; done).
    rewrite (app_assoc l CRLF), drop_app_length.
    replace (length l + (2 + length (head_text l' ls)) - length (l ++ CRLF))%nat with (length (head_text l' ls))
      by (rewrite length_app; cbn [length CRLF]; lia).
    rewrite IH by (done || lia). done.
Qed.

Lemma upd_loc_all ls loc : foldl upd_loc loc ls = default loc (last (omap loc_value ls)).
Proof.
  induction ls as [|l ls IH] using rev_ind; [done|]. rewrite foldl_snoc, IH, omap_app. unfold upd_loc.
  destruct (loc_value l) as [v|] eqn:E; cbn [omap list_omap]; rewrite E; [by rewrite last_snoc|by rewrite app_nil_r].
Qed.

Lemma scan_int_fmt_d v c t : LONG_MIN <= v <= LONG_MAX -> 10 <= digit_val c -> scan_int (fmt_d v ++ c :: t) = Some (v, c :: t).
Proof. intros Hv Hc. unfold scan_int. rewrite strtol_fmt_d; [done|done|]. by intros ? ? [= <- <-]. Qed.

Lemma scan_int_blank s : scan_int (" "%char :: s) = scan_int s.
Proof.
  unfold scan_int, strtol. change (ltrim is_space (" "%char :: s)) with (ltrim is_space s).
  destruct (read_sign (ltrim is_space s)) as [neg s1]. by destruct (read_digits 10 s1 0 0) as [[v [|n]] rest].
Qed.

Lemma skip_lit_app lit s : skip_lit lit (lit ++ s) = Some s.
Proof. unfold skip_lit. by rewrite has_prefix_app, drop_app_length. Qed.

Lemma scan_status_line major minor status reason t :
  0 <= major <= 9 -> 0 <= minor <= 9 -> 0 <= status < 1000 ->
  match reason with c :: _ => c = " "%char | [] => True end ->
  scan_status (status_line major minor status reason ++ CRLF ++ t) = status.
Proof.
  intros Hma Hmi Hst Hr. unfold scan_status, status_line. rewrite <- !app_assoc.
  rewrite !skip_lit_app. cbn [mbind option_bind].
  change (bs ".") with ["."%char]. change (bs " ") with [" "%char]. cbn [app].
  rewrite scan_int_fmt_d by first [unfold LONG_MIN, LONG_MAX; lia|done]. cbn [mbind option_bind snd].
  change (skip_lit ["."%char] ("."%char :: ?x)) with (Some x). cbn [mbind option_bind].
  assert (Hc : exists c r, reason ++ CRLF ++ t = c :: r /\ 10 <= digit_val c).
  { destruct reason as [|c reason]; [by exists CR; eexists; split|].
    subst c. eexists _, _. by split. }
  destruct Hc as (c&r&->&Hc). rewrite scan_int_fmt_d by first [unfold LONG_MIN, LONG_MAX; lia|done].
  cbn [mbind option_bind snd]. rewrite scan_int_blank, scan_int_fmt_d by (done || unfold LONG_MIN, LONG_MAX; lia).
  apply (swrap_small 32); lia.
Qed.

(** C32. The parse of an HTTP response recovers what the server sent: the
    status, the value of the last Location header, whatever its case, and the
    body, which may hold any byte, an empty line or a NUL included. *)
Theorem parse_response_reads major minor status reason headers body :
  0 <= major <= 9 -> 0 <= minor <= 9 -> 0 <= status < 1000 ->
  match reason with c :: _ => c = " "%char | [] => True end ->
  line_ok reason -> Forall line_ok headers -> Forall (.≠ []) headers ->
  parse_response (response (status_line major minor status reason) headers body) LOC_SZ =
    Some (status, location_of headers, body).
Proof.
  intros Hma Hmi Hst Hr Hre Hh Hne. set (start := status_line major minor status reason).
  assert (Hfmt : forall v, CR ∉ fmt_d v /\ NUL ∉ fmt_d v) by (intros v; split; apply fmt_d_not_in; done).
  assert (Hs : line_ok start).
  { unfold line_ok, start, status_line. rewrite !not_elem_of_app.
    destruct (Hfmt major), (Hfmt minor), (Hfmt status), Hre. split; split_and!; try done; apply strchr_None; reflexivity. }
  unfold parse_response, response. rewrite cstr_head by done.
  change (cstr (CRLF ++ CRLF ++ body)) with (CRLF ++ CRLF ++ cstr body).
  rewrite head_end by done. cbn [mbind option_bind]. f_equal. f_equal; [f_equal|].
  - destruct headers as [|h headers]; cbn [head_text]; rewrite <- ?app_assoc; by apply scan_status_line.
  - rewrite scan_headers_all; [|rewrite !length_app; cbn; lia|done..].
    rewrite upd_loc_all. unfold location_of. f_equal.
  - rewrite (app_assoc CRLF CRLF), (app_assoc _ (CRLF ++ CRLF)). apply drop_app_length'. rewrite !length_app. reflexivity.
Qed.

Lemma parse_response_reads_witness :
  parse_response (response (status_line 1 1 301 " Moved") [bs "Server: x"; bs "LOCATION:  /ca.der"] ["013"; "010"; "013"; "010"; NUL]%char) LOC_SZ =
    Some (301, bs "/ca.der", ["013"; "010"; "013"; "010"; NUL]%char).
Proof.
  rewrite (parse_response_reads 1 1 301 " Moved" [bs "Server: x"; bs "LOCATION:  /ca.der"]); try lia; [reflexivity|done| | |].
  - split; apply strchr_None; reflexivity.
  - repeat constructor; apply strchr_None; reflexivity.
  - repeat constructor; done.
Defined.

(** * The certificates that are saved *)

Lemma to_save_all {X509} (is_ca : X509 -> bool) all c rest :
  to_save is_ca all (c :: rest) = (if all || is_ca c then [c] else []) ++ rest.
Proof.
  unfold to_save. rewrite imap_cons, bind_cons. cbn [fst snd]. rewrite orb_false_r. f_equal.
  assert (H : forall k, (imap ((fun i c => (i, c)) ∘ (fun i => (S k + i)%nat)) rest ≫= fun ic =>
     if all || (0 <? ic.1)%nat || is_ca ic.2 then [ic.2] else []) = rest).
  { clear. induction rest as [|d l IH]; intros k; [done|]. rewrite imap_cons, bind_cons. cbn [fst snd compose].
    replace (all || (0 <? S k + 0)%nat || is_ca d) with true by (by destruct all). cbn [app]. f_equal.
    rewrite <- (IH (S k)) at 2. f_equal. apply imap_ext. intros i y _. cbn. f_equal. lia. }
  exact (H 0%nat).
Qed.
