(* ===== verification/CaMain.v ===== *)
(** c/ca.c around the exchange with a server: the timed connection of [dial],
    and the run of [ca_main] from its arguments to its exit status. *)
From S2P Require Import Prelude CLib Common Sys Ca.

(** * The connection *)

(** The calls that ca makes: to the system, and to OpenSSL for the objects that
    it creates and releases; and its accesses to a block of memory and to a
    certificate, which are steps of a run too, without an answer.  A pointer is
    a number, and a null pointer 0. *)
Inductive ca_call :=
  | MemUse (p : Z) | CertUse (c : Z)
  | GetAddrInfo (host port : bytes)
  | Time                         (* the seconds of gettimeofday *)
  | SockOpen (addr : Z)
  | GetFl (fd : Z) | SetFl (fd flags : Z)
  | Connect (fd addr : Z)
  | Select (fd remain : Z)
  | SoError (fd : Z)
  | CloseFd (fd : Z)
  | FreeAddrInfo
  (* the transfer *)
  | RcvTimeout (fd s : Z) | SndTimeout (fd s : Z)
  | WriteSock (fd : Z) (b : bytes) | ReadSock (fd n : Z)
  (* memory *)
  | Calloc (n : Z) | Realloc (p n : Z) | Strndup (s : bytes) | FreeMem (p : Z)
  (* OpenSSL: contexts and connections *)
  | CtxNew | CtxFree (ctx : Z) | CtxVerifyPeer (ctx : Z) | CtxVerifyPaths (ctx : Z)
  | SslNew (ctx : Z) | SslFree (ssl : Z) | SslSni (ssl : Z) (host : bytes) | SslHost (ssl : Z) (host : bytes)
  | SslSetFd (ssl fd : Z) | SslConnect (ssl : Z) | SslVerifyResult (ssl : Z)
  | SslWrite (ssl : Z) (b : bytes) | SslRead (ssl n : Z)
  | PeerCert (ssl : Z) | PeerChain (ssl : Z) | ErrGet
  (* OpenSSL: certificates *)
  | ToUtf8 (name : Z) | OsslFree (p : Z)
  | GetAia (c : Z) | AiaFree (p : Z)
  | D2iX509 (b : bytes) | BioNew (b : bytes) | PemRead (bio : Z) | BioFree (bio : Z) | CertFree (c : Z)
  (* the output; no stream is the standard output *)
  | Fopen (path : bytes) | PemWrite (w : option Z) (c : Z) | Fclose (w : Z).

Definition O_NONBLOCK : Z := 2048.
Definition EINTR : Z := 4.
Definition EINPROGRESS : Z := 115.

(** How the wait for a connection ends: connected; this address failed; the
    time is up, everything is closed. *)
Inductive waited := Connected | NextAddr (err : bytes) | TimedOut (err : bytes).

Section Dial.
Context (strerror gai_strerror : Z -> bytes) (host : bytes) (port : Z).

Definition dial_err (what : bytes) : bytes := trunc 256 ("dial tcp " ++ host ++ ":" ++ fmt_d port ++ ": " ++ what).

(** The loop around [select], after the first connect has returned
    EINPROGRESS. *)
Fixpoint wait_connect (fuel : nat) (fd deadline : Z) : sysM (outcome waited) :=
  match fuel with
  | O => mret Fuel
  | S f =>
      now ← sys Time;
      let remain := deadline - now in
      if remain <=? 0 then sys (CloseFd fd);; sys FreeAddrInfo;; mret (Ok (TimedOut (dial_err "i/o timeout")))
      else
        s ← sys (Select fd remain);
        if s <? 0 then
          if s =? - EINTR then wait_connect f fd deadline
          else sys (CloseFd fd);; mret (Ok (NextAddr (dial_err (strerror (- s)))))
        else if s =? 0 then sys (CloseFd fd);; sys FreeAddrInfo;; mret (Ok (TimedOut (dial_err "i/o timeout")))
        else
          soerr ← sys (SoError fd);
          if soerr =? 0 then mret (Ok Connected)
          else sys (CloseFd fd);; mret (Ok (NextAddr (dial_err (strerror soerr))))
  end.

(** The loop over the addresses: the descriptor, or -1, and the message. *)
Fixpoint dial_addrs (fuel : nat) (addrs : list Z) (deadline : Z) (err : bytes) : sysM (outcome (Z * bytes)) :=
  match addrs with
  | [] => sys FreeAddrInfo;; mret (Ok (-1, match err with [] => dial_err "connect failed" | _ => err end))
  | a :: addrs' =>
      fd ← sys (SockOpen a);
      if fd <? 0 then dial_addrs fuel addrs' deadline err
      else
        fl ← sys (GetFl fd);
        sys (SetFl fd (Z.lor fl O_NONBLOCK));;
        rc ← sys (Connect fd a);
        let connected := sys (SetFl fd fl);; sys FreeAddrInfo;; mret (Ok (fd, err)) in
        if rc =? 0 then connected
        else if negb (rc =? - EINPROGRESS) then sys (CloseFd fd);; dial_addrs fuel addrs' deadline err
        else
          w ← wait_connect fuel fd deadline;
          match w with
          | Ok Connected => connected
          | Ok (NextAddr err') => dial_addrs fuel addrs' deadline err'
          | Ok (TimedOut err') => mret (Ok (-1, err'))
          | Ub => mret Ub
          | Fuel => mret Fuel
          end
  end.

(** [dial]: [addrs] are the addresses of [getaddrinfo]; the caller's message
    is empty. *)
Definition dial (fuel : nat) (addrs : list Z) (timeout : Z) : sysM (outcome (Z * bytes)) :=
  gai ← sys (GetAddrInfo host (fmt_d port));
  if negb (gai =? 0) then mret (Ok (-1, trunc 256 ("dial tcp: lookup " ++ host ++ ": " ++ gai_strerror gai)))
  else now ← sys Time; dial_addrs fuel addrs (now + timeout) [].
End Dial.

(** * The program *)

(** How the run ends: the status, what it prints on the standard output, the
    certificates it writes and where. *)
Record ca_end := CaEnd { ce_status : Z; ce_stdout : bytes; ce_saved : option (bytes * bytes) }.

Section Main.
Context {X509 : Type} (is_ca self_issued : X509 -> bool) (same : X509 -> X509 -> bool)
  (subject_cn issuer_cn expires : X509 -> bytes) (aia : X509 -> option bytes) (pem_text : X509 -> bytes).
(** The connection and the handshake with a host, with the peer's certificate
    and its chain, or an error; the fetch of an issuer; whether the output file
    opens. *)
Context (handshake : bytes -> Z -> caopts -> option (option X509 * list X509))
  (fetch : bytes -> outcome (option X509)) (opens : bytes -> bool).

Definition LF : bytes := ["010"%char].
Definition arrow : bytes := [chr 226; chr 134; chr 146].
Definition connecting (host : bytes) (port : Z) : bytes :=
  arrow ++ " Connecting to " ++ host ++ ":" ++ fmt_d port ++ " " ++ [chr 226; chr 128; chr 166] ++ LF ++ LF.

(** The end after [finish] has chosen what to save. *)
Definition fetching (o : caopts) (certs : list X509) (root : option X509) : bytes :=
  if fFetchRoot o then
    match last certs with
    | Some top =>
        match aia top with
        | Some u => LF ++ "Fetching root CA via AIA: " ++ u ++ LF ++
            match root with
            | Some r => "  Root: CN=" ++ short_cn (subject_cn r) ++ "  Expires: " ++ expires r ++ LF
            | None => []
            end
        | None => []
        end
    | None => []
    end
  else [].
Definition saved_text (n : nat) (path : bytes) : bytes :=
  LF ++ [chr 226; chr 156; chr 147] ++ " Saved " ++ fmt_d (Z.of_nat n) ++ " CA certificate(s) " ++ arrow ++ " " ++ path ++ LF ++
  "  Verified: " ++ fmt_d (Z.of_nat n) ++ " PEM block(s) readable in output file" ++ LF.

(** The part of [ca_main] after the handshake. *)
Definition ca_save (o : caopts) (host : bytes) (leaf : option X509) (chain : list X509) (before : bytes) : outcome ca_end :=
  match presented same leaf chain with
  | [] => Ok (CaEnd 1 before None)
  | c0 :: rest =>
      let certs := c0 :: rest in
      root ← (if fFetchRoot o then match aia (List.last certs c0) with Some u => fetch u | None => Ok None end else Ok None);
      let text := before ++ chain_text is_ca self_issued subject_cn issuer_cn expires aia certs ++ fetching o certs root in
      let save := to_save is_ca (fAll o) certs ++ match root with Some r => [r] | None => [] end in
      match save with
      | [] => Ok (CaEnd 1 text None)
      | _ =>
          let path := out_path (fOutput o) host in
          let pem := mjoin (pem_text <$> save) in
          if eqs path "-" then Ok (CaEnd 0 (text ++ pem) None)
          else if opens path then Ok (CaEnd 0 (text ++ saved_text (length save) path) (Some (path, pem)))
          else Ok (CaEnd 1 text None)
      end
  end.

(** [ca_main], on the arguments after its name. *)
Definition ca_main (args : list bytes) : outcome ca_end :=
  match scan_ca args caopts0 [] with
  | Scanned o pos =>
      match plan o pos with
      | ShowVersion => Ok (CaEnd 0 ("tls-ca-fetch v1.0.0" ++ LF) None)
      | NoHost | BadPort _ => Ok (CaEnd 1 [] None)
      | Fetch host port o =>
          let before := connecting host port in
          match handshake host port o with
          | None => Ok (CaEnd 1 before None)
          | Some (leaf, chain) => ca_save o host leaf chain before
          end
      end
  | BadValue _ | Missing _ | Unknown _ => Ok (CaEnd 1 [] None)
  end.
End Main.
