(* ===== verification/CaMainProps.v ===== *)
(** What c/ca.c promises around the exchange: the connection ends in time and
    leaks nothing, and a run saves the certificates it should. *)
From S2P Require Import Prelude CLib Common Sys Ledger Ca CaProps CaMain.

(** * What the calls acquire and release *)

Inductive ca_res :=
  | RFd (fd : Z) | RAddr | RMem (p : Z) | ROssl (p : Z) | RCtx (p : Z) | RSsl (p : Z)
  | RAia (p : Z) | RBio (p : Z) | RCert (p : Z) | RFile (p : Z).
#[export] Instance ca_res_eq_dec : EqDecision ca_res.
Proof. solve_decision. Defined.

(** A pointer, when it is not null. *)
Definition nz (f : Z -> ca_res) (p : Z) : list ca_res := if p =? 0 then [] else [f p].

(** A connection lends the certificates of its chain, [peers], which belong to
    it. *)
Definition ca_lends (peers : Z -> list Z) (r : ca_res) : list ca_res :=
  match r with RSsl ssl => RCert <$> peers ssl | _ => [] end.
Definition ca_need (c : ca_call) : list ca_res :=
  match c with
  | MemUse p => [RMem p]
  | CertUse c | GetAia c => [RCert c]
  | Realloc p _ => nz RMem p
  | GetFl fd | SetFl fd _ | Connect fd _ | Select fd _ | SoError fd
  | RcvTimeout fd _ | SndTimeout fd _ | WriteSock fd _ | ReadSock fd _ => [RFd fd]
  | CtxVerifyPeer ctx | CtxVerifyPaths ctx | SslNew ctx => [RCtx ctx]
  | SslSni ssl _ | SslHost ssl _ | SslConnect ssl | SslVerifyResult ssl
  | SslWrite ssl _ | SslRead ssl _ | PeerCert ssl | PeerChain ssl => [RSsl ssl]
  | SslSetFd ssl fd => [RSsl ssl; RFd fd]
  | PemRead bio => [RBio bio]
  | PemWrite w c => match w with Some w => [RFile w] | None => [] end ++ [RCert c]
  | _ => []
  end.
Definition ca_takes (c : ca_call) (r : Z) : list ca_res :=
  match c with
  | CloseFd fd => [RFd fd] | FreeAddrInfo => [RAddr]
  | CtxFree p => [RCtx p] | SslFree p => [RSsl p]
  | FreeMem p => nz RMem p | Realloc p _ => if r =? 0 then [] else nz RMem p
  | OsslFree p => nz ROssl p
  | AiaFree p => [RAia p] | BioFree p => [RBio p] | CertFree p => [RCert p] | Fclose w => [RFile w]
  | _ => []
  end.
Definition ca_gives (c : ca_call) (r : Z) : list ca_res :=
  match c with
  | GetAddrInfo _ _ => if r =? 0 then [RAddr] else []
  | SockOpen _ => if r <? 0 then [] else [RFd r]
  | CtxNew => nz RCtx r | SslNew _ => nz RSsl r
  | Calloc _ | Strndup _ | Realloc _ _ => nz RMem r
  | ToUtf8 _ => nz ROssl r | GetAia _ => nz RAia r | BioNew _ => nz RBio r
  | D2iX509 _ | PemRead _ | PeerCert _ => nz RCert r
  | Fopen _ => if r <=? 0 then [] else [RFile r]
  | _ => []
  end.
Abbreviation ca_usable peers := (usable (ca_lends peers)).
Abbreviation ca_holds peers := (holds (ca_lends peers) ca_need ca_takes ca_gives).
Abbreviation ca_triple peers := (triple (ca_lends peers) ca_need ca_takes ca_gives).

(** * The connection *)

(** How a connection ends: with a descriptor, or with a message. *)
Definition dialed (r : Z * bytes) (rs : list ca_res) : Prop :=
  if r.1 <? 0 then rs = [] /\ r.2 <> [] else rs = [RFd r.1].

Section Dial.
Context (peers : Z -> list Z) (strerror gai_strerror : Z -> bytes) (host : bytes) (port : Z) (e : @env ca_call).
(** From the [N]-th call on, the clock has passed the deadline. *)
Context (N : nat) (deadline : Z).
Hypothesis Hclock : forall h, (N <= length h)%nat -> deadline <= e h Time.

Lemma dial_err_nonempty what : dial_err host port what <> [].
Proof using. done. Qed.

Lemma wait_connect_ok fuel fd n : (1 <= fuel)%nat -> (N < n + fuel)%nat ->
  ca_triple peers e n [RFd fd; RAddr] (wait_connect strerror host port fuel fd deadline) (ends False (fun w rs =>
    match w with
    | Connected => rs = [RFd fd; RAddr]
    | NextAddr err => rs = [RAddr] /\ err <> []
    | TimedOut err => rs = [] /\ err <> []
    end)).
Proof using Hclock.
  revert n. induction fuel as [|fuel IH]; intros n H1 Hf; [lia|]. cbn [wait_connect].
  t_call_env h Hl. pose proof (Hclock h) as Hc. destruct (deadline - e h Time <=? 0) eqn:E1; zbool.
  { do 2 t_call. t_done. split; [done|apply dial_err_nonempty]. }
  assert (length h < N)%nat by (apply Nat.nle_gt; intros Hle; specialize (Hc Hle); lia).
  t_call. destruct (_ <? 0).
  - destruct (_ =? - EINTR); [apply IH; lia|].
    t_call. t_done. split; [done|apply dial_err_nonempty].
  - destruct (_ =? 0).
    + do 2 t_call. t_done. split; [done|apply dial_err_nonempty].
    + t_call. destruct (_ =? 0); [by t_done|]. t_call. t_done. split; [done|apply dial_err_nonempty].
Qed.

Lemma dial_addrs_ok fuel addrs err n : (1 <= fuel)%nat -> (N < n + fuel)%nat ->
  ca_triple peers e n [RAddr] (dial_addrs strerror host port fuel addrs deadline err) (ends False dialed).
Proof using Hclock.
  intros H1. revert err n. induction addrs as [|a addrs IH]; intros err n Hf; cbn [dial_addrs].
  { t_call. t_done. unfold dialed. cbn. by destruct err. }
  t_call. rename r into fd. destruct (fd <? 0) eqn:Efd; cbn; [apply IH; lia|].
  t_call. t_call. t_call.
  assert (Hc : forall n fl, ca_triple peers e n [RFd fd; RAddr] (sys (SetFl fd fl);; sys FreeAddrInfo;; mret (Ok (fd, err))) (ends False dialed)).
  { intros n' fl. do 2 t_call. t_done. unfold dialed. cbn. by rewrite Efd. }
  destruct (_ =? 0); [apply Hc|]. destruct (negb _); [t_call; apply IH; lia|].
  eapply t_bind; [apply (wait_connect_ok fuel fd); lia|cbn; pick|]. intros [[|err'|err']| |] rs; cbn; try done.
  - intros ->. apply Hc.
  - intros [-> _]. apply IH. lia.
  - intros [-> Hne]. t_done. by split.
Qed.
End Dial.

(** The clock gets past any deadline of [timeout] seconds within [N] calls. *)
Definition clock_runs (e : @env ca_call) (N : nat) (timeout : Z) : Prop :=
  forall h h', (length h + N <= length h')%nat -> e h Time + timeout <= e h' Time.

Lemma dial_ok peers strerror gai_strerror host port (e : @env ca_call) N n fuel addrs timeout :
  clock_runs e N timeout -> (N < fuel)%nat ->
  ca_triple peers e n [] (dial strerror gai_strerror host port fuel addrs timeout) (ends False dialed).
Proof.
  intros Hclk Hf. unfold dial. t_call. destruct (_ =? 0); cbn; [|by t_done].
  intros h fr Hl Hh. apply wp_bind, wp_sys.
  pose proof (holds_call (ca_lends peers) ca_need ca_takes ca_gives h Time (e h Time) _ _ Hh (Forall_nil_2 _) (Permutation_refl _)) as Hh1.
  eapply wp_mono.
  - apply (dial_addrs_ok peers strerror host port e (length h + N) (e h Time + timeout)) with (n := length (h ++ [(Time, e h Time)]));
      [intros h' Hh'; by apply Hclk|lia|rewrite length_app; lia|done|exact Hh1].
  - intros a h' (Hg&?). split; [|done]. etrans; [by eexists|exact Hg].
Qed.

(** The connection to a server is safe on every path: as long as the
    clock runs, [dial] comes back; with a descriptor, which is then all that it
    has acquired, or with -1 and a message, and then it has closed every
    descriptor that it has opened and released the addresses, each once. *)
Theorem dial_no_leak peers strerror gai_strerror host port (e : @env ca_call) h N fuel addrs timeout held :
  clock_runs e N timeout -> (N < fuel)%nat -> ca_holds peers h held ->
  wp e h (dial strerror gai_strerror host port fuel addrs timeout) (fun r h' =>
    match r with
    | Ok (fd, err) => if fd <? 0 then ca_holds peers h' held /\ err <> [] else ca_holds peers h' (RFd fd :: held)
    | _ => False
    end).
Proof.
  intros Hclk Hf Hh. eapply wp_mono; [eapply (dial_ok _ _ _ _ _ e N 0); [done|done|lia|exact Hh]|].
  intros [[fd err]| |] h' (_&rs&Hr&Hh'); try done. cbn in Hr. unfold dialed in Hr. cbn in Hr.
  destruct (fd <? 0); [destruct Hr as [-> ?]; by split|by subst rs].
Qed.

(** A kernel whose clock ticks at every call. *)
Definition demo_env : @env ca_call := fun h c =>
  match c with
  | SockOpen _ => 3
  | Connect _ _ => - EINPROGRESS
  | Select _ _ => if (length h <? 9)%nat then - EINTR else 1
  | Time => Z.of_nat (length h)
  | _ => 0
  end.
Lemma dial_no_leak_witness :
  wp demo_env [] (dial (fun _ => "error") (fun _ => "error") "ca.example" 443 20 [1; 2] 10) (fun r h' =>
    match r with
    | Ok (fd, err) => if fd <? 0 then ca_holds (fun _ => []) h' [] /\ err <> [] else ca_holds (fun _ => []) h' [RFd fd]
    | _ => False
    end).
Proof.
  apply (dial_no_leak (fun _ => []) (fun _ => "error") (fun _ => "error") "ca.example" 443 demo_env [] 10).
  - intros h h' Hh'. cbn. lia.
  - lia.
  - apply holds_start.
Defined.

Example dial_demo : (dial (fun _ => "error") (fun _ => "error") "ca.example" 443 20 [1; 2] 10 demo_env []).1 = Ok (3, []).
Proof. vm_compute. reflexivity. Qed.

(** * The run *)

(** C11. A run of ca, from its arguments to the file: with good flags, one
    host and without -fetch-root, it asks the host on the port of the flags; a
    leaf that is no authority is left out unless -all is given, every other
    certificate of the chain is written, in order; the status is 0 when some
    are, and 1 when none is left or the file does not open. *)
Theorem ca_main_saves {X509} (is_ca self_issued : X509 -> bool) (same : X509 -> X509 -> bool)
    (subject_cn issuer_cn expires : X509 -> bytes) (aia : X509 -> option bytes) (pem_text : X509 -> bytes)
    (handshake : bytes -> Z -> caopts -> option (option X509 * list X509)) (fetch : bytes -> outcome (option X509))
    (opens : bytes -> bool) items o host leaf chain :
  items_opts caopts0 items = Some o -> fShowVer o = false -> fFetchRoot o = false -> positionals items = [host] ->
  handshake host (fPort o) o = Some (Some leaf, chain) ->
  let rest := match chain with c :: chain' => if same c leaf then chain' else chain | [] => [] end in
  let save := (if fAll o || is_ca leaf then [leaf] else []) ++ rest in
  let text := connecting host (fPort o) ++ chain_text is_ca self_issued subject_cn issuer_cn expires aia (leaf :: rest) in
  let path := out_path (fOutput o) host in
  ca_main is_ca self_issued same subject_cn issuer_cn expires aia pem_text handshake fetch opens (mjoin (ca_words <$> items)) =
    Ok (match save with
        | [] => CaEnd 1 text None
        | _ => if eqs path "-" then CaEnd 0 (text ++ mjoin (pem_text <$> save)) None
               else if opens path then CaEnd 0 (text ++ saved_text (length save) path) (Some (path, mjoin (pem_text <$> save)))
               else CaEnd 1 text None
        end).
Proof.
  intros Ho Hv Hf Hp Hh rest save text path. unfold ca_main. rewrite (scan_items items o Ho), Hp. cbn [take]. unfold plan. rewrite Hv, Hh.
  unfold ca_save, presented, fetching. rewrite Hf, ok_bind, !app_nil_r, to_save_all. cbv zeta. fold rest. fold save. fold path. fold text.
  destruct save; [done|]. destruct (eqs path "-"); [done|]. by destruct (opens path).
Qed.

Lemma ca_main_saves_witness :
  ca_main (fun c : Z => 1 <? c) (fun c => 2 <? c) Z.eqb (fun _ => "cn") (fun _ => "cn") (fun _ => "2030-01-01") (fun _ => None) fmt_d
    (fun _ _ _ => Some (Some 1, [1; 2; 3])) (fun _ => Ok None) (fun _ => true) (mjoin (ca_words <$> [IPos "ca.example"])) =
  Ok (CaEnd 0 (connecting "ca.example" 443 ++ chain_text (fun c : Z => 1 <? c) (fun c => 2 <? c) (fun _ => "cn") (fun _ => "cn")
    (fun _ => "2030-01-01") (fun _ => None) [1; 2; 3] ++ saved_text 2 "ca.example-ca.pem") (Some (bs "ca.example-ca.pem", bs "23"))).
Proof.
  rewrite (ca_main_saves (fun c : Z => 1 <? c) (fun c => 2 <? c) Z.eqb (fun _ => "cn") (fun _ => "cn") (fun _ => "2030-01-01") (fun _ => None) fmt_d
    (fun _ _ _ => Some (Some 1, [1; 2; 3])) (fun _ => Ok None) (fun _ => true) [IPos "ca.example"] caopts0 "ca.example" 1 [1; 2; 3]); reflexivity.
Defined.
