(* ===== verification/CaRun.v ===== *)
(** c/ca.c, call by call: the texts of a certificate, the request for an
    issuer's certificate over HTTP and HTTPS, the handshake, and the run of
    [ca_main] with every object that it creates and releases.  What OpenSSL
    holds of a certificate, and what a server sends, are parameters (the record
    [calib]). *)
From S2P Require Import Prelude CLib Common Sys Ca CaMain.

(** An entry of the access information of a certificate: the method is
    caIssuers, the location is a URI, its data. *)
Record access := Access { ad_ca_issuers : bool; ad_uri : bool; ad_data : option bytes }.

(** What the program reads of the world besides the answers of its calls: the
    messages of errors, the addresses of a host, the bytes that the last call
    has put in the buffer; and of a certificate, given by its pointer. *)
Record calib := CaLib {
  cl_strerror : Z -> bytes; cl_gai_strerror : Z -> bytes; cl_err_string : Z -> bytes; cl_verify_string : Z -> bytes;
  cl_addrs : bytes -> Z -> list Z;
  cl_received : list (ca_call * Z) -> bytes;
  cl_chain : Z -> list Z;                       (* the certificates of the chain of a connection, which belong to it *)
  cl_is_ca : Z -> bool; cl_self_issued : Z -> bool; cl_same : Z -> Z -> bool;
  cl_subject : Z -> Z; cl_issuer : Z -> Z;      (* X509_NAME *)
  cl_cn_index : Z -> Z; cl_utf8 : Z -> bytes;   (* of the common name of an X509_NAME *)
  cl_not_after : Z -> option (Z * Z * Z);       (* year, month from 1, day *)
  cl_access : Z -> list access;
  cl_pem : Z -> bytes;
}.

(** Code that may also meet undefined behaviour, or not end. *)
Abbreviation caM A := (sysM (C := ca_call) (outcome A)).
Definition obind {A B} (m : caM A) (f : A -> caM B) : caM B :=
  r ← m; match r with Ok a => f a | Ub => mret Ub | Fuel => mret Fuel end.
Notation "x ⇐ m ; k" := (obind m (fun x => k)) (at level 20, m at level 100, k at level 200, right associativity).

(** How a run ends, with what it prints on the standard error. *)
Abbreviation run_end := (ca_end * bytes)%type.

Section CaRun.
Context (lib : calib).

(** * The texts of a certificate *)

(** [name_cn]: its text, from the common name; and the calls. *)
Definition cn_text (nm : Z) (cap : nat) : bytes := cstr (take (cap - 1) (cl_utf8 lib nm)).
Definition name_cn (nm : Z) (cap : nat) : sysM bytes :=
  if nm =? 0 then mret []
  else if cl_cn_index lib nm <? 0 then mret []
  else
    utf8 ← sys (ToUtf8 nm);
    sys (OsslFree utf8);;
    mret (if utf8 =? 0 then [] else cn_text nm cap).

(** [not_after] *)
Definition not_after (c : Z) : bytes :=
  match cl_not_after lib c with
  | Some (y, m, d) => fmt_d y ++ "-" ++ pad_left "0" 2 (fmt_d m) ++ "-" ++ pad_left "0" 2 (fmt_d d)
  | None => "?"
  end.

(** The first URI of a caIssuers entry that is not empty; [aia_ca_issuer]: its
    copy, with the pointer. *)
Fixpoint first_issuer (l : list access) : option bytes :=
  match l with
  | [] => None
  | a :: l' =>
      if negb (ad_ca_issuers a) then first_issuer l'
      else if negb (ad_uri a) then first_issuer l'
      else match ad_data a with Some ((_ :: _) as u) => Some (cstr u) | _ => first_issuer l' end
  end.
Definition aia_ca_issuer (c : Z) : sysM (option (Z * bytes)) :=
  aia ← sys (GetAia c);
  if aia =? 0 then mret None
  else
    match first_issuer (cl_access lib c) with
    | None => sys (AiaFree aia);; mret None
    | Some u => url ← sys (Strndup u); sys (AiaFree aia);; mret (if url =? 0 then None else Some (url, u))
    end.

(** [ssl_errstr] *)
Definition ssl_errstr : sysM bytes :=
  e ← sys ErrGet; mret (if e =? 0 then bs "TLS handshake failed" else trunc 256 (cl_err_string lib e)).

(** * Fetching a certificate *)

Record buf := Buf { b_ptr : Z; b_data : bytes }.
Definition buf0 : buf := Buf 0 [].
(** [buf_append]: 0, or -1 with the buffer as it was. *)
Definition buf_append (b : buf) (p : bytes) : sysM (Z * buf) :=
  np ← sys (Realloc (b_ptr b) (blen (b_data b) + blen p + 1));
  if np =? 0 then mret (-1, b) else sys (MemUse np);; mret (0, Buf np (b_data b ++ p)).

(** The bytes in the buffer of the last read. *)
Definition received : sysM bytes := fun e h => (cl_received lib h, h).

(** A descriptor, with the context and the object of its TLS connection. *)
Definition conn : Type := Z * option (Z * Z).
Definition hang_up (c : conn) : sysM unit :=
  match c.2 with Some (ctx, ssl) => sys (SslFree ssl);; sys (CtxFree ctx);; mret tt | None => mret tt end;;
  sys (CloseFd c.1);; mret tt.

(** The part of [http_get_once] that connects: the connection, or the
    message. *)
Definition https_open (fd : Z) (host : bytes) : caM (conn + bytes) :=
  ctx ← sys CtxNew;
  if ctx =? 0 then err ← ssl_errstr; sys (CloseFd fd);; mret (Ok (inr err))
  else
    ssl ← sys (SslNew ctx);
    if ssl =? 0 then mret Ub
    else
      sys (SslSni ssl host);; sys (SslSetFd ssl fd);;
      r ← sys (SslConnect ssl);
      if r =? 1 then mret (Ok (inl (fd, Some (ctx, ssl))))
      else err ← ssl_errstr; sys (SslFree ssl);; sys (CtxFree ctx);; sys (CloseFd fd);; mret (Ok (inr err)).
Definition http_open (fuel : nat) (u : url_parts) (timeout : Z) : caM (conn + bytes) :=
  d ⇐ dial (cl_strerror lib) (cl_gai_strerror lib) (u_host u) (u_port u) fuel (cl_addrs lib (u_host u) (u_port u)) timeout;
  if d.1 <? 0 then mret (Ok (inr d.2))
  else
    sys (RcvTimeout d.1 timeout);; sys (SndTimeout d.1 timeout);;
    if eqs (u_scheme u) "https" then https_open d.1 (u_host u) else mret (Ok (inl (d.1, None))).

(** The loop over the response. *)
Fixpoint read_all (fuel : nat) (c : conn) (raw : buf) : caM buf :=
  match fuel with
  | O => mret Fuel
  | S f =>
      n ← match c.2 with Some (_, ssl) => sys (SslRead ssl 8192) | None => sys (ReadSock c.1 8192) end;
      if n <=? 0 then mret (Ok raw)
      else
        tmp ← received;
        r ← buf_append raw (take (Z.to_nat n) tmp);
        if r.1 =? 0 then read_all f c r.2 else mret (Ok raw)
  end.

(** [http_get_once]: the status, the location and the body, or the message. *)
Inductive http_res := HttpErr (err : bytes) | HttpOk (status : Z) (loc : bytes) (body : buf).
Definition http_exchange (fuel : nat) (u : url_parts) (c : conn) (body : buf) : caM http_res :=
  let req := request u in
  w ← match c.2 with Some (_, ssl) => sys (SslWrite ssl req) | None => sys (WriteSock c.1 req) end;
  if negb (w =? blen req) then hang_up c;; mret (Ok (HttpErr "write request failed"))
  else
    raw ⇐ read_all fuel c buf0;
    hang_up c;;
    if b_ptr raw =? 0 then mret (Ok (HttpErr "empty response"))
    else
      sys (MemUse (b_ptr raw));;
      match parse_response (b_data raw) LOC_SZ with
      | None => sys (FreeMem (b_ptr raw));; mret (Ok (HttpErr "malformed HTTP response"))
      | Some (status, loc, text) =>
          sys (MemUse (b_ptr raw));;
          r ← buf_append body text;
          sys (FreeMem (b_ptr raw));;
          mret (Ok (HttpOk status loc r.2))
      end.
Definition http_get (fuel : nat) (url : bytes) (timeout : Z) (body : buf) : caM http_res :=
  match url_split url with
  | Ub => mret Ub
  | Fuel => mret Fuel
  | Ok None => mret (Ok (HttpErr (trunc 256 ("unsupported URL: " ++ url))))
  | Ok (Some u) =>
      c ⇐ http_open fuel u timeout;
      match c with inr err => mret (Ok (HttpErr err)) | inl c => http_exchange fuel u c body end
  end.

(** The loop of [fetch_der_cert] over the redirects: the body, or the
    message. *)
Fixpoint chase (fuel hops : nat) (cur : bytes) (timeout : Z) (body : buf) : caM (buf + bytes) :=
  match hops with
  | O => mret (Ok (inl body))
  | S hops' =>
      sys (FreeMem (b_ptr body));;
      r ⇐ http_get fuel cur timeout buf0;
      match r with
      | HttpErr err => mret (Ok (inr err))
      | HttpOk status loc body =>
          if (300 <=? status) && (status <? 400) && negb (eqs loc []) then
            match redirect cur loc with
            | Ub => mret Ub
            | Fuel => mret Fuel
            | Ok (Some cur') => chase fuel hops' cur' timeout body
            | Ok None => mret (Ok (inl body))
            end
          else mret (Ok (inl body))
      end
  end.

(** [fetch_der_cert]: the certificate, or the message. *)
Definition unparsed (url : bytes) : bytes := trunc 256 ("could not parse certificate from " ++ url).
Definition fetch_cert (fuel : nat) (url : bytes) (timeout : Z) : caM (Z + bytes) :=
  r ⇐ chase fuel 10 (trunc LOC_SZ url) timeout buf0;
  match r with
  | inr err => mret (Ok (inr err))
  | inl body =>
      if (b_ptr body =? 0) || (blen (b_data body) =? 0)
      then sys (FreeMem (b_ptr body));; mret (Ok (inr (unparsed url)))
      else
        sys (MemUse (b_ptr body));;
        c ← sys (D2iX509 (b_data body));
        if negb (c =? 0) then sys (FreeMem (b_ptr body));; mret (Ok (inl c))
        else
          bio ← sys (BioNew (b_data body));
          c ← (if bio =? 0 then mret 0
               else sys (MemUse (b_ptr body));; c ← sys (PemRead bio); sys (BioFree bio);; mret c);
          sys (FreeMem (b_ptr body));;
          mret (Ok (if c =? 0 then inr (unparsed url) else inl c))
  end.

(** * The handshake *)

(** The text of an error that ends the program. *)
Definition ca_error (msg : bytes) : bytes := "error: " ++ msg ++ LF.

(** The connection to the host of the command line and its handshake: the
    descriptor, the context and the connection; or the text of the error. *)
Definition tls_connect (fuel : nat) (host : bytes) (port : Z) (o : caopts) : caM (Z * Z * Z + bytes) :=
  d ⇐ dial (cl_strerror lib) (cl_gai_strerror lib) host port fuel (cl_addrs lib host port) (fTimeout o);
  let '(fd, err) := d in
  if fd <? 0 then mret (Ok (inr (ca_error err)))
  else
    ctx ← sys CtxNew;
    if ctx =? 0 then err ← ssl_errstr; sys (CloseFd fd);; mret (Ok (inr (ca_error err)))
    else
      (if fInsecure o then mret tt else sys (CtxVerifyPeer ctx);; sys (CtxVerifyPaths ctx);; mret tt);;
      ssl ← sys (SslNew ctx);
      if ssl =? 0 then mret Ub
      else
        sys (SslSni ssl host);;
        (if fInsecure o then mret tt else sys (SslHost ssl host);; mret tt);;
        sys (SslSetFd ssl fd);;
        r ← sys (SslConnect ssl);
        if r =? 1 then mret (Ok (inl (fd, ctx, ssl)))
        else
          vr ← sys (SslVerifyResult ssl);
          msg ← (if negb (fInsecure o) && negb (vr =? 0) then mret ("tls: " ++ cl_verify_string lib vr) else ssl_errstr);
          sys (SslFree ssl);; sys (CtxFree ctx);; sys (CloseFd fd);;
          mret (Ok (inr (ca_error msg))).

(** * The run *)

(** What is released at the end. *)
Record session := Session { se_fd : Z; se_ctx : Z; se_ssl : Z; se_leaf : Z; se_certs : Z }.
Definition free_cert (c : Z) : sysM unit := if c =? 0 then mret tt else sys (CertFree c);; mret tt.
Definition release (s : session) : sysM unit :=
  free_cert (se_leaf s);; sys (FreeMem (se_certs s));;
  sys (SslFree (se_ssl s));; sys (CtxFree (se_ctx s));; sys (CloseFd (se_fd s));; mret tt.
Definition release_all (s : session) (root save : Z) : sysM unit :=
  free_cert root;; free_cert (se_leaf s);; sys (FreeMem save);; sys (FreeMem (se_certs s));;
  sys (SslFree (se_ssl s));; sys (CtxFree (se_ctx s));; sys (CloseFd (se_fd s));; mret tt.

(** The lines of one certificate of the chain, an element of the array [mem],
    and of all. *)
Definition show_cert (mem : Z) (i : nat) (c : Z) : sysM bytes :=
  sys (MemUse mem);;
  sys (CertUse c);; scn ← name_cn (cl_subject lib c) 512;
  sys (CertUse c);; icn ← name_cn (cl_issuer lib c) 512;
  sys (CertUse c);;
  aia ← aia_ca_issuer c;
  match aia with Some (p, _) => sys (MemUse p);; sys (FreeMem p);; mret tt | None => mret tt end;;
  mret (cert_lines (cl_is_ca lib) (cl_self_issued lib) (fun _ => scn) (fun _ => icn) not_after (fun _ => snd <$> aia) i c).
Fixpoint show_certs (mem : Z) (i : nat) (certs : list Z) : sysM bytes :=
  match certs with
  | [] => mret []
  | c :: certs' => t ← show_cert mem i c; ts ← show_certs mem (S i) certs'; mret (t ++ ts)
  end.
(** The certificates are put in the array; a leaf is compared with the first of
    the chain. *)
Definition fill_certs (mem leaf : Z) (chain : list Z) : sysM unit :=
  sys (MemUse mem);;
  match chain with
  | c :: _ => if leaf =? 0 then mret tt else sys (CertUse c);; sys (CertUse leaf);; mret tt
  | [] => mret tt
  end.
(** Those to save are copied from one array to the other; the first is asked
    whether it is an authority, unless -all is given. *)
Definition pick_certs (mem save c0 : Z) (all : bool) (own : list Z) : sysM unit :=
  (if all then mret tt else sys (MemUse mem);; sys (CertUse c0);; mret tt);;
  match own with [] => mret tt | _ => sys (MemUse mem);; sys (MemUse save);; mret tt end.

Definition fetch_line (url : bytes) : bytes := LF ++ "Fetching root CA via AIA: " ++ url ++ LF.
Definition root_line (rcn exp : bytes) : bytes := "  Root: CN=" ++ short_cn rcn ++ "  Expires: " ++ exp ++ LF.
(** The fetch of the root: the certificate or 0, and what is printed on the
    standard output and on the standard error. The URL is read until
    [fetch_der_cert] returns. *)
Definition fetch_root (fuel : nat) (o : caopts) (mem top : Z) : caM (Z * bytes * bytes) :=
  sys (MemUse mem);;
  aia ← aia_ca_issuer top;
  match aia with
  | None => mret (Ok (0, [], bs "warning: no AIA URL found in topmost certificate" ++ LF))
  | Some (p, url) =>
      let text := fetch_line url in
      sys (MemUse p);;
      r ⇐ fetch_cert fuel url (fTimeout o);
      sys (MemUse p);;
      match r with
      | inr err => sys (FreeMem p);; mret (Ok (0, text, "warning: AIA fetch failed: " ++ err ++ LF))
      | inl root =>
          sys (CertUse root);; rcn ← name_cn (cl_subject lib root) 512;
          sys (CertUse root);;
          sys (FreeMem p);;
          mret (Ok (root, text ++ root_line rcn (not_after root), []))
      end
  end.

(** The loop that writes the certificates of the array [save]: the text
    written, and the message when one fails. *)
Fixpoint write_certs (w : option Z) (save : Z) (certs : list Z) : sysM (bytes * option bytes) :=
  match certs with
  | [] => mret ([], None)
  | c :: certs' =>
      sys (MemUse save);;
      r ← sys (PemWrite w c);
      if r =? 1 then t ← write_certs w save certs'; mret (cl_pem lib c ++ t.1, t.2)
      else err ← ssl_errstr; mret ([], Some ("error writing PEM: " ++ err ++ LF))
  end.

(** The part after the choice of the certificates [save]; [text] is what is
    printed so far. *)
Definition save_certs (s : session) (root save : Z) (o : caopts) (host : bytes) (saved : list Z) (text err : bytes) : caM run_end :=
  let path := out_path (fOutput o) host in
  if eqs path "-" then
    w ← write_certs None save saved;
    release_all s root save;;
    mret (Ok (match w.2 with
              | None => (CaEnd 0 (text ++ w.1) None, err)
              | Some msg => (CaEnd 1 (text ++ w.1) None, err ++ msg)
              end))
  else
    f ← sys (Fopen path);
    if f <=? 0 then release_all s root save;; mret (Ok (CaEnd 1 text None, err ++ ca_error (cl_strerror lib (- f))))
    else
      w ← write_certs (Some f) save saved;
      sys (Fclose f);;
      release_all s root save;;
      mret (Ok (match w.2 with
                | None => (CaEnd 0 (text ++ saved_text (length saved) path) (Some (path, w.1)), err)
                | Some msg => (CaEnd 1 text (Some (path, w.1)), err ++ msg)
                end)).

(** The part after the handshake. *)
Definition no_authority : bytes := LF ++ "warning: no CA certificates found in chain" ++ LF.
Definition ca_rest (fuel : nat) (fd ctx ssl : Z) (o : caopts) (host before : bytes) : caM run_end :=
  leaf ← sys (PeerCert ssl);
  stack ← sys (PeerChain ssl);
  let chain := if stack =? 0 then [] else cl_chain lib ssl in
  mem ← sys (Calloc ((blen chain + 1) * 8));
  let s := Session fd ctx ssl leaf mem in
  match presented (cl_same lib) (if leaf =? 0 then None else Some leaf) chain with
  | [] => release s;; mret (Ok (CaEnd 1 before None, "error: server sent no certificates" ++ LF))
  | c0 :: rest =>
      let certs := c0 :: rest in
      if mem =? 0 then mret Ub
      else
        fill_certs mem leaf chain;;
        shown ← show_certs mem 0 certs;
        let text := before ++ "Chain received: " ++ fmt_d (blen certs) ++ " certificate(s)" ++ LF ++ rule ++ shown ++ rule in
        save ← sys (Calloc ((blen certs + 1) * 8));
        let own := to_save (cl_is_ca lib) (fAll o) certs in
        if (save =? 0) && negb (bool_decide (own = [])) then mret Ub
        else
          pick_certs mem save c0 (fAll o) own;;
          r ⇐ (if fFetchRoot o then fetch_root fuel o mem (List.last certs c0) else mret (Ok (0, [], [])));
          let '(root, fetched, err) := r in
          let text := text ++ fetched in
          if (save =? 0) && negb (root =? 0) then mret Ub
          else
            (if root =? 0 then mret tt else sys (MemUse save);; mret tt);;
            let saved := own ++ (if root =? 0 then [] else [root]) in
            if bool_decide (saved = []) then
              sys (MemUse mem);; aia ← aia_ca_issuer c0;
              hint ← match aia with
                     | Some (p, u) => sys (MemUse p);; sys (FreeMem p);; mret ("  Try -fetch-root. AIA URL: " ++ u ++ LF)
                     | None => mret [] end;
              release_all s root save;;
              mret (Ok (CaEnd 1 text None, err ++ no_authority ++ hint))
            else save_certs s root save o host saved text err
  end.

(** [ca_main], on the arguments after its name. *)
Definition scan_error (r : ca_scan) : bytes :=
  match r with
  | Scanned _ _ => []
  | BadValue msg => msg
  | Missing name => "flag needs an argument: -" ++ name ++ LF
  | Unknown a => "flag provided but not defined: " ++ a ++ LF ++ ca_usage
  end.
Definition ca_run (fuel : nat) (args : list bytes) : caM run_end :=
  match scan_ca args caopts0 [] with
  | Scanned o pos =>
      match plan o pos with
      | ShowVersion => mret (Ok (CaEnd 0 ("tls-ca-fetch v1.0.0" ++ LF) None, []))
      | NoHost => mret (Ok (CaEnd 1 [] None, ca_usage))
      | BadPort p => mret (Ok (CaEnd 1 [] None, "invalid port: " ++ p ++ LF))
      | Fetch host port o =>
          let before := connecting host port in
          c ⇐ tls_connect fuel host port o;
          match c with
          | inr msg => mret (Ok (CaEnd 1 before None, msg))
          | inl (fd, ctx, ssl) => ca_rest fuel fd ctx ssl o host before
          end
      end
  | r => mret (Ok (CaEnd 1 [] None, scan_error r))
  end.
End CaRun.
