(* ===== verification/CaRunSpec.v ===== *)
(** What a run of c/ca.c means: what it prints and saves is what the
    specification [ca_main] of CaMain.v gives for the certificates that the
    handshake and the fetch return; and without -insecure they come from a
    handshake that was asked to verify the host. *)
From S2P Require Import Prelude CLib Common Sys Ca CaProps CaMain CaRun.

(** * The history grows *)

Create HintDb grow discriminated.
#[export] Hint Resolve grows_ret grows_sys : grow.
(** Down a program, through its conditions. *)
Ltac grow :=
  repeat first
    [ progress auto with nocore grow
    | apply grows_bind; [|intros ?]
    | match goal with |- grows (match ?x with _ => _ end) => destruct x end
    | match goal with |- grows (let _ := _ in _) => cbv zeta end ].

Lemma grows_obind {A B} (m : caM A) (f : A -> caM B) : grows m -> (forall a, grows (f a)) -> grows (obind m f).
Proof. intros Hm Hf. apply grows_bind; [done|]. intros [a| |]; [apply Hf|apply grows_ret..]. Qed.

Section Grow.
Context (lib : calib).
Lemma grows_name_cn nm sz : grows (name_cn lib nm sz).
Proof. unfold name_cn. grow. Qed.
Lemma grows_aia c : grows (aia_ca_issuer lib c).
Proof. unfold aia_ca_issuer. grow. Qed.
Lemma grows_errstr : grows (ssl_errstr lib).
Proof. unfold ssl_errstr. grow. Qed.
Lemma grows_append b p : grows (buf_append b p).
Proof. unfold buf_append. grow. Qed.
Lemma grows_hang_up c : grows (hang_up c).
Proof. unfold hang_up. grow. Qed.
Lemma grows_free_cert c : grows (free_cert c).
Proof. unfold free_cert. grow. Qed.
#[local] Hint Resolve grows_name_cn grows_aia grows_errstr grows_append grows_hang_up grows_free_cert : grow.
Lemma grows_release_all s r m : grows (release_all s r m).
Proof. unfold release_all. grow. Qed.
Lemma grows_release s : grows (release s).
Proof. unfold release. grow. Qed.
Lemma grows_wait strerror host port fuel : forall fd d, grows (wait_connect strerror host port fuel fd d).
Proof. induction fuel as [|f IH]; intros fd d; cbn [wait_connect]; grow. Qed.
#[local] Hint Resolve grows_release_all grows_release grows_wait : grow.
Lemma grows_dial_addrs strerror host port fuel addrs : forall d err, grows (dial_addrs strerror host port fuel addrs d err).
Proof. induction addrs as [|a l IH]; intros d err; cbn [dial_addrs]; grow. Qed.
#[local] Hint Resolve grows_dial_addrs : grow.
Lemma grows_dial strerror gai host port fuel addrs t : grows (dial strerror gai host port fuel addrs t).
Proof. unfold dial. grow. Qed.
Lemma grows_received : grows (received lib).
Proof. by intros e h. Qed.
#[local] Hint Resolve grows_dial grows_received : grow.
Lemma grows_read_all fuel : forall c raw, grows (read_all lib fuel c raw).
Proof. induction fuel as [|f IH]; intros c raw; cbn [read_all]; grow. Qed.
#[local] Hint Resolve grows_read_all : grow.
#[local] Hint Extern 5 (grows (obind _ _)) => apply grows_obind; [|intros ?] : grow.
Lemma grows_http_get fuel url t b : grows (http_get lib fuel url t b).
Proof. unfold http_get, http_open, https_open, http_exchange. grow. Qed.
#[local] Hint Resolve grows_http_get : grow.
Lemma grows_chase fuel hops : forall cur t b, grows (chase lib fuel hops cur t b).
Proof. induction hops as [|f IH]; intros cur t b; cbn [chase]; grow. Qed.
#[local] Hint Resolve grows_chase : grow.
Lemma grows_fetch_cert fuel url t : grows (fetch_cert lib fuel url t).
Proof. unfold fetch_cert. grow. Qed.
Lemma grows_tls_connect fuel host port o : grows (tls_connect lib fuel host port o).
Proof. unfold tls_connect. grow. Qed.
Lemma grows_show_cert mem i c : grows (show_cert lib mem i c).
Proof. unfold show_cert. grow. Qed.
#[local] Hint Resolve grows_show_cert : grow.
Lemma grows_show_certs mem certs : forall i, grows (show_certs lib mem i certs).
Proof. induction certs as [|c l IH]; intros i; cbn [show_certs]; grow. Qed.
Lemma grows_fill mem leaf chain : grows (fill_certs mem leaf chain).
Proof. unfold fill_certs. grow. Qed.
Lemma grows_pick mem sv c all own : grows (pick_certs mem sv c all own).
Proof. unfold pick_certs. grow. Qed.
Lemma grows_write_certs w sv certs : grows (write_certs lib w sv certs).
Proof. induction certs as [|c l IH]; cbn [write_certs]; grow. Qed.
#[local] Hint Resolve grows_fetch_cert grows_tls_connect grows_show_certs grows_fill grows_pick grows_write_certs : grow.
Lemma grows_fetch_root fuel o mem top : grows (fetch_root lib fuel o mem top).
Proof. unfold fetch_root. grow. Qed.
Lemma grows_save_certs s r m o host saved t err : grows (save_certs lib s r m o host saved t err).
Proof. unfold save_certs. grow. Qed.
#[local] Hint Resolve grows_fetch_root grows_save_certs : grow.
Lemma grows_ca_rest fuel fd ctx ssl o host t : grows (ca_rest lib fuel fd ctx ssl o host t).
Proof. unfold ca_rest. grow. Qed.
End Grow.

(** * The host is verified *)

(** The last calls of [h]: on a new context that verifies the peer with the
    default authorities, a connection of which the host name is checked, and a
    handshake that succeeds. *)
Definition verified (host : bytes) (h : list (ca_call * Z)) : Prop :=
  exists h0 ctx ssl fd r1 r2 r3 r4 r5,
    h = h0 ++ [(CtxNew, ctx); (CtxVerifyPeer ctx, r1); (CtxVerifyPaths ctx, r2); (SslNew ctx, ssl); (SslSni ssl host, r3);
               (SslHost ssl host, r4); (SslSetFd ssl fd, r5); (SslConnect ssl, 1)].

Lemma tls_connect_verifies lib (e : @env ca_call) fuel host port o h : fInsecure o = false ->
  wp e h (tls_connect lib fuel host port o) (fun r h' => match r with Ok (inl _) => verified host h' | _ => True end).
Proof.
  intros Hi. unfold tls_connect. rewrite Hi. apply wp_bind. unfold wp at 1.
  set (d := dial _ _ _ _ _ _ _ e h). destruct d as [[[fd err]| |] h1]; cbn [fst snd]; [|by apply wp_ret..].
  destruct (fd <? 0); [by apply wp_ret|]. apply wp_bind, wp_sys. set (ctx := e h1 CtxNew).
  destruct (ctx =? 0).
  { apply wp_bind. unfold wp at 1. destruct (ssl_errstr _ _ _) as [msg h2]. cbn [fst snd]. apply wp_bind, wp_sys, wp_ret. done. }
  apply wp_bind. do 2 apply wp_bind, wp_sys. apply wp_ret.
  apply wp_bind, wp_sys. match goal with |- wp e _ (if ?s =? 0 then _ else _) _ => set (ssl := s) end.
  destruct (ssl =? 0); [by apply wp_ret|]. apply wp_bind, wp_sys. apply wp_bind. apply wp_bind, wp_sys, wp_ret.
  do 2 apply wp_bind, wp_sys.
  match goal with |- wp e _ (if ?r =? 1 then _ else _) _ => destruct (r =? 1) eqn:E end.
  - apply wp_ret. zbool. rewrite E. unfold verified. rewrite <- !app_assoc. cbn [app]. repeat eexists.
  - apply wp_bind, wp_sys. apply wp_bind. unfold wp at 1.
    match goal with |- context [(?m e ?h2).1] => destruct (m e h2) as [msg h3] end. cbn [fst snd].
    do 3 apply wp_bind, wp_sys. by apply wp_ret.
Qed.

(** The flags and the host of a command line that leads to a connection. *)
Definition args_plan (args : list bytes) : ca_plan :=
  match scan_ca args caopts0 [] with Scanned o pos => plan o pos | _ => NoHost end.

(** C10. Without -insecure, ca shows and saves certificates only after a
    handshake that verified them: whatever the answers of the system and of
    OpenSSL, a run that prints more than the line that announces the connection,
    or that saves anything, has first completed a handshake on a connection
    that was set to verify the peer against the default authorities and to
    check that the certificate is for the host of the command line. *)
Theorem ca_run_verifies lib (e : @env ca_call) fuel args host port o :
  args_plan args = Fetch host port o -> fInsecure o = false ->
  wp e [] (ca_run lib fuel args) (fun r h =>
    match r with
    | Ok (en, _) => ce_stdout en <> connecting host port \/ ce_saved en <> None -> exists h0, h0 `prefix_of` h /\ verified host h0
    | _ => True
    end).
Proof.
  unfold args_plan, ca_run. intros Hp Hi. destruct (scan_ca args caopts0 []) as [o0 pos| | |]; try done. rewrite Hp.
  apply wp_bind. eapply wp_mono; [by apply tls_connect_verifies|]. intros [[[[fd ctx] ssl]|msg]| |] h Hv; [|apply wp_ret..]; try done.
  - eapply wp_mono; [apply (wp_grows e h _ (fun _ _ => True)); [apply grows_ca_rest|done]|].
    intros [[en err]| |] h' [Hg _]; try done. intros _. by exists h.
  - by intros [?|?].
Qed.

(** * The meaning of a run *)

(** The texts that the specification is about. *)
Definition cn_of (lib : calib) (nm : Z) : bytes :=
  if nm =? 0 then [] else if cl_cn_index lib nm <? 0 then [] else cn_text lib nm 512.
Definition subject_of (lib : calib) (c : Z) : bytes := cn_of lib (cl_subject lib c).
Definition issuer_of (lib : calib) (c : Z) : bytes := cn_of lib (cl_issuer lib c).
Definition aia_of (lib : calib) (c : Z) : option bytes := first_issuer (cl_access lib c).

(** Memory is left, OpenSSL finds the extension of a certificate that has one,
    and the output takes what is written. *)
Record works (lib : calib) (e : @env ca_call) : Prop := {
  w_mem : forall h n, e h (Calloc n) <> 0;
  w_dup : forall h s, e h (Strndup s) <> 0;
  w_utf8 : forall h nm, e h (ToUtf8 nm) <> 0;
  w_aia : forall h c, e h (GetAia c) = 0 -> aia_of lib c = None;
  w_pem : forall h w c, e h (PemWrite w c) = 1;
}.

(** What the handshake with a host comes to, as the first thing of the run. *)
Definition opt_ptr (p : Z) : option Z := if p =? 0 then None else Some p.
Definition handshake_of (lib : calib) (e : @env ca_call) (fuel : nat) (host : bytes) (port : Z) (o : caopts) : option (option Z * list Z) :=
  let '(r, h) := tls_connect lib fuel host port o e [] in
  match r with
  | Ok (inl (fd, ctx, ssl)) =>
      let leaf := e h (PeerCert ssl) in
      let h := h ++ [(PeerCert ssl, leaf)] in
      let stack := e h (PeerChain ssl) in
      Some (opt_ptr leaf, if stack =? 0 then [] else cl_chain lib ssl)
  | _ => None
  end.
(** What the fetch comes to, after the history [h]. *)
Definition fetch_of (lib : calib) (e : @env ca_call) (fuel : nat) (timeout : Z) (h : list (ca_call * Z)) (url : bytes) : outcome (option Z) :=
  match (fetch_cert lib fuel url timeout e h).1 with
  | Ok (inl c) => Ok (opt_ptr c)
  | Ok (inr _) => Ok None
  | Ub => Ub
  | Fuel => Fuel
  end.

Section Meaning.
Context (lib : calib) (e : @env ca_call).
Hypothesis Hw : works lib e.

Lemma name_cn_val nm h : (name_cn lib nm 512 e h).1 = cn_of lib nm.
Proof using Hw.
  change (wp e h (name_cn lib nm 512) (fun t _ => t = cn_of lib nm)).
  unfold name_cn, cn_of. destruct (nm =? 0); [done|]. destruct (_ <? 0); [done|].
  do 2 apply wp_bind, wp_sys. apply wp_ret. by rewrite (proj2 (Z.eqb_neq _ _) (w_utf8 _ _ Hw h nm)).
Qed.
Lemma aia_val c h : snd <$> (aia_ca_issuer lib c e h).1 = aia_of lib c.
Proof using Hw.
  change (wp e h (aia_ca_issuer lib c) (fun r _ => snd <$> r = aia_of lib c)).
  unfold aia_ca_issuer. apply wp_bind, wp_sys. pose proof (w_aia _ _ Hw h c) as Ha.
  destruct (e h (GetAia c) =? 0) eqn:E; zbool; [by rewrite Ha|]. unfold aia_of. destruct (first_issuer _) as [u|].
  - do 2 apply wp_bind, wp_sys. apply wp_ret. by rewrite (proj2 (Z.eqb_neq _ _) (w_dup _ _ Hw _ u)).
  - apply wp_bind, wp_sys. by apply wp_ret.
Qed.

(** A program of known value. *)
Lemma wp_val {A B} h (m : sysM A) (f : A -> sysM B) Q a :
  (m e h).1 = a -> grows m -> (forall h', h `prefix_of` h' -> wp e h' (f a) Q) -> wp e h (m ≫= f) Q.
Proof using.
  intros Ha Hg Hf. apply wp_bind. unfold wp. rewrite Ha. apply Hf, Hg.
Qed.

Abbreviation spec_lines := (cert_lines (cl_is_ca lib) (cl_self_issued lib) (subject_of lib) (issuer_of lib) (not_after lib) (aia_of lib)).
Lemma show_cert_val mem i c h : (show_cert lib mem i c e h).1 = spec_lines i c.
Proof using Hw.
  change (wp e h (show_cert lib mem i c) (fun t _ => t = spec_lines i c)). unfold show_cert. do 2 apply wp_bind, wp_sys.
  eapply wp_val; [apply name_cn_val|apply grows_name_cn|]. intros h1 _. apply wp_bind, wp_sys.
  eapply wp_val; [apply name_cn_val|apply grows_name_cn|]. intros h2 _. apply wp_bind, wp_sys.
  match goal with |- wp e ?hc _ _ => set (h3 := hc) end.
  apply wp_bind. unfold wp at 1. pose proof (aia_val c h3) as Ha.
  destruct (aia_ca_issuer lib c e h3) as [[[p u]|] h4]; cbn in *; unfold cert_lines, subject_of, issuer_of; by rewrite <- Ha.
Qed.
Lemma show_certs_val mem certs : forall i h,
  (show_certs lib mem i certs e h).1 = mjoin (imap (fun j => spec_lines (i + j)) certs).
Proof using Hw.
  induction certs as [|c certs IH]; intros i h; [done|].
  change (wp e h (show_certs lib mem i (c :: certs)) (fun t _ => t = mjoin (imap (fun j => spec_lines (i + j)) (c :: certs)))).
  cbn [show_certs]. eapply wp_val; [apply show_cert_val|apply grows_show_cert|]. intros h1 _.
  eapply wp_val; [apply IH|apply grows_show_certs|]. intros h2 _. apply wp_ret.
  cbn [imap mjoin list_join]. rewrite Nat.add_0_r. f_equal. f_equal. apply imap_ext. intros j x _. unfold compose. by rewrite Nat.add_succ_r.
Qed.
Lemma write_certs_val w sv certs h : (write_certs lib w sv certs e h).1 = (mjoin (cl_pem lib <$> certs), None).
Proof using Hw.
  revert h. induction certs as [|c certs IH]; intros h; [done|].
  change (wp e h (write_certs lib w sv (c :: certs)) (fun t _ => t = (mjoin (cl_pem lib <$> c :: certs), None))).
  cbn [write_certs]. do 2 apply wp_bind, wp_sys. rewrite (w_pem _ _ Hw). cbn.
  eapply wp_val; [apply IH|apply grows_write_certs|]. intros h' _. by apply wp_ret.
Qed.

(** The certificate of a fetch is not null. *)
Lemma fetch_cert_some fuel url timeout h c : (fetch_cert lib fuel url timeout e h).1 = Ok (inl c) -> c <> 0.
Proof using.
  cut (wp e h (fetch_cert lib fuel url timeout) (fun r _ => r = Ok (inl c) -> c <> 0)); [done|].
  unfold fetch_cert. apply wp_bind. unfold wp at 1. destruct (chase _ _ _ _ _ _ e h) as [[[body|err]| |] h1]; cbn [fst snd]; try (by apply wp_ret).
  destruct (_ || _); [by apply wp_bind, wp_sys, wp_ret|]. do 2 apply wp_bind, wp_sys.
  destruct (negb _) eqn:E; [apply wp_bind, wp_sys, wp_ret; intros [= <-]; by apply Z.eqb_neq, negb_true_iff|].
  apply wp_bind, wp_sys. apply wp_bind. unfold wp at 1. match goal with |- context [(?m e ?h3).1] => destruct (m e h3) as [c' h4] end.
  cbn [fst snd]. apply wp_bind, wp_sys, wp_ret. destruct (c' =? 0) eqn:E'; [done|]. intros [= <-]. by apply Z.eqb_neq.
Qed.

#[local] Opaque fetch_cert name_cn.
(** The fetch of the root, as the specification sees it. *)
Lemma fetch_root_val fuel o mem top h :
  wp e h (fetch_root lib fuel o mem top) (fun r h' => exists h1, h1 `prefix_of` h' /\
    match aia_of lib top with
    | None => exists err, r = Ok (0, [], err)
    | Some u =>
        match fetch_of lib e fuel (fTimeout o) h1 u with
        | Ok root => exists err, r = Ok (default 0 root, fetch_line u ++
            match root with Some r => root_line (subject_of lib r) (not_after lib r) | None => [] end, err) /\ root <> Some 0
        | Ub => r = Ub
        | Fuel => r = Fuel
        end
    end).
Proof using Hw.
  unfold fetch_root, obind. apply wp_bind, wp_sys. match goal with |- wp e ?hc _ _ => set (h0 := hc) end.
  apply wp_bind. unfold wp at 1. pose proof (aia_val top h0) as Ha.
  destruct (aia_ca_issuer lib top e h0) as [[[p u]|] h1]; cbn in Ha |- *; rewrite <- Ha; cbn [fst snd].
  2: { apply wp_ret. exists h1. split; [done|eauto]. }
  apply wp_bind, wp_sys. match goal with |- wp e ?hc _ _ => set (h1' := hc) end. clearbody h1'. clear h1. rename h1' into h1.
  apply wp_bind. unfold wp at 1. pose proof (grows_fetch_cert lib fuel u (fTimeout o) e h1) as Hg.
  pose proof (fetch_cert_some fuel u (fTimeout o) h1) as Hs. unfold fetch_of in *.
  destruct (fetch_cert lib fuel u (fTimeout o) e h1) as [r h2] eqn:Hr. cbn [fst snd] in *.
  assert (Hpre : forall h', h2 `prefix_of` h' -> h1 `prefix_of` h') by (intros h' ?; by etrans).
  destruct r as [[root|err]| |]; cbn iota beta.
  - specialize (Hs root eq_refl). do 2 apply wp_bind, wp_sys.
    eapply wp_val; [apply name_cn_val|apply grows_name_cn|]. intros h3 Hg3.
    do 2 apply wp_bind, wp_sys. apply wp_ret. exists h1.
    split; [apply Hpre; etrans; [|do 2 (etrans; [|by eexists]); exact Hg3]; rewrite <- app_assoc; by eexists|].
    rewrite Hr. cbn [fst]. unfold opt_ptr. rewrite (proj2 (Z.eqb_neq _ _) Hs). eexists. split; [|congruence].
    done.
  - do 2 apply wp_bind, wp_sys. apply wp_ret. exists h1. split; [apply Hpre; rewrite <- app_assoc; by eexists|]. rewrite Hr. cbn [fst default]; cbn iota. eexists. split; [|done]. by rewrite app_nil_r.
  - apply wp_ret. exists h1. split; [by apply Hpre|]. by rewrite Hr.
  - apply wp_ret. exists h1. split; [by apply Hpre|]. by rewrite Hr.
Qed.

(** A program whose value does not matter. *)
Lemma wp_skip {A B} h (m : sysM A) (f : A -> sysM B) Q :
  grows m -> (forall a h', h `prefix_of` h' -> wp e h' (f a) Q) -> wp e h (m ≫= f) Q.
Proof using. intros Hg Hf. apply wp_bind. unfold wp at 1. apply Hf, Hg. Qed.

(** The specification of the part after the choice of the certificates. *)
Definition saves (o : caopts) (host text : bytes) (saved : list Z) (opens : bytes -> bool) : ca_end :=
  let path := out_path (fOutput o) host in
  let pem := mjoin (cl_pem lib <$> saved) in
  if eqs path "-" then CaEnd 0 (text ++ pem) None
  else if opens path then CaEnd 0 (text ++ saved_text (length saved) path) (Some (path, pem))
  else CaEnd 1 text None.
Lemma save_certs_val s root save o host saved text err h :
  wp e h (save_certs lib s root save o host saved text err) (fun r h' => exists h2, h2 `prefix_of` h' /\
    fst <$> r = Ok (saves o host text saved (fun path => 0 <? e h2 (Fopen path)))).
Proof using Hw.
  unfold save_certs, saves. destruct (eqs _ _).
  - eapply wp_val; [apply write_certs_val|apply grows_write_certs|]. intros h1 _. cbn iota.
    apply wp_skip; [apply grows_release_all|]. intros ? h2 _. apply wp_ret. by exists h2.
  - apply wp_bind, wp_sys. set (path := out_path _ _).
    assert (Hpre : forall h', h ++ [(Fopen path, e h (Fopen path))] `prefix_of` h' -> h `prefix_of` h')
      by (intros h' Hg; etrans; [by eexists|exact Hg]).
    destruct (e h (Fopen path) <=? 0) eqn:E.
    + apply wp_skip; [apply grows_release_all|]. intros ? h2 Hg. apply wp_ret. exists h. split; [by apply Hpre|].
      by rewrite Z.ltb_antisym, E.
    + eapply wp_val; [apply write_certs_val|apply grows_write_certs|]. intros h1 Hg1. cbn iota.
      apply wp_bind, wp_sys. apply wp_skip; [apply grows_release_all|]. intros ? h2 Hg2. apply wp_ret. exists h.
      split; [apply Hpre; etrans; [exact Hg1|]; etrans; [by eexists|exact Hg2]|]. by rewrite Z.ltb_antisym, E.
Qed.

Lemma last_default {A} (d c : A) l : last (c :: l) = Some (List.last (c :: l) d).
Proof using. revert c. induction l as [|x l IH]; intros c; [done|]. rewrite last_cons_cons. apply (IH x). Qed.

(** The specification, once there is a certificate. *)
Abbreviation spec_chain := (chain_text (cl_is_ca lib) (cl_self_issued lib) (subject_of lib) (issuer_of lib) (not_after lib) (aia_of lib)).
Abbreviation spec_fetching := (fetching (subject_of lib) (not_after lib) (aia_of lib)).
Definition root_spec (o : caopts) (top : Z) (fetch : bytes -> outcome (option Z)) : outcome (option Z) :=
  if fFetchRoot o then match aia_of lib top with Some u => fetch u | None => Ok None end else Ok None.
Definition after_root (o : caopts) (host before : bytes) (certs : list Z) (opens : bytes -> bool) (root : option Z) : ca_end :=
  let text := before ++ spec_chain certs ++ spec_fetching o certs root in
  let saved := to_save (cl_is_ca lib) (fAll o) certs ++ match root with Some r => [r] | None => [] end in
  if bool_decide (saved = []) then CaEnd 1 text None else saves o host text saved opens.
Abbreviation spec_save := (ca_save (cl_is_ca lib) (cl_self_issued lib) (cl_same lib) (subject_of lib) (issuer_of lib) (not_after lib)
  (aia_of lib) (cl_pem lib)).
Lemma ca_save_eq fetch opens o host leaf chain before c0 rest :
  presented (cl_same lib) leaf chain = c0 :: rest ->
  spec_save fetch opens o host leaf chain before =
  (after_root o host before (c0 :: rest) opens <$> root_spec o (List.last (c0 :: rest) c0) fetch).
Proof using.
  intros Hp. unfold ca_save. rewrite Hp. unfold root_spec. set (r := if fFetchRoot o then _ else _).
  destruct r as [root| |]; [|done..]. rewrite ok_bind. cbn [fmap outcome_fmap]. unfold after_root, saves. cbv zeta.
  destruct (_ ++ _) as [|x l] eqn:E; rewrite ?E; [done|]. cbn [bool_decide]. by repeat case_match.
Qed.

Lemma ca_rest_val fuel fd ctx ssl o host before h :
  let leaf := e h (PeerCert ssl) in
  let stack := e (h ++ [(PeerCert ssl, leaf)]) (PeerChain ssl) in
  wp e h (ca_rest lib fuel fd ctx ssl o host before) (fun r h' => exists h1 h2, h1 `prefix_of` h' /\ h2 `prefix_of` h' /\
    fst <$> r = spec_save (fetch_of lib e fuel (fTimeout o) h1) (fun path => 0 <? e h2 (Fopen path)) o host
      (opt_ptr leaf) (if stack =? 0 then [] else cl_chain lib ssl) before).
Proof using Hw.
  intros leaf stack. unfold ca_rest. do 3 apply wp_bind, wp_sys. fold leaf. fold stack. set (chain := if stack =? 0 then [] else _).
  rewrite (proj2 (Z.eqb_neq _ _) (w_mem _ _ Hw _ _)). change (if leaf =? 0 then None else Some leaf) with (opt_ptr leaf).
  match goal with |- wp e ?hc _ _ => set (h0 := hc) end. clearbody h0.
  destruct (presented _ _ _) as [|c0 rest] eqn:Hp.
  { apply wp_skip; [apply grows_release|]. intros ? h1 _. apply wp_ret. exists [], []. split_and!; [apply prefix_nil..|].
    unfold ca_save. by rewrite Hp. }
  set (certs := c0 :: rest).
  eapply (wp_mono _ _ _ (fun r h' => exists h1 h2, h1 `prefix_of` h' /\ h2 `prefix_of` h' /\
    fst <$> r = (after_root o host before certs (fun path => 0 <? e h2 (Fopen path)) <$>
      root_spec o (List.last certs c0) (fetch_of lib e fuel (fTimeout o) h1)))).
  2: { intros r h' (h1&h2&Hg1&Hg2&Hr). exists h1, h2. split_and!; [done|done|]. by rewrite (ca_save_eq _ _ o host _ _ before c0 rest Hp). }
  apply wp_skip; [apply (grows_fill lib)|]. intros ? hfill _.
  eapply wp_val; [apply (show_certs_val _ certs 0)|apply grows_show_certs|]. intros hs _. apply wp_bind, wp_sys.
  rewrite (proj2 (Z.eqb_neq _ _) (w_mem _ _ Hw _ _)). cbn [andb]. match goal with |- wp e ?hc _ _ => set (h1' := hc) end. clearbody h1'.
  apply wp_skip; [apply (grows_pick lib)|]. intros ? h1k _. clear h1'. rename h1k into h1'.
  unfold obind. apply wp_bind.
  eapply (wp_mono _ _ _ (fun r h2 => exists h1, h1 `prefix_of` h2 /\
    match root_spec o (List.last certs c0) (fetch_of lib e fuel (fTimeout o) h1) with
    | Ok root => exists err, r = Ok (default 0 root, spec_fetching o certs root, err) /\ root <> Some 0
    | Ub => r = Ub
    | Fuel => r = Fuel
    end)).
  { unfold root_spec, fetching. rewrite (last_default c0 c0 rest : last certs = Some (List.last certs c0)).
    destruct (fFetchRoot o); [|apply wp_ret; exists h1'; split; eauto].
    eapply wp_mono; [apply fetch_root_val|]. intros r h2 (h1&Hg&Hr). exists h1. split; [done|].
    destruct (aia_of lib _) as [u|]; [|destruct Hr as [err ->]; by eexists].
    destruct (fetch_of _ _ _ _ _ _) as [root| |]; [|done..]. destruct Hr as (err&->&Hz). eexists. split; [|done].
    unfold fetch_line, root_line. rewrite <- !app_assoc. by destruct root. }
  intros r h2 (h1&Hg&Hr). destruct (root_spec _ _ _) as [root| |] eqn:Hroot.
  2,3: rewrite Hr; apply wp_ret; exists h1, []; split_and!; [done|apply prefix_nil|by rewrite Hroot].
  destruct Hr as (err&->&Hz). cbn iota beta.
  cbv zeta. apply wp_skip; [grow|]. intros ? h2' Hg2'. assert (Hg2 : h1 `prefix_of` h2') by (by etrans). clear Hg Hg2' h2. rename h2' into h2, Hg2 into Hg.
  assert (Hr0 : (if default 0 root =? 0 then [] else [default 0 root]) = match root with Some r => [r] | None => [] end).
  { destruct root as [r|]; [|done]. change (default 0 (Some r)) with r. by rewrite (proj2 (Z.eqb_neq r 0)) by congruence. }
  cbv zeta. rewrite Hr0. clear Hr0.
  match goal with |- context [save_certs _ _ _ _ _ _ _ ?t _] =>
    replace t with (before ++ spec_chain certs ++ spec_fetching o certs root)
      by (unfold chain_text; rewrite <- !app_assoc; reflexivity) end.
  unfold after_root. destruct (bool_decide _) eqn:Eb.
  - apply wp_skip; [grow|]. intros ? h3' Hg3'. apply wp_skip; [apply grows_aia|]. intros aia h3 Hg3. apply wp_skip; [destruct aia as [[]|]; grow|]. intros hint h4 Hg4.
    apply wp_skip; [apply grows_release_all|]. intros ? h5 Hg5. apply wp_ret. exists h1, []. split_and!; [by repeat (etrans; [eassumption|])|apply prefix_nil|].
    rewrite Hroot. cbn [fmap outcome_fmap fst]. cbv beta zeta. by rewrite Eb.
  - eapply wp_mono; [apply wp_grows; [apply grows_save_certs|apply save_certs_val]|].
    intros r h3 (Hg3&hf&Hgf&Hr). exists h1, hf. split_and!; [by etrans|done|]. rewrite Hroot, Hr. cbn [fmap outcome_fmap fst]. cbv beta zeta. by rewrite Eb.
Qed.
End Meaning.

(** C9. A run of ca, call by call, does what its specification says.  In an
    environment that works, once the connection to the host has come to an end
    of any kind, the status, the text on the standard output and the file of the
    run are those of [ca_main] for the certificates that the handshake gave, the
    root that the fetch gave (if it came to that) and whether the file opened. *)
Theorem ca_run_refines lib (e : @env ca_call) fuel args :
  works lib e ->
  (forall host port o, args_plan args = Fetch host port o -> exists c, (tls_connect lib fuel host port o e []).1 = Ok c) ->
  wp e [] (ca_run lib fuel args) (fun r h => exists h1 h2, h1 `prefix_of` h /\ h2 `prefix_of` h /\
    fst <$> r = ca_main (cl_is_ca lib) (cl_self_issued lib) (cl_same lib) (subject_of lib) (issuer_of lib) (not_after lib)
      (aia_of lib) (cl_pem lib) (handshake_of lib e fuel)
      (fetch_of lib e fuel (match args_plan args with Fetch _ _ o => fTimeout o | _ => 0 end) h1)
      (fun path => 0 <? e h2 (Fopen path)) args).
Proof.
  intros Hw Hc. unfold args_plan, ca_run, ca_main in *.
  destruct (scan_ca args caopts0 []) as [o0 pos| | |]; try (apply wp_ret; exists [], []; by split_and!).
  destruct (plan o0 pos) as [| |p|host port o]; try (apply wp_ret; exists [], []; by split_and!).
  destruct (Hc host port o eq_refl) as [c Hr]. unfold handshake_of, obind. apply wp_bind. unfold wp at 1.
  destruct (tls_connect lib fuel host port o e []) as [r h] eqn:Et. cbn [fst snd] in *. subst r.
  destruct c as [[[fd ctx] ssl]|msg]; [|apply wp_ret; exists [], []; split_and!; [apply prefix_nil..|done]].
  apply (ca_rest_val lib e Hw).
Qed.

(** * A run *)

(** A host with the certificates 1 (a leaf) and 2 (its authority), which a
    working system connects to. *)
Definition demo_lib : calib := {|
  cl_strerror _ := "error"; cl_gai_strerror _ := "error"; cl_err_string _ := "error"; cl_verify_string _ := "error";
  cl_addrs _ _ := [1];
  cl_received _ := [];
  cl_chain _ := [1; 2];
  cl_is_ca c := 1 <? c; cl_self_issued c := 1 <? c; cl_same := Z.eqb;
  cl_subject c := c; cl_issuer _ := 2;
  cl_cn_index _ := 0; cl_utf8 nm := if nm =? 1 then "ca.example" else "Authority";
  cl_not_after _ := Some (2030, 1, 2);
  cl_access _ := [];
  cl_pem := fmt_d;
|}.
Definition demo_sys : @env ca_call := fun h c =>
  match c with
  | SockOpen _ => 3
  | GetAia _ | GetAddrInfo _ _ | Connect _ _ | ReadSock _ _ | SslRead _ _ => 0
  | Time => Z.of_nat (length h)
  | SslConnect _ | PeerCert _ | PemWrite _ _ => 1
  | _ => 7 + Z.of_nat (length h)
  end.
Lemma demo_works : works demo_lib demo_sys.
Proof. split; intros; cbn; first [done|lia]. Qed.
Definition demo_ca_args : list bytes := [bs "ca.example"].

Example ca_run_demo :
  match ca_run demo_lib 12 demo_ca_args demo_sys [] with
  | (Ok (en, _), _) => ce_status en = 0 /\ ce_saved en = Some (bs "ca.example-ca.pem", bs "2")
  | _ => False
  end.
Proof. vm_compute. by split. Qed.

Lemma ca_run_refines_witness :
  wp demo_sys [] (ca_run demo_lib 12 demo_ca_args) (fun r h => exists h1 h2, h1 `prefix_of` h /\ h2 `prefix_of` h /\
    fst <$> r = ca_main (cl_is_ca demo_lib) (cl_self_issued demo_lib) (cl_same demo_lib) (subject_of demo_lib) (issuer_of demo_lib)
      (not_after demo_lib) (aia_of demo_lib) (cl_pem demo_lib) (handshake_of demo_lib demo_sys 12)
      (fetch_of demo_lib demo_sys 12 (match args_plan demo_ca_args with Fetch _ _ o => fTimeout o | _ => 0 end) h1)
      (fun path => 0 <? demo_sys h2 (Fopen path)) demo_ca_args).
Proof.
  apply (ca_run_refines demo_lib demo_sys 12 demo_ca_args demo_works).
  intros host port o [= <- <- <-]. eexists. vm_compute. reflexivity.
Defined.

Lemma ca_run_verifies_witness :
  wp demo_sys [] (ca_run demo_lib 12 demo_ca_args) (fun r h =>
    match r with
    | Ok (en, _) => ce_stdout en <> connecting "ca.example" 443 \/ ce_saved en <> None -> exists h0, h0 `prefix_of` h /\ verified "ca.example" h0
    | _ => True
    end).
Proof. apply (ca_run_verifies demo_lib demo_sys 12 demo_ca_args "ca.example" 443 caopts0); reflexivity. Defined.
