(* ===== verification/CaRunProps.v ===== *)
(** What c/ca.c holds: every run of ca releases what it acquires, once, on every
    path, and uses nothing that it has released; a certificate is shown or
    saved only after a handshake that was asked to verify the host. *)
From S2P Require Import Prelude CLib Common Sys Ledger Ca CaProps CaMain CaMainProps CaRun CaRunSpec.

Lemma t_obind {A B} peers e n pre sub fr (m : caM A) (f : A -> caM B) U P post :
  ca_triple peers e n sub m (ends U P) -> pre ≡ₚ sub ++ fr ->
  (forall a rs, P a rs -> ca_triple peers e n (rs ++ fr) (f a) post) -> (U -> forall rs, post Ub rs) ->
  ca_triple peers e n pre (obind m f) post.
Proof.
  intros Hm Hp Hf Hu. unfold obind. eapply t_bind; [exact Hm|exact Hp|].
  intros [a| |] rs Hr; [by apply Hf|t_done; by apply Hu|done].
Qed.

(** No loop in the splitting of a URL. *)
Lemma url_split_ends url : url_split url <> Fuel.
Proof. unfold url_split. repeat case_match; done. Qed.
Lemma redirect_ends cur loc : redirect cur loc <> Fuel.
Proof.
  unfold redirect. destruct (strstr loc _); [done|]. pose proof (url_split_ends cur).
  by destruct (url_split cur).
Qed.

(** The positional port leaves the other options alone. *)
Lemma plan_timeout o pos :
  match plan o pos with Fetch _ _ o' => fTimeout o' = fTimeout o /\ fFetchRoot o' = fFetchRoot o | _ => True end.
Proof. unfold plan. repeat case_match; simplify_eq; try done. Qed.

(** Case on a pointer that was acquired. *)
Ltac null f r :=
  change (nz f r) with (if r =? 0 then [] else [f r]); destruct (r =? 0) eqn:?; cbn.
Ltac t_sub L := eapply t_bind; [eapply L|cbn; pick|cbn].
Ltac t_osub L := eapply t_obind; [eapply L|cbn; pick|cbn|cbn].

Section Hold.
Context (lib : calib) (e : @env ca_call) (N : nat) (timeout : Z) (fuel : nat).
Hypothesis Hclock : clock_runs e N timeout.
Hypothesis Hfuel : (N < fuel)%nat.
(** The servers stop sending, and the allocations that the code does not check
    succeed. *)
Definition is_read (c : ca_call) : bool := match c with SslRead _ _ | ReadSock _ _ => true | _ => false end.
Definition unchecked (c : ca_call) : bool := match c with Calloc _ | SslNew _ => true | _ => false end.
Definition server_stops : Prop := forall h c, is_read c = true -> (N <= length h)%nat -> e h c <= 0.
Definition memory_left : Prop := forall h c, unchecked c = true -> e h c <> 0.
Hypothesis Hserver : server_stops.
Hypothesis Hmemory : memory_left.

Definition nothing {A} (_ : A) (rs : list ca_res) : Prop := rs = [].
(** A block of memory and a certificate that may be used. *)
Abbreviation live := (ca_usable (cl_chain lib)).
Lemma t_mem {A} n pre p (m : sysM A) post : RMem p ∈ pre -> ca_triple (cl_chain lib) e (S n) pre m post ->
  ca_triple (cl_chain lib) e n pre (sys (MemUse p);; m) post.
Proof using. intros Hp Hm. apply t_use; [|done|done]. apply Forall_singleton. by apply usable_in. Qed.
Lemma t_cert {A} n pre c (m : sysM A) post : live pre (RCert c) -> ca_triple (cl_chain lib) e (S n) pre m post ->
  ca_triple (cl_chain lib) e n pre (sys (CertUse c);; m) post.
Proof using. intros Hp Hm. apply t_use; [|done|done]. by apply Forall_singleton. Qed.
Lemma nz_in f p : p <> 0 -> f p ∈ nz f p.
Proof using. intros Hp. unfold nz. rewrite (proj2 (Z.eqb_neq p 0) Hp). by left. Qed.

Lemma ssl_errstr_t n : ca_triple (cl_chain lib) e n [] (ssl_errstr lib) nothing.
Proof using. unfold ssl_errstr. t_call. by t_done. Qed.

Lemma name_cn_t n nm sz : ca_triple (cl_chain lib) e n [] (name_cn lib nm sz) nothing.
Proof using.
  unfold name_cn. destruct (nm =? 0); [by t_done|]. destruct (_ <? 0); [by t_done|].
  t_call. t_call. by t_done.
Qed.

(** A copied text, with its pointer. *)
Definition copied (r : option (Z * bytes)) (rs : list ca_res) : Prop :=
  match r with Some (p, _) => p <> 0 /\ rs = [RMem p] | None => rs = [] end.
Lemma aia_ca_issuer_t n c held : live held (RCert c) ->
  ca_triple (cl_chain lib) e n held (aia_ca_issuer lib c) (fun r rs => exists own, copied r own /\ rs = own ++ held).
Proof using.
  intros Hc. unfold aia_ca_issuer. eapply t_sys_lent; [by apply Forall_singleton|]. intros h _. exists held. split; [done|]. cbn.
  set (r := e h _). null RAia r; [t_done; by exists []|]. destruct (first_issuer _) as [u|].
  - t_call. rename r0 into u'. eapply t_sys; [cbn; by apply Forall_nil|]. intros ?. exists (nz RMem u' ++ held). split; [cbn; pick|]. cbn.
    t_done. exists (nz RMem u'). split; [|done]. unfold copied. null RMem u'; [done|]. zbool. by split.
  - t_call. t_done. by exists [].
Qed.

Definition owned (b : buf) : list ca_res := nz RMem (b_ptr b).
Lemma buf_append_t n b p :
  ca_triple (cl_chain lib) e n (owned b) (buf_append b p) (fun r rs => rs = owned r.2 /\ (r.1 <> 0 -> r.2 = b)).
Proof using.
  unfold buf_append. eapply t_sys; [cbn; by apply Forall_forall|]. intros r. unfold owned. cbn. null RMem r.
  - eexists; split; [cbn; pick|]. cbn. by t_done.
  - exists []. split; [by rewrite app_nil_r|]. cbn. apply t_mem; [by left|]. t_done. null RMem r; [congruence|]. done.
Qed.

Definition conn_res (c : conn) : list ca_res :=
  match c.2 with Some (ctx, ssl) => [RSsl ssl; RCtx ctx; RFd c.1] | None => [RFd c.1] end.
Lemma hang_up_t n c : ca_triple (cl_chain lib) e n (conn_res c) (hang_up c) nothing.
Proof using.
  unfold hang_up, conn_res. destruct c as [fd [[ctx ssl]|]]; cbn.
  - eapply (t_bind _ _ _ _ _ _ _ [RSsl ssl; RCtx ctx] [RFd fd]) with (mid := nothing); [|done|].
    + do 2 t_call. by t_done.
    + intros a rs ->. cbn. t_call. by t_done.
  - eapply (t_bind _ _ _ _ _ _ _ [] [RFd fd]) with (mid := nothing); [by t_done|done|].
    intros a rs ->. cbn. t_call. by t_done.
Qed.

Definition opened (r : conn + bytes) (rs : list ca_res) : Prop :=
  match r with inl c => rs = conn_res c | inr _ => rs = [] end.
Lemma https_open_t n fd host : ca_triple (cl_chain lib) e n [RFd fd] (https_open lib fd host) (ends False opened).
Proof using Hmemory.
  unfold https_open. t_call. rename r into ctx. null RCtx ctx.
  - t_sub (ssl_errstr_t (S n)). intros err rs ->. cbn. t_call. by t_done.
  - t_call_env h Hl. pose proof (Hmemory h (SslNew ctx) eq_refl). set (ssl := e h _) in *.
    null RSsl ssl; zbool; [done|]. t_call. t_call. t_call. destruct (_ =? 1); [by t_done|].
    eapply t_bind; [apply ssl_errstr_t|pick|]. intros err rs ->. cbn. do 3 t_call. by t_done.
Qed.

Lemma http_open_t n u : ca_triple (cl_chain lib) e n [] (http_open lib fuel u timeout) (ends False opened).
Proof using Hclock Hfuel Hmemory.
  unfold http_open. t_osub (dial_ok (cl_chain lib) (cl_strerror lib) (cl_gai_strerror lib) (u_host u) (u_port u) e N n fuel); [done|done| |done].
  intros [fd err] rs Hd. unfold dialed in Hd. cbn in *. destruct (fd <? 0); [destruct Hd as [-> _]; by t_done|].
  rewrite Hd. cbn. do 2 t_call. destruct (eqs _ _); [apply https_open_t|by t_done].
Qed.

(** The loop of the response keeps the connection and the buffer. *)
Lemma read_all_t n turns c raw : (N < n + turns)%nat -> (1 <= turns)%nat ->
  ca_triple (cl_chain lib) e n (owned raw ++ conn_res c) (read_all lib turns c raw)
    (ends False (fun raw' rs => rs = owned raw' ++ conn_res c)).
Proof using Hserver Hfuel.
  revert n raw. induction turns as [|turns IH]; intros n raw Hn H1; [lia|]. cbn [read_all].
  assert (Hgo : forall (h : list (ca_call * Z)) k, (n <= length h)%nat -> (0 < k -> (length h < N)%nat) ->
    ca_triple (cl_chain lib) e (S n) (owned raw ++ conn_res c)
      (if k <=? 0 then mret (Ok raw)
       else tmp ← received lib; r ← buf_append raw (take (Z.to_nat k) tmp);
            if r.1 =? 0 then read_all lib turns c r.2 else mret (Ok raw)) (ends False (fun raw' rs => rs = owned raw' ++ conn_res c))).
  { intros h k Hl Hk. destruct (k <=? 0) eqn:E; zbool; [by t_done|].
    eapply (t_bind0 _ _ _ _ _ _ _ _ _ nothing).
    { intros h' fr _ Hh. split; [done|]. exists []. by split. }
    intros tmp rs ->. cbn. eapply t_bind; [apply buf_append_t|reflexivity|]. intros [r raw'] rs [-> Hr]. cbn in *.
    destruct (r =? 0) eqn:Er; zbool; [apply IH; lia|]. rewrite Hr by lia. by t_done. }
  destruct c as [fd [[ctx ssl]|]]; cbn; (eapply t_sys_env; [cbn; unfold owned, nz; destruct (b_ptr raw =? 0); cbn; held|]); intros h Hl; t_rest;
    (apply (Hgo h); [done|]; intros Hp; apply Nat.nle_gt; intros Hle;
     match type of Hp with 0 < e h ?c => pose proof (Hserver h c eq_refl Hle); lia end).
Qed.

Definition answered (r : http_res) (rs : list ca_res) : Prop :=
  match r with HttpErr _ => rs = [] | HttpOk _ _ body => rs = owned body end.
Lemma http_exchange_t n u c : ca_triple (cl_chain lib) e n (conn_res c) (http_exchange lib fuel u c buf0) (ends False answered).
Proof using Hserver Hfuel.
  unfold http_exchange.
  assert (Hgo : forall w, ca_triple (cl_chain lib) e (S n) (conn_res c)
    (if negb (w =? blen (request u)) then hang_up c;; mret (Ok (HttpErr "write request failed"))
     else raw ⇐ read_all lib fuel c buf0; hang_up c;;
       if b_ptr raw =? 0 then mret (Ok (HttpErr "empty response"))
       else sys (MemUse (b_ptr raw));; match parse_response (b_data raw) LOC_SZ with
            | None => sys (FreeMem (b_ptr raw));; mret (Ok (HttpErr "malformed HTTP response"))
            | Some (status, loc, text) => sys (MemUse (b_ptr raw));; r ← buf_append buf0 text; sys (FreeMem (b_ptr raw));; mret (Ok (HttpOk status loc r.2))
            end) (ends False answered)).
  { intros w. destruct (negb _).
    - eapply t_bind; [apply hang_up_t|by rewrite app_nil_r|]. intros ? rs ->. by t_done.
    - eapply t_obind; [eapply (read_all_t _ fuel c buf0); lia|by rewrite app_nil_r| |done].
      intros raw rs ->. rewrite app_nil_r. eapply t_bind; [apply hang_up_t|apply Permutation_app_comm|].
      intros ? rs ->. cbn [app]. destruct (b_ptr raw =? 0) eqn:E0.
      { t_done. unfold owned, nz. by rewrite E0. }
      zbool. assert (Hraw : RMem (b_ptr raw) ∈ owned raw) by by apply nz_in. apply t_mem; [done|].
      destruct (parse_response _ _) as [[[status loc] text]|].
      + apply t_mem; [done|]. eapply t_bind; [apply buf_append_t|by rewrite app_nil_l|]. intros [r b] rs [-> _]. cbn.
        eapply t_sys; [cbn; held|]. intros ?. eexists. split; [apply Permutation_app_comm|]. by t_done.
      + eapply t_sys; [cbn; held|]. intros ?. exists []. split; [by rewrite app_nil_r|]. by t_done. }
  destruct c as [fd [[ctx ssl]|]]; cbn [snd fst]; (eapply t_sys; [cbn; held|]; intros w; eexists; split; [cbn; reflexivity|]; apply Hgo).
Qed.

Lemma http_get_t n url : ca_triple (cl_chain lib) e n [] (http_get lib fuel url timeout buf0) (ends True answered).
Proof using Hclock Hserver Hfuel Hmemory.
  unfold http_get. pose proof (url_split_ends url). destruct (url_split url) as [[u|]| |]; [|by t_done|by t_done|done].
  t_osub (http_open_t n u); [|done]. intros [c|err] rs Hr; cbn in Hr; subst rs; rewrite ?app_nil_r; [|by t_done].
  eapply t_conseq; [apply http_exchange_t|]. by intros [] rs.
Qed.

(** A buffer that the caller frees. *)
Lemma free_buf_t {A} n b fr (m : sysM A) post : ca_triple (cl_chain lib) e (S n) fr m post ->
  ca_triple (cl_chain lib) e n (owned b ++ fr) (sys (FreeMem (b_ptr b));; m) post.
Proof using. intros Hm. eapply t_sys; [cbn; held|]. intros ?. exists fr. by split. Qed.

Definition fetched (r : buf + bytes) (rs : list ca_res) : Prop :=
  match r with inl b => rs = owned b | inr _ => rs = [] end.
Lemma chase_t hops : forall n cur body, ca_triple (cl_chain lib) e n (owned body) (chase lib fuel hops cur timeout body) (ends True fetched).
Proof using Hclock Hserver Hfuel Hmemory.
  induction hops as [|hops IH]; intros n cur body; cbn [chase]; [by t_done|].
  rewrite <- (app_nil_r (owned body)). apply free_buf_t. t_osub (http_get_t (S n) cur); [|done].
  intros [err|status loc body'] rs Hr; cbn in Hr; subst rs; [by t_done|]. rewrite app_nil_r.
  destruct (_ && _); [|by t_done]. pose proof (redirect_ends cur loc).
  destruct (redirect cur loc) as [[cur'|]| |]; [apply IH|by t_done|by t_done|done].
Qed.

Definition certified (r : Z + bytes) (rs : list ca_res) : Prop :=
  match r with inl c => c <> 0 /\ rs = [RCert c] | inr _ => rs = [] end.
Lemma fetch_cert_t n url : ca_triple (cl_chain lib) e n [] (fetch_cert lib fuel url timeout) (ends True certified).
Proof using Hclock Hserver Hfuel Hmemory.
  unfold fetch_cert. t_osub (chase_t 10 n (trunc LOC_SZ url) buf0); [|done].
  intros [body|err] rs Hr; cbn in Hr; subst rs; rewrite ?app_nil_r; [|by t_done].
  destruct (_ || _) eqn:Eb.
  { rewrite <- (app_nil_r (owned body)). apply free_buf_t. by t_done. }
  zbool. assert (Hb : RMem (b_ptr body) ∈ owned body) by by apply nz_in. apply t_mem; [done|].
  t_call. rename r into c. null RCert c; zbool.
  - t_call. rename r into bio.
    eapply (t_bind _ _ _ _ _ _ _ (nz RBio bio ++ owned body) []) with (mid := fun c rs => rs = nz RCert c ++ owned body); [|by rewrite app_nil_r|].
    + null RBio bio; [by t_done|]. apply t_mem; [by right|]. t_call. rename r into c'. eapply t_sys; [cbn; held|]. intros ?. eexists.
      split; [cbn; pick|]. cbn. by t_done.
    + intros c' rs ->. rewrite app_nil_r, Permutation_app_comm. apply free_buf_t. t_done.
      null RCert c'; [done|]. zbool. by split.
  - rewrite <- (app_nil_r (owned body)), app_comm_cons, (Permutation_app_comm (_ :: _)). cbn [app].
    assert (Hp : RCert c :: owned body ≡ₚ owned body ++ [RCert c]) by apply Permutation_cons_append.
    rewrite ?app_nil_r, Hp. apply free_buf_t. t_done. by split.
Qed.

(** ** The handshake *)

Definition connected (r : Z * Z * Z + bytes) (rs : list ca_res) : Prop :=
  match r with inl (fd, ctx, ssl) => rs = [RSsl ssl; RCtx ctx; RFd fd] | inr _ => rs = [] end.

(** A call that is made or not, without effect on what is held. *)
Lemma t_skip {A} n pre (b : bool) (m : sysM unit) (k : sysM A) post :
  (b = false -> ca_triple (cl_chain lib) e n pre m (fun _ rs => rs = pre)) ->
  (forall n', ca_triple (cl_chain lib) e n' pre k post) ->
  ca_triple (cl_chain lib) e n pre ((if b then mret tt else m);; k) post.
Proof using.
  intros Hm Hk. eapply (t_bind _ _ _ _ _ _ _ pre []) with (mid := fun _ rs => rs = pre).
  - destruct b; [by t_done|by apply Hm].
  - by rewrite app_nil_r.
  - intros _ rs ->. rewrite app_nil_r. apply Hk.
Qed.

Lemma tls_connect_t n host port o : fTimeout o = timeout ->
  ca_triple (cl_chain lib) e n [] (tls_connect lib fuel host port o) (ends False connected).
Proof using Hclock Hfuel Hmemory.
  intros Ht. unfold tls_connect. rewrite Ht. t_osub (dial_ok (cl_chain lib) (cl_strerror lib) (cl_gai_strerror lib) host port e N n fuel); [done|done| |done].
  intros [fd err] rs Hd. unfold dialed in Hd. cbn in *. destruct (fd <? 0); [destruct Hd as [-> _]; by t_done|].
  rewrite Hd. cbn. t_call. rename r into ctx. null RCtx ctx.
  { t_sub (ssl_errstr_t (S n)). intros msg rs' ->. cbn. t_call. by t_done. }
  apply t_skip; [intros _; do 2 t_call; by t_done|]. intros n1.
  t_call_env h Hl. pose proof (Hmemory h (SslNew ctx) eq_refl). set (ssl := e h _) in *.
  null RSsl ssl; zbool; [done|]. t_call. apply t_skip; [intros _; t_call; by t_done|]. intros n2.
  t_call. t_call. destruct (_ =? 1); [by t_done|]. t_call.
  eapply t_bind0 with (mid := nothing).
  - destruct (_ && _); [by t_done|apply ssl_errstr_t].
  - intros msg rs' ->. cbn. do 3 t_call. by t_done.
Qed.

(** ** The run *)

(** The text of a URL is printed and freed. *)
Lemma free_text_t {A} n p held (a : A) : p <> 0 ->
  ca_triple (cl_chain lib) e n (RMem p :: held) (sys (MemUse p);; sys (FreeMem p);; mret a) (fun _ rs => rs = held).
Proof using.
  intros Hp. apply t_mem; [by left|]. eapply t_sys; [cbn; by apply Forall_nil|]. intros ?. exists held.
  split; [cbn; by null RMem p; [zbool; done|]|by t_done].
Qed.

Lemma show_cert_t n mem i c held : RMem mem ∈ held -> live held (RCert c) ->
  ca_triple (cl_chain lib) e n held (show_cert lib mem i c) (fun _ rs => rs = held).
Proof using.
  intros Hm Hc. unfold show_cert. apply t_mem; [done|]. apply t_cert; [done|].
  eapply t_bind0; [apply name_cn_t|]. intros scn rs ->. cbn [app]. apply t_cert; [done|].
  eapply t_bind0; [apply name_cn_t|]. intros icn rs ->. cbn [app]. apply t_cert; [done|].
  eapply t_bind; [by apply (aia_ca_issuer_t _ c held)|by rewrite app_nil_r|].
  intros [[p u]|] rs (own&Hr&->); cbn in Hr.
  - destruct Hr as [Hp ->]. eapply t_bind; [by apply (free_text_t _ p held)|by rewrite !app_nil_r|]. intros ? rs ->. t_done. by rewrite app_nil_r.
  - subst own. eapply t_bind0 with (mid := nothing); [by t_done|]. intros ? rs ->. t_done. by rewrite app_nil_r.
Qed.
Lemma show_certs_t mem held certs : RMem mem ∈ held -> Forall (fun c => live held (RCert c)) certs ->
  forall n i, ca_triple (cl_chain lib) e n held (show_certs lib mem i certs) (fun _ rs => rs = held).
Proof using.
  intros Hm. induction 1 as [|c certs Hc _ IH]; intros n i; cbn [show_certs]; [by t_done|].
  eapply t_bind; [by apply (show_cert_t n mem i c held)|by rewrite app_nil_r|]. intros t rs ->. rewrite app_nil_r.
  eapply t_bind; [apply IH|by rewrite app_nil_r|]. intros ts rs ->. t_done. by rewrite app_nil_r.
Qed.
Lemma fill_certs_t n mem leaf chain held : RMem mem ∈ held -> (leaf <> 0 -> live held (RCert leaf)) ->
  Forall (fun c => live held (RCert c)) chain -> ca_triple (cl_chain lib) e n held (fill_certs mem leaf chain) (fun _ rs => rs = held).
Proof using.
  intros Hm Hl Hc. unfold fill_certs. apply t_mem; [done|]. destruct Hc as [|c chain Hc _]; [by t_done|].
  destruct (leaf =? 0) eqn:E; [by t_done|]. zbool. apply t_cert; [done|]. apply t_cert; [by apply Hl|]. by t_done.
Qed.
Lemma pick_certs_t n mem save c0 all own held : RMem mem ∈ held -> RMem save ∈ held -> live held (RCert c0) ->
  ca_triple (cl_chain lib) e n held (pick_certs mem save c0 all own) (fun _ rs => rs = held).
Proof using.
  intros Hm Hs Hc. unfold pick_certs. apply t_skip.
  - intros _. apply t_mem; [done|]. apply t_cert; [done|]. by t_done.
  - intros n'. destruct own; [by t_done|]. apply t_mem; [done|]. apply t_mem; [done|]. by t_done.
Qed.

(** The file of the output, when there is one. *)
Definition file_res (w : option Z) : list ca_res := match w with Some f => [RFile f] | None => [] end.
Lemma write_certs_t w save held certs : RMem save ∈ held -> Forall (fun c => live held (RCert c)) certs ->
  forall n, ca_triple (cl_chain lib) e n (file_res w ++ held) (write_certs lib w save certs) (fun _ rs => rs = file_res w ++ held).
Proof using.
  intros Hs Hc. induction Hc as [|c certs Hc _ IH]; intros n; cbn [write_certs]; [by t_done|].
  apply t_mem; [by apply elem_of_app; right|]. apply t_use; [|by intros|].
  { apply Forall_app_2; [|apply Forall_singleton; eapply usable_mono; [|exact Hc]; intros x ?; by apply elem_of_app; right].
    destruct w; [apply Forall_singleton, usable_in; by left|apply Forall_nil_2]. }
  intros r. destruct (r =? 1).
  - eapply t_bind; [apply IH|by rewrite app_nil_r|]. intros t rs ->. t_done. by rewrite app_nil_r.
  - eapply t_bind0; [apply ssl_errstr_t|]. intros msg rs ->. by t_done.
Qed.

(** What a session holds, and its end. *)
Definition sess_res (s : session) : list ca_res :=
  nz RCert (se_leaf s) ++ nz RMem (se_certs s) ++ [RSsl (se_ssl s); RCtx (se_ctx s); RFd (se_fd s)].
Lemma free_cert_t {A} n c fr (m : sysM A) post : (forall n', ca_triple (cl_chain lib) e n' fr m post) ->
  ca_triple (cl_chain lib) e n (nz RCert c ++ fr) (free_cert c;; m) post.
Proof using.
  intros Hm. eapply (t_bind _ _ _ _ _ _ _ (nz RCert c) fr) with (mid := nothing); [|done|by intros ? rs ->].
  unfold free_cert. null RCert c; [by t_done|]. t_call. by t_done.
Qed.
Lemma free_mem_t {A} n p fr (m : sysM A) post : (forall n', ca_triple (cl_chain lib) e n' fr m post) ->
  ca_triple (cl_chain lib) e n (nz RMem p ++ fr) (sys (FreeMem p);; m) post.
Proof using. intros Hm. eapply t_sys; [cbn; held|]. intros ?. exists fr. split; [done|]. apply Hm. Qed.
Lemma release_t n s : ca_triple (cl_chain lib) e n (sess_res s) (release s) nothing.
Proof using.
  unfold release, sess_res. apply free_cert_t. intros n1. apply free_mem_t. intros n2. do 3 t_call. by t_done.
Qed.
Lemma release_all_t n s root save : ca_triple (cl_chain lib) e n (nz RCert root ++ nz RMem save ++ sess_res s) (release_all s root save) nothing.
Proof using.
  unfold release_all, sess_res. apply free_cert_t. intros n1.
  rewrite (Permutation_app_swap_app (nz RMem save)). apply free_cert_t. intros n2. apply free_mem_t. intros n3.
  apply free_mem_t. intros n4. do 3 t_call. by t_done.
Qed.

#[local] Opaque fetch_cert name_cn.
(** What the fetch of the root acquires. *)
Lemma fetch_root_t n o mem top held : fTimeout o = timeout -> RMem mem ∈ held -> live held (RCert top) ->
  ca_triple (cl_chain lib) e n held (fetch_root lib fuel o mem top) (ends True (fun r rs => rs = nz RCert r.1.1 ++ held)).
Proof using Hclock Hserver Hfuel Hmemory.
  intros Ht Hm Htop. unfold fetch_root. rewrite Ht. apply t_mem; [done|].
  eapply t_bind; [by apply (aia_ca_issuer_t _ top held)|by rewrite app_nil_r|].
  intros [[p url]|] rs (own&Hr&->); cbn in Hr; [|subst own; t_done; by rewrite app_nil_r].
  destruct Hr as [Hp ->]. rewrite app_nil_r. cbn [app]. apply t_mem; [by left|].
  eapply (t_obind _ _ _ _ [] (RMem p :: held)); [apply fetch_cert_t|reflexivity| |done].
  assert (Hz : RMem p :: held = nz RMem p ++ held) by (by null RMem p; [zbool; done|done]).
  intros [root|err] rs Hr; cbn in Hr.
  - destruct Hr as [Hroot ->]. cbn [app]. apply t_mem; [by right; left|]. apply t_cert; [apply usable_in; by left|].
    eapply t_bind0; [apply name_cn_t|]. intros rcn rs ->. cbn [app]. apply t_cert; [apply usable_in; by left|].
    rewrite Permutation_swap. cbn [app]. change (RMem p :: RCert root :: held) with ([RMem p] ++ RCert root :: held).
    replace [RMem p] with (nz RMem p) by (by null RMem p; [zbool; done|done]).
    apply free_mem_t. intros n'. t_done. by null RCert root; [zbool; done|done].
  - subst rs. cbn [app]. apply t_mem; [by left|]. rewrite Hz. apply free_mem_t. intros n'. by t_done.
Qed.

(** What is held while the certificates are saved. *)
Definition sess_held (s : session) (root save : Z) : list ca_res := nz RCert root ++ nz RMem save ++ sess_res s.
Lemma save_certs_t n s root save o host saved text err : save <> 0 ->
  Forall (fun c => live (sess_held s root save) (RCert c)) saved ->
  ca_triple (cl_chain lib) e n (sess_held s root save) (save_certs lib s root save o host saved text err) (ends False nothing).
Proof using.
  intros Hs Hc. unfold save_certs. set (held := sess_held s root save) in *.
  assert (Hm : RMem save ∈ held) by (apply elem_of_app; right; apply elem_of_app; left; by apply nz_in).
  assert (Hend : forall n' r, ca_triple (cl_chain lib) e n' held (release_all s root save;; mret (Ok r)) (ends False (@nothing run_end))).
  { intros n' r. eapply (t_bind _ _ _ _ _ _ _ held []); [apply release_all_t|by rewrite app_nil_r|]. intros ? rs ->. by t_done. }
  destruct (eqs _ _).
  - eapply (t_bind _ _ _ _ _ _ _ held []); [by apply (write_certs_t None save held)|by rewrite app_nil_r|].
    intros w rs ->. rewrite app_nil_r. apply Hend.
  - eapply t_sys; [cbn; held|]. intros f. exists held. split; [done|]. cbn. destruct (f <=? 0) eqn:E; [apply Hend|].
    eapply (t_bind _ _ _ _ _ _ _ (RFile f :: held) []); [by apply (write_certs_t (Some f) save held)|by rewrite app_nil_r|].
    intros w rs ->. rewrite app_nil_r. cbn. t_call. apply Hend.
Qed.

(** The certificates of a session are its leaf and the chain of its
    connection, which lends them. *)
Lemma presented_live s chain held : sess_res s ⊆ held -> (chain = [] \/ chain = cl_chain lib (se_ssl s)) ->
  Forall (fun c => live held (RCert c)) chain /\
  Forall (fun c => live held (RCert c)) (presented (cl_same lib) (if se_leaf s =? 0 then None else Some (se_leaf s)) chain).
Proof using.
  intros Hh Hch. assert (Hc : Forall (fun c => live held (RCert c)) chain).
  { destruct Hch as [-> | ->]; [apply Forall_nil_2|]. apply Forall_forall. intros c Hc. apply (usable_lent _ held (RSsl (se_ssl s))).
    - apply Hh. unfold sess_res. rewrite !elem_of_app. right. right. by left.
    - cbn. by apply list_elem_of_fmap_2. }
  split; [done|]. unfold presented. destruct (se_leaf s =? 0) eqn:E; [done|]. zbool. apply Forall_cons. split.
  - apply usable_in, Hh. unfold sess_res. apply elem_of_app. left. by apply nz_in.
  - destruct Hc as [|c chain' Hc Hc']; [apply Forall_nil_2|]. destruct (cl_same lib c _); [done|by apply Forall_cons].
Qed.
Lemma to_save_sub {X} (f : X -> bool) all certs : to_save f all certs ⊆ certs.
Proof using.
  intros c Hc. unfold to_save in Hc. apply list_elem_of_bind in Hc as ([i x]&Hc&Hx).
  apply elem_of_lookup_imap in Hx as (j&y&E&Hy). injection E as -> ->. apply list_elem_of_lookup_2 in Hy.
  cbn [fst snd] in Hc. destruct (_ || _); [|by apply elem_of_nil in Hc]. by apply list_elem_of_singleton in Hc as ->.
Qed.

Lemma ca_rest_t n fd ctx ssl o host before : fTimeout o = timeout ->
  ca_triple (cl_chain lib) e n [RSsl ssl; RCtx ctx; RFd fd] (ca_rest lib fuel fd ctx ssl o host before) (ends (fFetchRoot o = true) nothing).
Proof using Hclock Hserver Hfuel Hmemory.
  intros Ht. unfold ca_rest. t_call. rename r into leaf. t_call. rename r into stack.
  set (chain := if stack =? 0 then [] else cl_chain lib ssl).
  t_call_env h Hl. pose proof (Hmemory h (Calloc ((blen chain + 1) * 8)) eq_refl) as Hm.
  set (mem := e h _) in *. set (s := Session fd ctx ssl leaf mem).
  assert (Hs : nz RMem mem ++ nz RCert leaf ++ [RSsl ssl; RCtx ctx; RFd fd] ≡ₚ sess_res s) by apply Permutation_app_swap_app.
  rewrite Hs. assert (Hch : chain = [] \/ chain = cl_chain lib (se_ssl s)) by (unfold chain; destruct (stack =? 0); auto).
  assert (Hmem : RMem mem ∈ sess_res s) by (unfold sess_res; rewrite !elem_of_app; right; left; by apply nz_in).
  assert (Hlive : forall held, sess_res s ⊆ held -> Forall (fun c => live held (RCert c))
    (presented (cl_same lib) (if leaf =? 0 then None else Some leaf) chain)) by (intros held Hh; by apply (presented_live s)).
  destruct (presented _ _ _) as [|c0 rest].
  { eapply t_bind; [apply release_t|by rewrite app_nil_r|]. intros ? rs ->. by t_done. }
  rewrite (proj2 (Z.eqb_neq mem 0) Hm).
  eapply t_bind; [eapply (fill_certs_t _ mem leaf chain (sess_res s) Hmem); [|by apply (presented_live s)]|by rewrite app_nil_r|].
  { intros Hlf. apply usable_in. unfold sess_res. apply elem_of_app. left. by apply nz_in. }
  intros ? rs ->. rewrite app_nil_r.
  eapply t_bind; [apply (show_certs_t mem (sess_res s) (c0 :: rest) Hmem); by apply Hlive|by rewrite app_nil_r|].
  intros shown rs ->. rewrite app_nil_r.
  t_call_env h2 Hl2. pose proof (Hmemory h2 (Calloc ((blen (c0 :: rest) + 1) * 8)) eq_refl) as Hm2.
  set (save := e h2 _) in *. rewrite (proj2 (Z.eqb_neq save 0) Hm2). cbn [andb].
  set (held := nz RMem save ++ sess_res s). assert (Hsub : sess_res s ⊆ held) by set_solver.
  pose proof (Hlive held Hsub) as Hlv. pose proof (Hlv) as Hlv'. apply Forall_cons in Hlv' as [Hc0 _].
  assert (Hms : RMem save ∈ held) by (apply elem_of_app; left; by apply nz_in).
  eapply t_bind; [apply (pick_certs_t _ mem save c0 (fAll o) _ held); [by apply Hsub|done|done]|by rewrite app_nil_r|].
  intros ? rs ->. rewrite app_nil_r.
  eapply (t_obind _ _ _ _ held [] _ _ (fFetchRoot o = true) (fun r rs => rs = nz RCert r.1.1 ++ held)).
  { destruct (fFetchRoot o) eqn:Ef; [|by t_done]. eapply t_conseq; [apply fetch_root_t; [done|by apply Hsub|]|by intros [] ?].
    rewrite Forall_forall in Hlv. apply Hlv. apply last_Some_elem_of, last_default. }
  { by rewrite app_nil_r. }
  2: { done. }
  intros [[root fetched] err] rs ->. cbn [fst]. rewrite app_nil_r. fold (sess_held s root save).
  assert (Hsub' : held ⊆ sess_held s root save) by (unfold sess_held, held; set_solver).
  assert (Hsv : RMem save ∈ sess_held s root save) by by apply Hsub'.
  eapply t_bind with (mid := fun _ rs => rs = sess_held s root save); [|by rewrite app_nil_r|].
  { destruct (root =? 0); [by t_done|]. apply t_mem; [done|]. by t_done. }
  intros ? rs ->. rewrite app_nil_r.
  assert (Hsaved : Forall (fun c => live (sess_held s root save) (RCert c))
    (to_save (cl_is_ca lib) (fAll o) (c0 :: rest) ++ (if root =? 0 then [] else [root]))).
  { apply Forall_app_2.
    - apply Forall_forall. intros c Hc. apply to_save_sub in Hc. rewrite Forall_forall in Hlv. eapply usable_mono; [exact Hsub'|]. by apply Hlv.
    - destruct (root =? 0) eqn:E; [apply Forall_nil_2|]. zbool. apply Forall_singleton, usable_in.
      unfold sess_held. apply elem_of_app. left. by apply nz_in. }
  destruct (bool_decide _).
  - apply t_mem; [by apply Hsub', Hsub|].
    eapply t_bind; [apply (aia_ca_issuer_t _ c0 (sess_held s root save)); by eapply usable_mono|by rewrite app_nil_r|].
    intros [[p u]|] rs (own&Hr&->); cbn in Hr; rewrite app_nil_r.
    + destruct Hr as [Hp ->]. cbn [app]. eapply t_bind; [by apply (free_text_t _ p (sess_held s root save))|by rewrite app_nil_r|].
      intros ? rs ->. rewrite app_nil_r. eapply t_bind; [apply release_all_t|by rewrite app_nil_r|]. intros ? rs ->. by t_done.
    + subst own. eapply t_bind0 with (mid := nothing); [by t_done|]. intros ? rs ->.
      eapply t_bind; [apply release_all_t|by rewrite app_nil_r|]. intros ? rs ->. by t_done.
  - eapply t_conseq; [by apply save_certs_t|]. by intros [] rs.
Qed.
End Hold.

(** The timeout of the command line. *)
Definition args_timeout (args : list bytes) : Z :=
  match scan_ca args caopts0 [] with Scanned o _ => fTimeout o | _ => 0 end.
Definition args_fetch (args : list bytes) : bool :=
  match scan_ca args caopts0 [] with Scanned o _ => fFetchRoot o | _ => false end.

(** C8. ca holds nothing when it ends.  While the clock runs, the servers stop
    sending and memory is left, a run ends, and on whatever path it ends (an
    error of the command line, of the connection, of the handshake, of the
    fetch, of the output; or success), every descriptor, every block of memory
    and every object of OpenSSL that it has acquired has been released exactly
    once, and none has been used after its release: no call is given a
    descriptor, a file or an object that is not open, no block of memory is
    read or written, and no certificate is asked for its texts, compared or
    written, but while it is held, or for one of the chain, which belongs to
    the connection, while the connection is.  Only -fetch-root can meet undefined
    behaviour (a URL that overruns an array). *)
Theorem ca_run_releases lib (e : @env ca_call) N fuel args :
  clock_runs e N (args_timeout args) -> server_stops e N -> memory_left e -> (N < fuel)%nat ->
  wp e [] (ca_run lib fuel args) (fun r h =>
    match r with
    | Ok _ => ca_holds (cl_chain lib) h []
    | Ub => args_fetch args = true
    | Fuel => False
    end).
Proof.
  intros Hc Hs Hm Hf.
  assert (Ht : ca_triple (cl_chain lib) e 0 [] (ca_run lib fuel args) (ends (args_fetch args = true) nothing)).
  { unfold ca_run, args_timeout, args_fetch in *. destruct (scan_ca args caopts0 []) as [o pos| | |]; try by t_done.
    pose proof (plan_timeout o pos) as Hp. destruct (plan o pos) as [| |p|host port o']; try by t_done.
    destruct Hp as [Hp1 Hp2]. eapply (t_obind _ _ _ _ [] []); [by eapply (tls_connect_t lib e N (fTimeout o) fuel Hc Hf Hm)|done| |done].
    intros [[[fd ctx] ssl]|msg] rs Hr; cbn in Hr; subst rs; [|by t_done]. rewrite app_nil_r, <- Hp2.
    by apply (ca_rest_t lib e N (fTimeout o) fuel Hc Hf Hs Hm). }
  eapply wp_mono; [apply (Ht [] []); [done|apply holds_start]|].
  intros [x| |] h (_&rs&Hr&Hh); cbn in Hr; [by rewrite Hr in Hh|done|done].
Qed.

Lemma ca_run_releases_witness :
  wp demo_sys [] (ca_run demo_lib 12 demo_ca_args) (fun r h =>
    match r with
    | Ok _ => ca_holds (cl_chain demo_lib) h []
    | Ub => args_fetch demo_ca_args = true
    | Fuel => False
    end).
Proof.
  apply (ca_run_releases demo_lib demo_sys 10 12 demo_ca_args).
  - intros h h' Hh. change (args_timeout demo_ca_args) with 10. cbn. lia.
  - intros h c Hc _. destruct c; try discriminate Hc; cbn; lia.
  - intros h c Hc. destruct c; try discriminate Hc; cbn; lia.
  - lia.
Defined.
