(* ===== verification/Main.v ===== *)
(** c/tracep.c: the choice of the subcommand from the command line, and what
    stands behind it on a platform that a tracer is not written for. *)
From S2P Require Import Prelude CLib.

Inductive subcommand := Net | Tls | Dns | Exec | CaFetch.
Definition subcommands : list (bytes * subcommand) :=
  [(bs "net", Net); (bs "tls", Tls); (bs "dns", Dns); (bs "exec", Exec); (bs "ca", CaFetch)].

(** What [main] does: the usage text or the version and an exit status, the
    message of an unknown command, or a subcommand with its own arguments. *)
Inductive main_action :=
  | Usage (status : Z)
  | Version
  | UnknownCommand (sub : bytes)
  | Run (sub : subcommand) (argv : list bytes).

Fixpoint find_sub (subs : list (bytes * subcommand)) (sub : bytes) : option subcommand :=
  match subs with
  | [] => None
  | (name, run) :: subs' => if eqs name sub then Some run else find_sub subs' sub
  end.

Definition main (argv : list bytes) : main_action :=
  match argv with
  | _ :: sub :: rest =>
      if eqs sub "-h" || eqs sub "--help" || eqs sub "help" then Usage 0
      else if eqs sub "-v" || eqs sub "--version" || eqs sub "version" then Version
      else match find_sub subcommands sub with
           | Some run => Run run (trunc 64 ("tracep " ++ sub) :: rest)
           | None => UnknownCommand sub
           end
  | _ => Usage 2
  end.

Definition exit_status (run : subcommand -> list bytes -> Z) (a : main_action) : Z :=
  match a with Usage s => s | Version => 0 | UnknownCommand _ => 2 | Run sub argv => run sub argv end.

(** * Platforms

    On a platform that a tracer is not written for, its main function prints
    why and ends with status 1. *)
Inductive platform := OnLinux | OnMacOs | OnFreeBsd | OnOpenBsd | OnNetBsd | OnOther.
Definition only_text (tool what os : bytes) : bytes :=
  "tracep " ++ tool ++ ": " ++ what ++ " (this is " ++ os ++ ")." ++ ["010"%char] ++
  "Only `tracep ca` and `tracep dns` run on " ++ os ++ "." ++ ["010"%char].
Definition bsd_name (p : platform) (other : bytes) : bytes :=
  match p with OnFreeBsd => "freebsd" | OnOpenBsd => "openbsd" | OnNetBsd => "netbsd" | _ => other end.
Definition exec_stub (p : platform) : Z * bytes :=
  (1, only_text "exec" "exec() tracing is only supported on Linux and macOS" (bsd_name p "unknown")).
Definition net_stub (p : platform) : Z * bytes :=
  (1, only_text "net" "network-connection tracing is only supported on Linux and macOS" (bsd_name p "this platform")).
Definition tls_stub (p : platform) : Z * bytes :=
  (1, only_text "tls" "TLS tracing is only supported on Linux" (match p with OnMacOs => "darwin" | _ => "unknown" end)).

(** What stands behind a subcommand: the stub, or the tracer. *)
Definition stub_of (p : platform) (sub : subcommand) : option (Z * bytes) :=
  match sub, p with
  | Exec, (OnLinux | OnMacOs) | Net, (OnLinux | OnMacOs) | Tls, OnLinux | Dns, _ | CaFetch, _ => None
  | Exec, _ => Some (exec_stub p)
  | Net, _ => Some (net_stub p)
  | Tls, _ => Some (tls_stub p)
  end.

(** A subcommand that is not built ends with status 1, from its name on. *)
Lemma main_stub p run prog name sub rest s : (forall sub' argv s', stub_of p sub' = Some s' -> run sub' argv = s'.1) ->
  (name, sub) ∈ subcommands -> stub_of p sub = Some s -> exit_status run (main (prog :: name :: rest)) = 1.
Proof.
  intros Hrun Hin Hs. assert (E : s.1 = 1) by (destruct sub, p; cbn in Hs; (discriminate Hs || by injection Hs as <-)).
  rewrite <- E. unfold subcommands in Hin. rewrite !elem_of_cons, elem_of_nil in Hin.
  destruct Hin as [[= -> ->]|[[= -> ->]|[[= -> ->]|[[= -> ->]|[[= -> ->]|[]]]]]]; by apply Hrun.
Qed.

(** Each subcommand of the table is reached by its name, with the name of the
    program and its own arguments only. *)
Lemma main_runs prog name sub rest :
  (name, sub) ∈ subcommands -> main (prog :: name :: rest) = Run sub (("tracep " ++ name) :: rest).
Proof.
  unfold subcommands. rewrite !elem_of_cons, elem_of_nil.
  intros [[= -> ->]|[[= -> ->]|[[= -> ->]|[[= -> ->]|[[= -> ->]|[]]]]]]; reflexivity.
Qed.

(** Any other word ends with status 2, but for the words of help and version. *)
Lemma main_unknown run prog sub rest :
  sub ∉ (fst <$> subcommands) -> sub ∉ [bs "-h"; bs "--help"; bs "help"; bs "-v"; bs "--version"; bs "version"] ->
  exit_status run (main (prog :: sub :: rest)) = 2.
Proof.
  unfold subcommands. cbn [fmap list_fmap fst]. rewrite !not_elem_of_cons. intros (H1&H2&H3&H4&H5&_) (H6&H7&H8&H9&H10&H11&_).
  assert (He : forall n : bytes, sub <> n -> eqs sub n = false /\ eqs n sub = false).
  { intros n Hn. split; apply eqs_false; congruence. }
  unfold main. rewrite (proj1 (He _ H6)), (proj1 (He _ H7)), (proj1 (He _ H8)), (proj1 (He _ H9)), (proj1 (He _ H10)), (proj1 (He _ H11)).
  cbn [orb subcommands find_sub]. by rewrite (proj2 (He _ H1)), (proj2 (He _ H2)), (proj2 (He _ H3)), (proj2 (He _ H4)), (proj2 (He _ H5)).
Qed.
