(* ===== verification/Usage.v ===== *)
(** The usage texts of c/tracep.c, c/exec.c, c/net.c, c/tls.c, c/dns.c and
    c/ca.c, as the calls of [fprintf] that print them; and what they say of the
    command lines that the programs accept. *)
From S2P Require Import Prelude CLib Common Start ExecArgs NetArgs DnsTrace Tls TlsTrace Ca Main.

(** * The calls of [fprintf] *)

(** A format with its arguments, all of them strings. *)
Abbreviation prints := (list (bytes * list bytes)).

(** [printf], for the conversions [%s], [%-5s] and [%-52s]; [None] when the
    arguments are not as many as the conversions, or for another conversion. *)
Definition digit_of (c : byte) : nat := Z.to_nat (u8 c - 48).
Fixpoint printf (f : bytes) (args : list bytes) : option bytes :=
  match f with
  | [] => match args with [] => Some [] | _ :: _ => None end
  | c :: f1 =>
      if negb (eqc c "%") then cons c <$> printf f1 args
      else match f1, args with
           | x :: f2, a :: args' =>
               if eqc x "s" then app a <$> printf f2 args'
               else if negb (eqc x "-") then None
               else match f2 with
                    | d :: e :: f3 =>
                        if negb (is_digit d) then None
                        else if eqc e "s" then app (pad_right (digit_of d) a) <$> printf f3 args'
                        else match f3 with
                             | g :: f4 => if is_digit e && eqc g "s"
                                          then app (pad_right (10 * digit_of d + digit_of e) a) <$> printf f4 args'
                                          else None
                             | [] => None
                             end
                    | _ => None
                    end
           | _, _ => None
           end
  end.
(** The texts printed one after the other. *)
Fixpoint rendered (p : prints) : option (list bytes) :=
  match p with
  | [] => Some []
  | (f, args) :: p' => t ← printf f args; ts ← rendered p'; Some (t :: ts)
  end.

(** * The texts *)

(** The escape sequences, empty without colours. *)
Definition paint (on : bool) (code : bytes) : bytes := if on then [ESC] ++ "[" ++ code ++ "m" else [].
Definition bold : bytes := paint true "1".
Definition dim : bytes := paint true "2".
Definition reset : bytes := paint true "0".
Definition cyan : bytes := paint true "36".
Definition yellow : bytes := paint true "33".
Definition green : bytes := paint true "32".
Definition magenta : bytes := paint true "35".

(** The commands with their descriptions, and [usage] of tracep.c. *)
Definition command_rows : list (bytes * bytes) :=
  [(bs "net", bs "trace per-process network connections");
   (bs "tls", bs "trace per-process TLS handshakes");
   (bs "dns", bs "trace per-process DNS queries");
   (bs "exec", bs "trace per-process exec syscalls");
   (bs "ca", bs "fetch a host's TLS CA chain")].
Definition tracep_usage (version : bytes) : prints :=
  [("tracep %s — trace a process's net, TLS, DNS & exec activity" ++ NL ++ NL, [version]);
   ("usage: tracep <command> [flags]" ++ NL ++ NL ++ "commands:" ++ NL, [])] ++
  ((fun r => ("  %-6s %s" ++ NL, [r.1; r.2])) <$> command_rows) ++
  [(NL ++ "run 'tracep <command> -h' for command-specific flags" ++ NL, [])].

(** [usage] of exec.c on Linux. *)
Definition exec_usage (version : bytes) : prints :=
  [
   (NL ++ "  %s%s🔍 proc-trace-exec%s %s%s%s — system-wide exec() tracer for Linux" ++ NL ++ NL, [bold; cyan; reset; dim; version; reset]);
   ("  %sUsage:%s" ++ NL, [bold; reset]);
   ("    proc-trace-exec %s[flags]%s %s[-p PID[,PID,...] | CMD...]%s" ++ NL ++ NL, [dim; reset; yellow; reset]);
   ("  %sFlags:%s" ++ NL, [bold; reset]);
   ("    🎨  %s-c%s          colorize output %s(auto when stdout is a tty)%s" ++ NL, [yellow; reset; dim; reset]);
   ("    📁  %s-d%s          print cwd of each process" ++ NL, [yellow; reset]);
   ("    🌿  %s-e%s          print environment variables" ++ NL, [yellow; reset]);
   ("    ⬜  %s-f%s          flat output %s(no indentation)%s" ++ NL, [yellow; reset; dim; reset]);
   ("    🔗  %s-l%s          print full executable path" ++ NL, [yellow; reset]);
   ("    📝  %s-o%s %sFILE%s      log output to FILE instead of stdout" ++ NL, [yellow; reset; cyan; reset]);
   ("    🎯  %s-p%s %sPID%s       trace descendants of PID %s(repeat or comma-separate for multiple)%s" ++ NL, [yellow; reset; cyan; reset; dim; reset]);
   ("    🤫  %s-q%s          suppress arguments" ++ NL, [yellow; reset]);
   ("    🔇  %s-Q%s          suppress error messages" ++ NL, [yellow; reset]);
   ("    ⏱️   %s-t%s          show exit status + timing" ++ NL, [yellow; reset]);
   ("    👤  %s-u%s          print owning user" ++ NL, [yellow; reset]);
   (NL ++ "  %sExamples:%s" ++ NL, [bold; reset]);
   ("    %s# trace a command and all its children%s" ++ NL, [dim; reset]);
   ("    sudo proc-trace-exec %s-ct%s sh -c %s'make'%s" ++ NL ++ NL, [green; reset; magenta; reset]);
   ("    %s# watch all nginx worker processes%s" ++ NL, [dim; reset]);
   ("    sudo proc-trace-exec %s-p%s $(pgrep nginx | paste -sd,)" ++ NL ++ NL, [green; reset]);
   ("    %s# log everything quietly to a file%s" ++ NL, [dim; reset]);
   ("    sudo proc-trace-exec %s-Qo%s /var/log/execs.log" ++ NL ++ NL, [green; reset]) ].

(** [macUsage] *)
Definition mac_exec_usage (version : bytes) : prints :=
  [
   (NL ++ "  %s%s🔍 tracep exec%s %s%s%s — exec() tracer (darwin, polling)" ++ NL ++ NL, [bold; cyan; reset; dim; version; reset]);
   ("  %sUsage:%s" ++ NL, [bold; reset]);
   ("    tracep exec %s[flags]%s %s[-p PID[,PID,...] | CMD...]%s" ++ NL ++ NL, [dim; reset; yellow; reset]);
   ("  %sFlags:%s" ++ NL, [bold; reset]);
   ("    🎨  %s-c%s          colorize output %s(auto when stdout is a tty)%s" ++ NL, [yellow; reset; dim; reset]);
   ("    📁  %s-d%s          print cwd of each process" ++ NL, [yellow; reset]);
   ("    🌿  %s-e%s          print environment variables" ++ NL, [yellow; reset]);
   ("    ⬜  %s-f%s          flat output %s(no indentation)%s" ++ NL, [yellow; reset; dim; reset]);
   ("    ⏲️   %s-i%s %sMS%s        poll interval in ms %s(default 50)%s" ++ NL, [yellow; reset; cyan; reset; dim; reset]);
   ("    🔗  %s-l%s          print full executable path" ++ NL, [yellow; reset]);
   ("    📝  %s-o%s %sFILE%s      log output to FILE instead of stdout" ++ NL, [yellow; reset; cyan; reset]);
   ("    🎯  %s-p%s %sPID%s       trace descendants of PID %s(repeat or comma-separate)%s" ++ NL, [yellow; reset; cyan; reset; dim; reset]);
   ("    🤫  %s-q%s          suppress arguments" ++ NL, [yellow; reset]);
   ("    🔇  %s-Q%s          suppress error messages" ++ NL, [yellow; reset]);
   ("    ⏱️   %s-t%s          show exit + timing %s(exit code unknown on darwin)%s" ++ NL, [yellow; reset; dim; reset]);
   ("    👤  %s-u%s          print owning user" ++ NL, [yellow; reset]);
   (NL ++ "  %sNotes:%s" ++ NL, [bold; reset]);
   ("    %sdarwin has no equivalent of Linux's proc connector. This build polls%s" ++ NL, [dim; reset]);
   ("    %sproc_listallpids and diffs snapshots — processes that exec+exit inside%s" ++ NL, [dim; reset]);
   ("    %sone interval are missed. Lower -i for finer-grained coverage at higher CPU.%s" ++ NL ++ NL, [dim; reset]);
   ("  %sExamples:%s" ++ NL, [bold; reset]);
   ("    %s# trace a command and all its children%s" ++ NL, [dim; reset]);
   ("    tracep exec %s-ct%s sh -c %s'make'%s" ++ NL ++ NL, [green; reset; magenta; reset]);
   ("    %s# 20ms polling, log to file%s" ++ NL, [dim; reset]);
   ("    tracep exec %s-i 20 -Qo%s /tmp/execs.log" ++ NL ++ NL, [green; reset]) ].

(** [usage] of net.c on macOS and on Linux. *)
Definition mac_net_usage (version : bytes) : prints :=
  [
   (NL ++ "  %s%s🌐 tracep net%s %s%s%s — network-connection tracer (darwin, polling)" ++ NL ++ NL, [bold; cyan; reset; dim; version; reset]);
   ("  %sUsage:%s" ++ NL, [bold; reset]);
   ("    tracep net %s[flags]%s %s[-p PID[,PID,...] | CMD...]%s" ++ NL ++ NL, [dim; reset; yellow; reset]);
   ("  %sFlags:%s" ++ NL, [bold; reset]);
   ("    🎨  %s-c%s          colorize output" ++ NL, [yellow; reset]);
   ("    ⏲️   %s-i%s %sMS%s        poll interval in ms %s(default 1000)%s" ++ NL, [yellow; reset; cyan; reset; dim; reset]);
   ("    📝  %s-o%s %sFILE%s      log output to FILE" ++ NL, [yellow; reset; cyan; reset]);
   ("    🎯  %s-p%s %sPID%s       watch only PID's own connections" ++ NL, [yellow; reset; cyan; reset]);
   ("    👤  %s-u%s          print owning user" ++ NL, [yellow; reset]);
   ("    🔇  %s-Q%s          suppress error messages" ++ NL, [yellow; reset]);
   ("    %s-t/-U/-r/-4/-6/-O recognized for Linux compatibility (no-op on darwin)%s" ++ NL, [dim; reset]);
   (NL ++ "  %sNotes:%s" ++ NL, [bold; reset]);
   ("    %sdarwin has no netlink conntrack. This build polls `lsof -nP -i` and%s" ++ NL, [dim; reset]);
   ("    %sdiffs snapshots, so short-lived connections may not be observed.%s" ++ NL ++ NL, [dim; reset]);
   ("  %sExamples:%s" ++ NL, [bold; reset]);
   ("    %s# trace one PID's connections%s" ++ NL, [dim; reset]);
   ("    tracep net %s-c -p%s 1234" ++ NL ++ NL, [green; reset]);
   ("    %s# trace a command's subtree%s" ++ NL, [dim; reset]);
   ("    tracep net %s-c%s curl %shttps://example.com%s" ++ NL ++ NL, [green; reset; magenta; reset]) ].

Definition net_usage (version : bytes) : prints :=
  [
   (NL ++ "  %s%s🌐 proc-trace-net%s %s%s%s — system-wide network connection tracer for Linux" ++ NL ++ NL, [bold; cyan; reset; dim; version; reset]);
   ("  %sRequires:%s root or CAP_NET_ADMIN, nf_conntrack kernel module" ++ NL ++ NL, [bold; reset]);
   ("  %sUsage:%s" ++ NL, [bold; reset]);
   ("    proc-trace-net %s[flags]%s %s[-p PID[,PID,...] | CMD...]%s" ++ NL ++ NL, [dim; reset; yellow; reset]);
   ("  %sFlags:%s" ++ NL, [bold; reset]);
   ("    🎨  %s-c%s          colorize output %s(auto when stdout is a tty)%s" ++ NL, [yellow; reset; dim; reset]);
   ("    ⏱️   %s-t%s          show connection close events with duration" ++ NL, [yellow; reset]);
   ("    🔄  %s-U%s          show TCP state update events %s(ESTABLISHED, FIN_WAIT, ...)%s" ++ NL, [yellow; reset; dim; reset]);
   ("    👤  %s-u%s          print owning user of each connection" ++ NL, [yellow; reset]);
   ("    🔍  %s-r%s          reverse DNS lookup for remote IPs %s(async, cached)%s" ++ NL, [yellow; reset; dim; reset]);
   ("    4️⃣   %s-4%s          IPv4 connections only" ++ NL, [yellow; reset]);
   ("    6️⃣   %s-6%s          IPv6 connections only" ++ NL, [yellow; reset]);
   ("    📤  %s-O%s          outbound connections only %s(hide inbound/unknown)%s" ++ NL, [yellow; reset; dim; reset]);
   ("    🔇  %s-Q%s          suppress error messages" ++ NL, [yellow; reset]);
   ("    📝  %s-o%s %sFILE%s      write output to FILE instead of stdout" ++ NL, [yellow; reset; cyan; reset]);
   ("    🎯  %s-p%s %sPID%s       trace PIDs and their descendants %s(comma-separate for multiple)%s" ++ NL, [yellow; reset; cyan; reset; dim; reset]);
   (NL ++ "  %sOutput columns:%s" ++ NL, [bold; reset]);
   ("    PID  COMM         PROTO  SRC_IP:PORT              %s→%s  DST_IP:PORT" ++ NL, [cyan; reset]);
   ("    %s→%s outbound  %s←%s inbound  %s↔%s unknown direction" ++ NL, [cyan; reset; cyan; reset; cyan; reset]);
   ("    %s⇒%s TCP state update (with -U)   %s×%s connection closed (with -t)" ++ NL ++ NL, [magenta; reset; yellow; reset]);
   ("  %sExamples:%s" ++ NL, [bold; reset]);
   ("    %s# trace all connections system-wide%s" ++ NL, [dim; reset]);
   ("    sudo proc-trace-net %s-ctu%s" ++ NL ++ NL, [green; reset]);
   ("    %s# trace connections made by a command%s" ++ NL, [dim; reset]);
   ("    sudo proc-trace-net %s-ctr%s curl https://example.com" ++ NL ++ NL, [green; reset]);
   ("    %s# watch all nginx worker connections%s" ++ NL, [dim; reset]);
   ("    sudo proc-trace-net %s-p%s $(pgrep nginx | paste -sd,)" ++ NL ++ NL, [green; reset]);
   ("    %s# log everything to a file%s" ++ NL, [dim; reset]);
   ("    sudo proc-trace-net %s-Qo%s /var/log/connections.log" ++ NL ++ NL, [green; reset]) ].

(** [usage] of tls.c. *)
Definition tls_usage (version : bytes) : prints :=
  [
   (NL ++ "  %s%s🔒 proc-trace-tls%s %s%s%s — plaintext TLS traffic interceptor for Linux" ++ NL ++ NL, [bold; cyan; reset; dim; version; reset]);
   ("  %sUsage:%s" ++ NL, [bold; reset]);
   ("    proc-trace-tls %s[flags]%s" ++ NL ++ NL, [dim; reset]);
   ("  %sFlags:%s" ++ NL, [bold; reset]);
   ("    🎨  %s-c%s          colorize output %s(auto when stdout is a tty)%s" ++ NL, [yellow; reset; dim; reset]);
   ("    🔗  %s-l%s %sLIB%s      path to libssl.so %s(auto-detected if omitted)%s" ++ NL, [yellow; reset; cyan; reset; dim; reset]);
   ("    📝  %s-o%s %sFILE%s     log output to FILE instead of stdout" ++ NL, [yellow; reset; cyan; reset]);
   ("    🎯  %s-p%s %sPID%s      trace only PID(s) %s(comma-separated)%s" ++ NL, [yellow; reset; cyan; reset; dim; reset]);
   ("    🤫  %s-q%s          suppress startup messages" ++ NL, [yellow; reset]);
   ("    🔇  %s-Q%s          suppress error messages" ++ NL, [yellow; reset]);
   ("    🚫  %s-R%s          skip reverse DNS %s(show raw IPs)%s" ++ NL, [yellow; reset; dim; reset]);
   ("    📊  %s-s%s          event summary only" ++ NL, [yellow; reset]);
   ("    🔍  %s-v%s          verbose probe registration" ++ NL, [yellow; reset]);
   (NL ++ "  %sExamples:%s" ++ NL, [bold; reset]);
   ("    sudo proc-trace-tls" ++ NL ++ NL, []);
   ("    sudo proc-trace-tls %s-p%s $(pgrep curl)" ++ NL ++ NL, [green; reset]);
   ("    sudo proc-trace-tls %s-R%s  %s# raw IPs, no DNS%s" ++ NL ++ NL, [green; reset; dim; reset]) ].

(** [usage] of dns.c, with colours or without. *)
Definition dns_usage (C : bool) (version : bytes) : prints :=
  let bold := paint C "1" in let cyan := paint C "36" in let yel := paint C "33" in
  let grn := paint C "32" in let dim := paint C "2" in let rst := paint C "0" in
  let E (x : bytes) := if C then x ++ " " else [] in
  let EX (c m : bytes) := ("  %s%s%-52s%s%s# %s%s" ++ NL, [bold; grn; c; rst; dim; m; rst]) in
  [
   (NL ++ "%s%sproc-trace-dns%s  %s(v%s)%s" ++ NL, [bold; cyan; rst; dim; version; rst]);
   ("%sWatch every DNS query your processes make, in real time.%s" ++ NL ++ NL, [dim; rst]);
   ("%s%sUSAGE%s" ++ NL, [bold; yel; rst]);
   ("  tracep dns [flags] [-- CMD [args...]]" ++ NL ++ NL, []);
   ("%s%s%sFLAGS%s" ++ NL, [E [chr 240; chr 159; chr 154; chr 169]; bold; yel; rst]);
   ("  %s%s-c%s              %sforce ANSI color output%s" ++ NL, [bold; cyan; rst; dim; rst]);
   ("  %s%s-t%s              %sshow timestamp for each query%s" ++ NL, [bold; cyan; rst; dim; rst]);
   ("  %s%s-q%s              %squiet — print only queried hostnames%s" ++ NL, [bold; cyan; rst; dim; rst]);
   ("  %s%s-Q%s              %ssuppress error messages%s" ++ NL, [bold; cyan; rst; dim; rst]);
   ("  %s%s-f%s              %sflat output — no column alignment%s" ++ NL, [bold; cyan; rst; dim; rst]);
   ("  %s%s-j%s              %sJSON output (one object per line)%s" ++ NL, [bold; cyan; rst; dim; rst]);
   ("  %s%s-n%s %sNAME,...%s      only show queries from these process names" ++ NL, [bold; cyan; rst; yel; rst]);
   ("  %s%s-p%s %sPID,...%s       only show queries from these PIDs" ++ NL, [bold; cyan; rst; yel; rst]);
   ("  %s%s-d%s %sDOMAIN%s        only show queries matching this domain substring" ++ NL, [bold; cyan; rst; yel; rst]);
   ("  %s%s-T%s %sTYPE,...%s      only show these DNS record types (e.g. A,AAAA,MX)" ++ NL, [bold; cyan; rst; yel; rst]);
   ("  %s%s-o%s %sFILE%s          append output to FILE instead of stdout" ++ NL ++ NL, [bold; cyan; rst; yel; rst]);
   ("%s%s%sEXAMPLES%s" ++ NL, [E [chr 240; chr 159; chr 146; chr 161]; bold; yel; rst]);
   EX "sudo tracep dns" "system-wide, all processes";
   EX "sudo tracep dns -n curl,wget" "filter by process name";
   EX "sudo tracep dns -p 1234,5678" "filter by PID";
   EX "sudo tracep dns -d amazonaws.com" "filter by domain substring";
   EX "sudo tracep dns -T A,AAAA" "only show A and AAAA records";
   EX "sudo tracep dns -j | jq ." "JSON output, pretty-printed";
   EX "sudo tracep dns -- curl https://example.com" "trace a single command";
   (NL ++ "%s%sRequires root or CAP_NET_RAW (Linux) / sudo (macOS).%s" ++ NL ++ NL, [E [chr 226; chr 154; chr 160]; dim; rst]) ].

(** * What the texts say of the command lines *)

(** A command line with one flag: it is accepted, it lacks the value of the
    flag, or there is no such flag. *)
Inductive answer := Accepts | NeedsValue | Rejects.
#[export] Instance answer_eq_dec : EqDecision answer.
Proof. solve_decision. Defined.

(** The letters that a text shows between two marks. *)
Fixpoint flags_in (before after s : bytes) : bytes :=
  match s with
  | [] => []
  | _ :: s' =>
      (if has_prefix before s
       then match drop (length before) s with
            | ch :: r => if has_prefix after r then [ch] else []
            | [] => []
            end
       else []) ++ flags_in before after s'
  end.

(** The answer of a scan that ends with the message [m], or without one. *)
Definition verdict (unknown : bytes) (m : option bytes) : answer :=
  match m with None => Accepts | Some m => if eqs m unknown then Rejects else NeedsValue end.

(** The scans of the tracers, with the options so far. *)
Inductive tracer :=
  | TExec (mac : bool) (o : xopts) | TNet (o : lopts) | TMacNet (o : mopts) | TTls (o : topts) | TDns (c : dcfg).

(** The text of a tracer, after its title. *)
Definition usage_of (version : bytes) (t : tracer) : list bytes :=
  tl (default [] (rendered
    match t with
    | TExec mac _ => if mac then mac_exec_usage version else exec_usage version
    | TNet _ => net_usage version
    | TMacNet _ => mac_net_usage version
    | TTls _ => tls_usage version
    | TDns _ => dns_usage true version
    end)).
Definition flag_marks (t : tracer) : list (bytes * bytes) :=
  match t with
  | TDns _ => [(bold ++ cyan ++ "-", reset)]
  | TMacNet _ => [(yellow ++ "-", reset); (dim ++ "-", bs "/"); (bs "/-", bs "/"); (bs "/-", bs " recognized")]
  | _ => [(yellow ++ "-", reset)]
  end.
(** The colour of a value, after a flag. *)
Definition value_mark (t : tracer) : bytes := " " ++ match t with TDns _ => yellow | _ => cyan end.
Definition text_flags (lines : list bytes) (marks : list (bytes * bytes)) : bytes :=
  concat ((fun m => flags_in m.1 m.2 (concat lines)) <$> marks).
Definition documented (version : bytes) (t : tracer) (ch : byte) : answer :=
  let text := usage_of version t in
  if existsb (eqc ch) (text_flags text ((fun m => (m.1, m.2 ++ value_mark t)) <$> flag_marks t)) then NeedsValue
  else if existsb (eqc ch) (text_flags text (flag_marks t)) then Accepts
  else Rejects.

(** What the scan of a tracer answers to [-ch] as the last argument. *)
Definition scanned (alive : Z -> bool) (t : tracer) (ch : byte) : answer :=
  let unknown := "unknown flag -" ++ [ch] in
  match t with
  | TExec mac o => verdict unknown (match cluster mac alive [ch] [] o with CDie m => Some m | _ => None end)
  | TNet o => verdict unknown (match l_cluster alive [ch] [] o with ClDie m => Some m | _ => None end)
  | TMacNet o => verdict unknown (match m_cluster alive [ch] [] o with ClDie m => Some m | _ => None end)
  | TTls o => verdict unknown (match (t_cluster [ch] [] o).1 with TDie m => Some m | _ => None end)
  | TDns c => verdict ("flag provided but not defined: -" ++ [ch])
                (match scan_flags ["-" ++ [ch]] c with Die m => Some m | _ => None end)
  end.

(** Every call of [fprintf] has an argument for each conversion. *)
Lemma usage_formats version C :
  Forall (fun p => is_Some (rendered p))
    [tracep_usage version; exec_usage version; mac_exec_usage version; net_usage version; mac_net_usage version;
     tls_usage version; dns_usage C version].
Proof. destruct C; repeat constructor; vm_compute; eauto. Qed.

(** The flags that a text shows, and those of them that have a value. *)
Definition flag_table (t : tracer) : bytes * bytes :=
  match t with
  | TExec false _ => (bs "cdeflopqQtu", bs "op")
  | TExec true _ => (bs "cdefilopqQtu", bs "iop")
  | TNet _ => (bs "ctUur46OQop", bs "op")
  | TMacNet _ => (bs "ciopuQtUr46O", bs "iop")
  | TTls _ => (bs "clopqQRsv", bs "lop")
  | TDns _ => (bs "ctqQfjnpdTo", bs "npdTo")
  end.

Lemma text_flags_table version t : let text := usage_of version t in
  (text_flags text (flag_marks t), text_flags text ((fun m => (m.1, m.2 ++ value_mark t)) <$> flag_marks t)) = flag_table t.
Proof. destruct t as [[] o|o|o|o|o]; vm_compute; reflexivity. Qed.

Lemma documented_table version t ch :
  documented version t ch =
  if existsb (eqc ch) (flag_table t).2 then NeedsValue else if existsb (eqc ch) (flag_table t).1 then Accepts else Rejects.
Proof. pose proof (text_flags_table version t) as H. unfold documented. cbn zeta in *. by rewrite <- H. Qed.

(** A letter among the constants that are tested, or none of them. *)
Ltac by_letter ch :=
  repeat match goal with
    | |- context [eqc ch ?x] =>
        let E := fresh in destruct (eqc ch x) eqn:E; [apply bool_decide_eq_true in E as ->; reflexivity|]
    end.

(** C24. The usage texts tell the command lines that the tracers accept: [-ch],
    as the last argument and after any other options, is accepted when the
    text of the tracer shows it without a value, lacks its value when the text
    shows it with one, and is reported as unknown when the text does not show
    it; only [-h] is left out of the texts, and [--] of [dns], which ends the
    options. *)
Theorem usage_documents_flags version alive t ch :
  scanned alive t ch =
  if eqc ch "h" || match t with TDns _ => eqc ch "-" | _ => false end then Accepts else documented version t ch.
Proof.
  rewrite documented_table.
  destruct t as [[] []|[? ? ? []]|[]|[]|[]]; cbn [flag_table fst snd existsb bs String.list_ascii_of_string];
  unfold scanned, scan_flags; cbn [cluster l_cluster m_cluster t_cluster switch l_switch set_switch app existsb bs String.list_ascii_of_string];
  unfold takes_value; cbn [existsb bs String.list_ascii_of_string].
  all: by_letter ch.
  all: cbn [andb orb negb fst]; unfold verdict; try by rewrite eqs_refl.
  rewrite (proj2 (eqs_false ["-"%char; ch] ["-"%char; "-"%char])); [change (eqc "-" "-") with true; cbn [negb]; by rewrite eqs_refl|].
  intros [= ->]. discriminate.
Qed.

(** ** The commands of tracep and the flags of ca *)

(** The words of a line up to a blank, and after it. *)
Definition first_word (l : bytes) : bytes * bytes :=
  match strchr l " " with Some i => (take i l, drop (S i) l) | None => (l, []) end.
(** The lines that begin with [mark], without it. *)
Definition listed (mark : bytes) (lines : list bytes) : list (bytes * bytes) :=
  omap (fun l => if has_prefix mark l then Some (first_word (drop (length mark) l)) else None) lines.

(** [usage] of tracep.c lists the commands of the dispatcher, in its order. *)
Lemma tracep_usage_lists version : (listed "  " (default [] (rendered (tracep_usage version)))).*1 = subcommands.*1.
Proof. vm_compute. reflexivity. Qed.

(** The flags of ca in its usage text: a word after the name is the type of a
    value. *)
Definition ca_documented (name : bytes) : answer :=
  match find (fun r => eqs name r.1) (listed "  -" (lines_of ca_usage)) with
  | None => Rejects
  | Some (_, []) => Accepts
  | Some _ => NeedsValue
  end.
Definition ca_scanned (o : caopts) (name : bytes) : answer :=
  match scan_ca ["-" ++ name] o [] with Unknown _ => Rejects | Missing _ => NeedsValue | _ => Accepts end.

Lemma match_flag_name name n b : "="%char ∉ name -> head name <> Some "-"%char ->
  match_flag ("-" ++ name) n b = if eqs name n then (if b then Switch None else NextWord) else NoMatch.
Proof.
  intros He Hh. cbn [match_flag app bs String.list_ascii_of_string]. change (eqc "-" "-") with true. cbn [negb].
  assert (E : match name with e :: b0 => if eqc e "-" then b0 else name | [] => [] end = name).
  { destruct name as [|c name]; [done|]. rewrite (proj2 (eqc_false c "-")); [done|]. intros ->. by apply Hh. }
  rewrite E. destruct (has_prefix n name) eqn:Hp.
  - apply has_prefix_true in Hp. destruct (drop (length n) name) as [|c v] eqn:Hd.
    + rewrite app_nil_r in Hp. subst n. by rewrite eqs_refl.
    + rewrite (proj2 (eqc_false c "=")).
      * rewrite (proj2 (eqs_false name n)); [done|]. intros ->. by rewrite drop_all in Hd.
      * intros ->. apply He. rewrite Hp. set_solver.
  - rewrite (proj2 (eqs_false name n)); [done|]. intros ->. pose proof (has_prefix_app n []) as H. rewrite app_nil_r in H. congruence.
Qed.

(** The flags of ca are those of its usage text, and take a value when it
    shows one. *)
Lemma ca_usage_documents o name : name <> [] -> "="%char ∉ name -> head name <> Some "-"%char ->
  ca_scanned o name = ca_documented name.
Proof.
  intros Hn He Hh. unfold ca_scanned, ca_documented.
  change (listed "  -" (lines_of ca_usage)) with
    [(bs "all", []); (bs "fetch-root", []); (bs "insecure", []); (bs "o", bs "string"); (bs "port", bs "int"); (bs "timeout", bs "int");
     (bs "version", [])].
  cbn [scan_ca ca_flags find_flag find fst]. rewrite !match_flag_name by done.
  repeat match goal with |- context [eqs name ?x] =>
    let E := fresh in destruct (eqs name x) eqn:E; [apply eqs_true in E as ->; reflexivity|] end.
  destruct name; [done|reflexivity].
Qed.
